(* ===== verification/_CoqProject ===== *)
-Q . S2P
Prelude.v
RustText.v
Contracts.v
UuidRef.v
Store.v
PgStore.v
PgStoreSpec.v
MemStore.v
ControllerCore.v
Capacity.v
ControllerGrpc.v
Management.v
ControllerSystem.v
Contention.v
Routing.v
Doubles.v
CacheTasks.v
IoFrames.v
Tunnels.v
ProxyGrpc.v
IoStream.v
Downlink.v
HttpServer.v
ProxyShutdown.v
AgentSandbox.v
AgentConnect.v
AgentIo.v
AgentExec.v
DockerRuntime.v
DockerDrain.v
DockerExec.v
DockerFiles.v
DockerLegacyLs.v
YoukiFiles.v
MockRuntime.v
YoukiImage.v
YoukiRuntime.v
YoukiExec.v
AgentTunnel.v
AgentInput.v
TunnelOpen.v
Wiring.v
HttpPath.v
Api.v
GatewayLifecycle.v
GatewayFiles.v
ProxyPool.v
GatewayWs.v
GatewayRouter.v
WsClient.v
Retry.v
Startup.v
Cli.v
ExecCli.v
ExecPath.v
InputPath.v
