(* ===== verification/Prelude.v ===== *)
(** * Open Sandbox: a verification library

    ** The program

    Open Sandbox runs containers ("sandboxes") on a fleet of hosts. Its processes are:
    - the controller (crates/controller): keeps agents, sandboxes and routes in Postgres, places
      a new sandbox on an agent with room, and sends commands over a gRPC stream per agent;
    - the proxy (crates/proxy): holds a tunnel per agent, routes HTTP requests by subdomain and
      relays IO sessions between the gateway and the agents, and drains on shutdown;
    - the agent (crates/agent) with its two container backends (crates/agent-docker and
      crates/agent-youki): carries out the controller's commands and serves HTTP requests and IO
      sessions that arrive through its tunnel;
    - the API gateway (crates/api): REST and WebSockets for users, on top of the other two;
    - the client crate (crates/ws-client) and the command line (crates/cli).
    A lifecycle request goes gateway - controller - agent, and its outcome comes back as a
    status report; file, exec and HTTP traffic goes gateway or browser - proxy - agent.

    ** Files

    Shared: [Prelude] (results, the state monad [ST] with its triples, lists, strings,
    tactics and hints), [RustText] (Rust's str functions), [Contracts] (crates/contracts:
    errors, constants, validated wire types), [UuidRef] (a reference for the uuid crate's
    interface), [IoFrames] (proto/proxy.proto).

    Controller: [Store] is the trait ControllerStore with its specification [StoreSpec] on an
    abstract store; [PgStore]/[PgStoreSpec] and [MemStore] are the implementations and their
    refinement proofs; [ControllerCore] is registry.rs, scheduler.rs, heartbeat.rs, auth.rs and
    error_status.rs; [Capacity] the accounting invariant; [ControllerGrpc] grpc.rs; [Management]
    management.rs; [ControllerSystem] the transition system of all handlers; [Contention] the
    scheduler with other controllers acting between its store calls; [Doubles] the stores and
    token checks of the controller's and the proxy's testutil.rs, with what the dead-agent sweep
    does after a database failure.

    Proxy: [Routing] (routing_cache.rs, router.rs, pg_store.rs and the notification loop of
    cli/src/run.rs), [Tunnels] (tunnel_pool.rs, stream_mux.rs, io_sessions.rs), [ProxyGrpc] and
    [IoStream] (grpc.rs, and the drain supervisor of cli/src/run.rs), [Downlink] (the way of an
    agent's frames through the bounded channel of a session), [HttpServer]; [CacheTasks] is the
    routing cache with the refresh, listener and request tasks of cli/src/run.rs that race on
    it, [ProxyShutdown] the accept loop of http_server.rs, its drain and the end of the process.

    Agent: [AgentSandbox] (sandbox.rs, controller_client.rs, reconnect.rs), [AgentIo] and
    [AgentExec] (io_stream.rs, exec_registry.rs), [AgentTunnel] (proxy_client.rs, tunnel.rs);
    [AgentInput] is what the caller sends towards a running process, with the frames not
    yet taken; [AgentConnect] is the agent's registration, in the turns between which the
    controller waits, and its heartbeats together with the controller, in time; [TunnelOpen] the
    opening of a tunnel.
    Their interface to a backend is the trait of container.rs as the classes
    [ContainerRuntime] and [ContainerFiles].
    Docker backend: [DockerRuntime] (lifecycle), [DockerExec] and [DockerDrain] (execs and the
    bounded channels behind them), [DockerFiles], [DockerLegacyLs]. Youki backend: [YoukiFiles] (setns_ops.rs),
    [YoukiImage] (image.rs, dns.rs), [YoukiRuntime] (lib.rs, spec.rs, cni.rs), [YoukiExec]
    (exec.rs). Both are instances of the agent's classes, and so are the doubles of
    agent/src/testutil.rs in [MockRuntime].

    Gateway: [Api] (frame.rs, authentication, path checks, error tables), [GatewayLifecycle]
    (the lifecycle handlers of handlers.rs on grpc_service.rs), [GatewayFiles] (the file
    handlers on proxy_client.rs), [ProxyPool] (the channels to proxy and controller), [GatewayWs]
    (ws_exec.rs, ws_read_file.rs), [GatewayRouter]
    (router.rs: routes, body limits, CORS). Clients: [WsClient] (crates/ws-client/src/lib.rs) and
    [ExecCli] (opensandbox-exec.rs). Whole paths: [HttpPath] (a request through the proxy, the
    tunnel and http_client.rs), [ExecPath] (a command's output from the agent to the caller) and [InputPath] (the
    caller's input and signals to the process).
    Command line: [Wiring] (main.rs, secret.rs, tls.rs and the agent's two connections),
    [Retry] (the retry loops), [Startup] (what run.rs checks before each process serves, and
    the agent's shutdown), [Cli] (run_subcommand.rs, ssh.rs and the value parsers of cli.rs).

    ** How the code is modelled

    A Rust function is a definition of the same name; [Result] is [result], an [async] method a
    function in [ST W] for the state [W] it works on. Integers are [Z] or [N] with the wrapping,
    saturation or truncation of the source written out; a [str] or a byte vector is a
    string of bytes; a HashMap is a [gmap]; a Vec a list.
    - Faults: the Postgres store reads the outcome of each statement and commit from a script in
      its state, so a theorem for all states covers every placement of failures. The Docker
      daemon, libcontainer, the CNI plugins, the registry, the kernel, prost, uuid and reqwest
      are class parameters; what is assumed of them are the laws of separate classes
      ([DockerSpec], [PosixContainer], [HostFiles], [ImageDisk], [UuidLaws], ...), each with an
      instance in an examples module.
    - Concurrency: where tasks share state, the state machine of the tasks is stepped by a list
      of events ([ControllerSystem], [IoStream], [AgentSandbox], [AgentExec], [AgentTunnel],
      [DockerDrain], [GatewayWs], [Cli], [CacheTasks], [ProxyShutdown], [AgentConnect]), and theorems hold for every list; a task is split where
      another can run between two of its accesses.
    - Channels: what was sent and whether the receiver is there; capacities matter and are
      modelled in [DockerDrain] and [Downlink].
    - Time: passes as an event where it matters ([AgentConnect], [Startup], [WsClient]); bounds
      on how long messages are under way are parameters of the theorem.

    ** What the theorems show

    - Controller: in every reachable state an agent's free and reserved amounts add up to its
      capacity, unless it last registered while sandboxes were reserved on it (which is shown to
      overcommit it) or beyond its columns; the scheduler takes the best fit; creation leaves
      everything or nothing behind unless the database fails at it; reports are believed only of
      the owning agent; and the scheduler stays safe among concurrent controllers. Both stores
      implement [StoreSpec], and so does the store that fails on demand. An agent whose messages
      arrive in time is never taken for dead, unless something gets into its channel ahead of
      the answer to its registration; a silent one is dead and without routes after the first
      sweep whose database answers.
    - Proxy: the cache follows the table's notifications, a request reaches the agent that has
      its sandbox and is answered exactly once, an agent speaks only for its own streams, the
      end of an old tunnel does not
      harm its successor, and a drain leaves no session without a final frame. The cache
      recovers with a refresh and stays current while its tasks do not race, and the HTTP
      listener's drain ends and cuts no connection early. An HTTP request reaches the sandbox's
      port with what is forwarded of it, and what the agent's client makes of the answer reaches
      the caller that still waits.
    - Agent and backends: the commands of a sandbox are linearizable under its lock; guarded
      writes; an exec session signals its own process only, with what the client sent until it
      exits, and its tasks come to rest when it is over or waits for others; one-shot sessions
      settle on the frames they have; both backends undo a creation that fails as far as
      removals work, replace files atomically, and agree on limits and exec streams; the image
      cache holds an image's own layers while removals do not stop half-way.
    - Gateway: bytes written through REST are the bytes in the container's file and the
      reverse, composed through proxy and agent, while the gateway keeps up with the proxy's
      channel (and pieces of them in order when it does not); the lifecycle endpoints composed with the
      controller, on every branch; the exec socket relays exactly; the two ways to read a file
      agree; WebSocket frames round-trip. Nothing happens without the key, on any route; the
      client crate opens exactly the session it asks for; what a command prints and its exit
      code reach the caller under the same condition, and what the caller types and interrupts reaches the process, in
      order and once; sessions are spread evenly over the pool's channels.
    - Command line: a run deletes what it created, waits a bounded time; the ssh command is read
      back by a shell as intended; the pipe under ssh loses nothing. A started proxy has its
      tokens and keeps its two kinds of callers apart; the gateway's start-up ends.

    ** Fuel

    Recursion that is not structural has fuel, and the theorems show it suffices or are about
    the value with that fuel: [chunks] and the loops of [RustText] get the length of their
    input, which each turn shortens; the port probe [probe_loop] timeout/interval + 2 turns, and
    [retry_until] budget/(first pause) + 3 turns, by the time each turn takes; the Docker creation its
    fixed number of attempts.

    ** Not modelled

    Generated protobuf code and prost's bytes (the codec is a parameter with its round trip);
    the protocols of TLS, ACME, HTTP, WebSockets and gRPC, telemetry, signal handlers and clap's
    argument parsing, which are calls to libraries; HTTP/2 keepalive. In the crates themselves
    what has no definition is constructors and field access, log lines and span attributes,
    the [spawn] and [Arc] wiring between tasks whose bodies are modelled, the bodies of unit and
    integration tests with their fixtures, and the spikes/ directory, which is no part of the
    running system. Process start and stop and the wiring in run.rs are modelled in what they
    check, in which order they do it and how they end; the sockets they bind are the
    operating system's. A reconnecting agent whose old stream is still open is modelled in
    [ControllerSystem], where the end of the old stream is shown to disconnect the new one. *)

From Stdlib Require Export Ascii String.
From stdpp Require Export prelude.
From stdpp Require Export base tactics list gmap strings pretty numbers sorting.

#[global] Set Default Goal Selector "!".

(** ** Rust results and the state monad

    Fallible Rust code returns [Result<T, E>]; stateful code is a function from
    a store to a value and the new store.  [let? x := c in k] is the [?]
    operator, [let! x := c in k] the sequencing of [.await]ed calls whose result
    is inspected by the code, [let!? x := c in k] is [.await?]. *)

Inductive result (A E : Type) : Type :=
| Ok (a : A)
| Err (e : E).
Arguments Ok {A E} a.
Arguments Err {A E} e.

Definition map_err {A E F} (f : E → F) (r : result A E) : result A F :=
  match r with Ok a => Ok a | Err e => Err (f e) end.

Definition ok_or {A E} (o : option A) (e : E) : result A E :=
  match o with Some a => Ok a | None => Err e end.

Definition result_ok {A E} (r : result A E) : option A :=
  match r with Ok a => Some a | Err _ => None end.

Definition bind_result {A B E} (r : result A E) (k : A → result B E) : result B E :=
  match r with Ok a => k a | Err e => Err e end.

(** [ST W A]: a call that runs against the store [W]. *)
Definition ST (W A : Type) : Type := W → A * W.

Definition st_ret {W A} (a : A) : ST W A := λ w, (a, w).

Definition st_bind {W A B} (c : ST W A) (k : A → ST W B) : ST W B :=
  λ w, let '(a, w') := c w in k a w'.

Definition st_bind_ok {W A B E} (c : ST W (result A E))
    (k : A → ST W (result B E)) : ST W (result B E) :=
  st_bind c (λ r, match r with Ok a => k a | Err e => st_ret (Err e) end).

(** Partial-correctness triples for calls against a store; the calls are total functions. *)
Definition triple {W A} (P : W → Prop) (m : ST W A) (Q : A → W → Prop) : Prop :=
  ∀ w, P w → Q (m w).1 (m w).2.

Lemma triple_ret {W A} (P : W → Prop) (a : A) (Q : A → W → Prop) :
  (∀ w, P w → Q a w) → triple P (st_ret a) Q.
Proof. done. Qed.

Lemma triple_bind {W A B} (P : W → Prop) (m : ST W A) (k : A → ST W B) Q R :
  triple P m Q → (∀ a, triple (Q a) (k a) R) → triple P (st_bind m k) R.
Proof.
  intros Hm Hk w HP. specialize (Hm w HP). unfold st_bind. destruct (m w) as [a w'].
  exact (Hk a w' Hm).
Qed.

Lemma triple_conseq {W A} (P P' : W → Prop) (m : ST W A) (Q Q' : A → W → Prop) :
  triple P m Q → (∀ w, P' w → P w) → (∀ a w, Q a w → Q' a w) → triple P' m Q'.
Proof. intros Hm HP HQ w Hw. apply HQ, Hm, HP, Hw. Qed.

Declare Scope os_scope.
Delimit Scope os_scope with os.
Notation "'let?' x := c 'in' k" := (bind_result c (λ x, k))
  (at level 10, x pattern, c at level 100, k at level 200) : os_scope.
Notation "'let!' x := c 'in' k" := (st_bind c (λ x, k))
  (at level 10, x pattern, c at level 100, k at level 200) : os_scope.
Notation "'let!?' x := c 'in' k" := (st_bind_ok c (λ x, k))
  (at level 10, x pattern, c at level 100, k at level 200) : os_scope.
Open Scope os_scope.

(** ** Machine integers

    Rust's [as] casts between integer types of known width, on [Z]. *)

Definition as_unsigned (w z : Z) : Z := (z `mod` 2 ^ w)%Z.
Definition as_signed (w z : Z) : Z :=
  let r := (z `mod` 2 ^ w)%Z in if decide (r < 2 ^ (w - 1))%Z then r else (r - 2 ^ w)%Z.

Definition as_u8 : Z → Z := as_unsigned 8.
Definition as_u16 : Z → Z := as_unsigned 16.
Definition as_u32 : Z → Z := as_unsigned 32.
Definition as_u64 : Z → Z := as_unsigned 64.
Definition as_i32 : Z → Z := as_signed 32.
Definition as_i64 : Z → Z := as_signed 64.

Definition u32_max : Z := 2 ^ 32 - 1.
Definition u64_max : Z := 2 ^ 64 - 1.

Definition in_u32 (z : Z) : Prop := (0 ≤ z < 2 ^ 32)%Z.
Definition in_u64 (z : Z) : Prop := (0 ≤ z < 2 ^ 64)%Z.
Definition in_i32 (z : Z) : Prop := (- 2 ^ 31 ≤ z < 2 ^ 31)%Z.
Definition in_i64 (z : Z) : Prop := (- 2 ^ 63 ≤ z < 2 ^ 63)%Z.
#[global] Instance in_u32_dec z : Decision (in_u32 z) := _.
#[global] Instance in_u64_dec z : Decision (in_u64 z) := _.
#[global] Instance in_i32_dec z : Decision (in_i32 z) := _.
#[global] Instance in_i64_dec z : Decision (in_i64 z) := _.

Section casts.
Open Scope Z_scope.
Implicit Types (w z a b : Z).

Lemma as_unsigned_id w z : 0 ≤ z < 2 ^ w → as_unsigned w z = z.
Proof. apply Z.mod_small. Qed.

Lemma as_unsigned_range w z : 0 ≤ w → 0 ≤ as_unsigned w z < 2 ^ w.
Proof. intros. apply Z.mod_pos_bound. lia. Qed.

Lemma as_signed_cong w z : 0 < w → as_unsigned w (as_signed w z) = as_unsigned w z.
Proof.
  intros Hw. unfold as_unsigned, as_signed. case_decide.
  - by rewrite Z.mod_mod by lia.
  - replace (z `mod` 2 ^ w - 2 ^ w) with (z `mod` 2 ^ w + (-1) * 2 ^ w) by lia.
    rewrite Z.mod_add by lia. by rewrite Z.mod_mod by lia.
Qed.

(** A cast to the signed type and back is the identity on unsigned values. *)
Lemma as_unsigned_signed w z : 0 < w → 0 ≤ z < 2 ^ w → as_unsigned w (as_signed w z) = z.
Proof. intros. rewrite as_signed_cong by done. by apply as_unsigned_id. Qed.

Lemma as_signed_small w z : 0 < w → 0 ≤ z < 2 ^ (w - 1) → as_signed w z = z.
Proof.
  intros Hw Hz. assert (2 ^ (w - 1) ≤ 2 ^ w) by (apply Z.pow_le_mono_r; lia).
  unfold as_signed. rewrite Z.mod_small by lia. by case_decide; lia.
Qed.

Lemma as_unsigned_sub w a b :
  0 < w → 0 ≤ b ≤ as_unsigned w a →
  as_unsigned w (a - as_signed w b) = as_unsigned w a - b.
Proof.
  intros Hw Hb. pose proof (as_unsigned_range w a ltac:(lia)) as Ha.
  unfold as_unsigned in *. rewrite Zminus_mod.
  fold (as_unsigned w (as_signed w b)).
  rewrite as_unsigned_signed by lia.
  by rewrite Z.mod_small by lia.
Qed.

Lemma as_unsigned_add w a b :
  0 < w → as_unsigned w a + as_unsigned w b < 2 ^ w →
  as_unsigned w (a + b) = as_unsigned w a + as_unsigned w b.
Proof.
  intros Hw Hlt. pose proof (as_unsigned_range w a ltac:(lia)).
  pose proof (as_unsigned_range w b ltac:(lia)). unfold as_unsigned in *.
  rewrite Zplus_mod. by rewrite Z.mod_small by lia.
Qed.

(** A signed value whose unsigned reading is small is that reading. *)
Lemma as_unsigned_small_inv w z :
  0 < w → - 2 ^ (w - 1) ≤ z < 2 ^ (w - 1) → as_unsigned w z < 2 ^ (w - 1) →
  as_unsigned w z = z.
Proof.
  intros Hw Hz Hlt.
  assert (2 ^ w = 2 * 2 ^ (w - 1)) as Hpow.
  { rewrite <- Z.pow_succ_r by lia. f_equal. lia. }
  unfold as_unsigned in *. destruct (decide (0 ≤ z)).
  - rewrite Z.mod_small; lia.
  - replace (z `mod` 2 ^ w) with (z + 2 ^ w) in *; [lia|].
    symmetry. rewrite <- (Z.mod_add z 1) by lia. rewrite Z.mul_1_l.
    apply Z.mod_small. lia.
Qed.
End casts.

(** ** Strings

    A Rust [&str] is modelled by its bytes; [len()] is the byte length. *)

Fixpoint strip_prefix (p s : string) : option string :=
  match p, s with
  | EmptyString, _ => Some s
  | String a p', String b s' => if decide (a = b) then strip_prefix p' s' else None
  | String _ _, EmptyString => None
  end.

Definition starts_with (s p : string) : bool := bool_decide (is_Some (strip_prefix p s)).

(** The text after the first occurrence of [needle]: [s.find(needle)? + needle.len()]. *)
Fixpoint find_after (needle s : string) : option string :=
  match strip_prefix needle s with
  | Some rest => Some rest
  | None => match s with EmptyString => None | String _ s' => find_after needle s' end
  end.

Definition contains (s needle : string) : bool := bool_decide (is_Some (find_after needle s)).

(** The text before the first occurrence of [c]: [&s[..s.find(c)?]]. *)
Fixpoint before_char (c : ascii) (s : string) : option string :=
  match s with
  | EmptyString => None
  | String a s' => if decide (a = c) then Some EmptyString else String a <$> before_char c s'
  end.

Fixpoint string_forallb (P : ascii → bool) (s : string) : bool :=
  match s with EmptyString => true | String a s' => P a && string_forallb P s' end.

Fixpoint string_map (f : ascii → ascii) (s : string) : string :=
  match s with EmptyString => EmptyString | String a s' => String (f a) (string_map f s') end.

(** [s[..n]]; the source slices only strings it knows to be long enough. *)
Fixpoint string_take (n : nat) (s : string) : string :=
  match n, s with
  | S n', String a s' => String a (string_take n' s')
  | _, _ => EmptyString
  end.

Definition ascii_lower (a : ascii) : ascii :=
  let n := Ascii.N_of_ascii a in
  if bool_decide (65 ≤ n ≤ 90)%N then Ascii.ascii_of_N (n + 32) else a.

Definition is_ascii_hexdigit (a : ascii) : bool :=
  let n := Ascii.N_of_ascii a in
  bool_decide (48 ≤ n ≤ 57)%N || bool_decide (65 ≤ n ≤ 70)%N || bool_decide (97 ≤ n ≤ 102)%N.

Definition is_lower_hexdigit (a : ascii) : bool :=
  let n := Ascii.N_of_ascii a in
  bool_decide (48 ≤ n ≤ 57)%N || bool_decide (97 ≤ n ≤ 102)%N.

Definition to_ascii_lowercase : string → string := string_map ascii_lower.

(** The characters of a UUID's text: lower-case hex digits and the hyphen. *)
Definition is_uuid_char (a : ascii) : bool :=
  is_lower_hexdigit a || bool_decide (a = "-"%char).

Section strings.
Implicit Types (p s t : string) (c : ascii).

Lemma strip_prefix_app p s : strip_prefix p (p +:+ s) = Some s.
Proof. induction p as [|a p IH]; [done|]. simpl. by rewrite decide_True. Qed.

Lemma strip_prefix_Some p s t : strip_prefix p s = Some t ↔ s = p +:+ t.
Proof.
  split; [|intros ->; apply strip_prefix_app].
  revert s. induction p as [|a p IH]; intros [|b s]; simpl; try naive_solver.
  case_decide; [|done]. intros ?%IH. by subst.
Qed.

Lemma strip_prefix_nil s : strip_prefix "" s = Some s.
Proof. by destruct s. Qed.

Lemma starts_with_app p s : starts_with (p +:+ s) p = true.
Proof. apply bool_decide_eq_true. rewrite strip_prefix_app. eauto. Qed.

Lemma starts_with_spec s p : starts_with s p = true ↔ ∃ t, s = p +:+ t.
Proof.
  unfold starts_with. rewrite bool_decide_eq_true. split.
  - intros [t ?%strip_prefix_Some]. eauto.
  - intros [t ->]. rewrite strip_prefix_app. eauto.
Qed.

Lemma find_after_app p s : find_after p (p +:+ s) = Some s.
Proof. destruct (p +:+ s) eqn:E; simpl; rewrite <- E, strip_prefix_app; done. Qed.

(** Skip one character that does not start an occurrence. *)
Lemma find_after_skip p a s :
  strip_prefix p (String a s) = None → find_after p (String a s) = find_after p s.
Proof. intros H. simpl. by rewrite H. Qed.

Lemma before_char_app c s t :
  string_forallb (λ a, negb (bool_decide (a = c))) s = true →
  before_char c (s +:+ String c t) = Some s.
Proof.
  induction s as [|a s IH]; simpl; [by rewrite decide_True|].
  rewrite andb_true_iff, negb_true_iff, bool_decide_eq_false.
  intros [? ?]. rewrite decide_False by done. by rewrite IH.
Qed.

Lemma string_forallb_impl (P Q : ascii → bool) s :
  (∀ a, P a = true → Q a = true) → string_forallb P s = true → string_forallb Q s = true.
Proof.
  intros HPQ. induction s as [|a s IH]; simpl; [done|].
  rewrite !andb_true_iff. intros [??]. auto.
Qed.

Lemma string_forallb_app (P : ascii → bool) s t :
  string_forallb P (s +:+ t) = string_forallb P s && string_forallb P t.
Proof. induction s as [|a s IH]; simpl; [done|]. by rewrite IH, andb_assoc. Qed.

Lemma string_forallb_take (P : ascii → bool) n s :
  string_forallb P s = true → string_forallb P (string_take n s) = true.
Proof.
  revert s. induction n as [|n IH]; intros [|a s]; simpl; try done.
  rewrite !andb_true_iff. intros [??]. auto.
Qed.

Lemma string_take_length n s : n ≤ String.length s → String.length (string_take n s) = n.
Proof.
  revert s. induction n as [|n IH]; intros [|a s]; simpl; try lia.
  intros. by rewrite IH by lia.
Qed.

Lemma string_take_prefix n s : ∃ t, s = string_take n s +:+ t.
Proof.
  revert s. induction n as [|n IH]; intros s; [by exists s|].
  destruct s as [|a s]; [by exists ""|]. destruct (IH s) as [t Ht].
  exists t. simpl. change (String a s = String a (string_take n s +:+ t)). by f_equal.
Qed.

Lemma string_map_length f s : String.length (string_map f s) = String.length s.
Proof. induction s; simpl; congruence. Qed.

Lemma string_app_cons a s t : String a s +:+ t = String a (s +:+ t).
Proof. done. Qed.

Lemma string_app_length s t :
  String.length (s +:+ t) = String.length s + String.length t.
Proof. induction s as [|a s IH]; [done|]. rewrite string_app_cons. simpl. by rewrite IH. Qed.

Lemma string_app_assoc s t p : (s +:+ t) +:+ p = s +:+ (t +:+ p).
Proof. induction s as [|a s IH]; [done|]. by rewrite !string_app_cons, IH. Qed.

Lemma string_app_nil s : ("" +:+ s) = s.
Proof. done. Qed.

Lemma string_app_nil_r s : s +:+ "" = s.
Proof. induction s as [|a s IH]; [done|]. by rewrite string_app_cons, IH. Qed.

Lemma before_char_skip c s t :
  string_forallb (λ b, negb (bool_decide (b = c))) s = true →
  before_char c (s +:+ t) = (λ x, s +:+ x) <$> before_char c t.
Proof.
  induction s as [|b s IH]; [intros _; rewrite string_app_nil; by destruct (before_char c t)|].
  rewrite string_app_cons. cbn [string_forallb before_char].
  rewrite andb_true_iff, negb_true_iff, bool_decide_eq_false. intros [Hb Hs].
  rewrite decide_False, IH by done. by destruct (before_char c t).
Qed.

Lemma string_app_inv_l p s t : p +:+ s = p +:+ t → s = t.
Proof. induction p; [done|]. rewrite !string_app_cons. intros. simplify_eq. auto. Qed.
End strings.

(** Facts about single characters are finite: check all 256. *)
Definition all_ascii (P : ascii → bool) : bool :=
  forallb (λ n, P (Ascii.ascii_of_nat n)) (seq 0 256).

Lemma all_ascii_spec (P : ascii → bool) : all_ascii P = true → ∀ a, P a = true.
Proof.
  unfold all_ascii. rewrite forallb_forall. intros H a.
  rewrite <- (Ascii.ascii_nat_embedding a). apply H, in_seq.
  pose proof (Ascii.nat_ascii_bounded a). lia.
Qed.

Lemma lower_hexdigit_hexdigit a : is_lower_hexdigit a = true → is_ascii_hexdigit a = true.
Proof.
  pose proof (all_ascii_spec (λ a, implb (is_lower_hexdigit a) (is_ascii_hexdigit a))
    ltac:(vm_compute; reflexivity) a) as H. cbn in H. by destruct (is_lower_hexdigit a).
Qed.

Lemma ascii_lower_lower_hexdigit a : is_lower_hexdigit a = true → ascii_lower a = a.
Proof.
  pose proof (all_ascii_spec
    (λ a, implb (is_lower_hexdigit a) (Ascii.eqb (ascii_lower a) a))
    ltac:(vm_compute; reflexivity) a) as H. cbn in H.
  destruct (is_lower_hexdigit a); [|done]. intros _. by apply Ascii.eqb_eq in H.
Qed.

Lemma ascii_lower_hexdigit a :
  is_ascii_hexdigit (ascii_lower a) = true → is_lower_hexdigit (ascii_lower a) = true.
Proof.
  pose proof (all_ascii_spec
    (λ a, implb (is_ascii_hexdigit (ascii_lower a)) (is_lower_hexdigit (ascii_lower a)))
    ltac:(vm_compute; reflexivity) a) as H. cbn in H. by destruct (is_ascii_hexdigit _).
Qed.

Lemma to_ascii_lowercase_id s :
  string_forallb is_lower_hexdigit s = true → to_ascii_lowercase s = s.
Proof.
  induction s as [|a s IH]; [done|]. cbn. rewrite andb_true_iff. intros [Ha Hs].
  rewrite ascii_lower_lower_hexdigit by done. f_equal. by apply IH.
Qed.

(** ** Development tactics *)

(** Case analysis on a Rust control-flow skeleton: destruct every [match] and [if]
    scrutinee, simplify equations between constructors, and finish. *)
Ltac rust_cases :=
  repeat (case_match; simplify_eq/=; try done).

Ltac destruct_pairs :=
  repeat match goal with
  | H : context [let '(_, _) := ?c in _] |- _ => destruct c eqn:?
  | |- context [let '(_, _) := ?c in _] => destruct c eqn:?
  end.

(** Decide an equation between closed terms by evaluating both sides. *)
Ltac evaluate :=
  match goal with |- ?a = ?b => vm_cast_no_check (eq_refl b) end.

Create HintDb os.
#[export] Hint Resolve lower_hexdigit_hexdigit : os.
