(* ===== verification/RustText.v ===== *)
(** * Text in the standard library

    What the sources use of Rust's [str]: lossy decoding of bytes, trimming, lines, splitting
    and the parsing of integers. A [str] is its UTF-8 bytes. *)

From S2P Require Import Prelude.

Definition byte_val (a : ascii) : N := Ascii.N_of_ascii a.
Definition in_byte_range (lo hi : N) (a : ascii) : bool :=
  bool_decide (lo ≤ byte_val a ∧ byte_val a ≤ hi)%N.
Definition is_ascii (a : ascii) : bool := bool_decide (byte_val a < 128)%N.
Definition chr (n : N) : ascii := Ascii.ascii_of_N n.

(** ** [String::from_utf8_lossy] *)

(** U+FFFD. *)
Definition replacement (s : string) : string :=
  String (chr 0xEF) (String (chr 0xBF) (String (chr 0xBD) s)).

(** The second byte a lead byte of three or four allows. *)
Definition second_ok (a b : ascii) : bool :=
  match byte_val a with
  | 0xE0 => in_byte_range 0xA0 0xBF b
  | 0xED => in_byte_range 0x80 0x9F b
  | 0xF0 => in_byte_range 0x90 0xBF b
  | 0xF4 => in_byte_range 0x80 0x8F b
  | _ => in_byte_range 0x80 0xBF b
  end%N.

(** Every maximal invalid part becomes one replacement character. *)
Fixpoint utf8_lossy (s : string) : string :=
  match s with
  | EmptyString => ""
  | String a s1 =>
      if is_ascii a then String a (utf8_lossy s1)
      else if in_byte_range 0xC2 0xDF a then
        match s1 with
        | String b s2 =>
            if in_byte_range 0x80 0xBF b then String a (String b (utf8_lossy s2))
            else replacement (utf8_lossy s1)
        | EmptyString => replacement ""
        end
      else if in_byte_range 0xE0 0xEF a then
        match s1 with
        | String b s2 =>
            if second_ok a b then
              match s2 with
              | String c s3 =>
                  if in_byte_range 0x80 0xBF c then String a (String b (String c (utf8_lossy s3)))
                  else replacement (utf8_lossy s2)
              | EmptyString => replacement ""
              end
            else replacement (utf8_lossy s1)
        | EmptyString => replacement ""
        end
      else if in_byte_range 0xF0 0xF4 a then
        match s1 with
        | String b s2 =>
            if second_ok a b then
              match s2 with
              | String c s3 =>
                  if in_byte_range 0x80 0xBF c then
                    match s3 with
                    | String d s4 =>
                        if in_byte_range 0x80 0xBF d
                        then String a (String b (String c (String d (utf8_lossy s4))))
                        else replacement (utf8_lossy s3)
                    | EmptyString => replacement ""
                    end
                  else replacement (utf8_lossy s2)
              | EmptyString => replacement ""
              end
            else replacement (utf8_lossy s1)
        | EmptyString => replacement ""
        end
      else replacement (utf8_lossy s1)
  end.

(** Bytes that are text already; [str::from_utf8] accepts exactly these. *)
Definition is_utf8 (s : string) : bool := bool_decide (utf8_lossy s = s).

Lemma ascii_is_text s : string_forallb is_ascii s = true → utf8_lossy s = s.
Proof.
  induction s as [|a s IH]; [done|]. cbn. rewrite andb_true_iff. intros [Ha Hs].
  rewrite Ha. by rewrite IH.
Qed.

Lemma utf8_lossy_ascii_app s t :
  string_forallb is_ascii s = true → utf8_lossy (s +:+ t) = s +:+ utf8_lossy t.
Proof.
  induction s as [|a s IH]; [done|]. rewrite !string_app_cons. cbn. rewrite andb_true_iff.
  intros [Ha Hs]. rewrite Ha. by rewrite IH.
Qed.

(** ** White space *)

(** The white space characters of Unicode, in UTF-8. *)
Definition white_space : list string :=
  ((λ n, String (chr n) "") <$> [9; 10; 11; 12; 13; 32]%N) ++
  ((λ n, String (chr 0xC2) (String (chr n) "")) <$> [0x85; 0xA0]%N) ++
  ((λ '(a, b, c), String (chr a) (String (chr b) (String (chr c) ""))) <$>
    [(0xE1, 0x9A, 0x80); (0xE2, 0x80, 0x80); (0xE2, 0x80, 0x81); (0xE2, 0x80, 0x82);
     (0xE2, 0x80, 0x83); (0xE2, 0x80, 0x84); (0xE2, 0x80, 0x85); (0xE2, 0x80, 0x86);
     (0xE2, 0x80, 0x87); (0xE2, 0x80, 0x88); (0xE2, 0x80, 0x89); (0xE2, 0x80, 0x8A);
     (0xE2, 0x80, 0xA8); (0xE2, 0x80, 0xA9); (0xE2, 0x80, 0xAF); (0xE2, 0x81, 0x9F);
     (0xE3, 0x80, 0x80)]%N).

Fixpoint string_rev_app (s t : string) : string :=
  match s with EmptyString => t | String a s' => string_rev_app s' (String a t) end.
Definition string_rev (s : string) : string := string_rev_app s "".

Fixpoint strip_any (ps : list string) (s : string) : option string :=
  match ps with
  | [] => None
  | p :: ps' => match strip_prefix p s with Some r => Some r | None => strip_any ps' s end
  end.
Fixpoint strip_all (fuel : nat) (ps : list string) (s : string) : string :=
  match fuel with
  | O => s
  | S fuel => match strip_any ps s with Some r => strip_all fuel ps r | None => s end
  end.

(** [str::trim]; a character is at least a byte, so the length is fuel enough. *)
Definition str_trim_start (s : string) : string := strip_all (String.length s) white_space s.
Definition str_trim_end (s : string) : string :=
  string_rev (strip_all (String.length s) (string_rev <$> white_space) (string_rev s)).
Definition str_trim (s : string) : string := str_trim_end (str_trim_start s).

(** [str::split_whitespace]: (the word read so far, reversed, the words before it). *)
Fixpoint words (fuel : nat) (word : string) (s : string) : list string :=
  let flush rest := match word with EmptyString => rest | _ => string_rev word :: rest end in
  match fuel with
  | O => flush []
  | S fuel =>
      match strip_any white_space s with
      | Some r => flush (words fuel "" r)
      | None => match s with
                | EmptyString => flush []
                | String a s' => words fuel (String a word) s'
                end
      end
  end.
Definition split_whitespace (s : string) : list string := words (S (String.length s)) "" s.

(** [str::trim_end_matches(c)]. *)
Definition trim_end_matches (c : ascii) (s : string) : string :=
  string_rev (strip_all (String.length s) [String c ""] (string_rev s)).

(** ** Lines and columns *)

(** [path.split(c)]. *)
Fixpoint str_split (c : ascii) (s : string) : list string :=
  match s with
  | EmptyString => [""]
  | String a s' =>
      if decide (a = c) then "" :: str_split c s' else
      match str_split c s' with
      | [] => [String a ""]
      | w :: ws => String a w :: ws
      end
  end.

(** [str::lines]: a final newline ends the last line, and a carriage return before a newline
    is not part of the line. *)
Definition chop_cr (line : string) : string :=
  match string_rev line with
  | String a r => if decide (a = "013"%char) then string_rev r else line
  | EmptyString => line
  end.
Fixpoint lines_of (parts : list string) : list string :=
  match parts with
  | [] => []
  | [last] => if decide (last = "") then [] else [last]
  | p :: rest => chop_cr p :: lines_of rest
  end.
Definition str_lines (s : string) : list string := lines_of (str_split "010" s).

(** [str::splitn(n, c)]. *)
Fixpoint splitn (n : nat) (c : ascii) (s : string) : list string :=
  match n with
  | O => []
  | S O => [s]
  | S n' =>
      match before_char c s with
      | Some w => w :: splitn n' c (default "" (strip_prefix (w +:+ String c "") s))
      | None => [s]
      end
  end.

(** [str::rfind] of a character: what is before its last occurrence. *)
Fixpoint before_last (c : ascii) (s : string) : option string :=
  match s with
  | EmptyString => None
  | String a s' =>
      match before_last c s' with
      | Some w => Some (String a w)
      | None => if decide (a = c) then Some "" else None
      end
  end.

(** The number of characters, and padding on the left to a width. *)
Fixpoint char_count (s : string) : nat :=
  match s with
  | EmptyString => 0
  | String a s' => if in_byte_range 0x80 0xBF a then char_count s' else S (char_count s')
  end.
Fixpoint fill (n : nat) (c : ascii) (s : string) : string :=
  match n with O => s | S n' => String c (fill n' c s) end.
Definition pad_left (width : nat) (c : ascii) (s : string) : string := fill (width - char_count s) c s.

(** [{:?}] of a text; a character outside ASCII is taken to be printable. *)
Definition hex_char (n : N) : ascii := chr (if decide (n < 10)%N then 48 + n else 87 + n)%N.
Definition escape_debug (a : ascii) (s : string) : string :=
  match byte_val a with
  | 0 => String "\" (String "0" s)
  | 9 => String "\" (String "t" s)
  | 10 => String "\" (String "n" s)
  | 13 => String "\" (String "r" s)
  | 34 | 92 => String "\" (String a s)
  | n => if decide (n < 16)%N then "\u{" +:+ String (hex_char n) (String "}" s)
         else if decide (n < 32 ∨ n = 127)%N
         then "\u{" +:+ String (hex_char (n / 16)) (String (hex_char (n `mod` 16)) (String "}" s))
         else String a s
  end%N.
Fixpoint escape_all (s : string) : string :=
  match s with EmptyString => "" | String a s' => escape_debug a (escape_all s') end.
Definition str_debug (s : string) : string := String "034" (escape_all s +:+ String "034" "").

(** ** Integers *)

Definition digit_val (a : ascii) : option Z :=
  if in_byte_range 48 57 a then Some (Z.of_N (byte_val a) - 48)%Z else None.
Fixpoint digits_val (acc : Z) (s : string) : option Z :=
  match s with
  | EmptyString => Some acc
  | String a s' => match digit_val a with
                   | Some d => digits_val (acc * 10 + d)%Z s'
                   | None => None
                   end
  end.
Definition nat_of_str (s : string) : option Z :=
  match s with EmptyString => None | _ => digits_val 0 s end.

(** [s.parse::<uN>()] and [s.parse::<i32>()]. *)
Definition parse_unsigned (max : Z) (s : string) : option Z :=
  n ← nat_of_str (match s with String "+" s' => s' | _ => s end);
  if decide (n ≤ max)%Z then Some n else None.
Definition parse_u64 : string → option Z := parse_unsigned u64_max.
Definition parse_i32 (s : string) : option Z :=
  n ← match s with
      | String "-" s' => Z.opp <$> nat_of_str s'
      | String "+" s' => nat_of_str s'
      | _ => nat_of_str s
      end;
  if decide (in_i32 n) then Some n else None.

Lemma digits_val_nonneg acc s n : (0 ≤ acc)%Z → digits_val acc s = Some n → (0 ≤ n)%Z.
Proof.
  revert acc. induction s as [|a s IH]; intros acc Ha; cbn; [by intros [= <-]|].
  destruct (digit_val a) as [d|] eqn:E; [|done]. apply IH. unfold digit_val, in_byte_range in E.
  destruct (bool_decide _) eqn:Er in E; [|done]. apply bool_decide_eq_true in Er. injection E as <-. lia.
Qed.

Lemma parse_u64_bounds s n : parse_u64 s = Some n → (0 ≤ n ≤ u64_max)%Z.
Proof.
  unfold parse_u64, parse_unsigned. set (t := match s with String "+" s' => s' | _ => s end).
  destruct (nat_of_str t) as [m|] eqn:E; cbn; [|done]. case_decide; [|done]. intros [= <-].
  split; [|done]. unfold nat_of_str in E. destruct t; [done|]. by eapply digits_val_nonneg in E.
Qed.

(** ** Printing and parsing integers *)

Definition is_digit (a : ascii) : bool := in_byte_range 48 57 a.

Lemma pretty_N_char_digit x : (x < 10)%N → digit_val (pretty_N_char x) = Some (Z.of_N x).
Proof.
  intros. assert (x ∈ [0; 1; 2; 3; 4; 5; 6; 7; 8; 9]%N) as Hx by (rewrite !elem_of_cons; lia).
  rewrite !elem_of_cons in Hx.
  repeat (destruct Hx as [->|Hx]; [reflexivity|]). by apply elem_of_nil in Hx.
Qed.

(** Reading the digits of [x] and then [s]. *)
Lemma digits_val_pretty_go x acc s :
  ∃ k, (0 ≤ k)%Z ∧ digits_val acc (pretty_N_go x s) = digits_val (acc * 10 ^ k + Z.of_N x) s.
Proof.
  revert acc s. induction (N.lt_wf_0 x) as [x _ IH]; intros acc s.
  assert (x = 0 ∨ 0 < x)%N as [->|Hx] by lia.
  { exists 0%Z. rewrite pretty_N_go_0. split; [done|]. f_equal. lia. }
  rewrite pretty_N_go_step by done.
  destruct (IH (x `div` 10)%N ltac:(by apply N.div_lt) acc
    (String (pretty_N_char (x `mod` 10)) s)) as (k & Hk & ->).
  exists (k + 1)%Z. split; [lia|]. cbn [digits_val].
  rewrite pretty_N_char_digit by (apply N.mod_lt; lia). f_equal.
  rewrite Z.pow_add_r by lia. pose proof (N.div_mod x 10 ltac:(lia)). lia.
Qed.

Lemma pretty_N_nonempty x : pretty (x : N) ≠ "".
Proof.
  unfold pretty, pretty_N. case_decide; [done|].
  enough (∀ s, pretty_N_go x s ≠ "" ∨ x = 0%N ∧ s = "") as He by naive_solver.
  induction (N.lt_wf_0 x) as [y _ IH]; intros s.
  assert (y = 0 ∨ 0 < y)%N as [->|Hy] by lia.
  { rewrite pretty_N_go_0. destruct s; [by right|by left]. }
  rewrite pretty_N_go_step by done. destruct (decide (y `div` 10 = 0)%N) as [E|E].
  - left. by rewrite E, pretty_N_go_0.
  - left. destruct (IH (y `div` 10)%N ltac:(by apply N.div_lt) ltac:(done)
      (String (pretty_N_char (y `mod` 10)) s)) as [?|[? _]]; done.
Qed.

Lemma nat_of_str_pretty (x : N) : nat_of_str (pretty x) = Some (Z.of_N x).
Proof.
  pose proof (pretty_N_nonempty x) as Hne. unfold nat_of_str.
  destruct (pretty x) as [|a s] eqn:E; [done|]. rewrite <- E.
  unfold pretty, pretty_N in *. case_decide; [by subst|].
  destruct (digits_val_pretty_go x 0 "") as (k & _ & ->). cbn. f_equal.
Qed.

Lemma digits_val_digits acc s n : digits_val acc s = Some n → string_forallb is_digit s = true.
Proof.
  revert acc. induction s as [|a s IH]; intros acc; cbn; [done|].
  unfold digit_val, is_digit. destruct (in_byte_range 48 57 a); [|done]. intros Hs. by eapply IH.
Qed.

Lemma pretty_N_digits (x : N) : string_forallb is_digit (pretty x) = true.
Proof.
  pose proof (nat_of_str_pretty x) as Hx. unfold nat_of_str in Hx.
  destruct (pretty x); [done|]. by eapply digits_val_digits.
Qed.

(** A nonnegative number in decimal. *)
Lemma pretty_Z_N n : (0 ≤ n)%Z → pretty n = pretty (Z.to_N n).
Proof. by destruct n. Qed.

Lemma pretty_Z_digits n : (0 ≤ n)%Z → string_forallb is_digit (pretty n) = true.
Proof. intros. rewrite pretty_Z_N by done. apply pretty_N_digits. Qed.

Lemma nat_of_str_pretty_Z n : (0 ≤ n)%Z → nat_of_str (pretty n) = Some n.
Proof. intros. rewrite pretty_Z_N, nat_of_str_pretty by done. f_equal. lia. Qed.

Lemma digit_not_sign a s :
  string_forallb is_digit (String a s) = true → a ≠ "+"%char ∧ a ≠ "-"%char.
Proof.
  cbn. rewrite andb_true_iff. unfold is_digit, in_byte_range. rewrite bool_decide_eq_true.
  intros [Ha _]. split; intros ->; vm_compute in Ha; destruct Ha as [Ha _]; by apply Ha.
Qed.

Lemma parse_unsigned_pretty max n : (0 ≤ n ≤ max)%Z → parse_unsigned max (pretty n) = Some n.
Proof.
  intros Hn. unfold parse_unsigned.
  pose proof (pretty_Z_digits n ltac:(lia)) as Hd. pose proof (nat_of_str_pretty_Z n ltac:(lia)) as Hp.
  destruct (pretty n) as [|a s]; [done|]. apply digit_not_sign in Hd as [Hplus _].
  assert (match String a s with String "+" s' => s' | _ => String a s end = String a s) as ->.
  { destruct a as [[] [] [] [] [] [] [] []]; try done. }
  rewrite Hp. cbn. by rewrite decide_True by lia.
Qed.

Lemma parse_i32_pretty n : in_i32 n → parse_i32 (pretty n) = Some n.
Proof.
  intros Hn. unfold parse_i32. destruct (decide (0 ≤ n)%Z) as [Hpos|Hneg].
  - pose proof (pretty_Z_digits n Hpos) as Hd. pose proof (nat_of_str_pretty_Z n Hpos) as Hp.
    destruct (pretty n) as [|a s]; [done|]. apply digit_not_sign in Hd as [Hplus Hminus].
    assert (match String a s with
            | String "-" s' => Z.opp <$> nat_of_str s'
            | String "+" s' => nat_of_str s'
            | _ => nat_of_str (String a s)
            end = Some n) as ->.
    { destruct a as [[] [] [] [] [] [] [] []]; done. }
    cbn. by rewrite decide_True.
  - destruct n as [|p|p]; [lia..|]. change (pretty (Z.neg p)) with (String "-" (pretty (N.pos p))).
    cbv beta iota. rewrite nat_of_str_pretty. cbn. by rewrite decide_True.
Qed.

(** ** Reversal *)

Lemma string_rev_app_spec s t : string_rev_app s t = string_rev s +:+ t.
Proof.
  unfold string_rev. revert t. induction s as [|a s IH]; intros t; [done|]. cbn.
  rewrite IH, (IH (String a "")), string_app_assoc. done.
Qed.

Lemma string_rev_cons a s : string_rev (String a s) = string_rev s +:+ String a "".
Proof. exact (string_rev_app_spec s (String a "")). Qed.

Lemma string_rev_app_distr s t : string_rev (s +:+ t) = string_rev t +:+ string_rev s.
Proof.
  induction s as [|a s IH]; [by rewrite string_app_nil_r|].
  by rewrite string_app_cons, !string_rev_cons, IH, string_app_assoc.
Qed.

Lemma string_rev_length s : String.length (string_rev s) = String.length s.
Proof.
  induction s as [|a s IH]; [done|]. rewrite string_rev_cons, string_app_length. cbn. lia.
Qed.

Lemma string_rev_involutive s : string_rev (string_rev s) = s.
Proof.
  induction s as [|a s IH]; [done|]. rewrite string_rev_cons, string_rev_app_distr, IH. done.
Qed.

(** ** Paths *)

Lemma str_split_cons c s : ∃ w ws, str_split c s = w :: ws.
Proof.
  destruct s as [|a s]; cbn; [eauto|]. case_decide; [eauto|]. destruct (str_split c s); eauto.
Qed.

(** The segments are the stretches between separators. *)
Lemma str_split_join c s :
  s = match str_split c s with
      | w :: ws => w +:+ foldr (λ x acc, String c (x +:+ acc)) "" ws
      | [] => ""
      end.
Proof.
  induction s as [|a s IH]; cbn; [done|].
  destruct (str_split_cons c s) as (w & ws & E). rewrite E in IH |- *. case_decide as Hc; [rewrite Hc|]; cbn.
  - exact (f_equal (String c) IH).
  - rewrite string_app_cons. exact (f_equal (String a) IH).
Qed.

(** The character does not occur. *)
Definition free_of (c : ascii) : string → bool := string_forallb (λ a, negb (bool_decide (a = c))).

Lemma str_split_line c l s : free_of c l = true → str_split c (l +:+ String c s) = l :: str_split c s.
Proof.
  induction l as [|a l IH].
  - rewrite string_app_nil. cbn [str_split]. by rewrite decide_True.
  - rewrite string_app_cons. cbn [str_split]. unfold free_of at 1. cbn [string_forallb].
    rewrite andb_true_iff, negb_true_iff, bool_decide_eq_false. intros [Ha Hl].
    rewrite decide_False by done. by rewrite (IH Hl).
Qed.

Lemma str_split_app c p s : str_split c (p +:+ String c s) = str_split c p ++ str_split c s.
Proof.
  induction p as [|a p IH].
  - rewrite string_app_nil. cbn [str_split]. by rewrite decide_True.
  - rewrite string_app_cons. cbn [str_split]. case_decide; [by rewrite IH|]. rewrite IH.
    destruct (str_split_cons c p) as (x & xs & ->). done.
Qed.

(** Every segment is free of the separator, and segments that are can be joined again. *)
Lemma str_split_free c s w :
  w ∈ str_split c s → free_of c w = true.
Proof.
  revert w. induction s as [|a s IH]; intros w; cbn [str_split].
  - by intros ->%list_elem_of_singleton.
  - case_decide as Ha.
    + intros [->|H]%elem_of_cons; [done|]. by apply IH.
    + destruct (str_split_cons c s) as (x & xs & E). rewrite E in *.
      intros [->|H]%elem_of_cons; [|apply IH; by apply elem_of_cons; right].
      unfold free_of. cbn [string_forallb]. rewrite bool_decide_false by done. apply IH, elem_of_cons. by left.
Qed.

(** [str::split_once(c)]. *)
Fixpoint split_once (c : ascii) (s : string) : option (string * string) :=
  match s with
  | EmptyString => None
  | String a s => if decide (a = c) then Some ("", s)
                  else (λ '(k, v), (String a k, v)) <$> split_once c s
  end.

Lemma split_once_app c k v :
  string_forallb (λ a, negb (bool_decide (a = c))) k = true → split_once c (k +:+ String c v) = Some (k, v).
Proof.
  induction k as [|a k IH]; cbn [split_once string_forallb].
  - intros _. rewrite string_app_nil. cbn. by destruct (decide (c = c)).
  - rewrite andb_true_iff, negb_true_iff, bool_decide_eq_false. intros [Ha Hk].
    rewrite string_app_cons. cbn [split_once]. destruct (decide (a = c)); [done|]. by rewrite IH.
Qed.

Definition join_with (c : ascii) (ws : list string) : string :=
  foldr (λ x acc, String c (x +:+ acc)) "" ws.

Lemma str_split_joined c ws :
  Forall (λ w, free_of c w = true) ws → str_split c (join_with c ws) = "" :: ws.
Proof.
  induction 1 as [|w ws Hw Hws IH]; [done|]. cbn [join_with foldr str_split]. rewrite decide_True by done.
  f_equal. fold (join_with c ws). destruct ws as [|w' ws].
  - cbn [join_with foldr]. rewrite string_app_nil_r. clear IH. induction w as [|a w IHw]; [done|].
    unfold free_of in Hw. cbn [string_forallb str_split] in *.
    apply andb_true_iff in Hw as [Ha Hw]. apply negb_true_iff, bool_decide_eq_false in Ha.
    rewrite decide_False by done. by rewrite (IHw Hw).
  - cbn [join_with foldr] in IH |- *. rewrite str_split_line by done. f_equal.
    cbn [str_split] in IH. rewrite decide_True in IH by done. by injection IH.
Qed.

(** Resolving a path segment by segment from a directory, as a file system does. *)
Definition enter (dir : list string) (segment : string) : list string :=
  if decide (segment = "" ∨ segment = ".") then dir
  else if decide (segment = "..") then removelast dir
  else dir ++ [segment].
Definition walk (dir : list string) (path : string) : list string :=
  foldl enter dir (str_split "/" path).

Lemma enter_below dir segment : segment ≠ ".." → dir `prefix_of` enter dir segment.
Proof. intros. unfold enter. repeat case_decide; try done. by apply prefix_app_r. Qed.

Lemma walk_below dir segments :
  ".." ∉ segments → dir `prefix_of` foldl enter dir segments.
Proof.
  revert dir. induction segments as [|x l IH]; intros dir Hn; cbn; [done|].
  apply not_elem_of_cons in Hn as [? ?]. trans (enter dir x); [by apply enter_below|]. by apply IH.
Qed.

(** [Path::parent]: the text before the last component. Trailing separators and current
    directories are no components; a character is dropped each time, so the length is fuel. *)
Fixpoint trim_tail (fuel : nat) (rev : string) : string :=
  match fuel, rev with
  | S fuel, String "." (String "/" rest) => trim_tail fuel (String "/" rest)
  | S fuel, String "/" (String a rest) => trim_tail fuel (String a rest)
  | _, _ => rev
  end.
Definition trim_path (s : string) : string := string_rev (trim_tail (String.length s) (string_rev s)).
Definition path_parent (s : string) : option string :=
  let s := trim_path s in
  if decide (s = "" ∨ s = "/") then None else
  Some (match before_last "/" s with
        | None => ""
        | Some dir => trim_path (dir +:+ "/")
        end).

Example parents :
  path_parent <$> ["/a/b"; "/a"; "/"; "a"; ""; "/a/b/"; "/a//b"; "/a/./b"; "/a/b/."; "../x"] =
  [Some "/a"; Some "/"; None; Some ""; None; Some "/a"; Some "/a"; Some "/a"; Some "/a"; Some ".."].
Proof. reflexivity. Qed.
