(* ===== verification/Contracts.v ===== *)
(** * The shared contracts crate (crates/contracts)

    Constants, identifiers, error enums, the wire enums of the protos and the
    validated wire types ([IoErrorCode], [Signum], [Port], subdomains). The [uuid]
    crate is not part of the repository: [UuidLib] is the part of it the sources
    call and [UuidLaws] what its documentation promises. *)

From S2P Require Import Prelude.

(** ** constants.rs: durations in milliseconds *)

Definition HEARTBEAT_INTERVAL : Z := 5000.
Definition DEAD_AGENT_THRESHOLD : Z := 3.
Definition DEAD_AGENT_TIMEOUT : Z := HEARTBEAT_INTERVAL * DEAD_AGENT_THRESHOLD.
Definition UPSTREAM_TIMEOUT : Z := 30000.
Definition ROUTING_CACHE_REFRESH_INTERVAL : Z := 60000.
Definition RECONNECT_BASE_DELAY : Z := 1000.
Definition RECONNECT_MAX_DELAY : Z := 30000.
Definition SANDBOX_STOP_TIMEOUT : Z := 10000.
Definition SANDBOX_CREATE_DEADLINE : Z := 60000.
Definition DEFAULT_SANDBOX_CPU_MILLICORES : Z := 1000.
Definition DEFAULT_SANDBOX_MEMORY_BYTES : Z := 512 * 1024 * 1024.
Definition DEFAULT_SANDBOX_EXPOSED_PORT : Z := 8080.
Definition METRICS_DEFAULT_PORT : Z := 9090.
Definition API_DEFAULT_PORT : Z := 8081.
Definition EXEC_KILL_GRACE : Z := 5000.
Definition SUBDOMAIN_LEN : nat := 12.
Definition ERROR_CODE_HEADER : string := "x-os-error-code".
Definition LIST_SANDBOXES_MAX : nat := 1000.
Definition WAIT_PORT_LISTENING_MAX_TIMEOUT_MS : Z := 300000.

Definition FRAME_KIND_START : Z := 0x00.
Definition FRAME_KIND_STDIN : Z := 0x01.
Definition FRAME_KIND_SIGNAL : Z := 0x02.
Definition FRAME_KIND_STDIN_EOF : Z := 0x03.
Definition FRAME_KIND_STDOUT : Z := 0x11.
Definition FRAME_KIND_STDERR : Z := 0x12.
Definition FRAME_KIND_EXITED : Z := 0x13.
Definition FRAME_KIND_ERROR : Z := 0x14.
Definition FRAME_KIND_STARTED : Z := 0x15.
Definition FRAME_KIND_LIST_DIR_RESULT : Z := 0x16.
Definition FRAME_KIND_WAIT_PORT_LISTENING_RESULT : Z := 0x17.
Definition FRAME_KIND_FILE_META : Z := 0x18.

(** ** types.rs: identifiers *)

Class UuidLib := {
  Uuid : Type;
  uuid_eq_dec :: EqDecision Uuid;
  uuid_countable :: Countable Uuid;
  (** [Uuid::parse_str], [Display] (hyphenated) and [simple()]. *)
  parse_str : string → option Uuid;
  hyphenated : Uuid → string;
  simple : Uuid → string;
}.

(** [replace(text, '-', '')]. *)
Fixpoint drop_hyphens (s : string) : string :=
  match s with
  | EmptyString => ""
  | String a s' => if decide (a = "-"%char) then drop_hyphens s' else String a (drop_hyphens s')
  end.

(** What the documentation of the [uuid] crate promises: [Display] is the 36
    character lower-case hyphenated form, [simple()] the 32 digits without the
    hyphens, and parsing the displayed form gives the value back. *)
Class UuidLaws (U : UuidLib) := {
  parse_hyphenated : ∀ u, parse_str (hyphenated u) = Some u;
  hyphenated_chars : ∀ u, string_forallb is_uuid_char (hyphenated u) = true;
  simple_hyphenated : ∀ u, drop_hyphens (hyphenated u) = simple u;
  simple_length : ∀ u, String.length (simple u) = 32;
  simple_chars : ∀ u, string_forallb is_lower_hexdigit (simple u) = true;
}.

(** [AgentId] and [SandboxId] are newtypes of [Uuid]; [to_string] is the
    hyphenated form of the inner value. *)
Abbreviation AgentId := Uuid (only parsing).
Abbreviation SandboxId := Uuid (only parsing).

(** [FromStr] and [TryFrom<&str>] of both; they share the error and its text. *)
Definition InvalidSandboxId : string := "invalid SandboxId (must be a UUID)".
Definition SandboxId_from_str `{UuidLib} (s : string) : result SandboxId string := ok_or (parse_str s) InvalidSandboxId.
Definition AgentId_from_str `{UuidLib} (s : string) : result AgentId string := ok_or (parse_str s) InvalidSandboxId.

(** [JoinToken] and [ApiKey]: what [Display] shows. *)
Record JoinToken := { jt_token : string }.
Record ApiKey := { ak_key : string }.
Definition JoinToken_to_string (t : JoinToken) : string := "JoinToken(***)".
Definition ApiKey_to_string (k : ApiKey) : string := "ApiKey(***)".

Definition subdomain `{UuidLib} (id : SandboxId) : string :=
  string_take SUBDOMAIN_LEN (simple id).

Record RoutingEntry `{UuidLib} := {
  re_sandbox_id : SandboxId;
  re_agent_id : AgentId;
}.
#[global] Instance RoutingEntry_eq_dec `{UuidLib} : EqDecision RoutingEntry.
Proof. solve_decision. Defined.

(** ** error.rs *)

Inductive ControllerError :=
| InvalidToken
| AgentNotFound (agent_id : string)
| SandboxNotFound (sandbox_id : string)
| NoAvailableAgents
| Database (detail : string)
| Internal (detail : string).

Definition ControllerError_to_string (e : ControllerError) : string :=
  match e with
  | InvalidToken => "invalid join token"
  | AgentNotFound a => "agent " +:+ a +:+ " not found"
  | SandboxNotFound s => "sandbox " +:+ s +:+ " not found"
  | NoAvailableAgents => "no agents available with sufficient resources"
  | Database d => "database error: " +:+ d
  | Internal d => "internal error: " +:+ d
  end.

Inductive ProxyError :=
| RoutingMiss (sandbox_id : string)
| TunnelUnavailable (agent_id : string)
| UpstreamTimeout (sandbox_id : string) (timeout_ms : Z)
| UpstreamRejected (stream_id reason : string)
| ProxyInternal (detail : string).

Definition ProxyError_to_string (e : ProxyError) : string :=
  match e with
  | RoutingMiss s => "sandbox " +:+ s +:+ " not found in routing table"
  | TunnelUnavailable a => "tunnel to agent " +:+ a +:+ " unavailable"
  | UpstreamTimeout s ms => "upstream timeout after " +:+ pretty ms +:+ "ms for sandbox " +:+ s
  | UpstreamRejected id reason =>
      "upstream rejected request for stream " +:+ id +:+ ": " +:+ reason
  | ProxyInternal d => "internal error: " +:+ d
  end.

Inductive ApiError :=
| Unauthorized (detail : string)
| ApiSandboxNotFound (sandbox_id : string)
| ControllerUnavailable (detail : string)
| ProxyUnavailable (detail : string)
| InvalidRequest (detail : string)
| InvalidUpload (detail : string)
| IoStreamFailed (detail : string)
| SandboxGone (sandbox_id : string)
| FileNotFound (resolved_path : string)
| InvalidState (detail : string)
| RevisionMismatch (actual_revision : string)
| NotImplemented (detail : string)
| DirectoryNotEmpty (detail : string)
| ApiInternal (detail : string).

Definition error_code (e : ApiError) : string :=
  match e with
  | Unauthorized _ => "UNAUTHORIZED"
  | ApiSandboxNotFound _ => "SANDBOX_NOT_FOUND"
  | ControllerUnavailable _ => "CONTROLLER_UNAVAILABLE"
  | ProxyUnavailable _ => "PROXY_UNAVAILABLE"
  | InvalidRequest _ => "INVALID_REQUEST"
  | InvalidUpload _ => "INVALID_UPLOAD"
  | IoStreamFailed _ => "IO_STREAM_FAILED"
  | SandboxGone _ => "SANDBOX_GONE"
  | FileNotFound _ => "FILE_NOT_FOUND"
  | InvalidState _ => "INVALID_STATE"
  | RevisionMismatch _ => "REVISION_MISMATCH"
  | NotImplemented _ => "NOT_IMPLEMENTED"
  | DirectoryNotEmpty _ => "DIRECTORY_NOT_EMPTY"
  | ApiInternal _ => "INTERNAL_ERROR"
  end.

Inductive AgentError :=
| ControllerDisconnected
| TunnelDisconnected
| Runtime (detail : string)
| AgentSandboxNotFound (sandbox_id : string)
| AgentInternal (detail : string).

Definition AgentError_to_string (e : AgentError) : string :=
  match e with
  | ControllerDisconnected => "controller connection lost"
  | TunnelDisconnected => "proxy tunnel lost"
  | Runtime d => "container runtime error: " +:+ d
  | AgentSandboxNotFound s => "sandbox " +:+ s +:+ " not found locally"
  | AgentInternal d => "internal error: " +:+ d
  end.

(** ** PullPolicy: the domain enum and the wire enum of api.proto *)

Inductive PullPolicy := IfNotPresent | Always | Never.
Inductive WirePullPolicy := WUnspecified | WIfNotPresent | WAlways | WNever.
#[global] Instance PullPolicy_eq_dec : EqDecision PullPolicy.
Proof. solve_decision. Defined.

Definition wire_pull_policy_as_i32 (v : WirePullPolicy) : Z :=
  match v with WUnspecified => 0 | WIfNotPresent => 1 | WAlways => 2 | WNever => 3 end.

(** prost's [TryFrom<i32>] for the wire enum. *)
Definition wire_pull_policy_try_from (v : Z) : option WirePullPolicy :=
  match v with
  | 0 => Some WUnspecified | 1 => Some WIfNotPresent
  | 2 => Some WAlways | 3 => Some WNever | _ => None
  end%Z.

Definition from_wire (v : WirePullPolicy) : PullPolicy :=
  match v with
  | WUnspecified | WIfNotPresent => IfNotPresent
  | WAlways => Always
  | WNever => Never
  end.

Definition to_wire (p : PullPolicy) : WirePullPolicy :=
  match p with IfNotPresent => WIfNotPresent | Always => WAlways | Never => WNever end.

Record UnknownPullPolicy := { upp_value : Z }.

Definition from_wire_i32_strict (v : Z) : result PullPolicy UnknownPullPolicy :=
  match wire_pull_policy_try_from v with
  | Some w => Ok (from_wire w)
  | None => Err {| upp_value := v |}
  end.

(** [impl From<i32> for PullPolicy]: the lossy decoding. *)
Definition pull_policy_from_i32 (v : Z) : PullPolicy :=
  match from_wire_i32_strict v with Ok p => p | Err _ => IfNotPresent end.

Definition UnknownPullPolicy_to_string (e : UnknownPullPolicy) : string :=
  "unknown PullPolicy wire value " +:+ pretty (upp_value e) +:+
  " (expected 0..=3); refusing to silently downgrade because a future variant could carry stricter semantics than IfNotPresent".

(** ** wire.rs *)

Module IoErrorCode.
Inductive t :=
| RuntimeError | SandboxGone | ExecFailed | ReadFailed | WriteFailed | FileNotFound
| InvalidRequest | ExtractFailed | PayloadTooLarge | Cancelled | StreamIdReused
| RevisionMismatch | NotImplemented | DirectoryNotEmpty | DeleteFailed
| Other (s : string).

Definition as_str (c : t) : string :=
  match c with
  | RuntimeError => "RUNTIME_ERROR"
  | SandboxGone => "SANDBOX_GONE"
  | ExecFailed => "EXEC_FAILED"
  | ReadFailed => "READ_FAILED"
  | WriteFailed => "WRITE_FAILED"
  | FileNotFound => "FILE_NOT_FOUND"
  | InvalidRequest => "INVALID_REQUEST"
  | ExtractFailed => "EXTRACT_FAILED"
  | PayloadTooLarge => "PAYLOAD_TOO_LARGE"
  | Cancelled => "CANCELLED"
  | StreamIdReused => "STREAM_ID_REUSED"
  | RevisionMismatch => "REVISION_MISMATCH"
  | NotImplemented => "NOT_IMPLEMENTED"
  | DirectoryNotEmpty => "DIRECTORY_NOT_EMPTY"
  | DeleteFailed => "DELETE_FAILED"
  | Other s => s
  end.

Definition known : list (string * t) :=
  [("RUNTIME_ERROR", RuntimeError); ("SANDBOX_GONE", SandboxGone);
   ("SANDBOX_NOT_FOUND", SandboxGone); ("EXEC_FAILED", ExecFailed);
   ("READ_FAILED", ReadFailed); ("WRITE_FAILED", WriteFailed);
   ("FILE_NOT_FOUND", FileNotFound); ("INVALID_REQUEST", InvalidRequest);
   ("EXTRACT_FAILED", ExtractFailed); ("PAYLOAD_TOO_LARGE", PayloadTooLarge);
   ("CANCELLED", Cancelled); ("STREAM_ID_REUSED", StreamIdReused);
   ("REVISION_MISMATCH", RevisionMismatch); ("NOT_IMPLEMENTED", NotImplemented);
   ("DIRECTORY_NOT_EMPTY", DirectoryNotEmpty); ("DELETE_FAILED", DeleteFailed)].

(** [impl From<&str>]: the arms in order, then the catch-all. *)
Fixpoint match_arms (arms : list (string * t)) (s : string) : t :=
  match arms with
  | [] => Other s
  | (k, c) :: arms' => if decide (s = k) then c else match_arms arms' s
  end.
Definition from (s : string) : t := match_arms known s.
End IoErrorCode.

Module Signum.
(** [struct Signum(u8)] with the conversions. *)
Record t := Mk { raw : Z }.
Definition as_u8 (s : t) : Z := raw s.
Definition as_i32 (s : t) : Z := raw s.
Definition try_from (value : Z) : result t Z :=
  if bool_decide (1 ≤ value ≤ 31)%Z || bool_decide (34 ≤ value ≤ 64)%Z
  then Ok (Mk (Prelude.as_u8 value)) else Err value.
Definition invalid_to_string (value : Z) : string :=
  "signum " +:+ pretty value +:+ " out of range (expected 1..=31 or 34..=64)".
End Signum.

Module Port.
Record t := Mk { raw : Z }.
Definition as_u16 (p : t) : Z := raw p.
Definition as_u32 (p : t) : Z := raw p.
Definition try_from (value : Z) : result t Z :=
  if bool_decide (value ≤ 65535)%Z then Ok (Mk (Prelude.as_u16 value)) else Err value.
Definition out_of_range_to_string (value : Z) : string :=
  "port " +:+ pretty value +:+ " out of range (must be 0..=65535)".
End Port.

Definition subdomain_is_valid (s : string) : bool :=
  bool_decide (String.length s = SUBDOMAIN_LEN) && string_forallb is_ascii_hexdigit s.

(** A [Duration] as whole seconds and the sub-second nanoseconds. *)
Definition try_duration_as_secs_u32 (secs nanos : Z) : result Z string :=
  if bool_decide (nanos ≠ 0)%Z then Err "Duration has sub-second component; would truncate"
  else if bool_decide (in_u32 secs) then Ok secs
  else Err "Duration overflows u32 seconds".

(** ** controller.proto: [SandboxState] and prost's enum getter *)

Inductive SandboxState :=
| Unspecified | Creating | Running | Stopping | Stopped | Failed | Pausing | Paused | Unpausing.
#[global] Instance SandboxState_eq_dec : EqDecision SandboxState.
Proof. solve_decision. Defined.

Definition SandboxState_as_i32 (s : SandboxState) : Z :=
  match s with
  | Unspecified => 0 | Creating => 1 | Running => 2 | Stopping => 3 | Stopped => 4
  | Failed => 5 | Pausing => 6 | Paused => 7 | Unpausing => 8
  end.

(** The generated getter [status.state()]: an unknown number reads as the default. *)
Definition SandboxState_from_i32 (v : Z) : SandboxState :=
  match v with
  | 1 => Creating | 2 => Running | 3 => Stopping | 4 => Stopped | 5 => Failed
  | 6 => Pausing | 7 => Paused | 8 => Unpausing | _ => Unspecified
  end%Z.

(** ** Properties *)

Lemma SandboxState_i32_roundtrip s : SandboxState_from_i32 (SandboxState_as_i32 s) = s.
Proof. by destruct s. Qed.

Lemma wire_pull_policy_try_from_Some v w :
  wire_pull_policy_try_from v = Some w ↔ v = wire_pull_policy_as_i32 w.
Proof.
  split; [|intros ->; by destruct w].
  unfold wire_pull_policy_try_from. repeat case_match; by intros; simplify_eq.
Qed.

Lemma pull_policy_wire_roundtrip p :
  from_wire_i32_strict (wire_pull_policy_as_i32 (to_wire p)) = Ok p.
Proof. by destruct p. Qed.

(** Decoding a pull policy at the controller's boundary is fail-closed and loses
    nothing: every policy survives the trip to the wire and back through both the
    strict and the lossy decoder, a number outside 0..=3 is refused with that number
    in the error, and an accepted number is the policy's own or the unset zero read
    as the default. *)
Theorem pull_policy_fail_closed :
  (∀ p, from_wire_i32_strict (wire_pull_policy_as_i32 (to_wire p)) = Ok p ∧
        pull_policy_from_i32 (wire_pull_policy_as_i32 (to_wire p)) = p) ∧
  (∀ v, match from_wire_i32_strict v with
        | Ok p => v = wire_pull_policy_as_i32 (to_wire p) ∨ (v = 0%Z ∧ p = IfNotPresent)
        | Err e => upp_value e = v ∧ ¬ (0 ≤ v ≤ 3)%Z
        end).
Proof.
  split; [by intros []|]. intros v. unfold from_wire_i32_strict.
  destruct (wire_pull_policy_try_from v) as [w|] eqn:E.
  - apply wire_pull_policy_try_from_Some in E as ->. destruct w; naive_solver.
  - split; [done|]. intros ?. assert (v = 0 ∨ v = 1 ∨ v = 2 ∨ v = 3)%Z as Hv by lia.
    by destruct Hv as [->|[->|[->| ->]]].
Qed.

Module IoErrorCodeFacts.
Import IoErrorCode.

Lemma match_arms_spec arms s :
  (∃ c, (s, c) ∈ arms ∧ match_arms arms s = c) ∨
  ((s ∉ arms.*1) ∧ match_arms arms s = Other s).
Proof.
  induction arms as [|[k c] arms IH]; simpl; [right; set_solver|].
  case_decide as Hk; subst; [left; set_solver|].
  destruct IH as [(c' & ? & ?)|[??]]; [left; set_solver|right; set_solver].
Qed.

Lemma known_canonical s c : (s, c) ∈ known → from (as_str c) = c.
Proof.
  intros Hin. assert (Forall (λ x, from (as_str x.2) = x.2) known) as Hall.
  { unfold known. repeat constructor. }
  by apply (proj1 (Forall_forall _ _) Hall (s, c)).
Qed.

Lemma from_known s c : (s, c) ∈ known → s = as_str c ∨ s = "SANDBOX_NOT_FOUND".
Proof.
  intros Hin.
  assert (Forall (λ x, x.1 = as_str x.2 ∨ x.1 = "SANDBOX_NOT_FOUND"%string) known) as Hall.
  { unfold known. repeat apply List.Forall_cons; try (left; reflexivity); try (right; reflexivity). }
  by apply (proj1 (Forall_forall _ _) Hall (s, c)).
Qed.

(** Error codes normalise: reading a code and printing it is idempotent, every
    known variant is read back from its own text, and printing what was read gives
    the same text except for the alias SANDBOX_NOT_FOUND, which becomes
    SANDBOX_GONE. *)
Theorem io_error_code_normalises :
  (∀ s, from (as_str (from s)) = from s) ∧
  (∀ c, (∀ s, c ≠ Other s) → from (as_str c) = c) ∧
  (∀ s, as_str (from s) = s ∨
        (s = "SANDBOX_NOT_FOUND"%string ∧ from s = SandboxGone)).
Proof.
  repeat split.
  - intros s. unfold from at 2 3. destruct (match_arms_spec known s) as [(c & Hin & ->)|[Hni ->]].
    + by eapply known_canonical.
    + simpl. unfold from. destruct (match_arms_spec known s) as [(c & Hin & ?)|[? ->]]; [|done].
      destruct Hni. by apply (list_elem_of_fmap_2 fst known (s, c)).
  - intros [] Hc; try reflexivity. by destruct (Hc s).
  - intros s. unfold from. destruct (match_arms_spec known s) as [(c & Hin & Hm)|[Hni ->]]; [|by left].
    destruct (from_known _ _ Hin) as [->| ->]; [left; congruence|right; done].
Qed.
End IoErrorCodeFacts.

Lemma signum_try_from_spec v :
  match Signum.try_from v with
  | Ok s => Signum.as_i32 s = v ∧ (1 ≤ v ≤ 31 ∨ 34 ≤ v ≤ 64)%Z
  | Err e => e = v ∧ ¬ (1 ≤ v ≤ 31 ∨ 34 ≤ v ≤ 64)%Z
  end.
Proof.
  unfold Signum.try_from. destruct (_ || _) eqn:E.
  - apply orb_true_iff in E. rewrite !bool_decide_eq_true in E. split; [|done].
    unfold Signum.as_i32. simpl. apply as_unsigned_id. lia.
  - apply orb_false_iff in E. rewrite !bool_decide_eq_false in E. split; [done|]. tauto.
Qed.

Lemma port_try_from_spec v :
  in_u32 v →
  match Port.try_from v with
  | Ok p => Port.as_u32 p = v ∧ Port.as_u16 p = v
  | Err e => e = v ∧ ¬ (v ≤ 65535)%Z
  end.
Proof.
  intros Hv. unfold Port.try_from. case_bool_decide as Hle; [|done].
  unfold Port.as_u32, Port.as_u16. simpl. unfold in_u32 in Hv. split; apply as_unsigned_id; lia.
Qed.

Lemma id_roundtrip `{UuidLaws} u : SandboxId_from_str (hyphenated u) = Ok u ∧ AgentId_from_str (hyphenated u) = Ok u.
Proof. unfold SandboxId_from_str, AgentId_from_str. by rewrite parse_hyphenated. Qed.

Lemma subdomain_length `{UuidLaws} id : String.length (subdomain id) = SUBDOMAIN_LEN.
Proof. apply string_take_length. rewrite simple_length. vm_compute. lia. Qed.

Lemma subdomain_chars `{UuidLaws} id : string_forallb is_lower_hexdigit (subdomain id) = true.
Proof. apply string_forallb_take, simple_chars. Qed.

Lemma subdomain_valid `{UuidLaws} id : subdomain_is_valid (subdomain id) = true.
Proof.
  unfold subdomain_is_valid. rewrite subdomain_length, bool_decide_true by done. simpl.
  eapply string_forallb_impl; [|apply subdomain_chars]. auto with os.
Qed.
