(* ===== verification/UuidRef.v ===== *)
(** * A reference UUID implementation

    A concrete function for each operation of [UuidLib], satisfying [UuidLaws]: a
    UUID is a number below 2^128 printed as 32 lower-case hex digits. It shows that
    the laws can hold and evaluates the examples and witnesses of the development. *)

From S2P Require Import Prelude Contracts.

Definition hex_digit (n : N) : ascii :=
  if bool_decide (n < 10)%N then ascii_of_N (48 + n) else ascii_of_N (87 + n).

Definition hex_value (a : ascii) : option N :=
  let n := N_of_ascii a in
  if bool_decide (48 ≤ n ≤ 57)%N then Some (n - 48)%N
  else if bool_decide (97 ≤ n ≤ 102)%N then Some (n - 87)%N else None.

(** [k] digits of [n], most significant first. *)
Fixpoint hex_print (k : nat) (n : N) : string :=
  match k with
  | O => ""
  | S k' => String (hex_digit ((n / 16 ^ N.of_nat k') `mod` 16)%N) (hex_print k' n)
  end.

Fixpoint hex_read (acc : N) (s : string) : option N :=
  match s with
  | EmptyString => Some acc
  | String a s' => d ← hex_value a; hex_read (16 * acc + d)%N s'
  end.

Fixpoint string_drop (n : nat) (s : string) : string :=
  match n, s with
  | S n', String _ s' => string_drop n' s'
  | _, _ => s
  end.

(** Groups of the given sizes, joined by hyphens, the rest at the end. *)
Fixpoint hyphenate (groups : list nat) (s : string) : string :=
  match groups with
  | [] => s
  | g :: gs => string_take g s +:+ String "-" (hyphenate gs (string_drop g s))
  end.

Definition ref_uuid : Type := {n : N | bool_decide (n < 2 ^ 128)%N}.

Definition ref_parse (s : string) : option ref_uuid :=
  if bool_decide (String.length s = 36) then
    n ← hex_read 0 (drop_hyphens s);
    match decide (bool_decide (n < 2 ^ 128)%N) with
    | left H => Some (n ↾ H)
    | right _ => None
    end
  else None.

Definition ref_simple (u : ref_uuid) : string := hex_print 32 (`u).
Definition ref_hyphenated (u : ref_uuid) : string := hyphenate [8; 4; 4; 4] (ref_simple u).

#[export] Instance RefUuid : UuidLib := {
  Uuid := ref_uuid;
  parse_str := ref_parse;
  hyphenated := ref_hyphenated;
  simple := ref_simple;
}.

(** The UUID with number [n]. *)
Definition uuid_of_N (n : N) : ref_uuid :=
  match decide (bool_decide (n < 2 ^ 128)%N) with
  | left H => n ↾ H
  | right _ => 0%N ↾ I
  end.

Section proofs.
Lemma hex_digit_value d : (d < 16)%N → hex_value (hex_digit d) = Some d.
Proof.
  intros Hd. unfold hex_value, hex_digit. destruct (decide (d < 10)%N).
  - rewrite (bool_decide_true (d < 10)%N), N_ascii_embedding by lia. rewrite bool_decide_true by lia. f_equal. lia.
  - rewrite (bool_decide_false (d < 10)%N), N_ascii_embedding by lia.
    rewrite bool_decide_false by lia.
    rewrite bool_decide_true by lia. f_equal. lia.
Qed.

Lemma hex_digit_lower d : (d < 16)%N → is_lower_hexdigit (hex_digit d) = true.
Proof.
  intros Hd. unfold is_lower_hexdigit, hex_digit. destruct (decide (d < 10)%N);
    [rewrite (bool_decide_true (d < 10)%N) by lia|rewrite (bool_decide_false (d < 10)%N) by lia];
    rewrite N_ascii_embedding by lia; apply orb_true_iff; rewrite !bool_decide_eq_true; lia.
Qed.

Lemma hex_print_length k n : String.length (hex_print k n) = k.
Proof. induction k; simpl; congruence. Qed.

Lemma hex_print_lower k n : string_forallb is_lower_hexdigit (hex_print k n) = true.
Proof.
  induction k as [|k IH]; simpl; [done|]. rewrite IH, andb_true_r.
  apply hex_digit_lower, N.mod_lt. lia.
Qed.

Lemma hex_read_print k n acc :
  hex_read acc (hex_print k n) = Some (acc * 16 ^ N.of_nat k + n `mod` 16 ^ N.of_nat k)%N.
Proof.
  revert acc. induction k as [|k IH]; intros acc.
  { simpl. rewrite N.mod_1_r. f_equal. lia. }
  cbn [hex_print hex_read].
  rewrite hex_digit_value by (apply N.mod_lt; lia). simpl. rewrite IH. f_equal.
  replace (16 ^ N.of_nat (S k))%N with (16 ^ N.of_nat k * 16)%N.
  2:{ rewrite Nat2N.inj_succ, N.pow_succ_r'. lia. }
  rewrite N.Div0.mod_mul_r. lia.
Qed.

Lemma take_drop_string n s : string_take n s +:+ string_drop n s = s.
Proof.
  revert s. induction n as [|n IH]; intros [|a s]; try done.
  cbn [string_take string_drop]. by rewrite string_app_cons, IH.
Qed.

Lemma drop_hyphens_app s t : drop_hyphens (s +:+ t) = drop_hyphens s +:+ drop_hyphens t.
Proof.
  induction s as [|a s IH]; [done|]. rewrite string_app_cons. simpl.
  case_decide; [done|]. by rewrite string_app_cons, IH.
Qed.

Lemma lower_hex_not_hyphen a : is_lower_hexdigit a = true → a ≠ "-"%char.
Proof. by intros H ->. Qed.

Lemma drop_hyphens_id s : string_forallb is_lower_hexdigit s = true → drop_hyphens s = s.
Proof.
  induction s as [|a s IH]; simpl; [done|]. rewrite andb_true_iff. intros [Ha%lower_hex_not_hyphen Hs].
  rewrite decide_False by done. f_equal. auto.
Qed.

Lemma drop_hyphenate gs s : drop_hyphens (hyphenate gs s) = drop_hyphens s.
Proof.
  revert s. induction gs as [|g gs IH]; intros s; [done|]. cbn [hyphenate].
  rewrite drop_hyphens_app. change (drop_hyphens (String "-" (hyphenate gs (string_drop g s))))
    with (drop_hyphens (hyphenate gs (string_drop g s))).
  by rewrite IH, <- drop_hyphens_app, take_drop_string.
Qed.

Lemma string_drop_length n s : String.length (string_drop n s) = String.length s - n.
Proof. revert s. induction n as [|n IH]; intros [|a s]; simpl; auto with lia. Qed.

Lemma hyphenate_length gs s :
  sum_list gs ≤ String.length s →
  String.length (hyphenate gs s) = String.length s + length gs.
Proof.
  revert s. induction gs as [|g gs IH]; intros s; simpl; [lia|]. intros Hs.
  rewrite string_app_length. simpl.
  rewrite string_take_length, IH; rewrite ?string_drop_length; lia.
Qed.

Lemma hyphenate_chars gs s :
  string_forallb is_lower_hexdigit s = true →
  string_forallb is_uuid_char (hyphenate gs s) = true.
Proof.
  assert (∀ t, string_forallb is_lower_hexdigit t = true →
               string_forallb is_uuid_char t = true) as Himpl.
  { intros t. apply string_forallb_impl. unfold is_uuid_char. intros a ->. done. }
  revert s. induction gs as [|g gs IH]; intros s Hs; [by apply Himpl|]. cbn [hyphenate].
  pose proof Hs as Hs'. rewrite <- (take_drop_string g s), string_forallb_app in Hs'.
  apply andb_true_iff in Hs' as [Ht Hd].
  rewrite string_forallb_app, (Himpl _ Ht). simpl. by apply IH.
Qed.
End proofs.

#[export] Instance RefUuidLaws : UuidLaws RefUuid.
Proof.
  split; cbn [parse_str hyphenated simple RefUuid].
  - intros [n Hn]. unfold ref_parse, ref_hyphenated, ref_simple. simpl proj1_sig.
    rewrite bool_decide_true.
    2:{ rewrite hyphenate_length; rewrite hex_print_length; simpl; lia. }
    rewrite drop_hyphenate, drop_hyphens_id by apply hex_print_lower.
    rewrite hex_read_print. rewrite N.mul_0_l, N.add_0_l.
    assert (n `mod` 16 ^ N.of_nat 32 = n)%N as ->.
    { apply N.mod_small. apply bool_decide_unpack in Hn. eapply N.lt_le_trans; [exact Hn|].
      vm_compute. done. }
    simpl. destruct (decide _) as [H|[]]; [|done]. f_equal. by apply (sig_eq_pi _).
  - intros u. unfold ref_hyphenated. apply hyphenate_chars. apply hex_print_lower.
  - intros u. unfold ref_hyphenated, ref_simple.
    by rewrite drop_hyphenate, drop_hyphens_id by apply hex_print_lower.
  - intros u. apply hex_print_length.
  - intros u. apply hex_print_lower.
Qed.

Example ref_uuid_text :
  hyphenated (UuidLib := RefUuid) (uuid_of_N 0x0123456789abcdef0123456789abcdef)
  = "01234567-89ab-cdef-0123-456789abcdef"%string.
Proof. vm_compute. reflexivity. Qed.

(** Identifiers for concrete examples. *)
Definition uid (n : N) : @Uuid RefUuid := uuid_of_N n.
