(* ===== verification/Store.v ===== *)
(** * The controller's persistence interface (crates/controller/src/store.rs)

    [ControllerStore] is the trait; [AbsStore] the abstract state an implementation
    stands for; [StoreSpec] what the trait's documentation promises about every call,
    stated on abstract states. The controller's theorems are proved against
    [StoreSpec]; PgStore.v and MemStore.v discharge it for the two implementations. *)

From S2P Require Import Prelude Contracts.

Record AgentCapacity := { cpu_cores : Z; memory_bytes : Z }.

Record AvailableResources := {
  av_cpu_millicores : Z;
  av_memory_bytes : Z;
  av_running_sandboxes : Z;
}.

Inductive AgentState := Active | Dead.
#[global] Instance AgentState_eq_dec : EqDecision AgentState.
Proof. solve_decision. Defined.

Record AgentRecord `{UuidLib} := {
  ar_agent_id : AgentId;
  ar_capacity : AgentCapacity;
  ar_available : AvailableResources;
  ar_state : AgentState;
}.

Record SandboxStateRow := { row_state : string; row_error : option string }.

(** The trait. Every call is an atomic step on the store [W]. *)
Class ControllerStore `{UuidLib} (W : Type) := {
  save_agent : AgentRecord → ST W (result () ControllerError);
  get_agent : AgentId → ST W (result (option AgentRecord) ControllerError);
  remove_agent : AgentId → ST W (result () ControllerError);
  list_active_agents : ST W (result (list AgentRecord) ControllerError);
  update_agent_state : AgentId → AgentState → ST W (result () ControllerError);
  insert_routing_entry : RoutingEntry → ST W (result () ControllerError);
  remove_routing_entries_for_agent : AgentId → ST W (result () ControllerError);
  find_routing_entry : SandboxId → ST W (result (option RoutingEntry) ControllerError);
  list_routing_entries : ST W (result (list RoutingEntry) ControllerError);
  remove_routing_entry : SandboxId → ST W (result () ControllerError);
  save_sandbox_state :
    SandboxId → AgentId → string → option string → ST W (result () ControllerError);
  get_sandbox_state : SandboxId → ST W (result (option SandboxStateRow) ControllerError);
  mark_agent_dead_atomic : AgentId → ST W (result () ControllerError);
  try_assign_sandbox :
    AgentId → SandboxId → Z → Z → ST W (result bool ControllerError);
  release_sandbox : SandboxId → ST W (result (option AgentId) ControllerError);
  record_heartbeat : AgentId → ST W (result () ControllerError);
  dead_agents : ST W (result (list AgentId) ControllerError);
}.

(** ** The abstract store *)

Record Reservation `{UuidLib} := {
  rs_agent_id : AgentId;
  rs_cpu_millicores : Z;
  rs_memory_bytes : Z;
}.

Record AbsStore `{UuidLib} := {
  as_agents : gmap AgentId AgentRecord;
  as_routes : gmap SandboxId AgentId;
  as_resv : gmap SandboxId Reservation;
  as_states : gmap SandboxId SandboxStateRow;
  as_hb : gmap AgentId Z;
  as_now : Z;
}.

Section spec.
Context `{UuidLib}.
Implicit Types (v : AbsStore) (a : AgentId) (s : SandboxId) (rec : AgentRecord).

Definition set_available (av : AvailableResources) rec : AgentRecord :=
  {| ar_agent_id := ar_agent_id rec; ar_capacity := ar_capacity rec;
     ar_available := av; ar_state := ar_state rec |}.

Definition set_state (st : AgentState) rec : AgentRecord :=
  {| ar_agent_id := ar_agent_id rec; ar_capacity := ar_capacity rec;
     ar_available := ar_available rec; ar_state := st |}.

Definition fits (cpu mem : Z) rec : Prop :=
  (cpu ≤ av_cpu_millicores (ar_available rec) ∧ mem ≤ av_memory_bytes (ar_available rec))%Z.
#[global] Instance fits_dec cpu mem rec : Decision (fits cpu mem rec).
Proof. apply _. Defined.

(** Values the machine types of the record can hold. *)
Definition record_in_range rec : Prop :=
  in_u32 (cpu_cores (ar_capacity rec)) ∧ in_u64 (memory_bytes (ar_capacity rec)) ∧
  in_u32 (av_cpu_millicores (ar_available rec)) ∧
  in_u64 (av_memory_bytes (ar_available rec)) ∧
  in_u32 (av_running_sandboxes (ar_available rec)).

(** No credit overflows the signed columns the amounts are kept in. *)
Definition credit_safe (cpu mem : Z) rec : Prop :=
  (av_cpu_millicores (ar_available rec) + cpu < 2 ^ 31)%Z ∧
  (av_memory_bytes (ar_available rec) + mem < 2 ^ 63)%Z.

(** *** Effects on the abstract store *)

Definition eff_assign a s cpu mem v v' : Prop :=
  ∃ rec, as_agents v !! a = Some rec ∧ ar_state rec = Active ∧ fits cpu mem rec ∧
    (∃ running, as_agents v' =
      <[a := set_available
        {| av_cpu_millicores := av_cpu_millicores (ar_available rec) - cpu;
           av_memory_bytes := av_memory_bytes (ar_available rec) - mem;
           av_running_sandboxes := running |} rec]> (as_agents v) ∧
      ((av_running_sandboxes (ar_available rec) < 2 ^ 31 - 1)%Z →
       running = (av_running_sandboxes (ar_available rec) + 1)%Z)) ∧
    as_routes v' = <[s := a]> (as_routes v) ∧
    as_resv v' = <[s := {| rs_agent_id := a; rs_cpu_millicores := cpu;
                           rs_memory_bytes := mem |}]> (as_resv v) ∧
    (∀ s', s' ≠ s → as_states v' !! s' = as_states v !! s') ∧
    as_hb v' = as_hb v ∧ as_now v' = as_now v.

Definition eff_release s (rs : Reservation) v v' : Prop :=
  (∀ rec, as_agents v !! rs_agent_id rs = Some rec →
     ∃ cpu mem running, as_agents v' = <[rs_agent_id rs := set_available
         {| av_cpu_millicores := cpu; av_memory_bytes := mem;
            av_running_sandboxes := running |} rec]> (as_agents v) ∧
       (credit_safe (rs_cpu_millicores rs) (rs_memory_bytes rs) rec →
        cpu = (av_cpu_millicores (ar_available rec) + rs_cpu_millicores rs)%Z ∧
        mem = (av_memory_bytes (ar_available rec) + rs_memory_bytes rs)%Z) ∧
       ((av_running_sandboxes (ar_available rec) < 2 ^ 31)%Z →
        running = Z.max (av_running_sandboxes (ar_available rec) - 1) 0)) ∧
  (as_agents v !! rs_agent_id rs = None → as_agents v' = as_agents v) ∧
  as_routes v' = delete s (as_routes v) ∧ as_resv v' = delete s (as_resv v) ∧
  (∀ s', s' ≠ s → as_states v' !! s' = as_states v !! s') ∧
  as_hb v' = as_hb v ∧ as_now v' = as_now v.

Definition eff_mark_dead a v v' : Prop :=
  (∃ rec, as_agents v !! a = Some rec ∧
          as_agents v' = <[a := set_state Dead rec]> (as_agents v)) ∧
  as_routes v' = filter (λ e, e.2 ≠ a) (as_routes v) ∧
  as_resv v' = as_resv v ∧ as_states v' = as_states v ∧
  as_hb v' = as_hb v ∧ as_now v' = as_now v.

Definition eff_save_agent rec v v' : Prop :=
  as_agents v' = <[ar_agent_id rec := rec]> (as_agents v) ∧
  as_routes v' = as_routes v ∧ as_resv v' = as_resv v ∧ as_states v' = as_states v ∧
  as_now v' = as_now v ∧ (∀ b, b ≠ ar_agent_id rec → as_hb v' !! b = as_hb v !! b) ∧
  (as_hb v' !! ar_agent_id rec = as_hb v !! ar_agent_id rec ∨
   as_hb v !! ar_agent_id rec = None ∧ as_hb v' !! ar_agent_id rec = Some (as_now v)).

Definition eff_heartbeat a v v' : Prop :=
  as_agents v' = as_agents v ∧ as_routes v' = as_routes v ∧ as_resv v' = as_resv v ∧
  as_states v' = as_states v ∧ as_now v' = as_now v ∧
  (∀ b, b ≠ a → as_hb v' !! b = as_hb v !! b) ∧
  (as_hb v' !! a = as_hb v !! a ∨ as_hb v' !! a = Some (as_now v)) ∧
  (is_Some (as_agents v !! a) → as_hb v' !! a = Some (as_now v)).

Definition eff_routes (f : gmap SandboxId AgentId → gmap SandboxId AgentId) v v' : Prop :=
  as_routes v' = f (as_routes v) ∧ as_agents v' = as_agents v ∧ as_resv v' = as_resv v ∧
  as_states v' = as_states v ∧ as_hb v' = as_hb v ∧ as_now v' = as_now v.

Definition eff_sandbox_state s (st : string) (err : option string) v v' : Prop :=
  as_states v' = <[s := {| row_state := st; row_error := err |}]> (as_states v) ∧
  as_agents v' = as_agents v ∧ as_routes v' = as_routes v ∧
  (as_resv v' = as_resv v ∨
   (as_resv v !! s = None ∧ ∃ a, as_resv v' =
      <[s := {| rs_agent_id := a; rs_cpu_millicores := 0; rs_memory_bytes := 0 |}]>
        (as_resv v))) ∧
  as_hb v' = as_hb v ∧ as_now v' = as_now v.

(** *** Results

    A write either returns and has happened, or reports a database error; then it has
    happened as a whole or not at all (the acknowledgement of a commit can be lost). *)
Definition writes {A} (r : result A ControllerError) (x : A)
    (eff : AbsStore → AbsStore → Prop) v v' : Prop :=
  (r = Ok x ∧ eff v v') ∨ (∃ d, r = Err (Database d) ∧ (v' = v ∨ eff v v')).

Definition reads {A} (r : result A ControllerError) (P : A → Prop) v v' : Prop :=
  v' = v ∧ ((∃ x, r = Ok x ∧ P x) ∨ ∃ d, r = Err (Database d)).

Definition agent_missing {A} (r : result A ControllerError) a v v' : Prop :=
  as_agents v !! a = None ∧ v' = v ∧ r = Err (AgentNotFound (hyphenated a)).

Definition is_active (o : option AgentRecord) : Prop :=
  ∃ rec, o = Some rec ∧ ar_state rec = Active.

Definition stale a v : Prop :=
  ∃ t, as_hb v !! a = Some t ∧ (t < as_now v - DEAD_AGENT_TIMEOUT)%Z.
End spec.

Class StoreSpec `{UuidLib} (W : Type) `{!ControllerStore W} := {
  view : W → AbsStore;
  store_wf : W → Prop;
  wf_agent_id : ∀ w a rec, store_wf w → as_agents (view w) !! a = Some rec →
    ar_agent_id rec = a ∧ record_in_range rec;

  save_agent_spec : ∀ rec w r w', store_wf w → record_in_range rec →
    save_agent rec w = (r, w') → store_wf w' ∧
    writes r () (eff_save_agent rec) (view w) (view w');
  get_agent_spec : ∀ a w r w', store_wf w → get_agent a w = (r, w') → store_wf w' ∧
    reads r (λ o, o = as_agents (view w) !! a) (view w) (view w');
  list_active_agents_spec : ∀ w r w', store_wf w → list_active_agents w = (r, w') →
    store_wf w' ∧
    reads r (λ l, ∀ rec, rec ∈ l ↔
      ar_state rec = Active ∧ as_agents (view w) !! ar_agent_id rec = Some rec)
      (view w) (view w');
  find_routing_entry_spec : ∀ s w r w', store_wf w → find_routing_entry s w = (r, w') →
    store_wf w' ∧
    reads r (λ o, o = (λ a, {| re_sandbox_id := s; re_agent_id := a |}) <$>
                       as_routes (view w) !! s) (view w) (view w');
  list_routing_entries_spec : ∀ w r w', store_wf w → list_routing_entries w = (r, w') →
    store_wf w' ∧
    reads r (λ l, NoDup l ∧
        ∀ e, e ∈ l ↔ as_routes (view w) !! re_sandbox_id e = Some (re_agent_id e))
      (view w) (view w');
  remove_routing_entry_spec : ∀ s w r w', store_wf w → remove_routing_entry s w = (r, w') →
    store_wf w' ∧ writes r () (eff_routes (delete s)) (view w) (view w');
  save_sandbox_state_spec : ∀ s a st err w r w', store_wf w →
    save_sandbox_state s a st err w = (r, w') →
    store_wf w' ∧ writes r () (eff_sandbox_state s st err) (view w) (view w');
  get_sandbox_state_spec : ∀ s w r w', store_wf w → get_sandbox_state s w = (r, w') →
    store_wf w' ∧ reads r (λ o, o = as_states (view w) !! s) (view w) (view w');
  mark_agent_dead_spec : ∀ a w r w', store_wf w → mark_agent_dead_atomic a w = (r, w') →
    store_wf w' ∧
    (agent_missing r a (view w) (view w') ∨
     writes r () (eff_mark_dead a) (view w) (view w'));
  try_assign_spec : ∀ a s cpu mem w r w', store_wf w → in_u32 cpu → in_u64 mem →
    as_routes (view w) !! s = None → as_resv (view w) !! s = None →
    try_assign_sandbox a s cpu mem w = (r, w') → store_wf w' ∧
    (agent_missing r a (view w) (view w') ∨
     (r = Ok false ∧ view w' = view w ∧
      ∀ rec, as_agents (view w) !! a = Some rec → ar_state rec = Active →
             ¬ fits cpu mem rec) ∨
     writes r true (eff_assign a s cpu mem) (view w) (view w'));
  release_spec : ∀ s w r w', store_wf w → release_sandbox s w = (r, w') → store_wf w' ∧
    match as_resv (view w) !! s with
    | None => (r = Ok None ∨ ∃ d, r = Err (Database d)) ∧ view w' = view w
    | Some rs => writes r (Some (rs_agent_id rs)) (eff_release s rs) (view w) (view w')
    end;
  record_heartbeat_spec : ∀ a w r w', store_wf w → record_heartbeat a w = (r, w') →
    store_wf w' ∧ writes r () (eff_heartbeat a) (view w) (view w');
  dead_agents_spec : ∀ w r w', store_wf w → dead_agents w = (r, w') → store_wf w' ∧
    reads r (λ l, ∀ a, a ∈ l ↔ is_active (as_agents (view w) !! a) ∧ stale a (view w))
      (view w) (view w');
}.

(** A store whose connection is up: calls that take no arithmetic decision return, and
    keep the connection up. *)
Class StoreReliable `{UuidLib} (W : Type) `{!ControllerStore W} := {
  reliable : W → Prop;
  answers {A} (m : ST W (result A ControllerError)) : Prop :=
    ∀ w r w', reliable w → m w = (r, w') → reliable w' ∧ ∀ d, r ≠ Err (Database d);
  save_agent_answers rec : answers (save_agent rec);
  get_agent_answers a : answers (get_agent a);
  list_active_agents_answers : answers list_active_agents;
  find_routing_entry_answers s : answers (find_routing_entry s);
  list_routing_entries_answers : answers list_routing_entries;
  save_sandbox_state_answers s a st err : answers (save_sandbox_state s a st err);
  get_sandbox_state_answers s : answers (get_sandbox_state s);
  mark_agent_dead_answers a : answers (mark_agent_dead_atomic a);
  record_heartbeat_answers a : answers (record_heartbeat a);
  dead_agents_answers : answers dead_agents;
}.
