(* ===== verification/PgStore.v ===== *)
(** * The Postgres store (crates/controller/src/pg_store.rs)

    The three tables as finite maps with the columns the queries touch, each SQL
    statement as a function on the database, and the transactions the store runs them
    in. A statement or a commit can fail at any point: the world carries the script of
    outcomes the connection will produce, so a theorem that quantifies over worlds
    quantifies over every placement of faults. A transaction runs in isolation. *)

From S2P Require Import Prelude Contracts Store.

(** ** The database *)

(** [INTEGER] and [BIGINT] columns hold the signed numbers the sources bind. *)
Record AgentRow := {
  a_cpu_cores : Z;
  a_memory_bytes : Z;
  a_available_cpu_millicores : Z;
  a_available_memory_bytes : Z;
  a_running_sandboxes : Z;
  a_state : string;
  a_last_heartbeat_at : Z;
}.

Record SandboxRow `{UuidLib} := {
  s_agent_id : AgentId;
  s_state : string;
  s_error : option string;
  s_cpu_millicores : Z;
  s_memory_bytes : Z;
}.

Record Db `{UuidLib} := {
  db_agents : gmap AgentId AgentRow;
  db_routing : gmap SandboxId AgentId;
  db_sandboxes : gmap SandboxId SandboxRow;
  db_notifications : list string;
  db_now : Z;
}.

(** What the connection does with the next statement. [AckLost]: the server performed
    it and the client saw an error. *)
Inductive outcome := Done | StmtFailed (detail : string) | AckLost (detail : string).

Record World `{UuidLib} := { w_db : Db; w_faults : list outcome }.

Section sql.
Context `{UuidLib}.

Definition with_agents (m : gmap AgentId AgentRow) (db : Db) : Db :=
  {| db_agents := m; db_routing := db_routing db; db_sandboxes := db_sandboxes db;
     db_notifications := db_notifications db; db_now := db_now db |}.
Definition with_routing (m : gmap SandboxId AgentId) (db : Db) : Db :=
  {| db_agents := db_agents db; db_routing := m; db_sandboxes := db_sandboxes db;
     db_notifications := db_notifications db; db_now := db_now db |}.
Definition with_sandboxes (m : gmap SandboxId SandboxRow) (db : Db) : Db :=
  {| db_agents := db_agents db; db_routing := db_routing db; db_sandboxes := m;
     db_notifications := db_notifications db; db_now := db_now db |}.
Definition with_notifications (l : list string) (db : Db) : Db :=
  {| db_agents := db_agents db; db_routing := db_routing db;
     db_sandboxes := db_sandboxes db; db_notifications := l; db_now := db_now db |}.

(** A statement returns rows and the new database, or an SQL error. *)
Definition Stmt (A : Type) : Type := Db → result (A * Db) string.

Definition next_outcome (w : World) : outcome * list outcome :=
  match w_faults w with [] => (Done, []) | o :: os => (o, os) end.

(** [query.execute(&self.pool)]: a transaction of its own. *)
Definition run_stmt {A} (q : Stmt A) : ST World (result A ControllerError) := λ w,
  let '(o, os) := next_outcome w in
  match o, q (w_db w) with
  | StmtFailed d, _ => (Err (Database d), {| w_db := w_db w; w_faults := os |})
  | AckLost d, Ok (_, db') => (Err (Database d), {| w_db := db'; w_faults := os |})
  | AckLost d, Err _ => (Err (Database d), {| w_db := w_db w; w_faults := os |})
  | Done, Ok (x, db') => (Ok x, {| w_db := db'; w_faults := os |})
  | Done, Err e => (Err (Database e), {| w_db := w_db w; w_faults := os |})
  end.

(** [query.execute(&mut *tx)]: on the transaction's own copy. *)
Definition tx_stmt {A} (q : Stmt A) : ST World (result A ControllerError) := λ w,
  let '(o, os) := next_outcome w in
  match o, q (w_db w) with
  | Done, Ok (x, db') => (Ok x, {| w_db := db'; w_faults := os |})
  | Done, Err e => (Err (Database e), {| w_db := w_db w; w_faults := os |})
  | StmtFailed d, _ | AckLost d, _ =>
      (Err (Database d), {| w_db := w_db w; w_faults := os |})
  end.

(** How a transaction's scope ends: [tx.commit()] and the value returned after it, or
    an early [return Ok(..)] that drops the transaction. *)
Inductive TxEnd (A : Type) := Commit (x : A) | Rollback (x : A).
Arguments Commit {A} x.
Arguments Rollback {A} x.

(** [self.pool.begin()], the body, and the end of the transaction; every error leaves
    through a drop, which rolls back. *)
Definition transaction {A} (body : ST World (result (TxEnd A) ControllerError))
    : ST World (result A ControllerError) := λ w,
  let '(o, os) := next_outcome w in
  match o with
  | StmtFailed d | AckLost d => (Err (Database d), {| w_db := w_db w; w_faults := os |})
  | Done =>
      let '(r, w1) := body {| w_db := w_db w; w_faults := os |} in
      match r with
      | Err e => (Err e, {| w_db := w_db w; w_faults := w_faults w1 |})
      | Ok (Rollback x) => (Ok x, {| w_db := w_db w; w_faults := w_faults w1 |})
      | Ok (Commit x) =>
          let '(o', os') := next_outcome w1 in
          match o' with
          | Done => (Ok x, {| w_db := w_db w1; w_faults := os' |})
          | StmtFailed d => (Err (Database d), {| w_db := w_db w; w_faults := os' |})
          | AckLost d => (Err (Database d), {| w_db := w_db w1; w_faults := os' |})
          end
      end
  end.

(** Postgres arithmetic on [INTEGER] and [BIGINT] raises on overflow. *)
Definition pg_int4 (z : Z) : result Z string :=
  if decide (in_i32 z) then Ok z else Err "integer out of range".
Definition pg_int8 (z : Z) : result Z string :=
  if decide (in_i64 z) then Ok z else Err "bigint out of range".

Definition stmt_ok {A} (x : A) (db : Db) : result (A * Db) string := Ok (x, db).

(** ** Text of states and notifications *)

Definition state_to_str (s : AgentState) : string :=
  match s with Active => "active" | Dead => "dead" end.
Definition state_from_str (s : string) : AgentState :=
  if decide (s = "dead") then Dead else Active.

Definition into_record (a : AgentId) (r : AgentRow) : AgentRecord :=
  {| ar_agent_id := a;
     ar_capacity := {| cpu_cores := as_u32 (a_cpu_cores r);
                       memory_bytes := as_u64 (a_memory_bytes r) |};
     ar_available :=
       {| av_cpu_millicores := as_u32 (a_available_cpu_millicores r);
          av_memory_bytes := as_u64 (a_available_memory_bytes r);
          av_running_sandboxes := as_u32 (a_running_sandboxes r) |};
     ar_state := state_from_str (a_state r) |}.

(** The double quote. *)
Definition dq : string := String (ascii_of_nat 34) "".
Definition json_field (key value : string) : string :=
  dq +:+ key +:+ dq +:+ ":" +:+ dq +:+ value +:+ dq.

Definition notify_payload (op : string) (sandbox_id : Uuid) (agent_id : option Uuid)
    : string :=
  match agent_id with
  | Some aid =>
      "{" +:+ json_field "op" op +:+ "," +:+
      json_field "sandbox_id" (hyphenated sandbox_id) +:+ "," +:+
      json_field "agent_id" (hyphenated aid) +:+ "}"
  | None =>
      "{" +:+ json_field "op" op +:+ "," +:+
      json_field "sandbox_id" (hyphenated sandbox_id) +:+ "}"
  end.

(** [pg_notify] is transactional: the payload is delivered when the transaction
    commits, so it is appended to the transaction's copy. *)
Definition notify_routing_change (op : string) (sandbox_id : Uuid)
    (agent_id : option Uuid) : ST World (result () ControllerError) :=
  tx_stmt (λ db, stmt_ok () (with_notifications
    (db_notifications db ++ [notify_payload op sandbox_id agent_id]) db)).

Fixpoint notify_removed (ids : list Uuid) : ST World (result () ControllerError) :=
  match ids with
  | [] => st_ret (Ok ())
  | sid :: ids' =>
      let!? _ := notify_routing_change "remove" sid None in notify_removed ids'
  end.
End sql.
Arguments Commit {A} x.
Arguments Rollback {A} x.

(** ** [impl ControllerStore for PgStore] *)

Section methods.
Context `{UuidLib}.

Definition pg_save_agent (rec : AgentRecord) : ST World (result () ControllerError) :=
  run_stmt (λ db,
    let key := ar_agent_id rec in
    let row hb :=
      {| a_cpu_cores := as_i32 (cpu_cores (ar_capacity rec));
         a_memory_bytes := as_i64 (memory_bytes (ar_capacity rec));
         a_available_cpu_millicores := as_i32 (av_cpu_millicores (ar_available rec));
         a_available_memory_bytes := as_i64 (av_memory_bytes (ar_available rec));
         a_running_sandboxes := as_i32 (av_running_sandboxes (ar_available rec));
         a_state := state_to_str (ar_state rec);
         a_last_heartbeat_at := hb |} in
    (* ON CONFLICT DO UPDATE leaves last_heartbeat_at; a fresh row defaults to now() *)
    let hb := match db_agents db !! key with
              | Some old => a_last_heartbeat_at old
              | None => db_now db
              end in
    stmt_ok () (with_agents (<[key := row hb]> (db_agents db)) db)).

Definition pg_get_agent (id : AgentId)
    : ST World (result (option AgentRecord) ControllerError) :=
  run_stmt (λ db, stmt_ok (into_record id <$> db_agents db !! id) db).

(** [routing_entries.agent_id] references [agents]. *)
Definition pg_remove_agent (id : AgentId) : ST World (result () ControllerError) :=
  run_stmt (λ db,
    if decide (filter (λ e, e.2 = id) (db_routing db) = ∅)
    then stmt_ok () (with_agents (delete id (db_agents db)) db)
    else Err "update or delete on table agents violates foreign key constraint").

Definition pg_list_active_agents
    : ST World (result (list AgentRecord) ControllerError) :=
  run_stmt (λ db, stmt_ok
    ((λ e, into_record e.1 e.2) <$>
     map_to_list (filter (λ e, a_state e.2 = "active") (db_agents db))) db).

Definition set_row_state (st : string) (r : AgentRow) : AgentRow :=
  {| a_cpu_cores := a_cpu_cores r; a_memory_bytes := a_memory_bytes r;
     a_available_cpu_millicores := a_available_cpu_millicores r;
     a_available_memory_bytes := a_available_memory_bytes r;
     a_running_sandboxes := a_running_sandboxes r; a_state := st;
     a_last_heartbeat_at := a_last_heartbeat_at r |}.

(** [UPDATE agents SET state = $1 WHERE agent_id = $2], returning [rows_affected]. *)
Definition sql_update_state (id : AgentId) (st : AgentState) : Stmt nat := λ db,
  match db_agents db !! id with
  | Some r => stmt_ok 1 (with_agents
                (<[id := set_row_state (state_to_str st) r]> (db_agents db)) db)
  | None => stmt_ok 0 db
  end.

Definition pg_update_agent_state (id : AgentId) (st : AgentState)
    : ST World (result () ControllerError) :=
  let!? rows := run_stmt (sql_update_state id st) in
  if decide (rows = 0) then st_ret (Err (AgentNotFound (hyphenated id)))
  else st_ret (Ok ()).

(** Insertions into [routing_entries] check the reference to [agents]. *)
Definition sql_route_upsert (sid : SandboxId) (aid : AgentId) : Stmt () := λ db,
  match db_agents db !! aid with
  | Some _ => stmt_ok () (with_routing (<[sid := aid]> (db_routing db)) db)
  | None => Err "insert on table routing_entries violates foreign key constraint"
  end.

Definition sql_route_insert (sid : SandboxId) (aid : AgentId) : Stmt () := λ db,
  match db_routing db !! sid with
  | Some _ => Err "duplicate key value violates unique constraint routing_entries_pkey"
  | None => sql_route_upsert sid aid db
  end.

Definition pg_insert_routing_entry (e : RoutingEntry)
    : ST World (result () ControllerError) :=
  transaction (
    let!? _ := tx_stmt (sql_route_upsert (re_sandbox_id e) (re_agent_id e)) in
    let!? _ := notify_routing_change "insert" (re_sandbox_id e) (Some (re_agent_id e)) in
    st_ret (Ok (Commit ()))).

Definition sql_routes_of (aid : AgentId) : Stmt (list SandboxId) := λ db,
  stmt_ok (map_to_list (filter (λ e, e.2 = aid) (db_routing db))).*1 db.

Definition sql_delete_routes_of (aid : AgentId) : Stmt () := λ db,
  stmt_ok () (with_routing (filter (λ e, e.2 ≠ aid) (db_routing db)) db).

Definition pg_remove_routing_entries_for_agent (aid : AgentId)
    : ST World (result () ControllerError) :=
  transaction (
    let!? rows := tx_stmt (sql_routes_of aid) in
    let!? _ := tx_stmt (sql_delete_routes_of aid) in
    let!? _ := notify_removed rows in
    st_ret (Ok (Commit ()))).

Definition pg_find_routing_entry (sid : SandboxId)
    : ST World (result (option RoutingEntry) ControllerError) :=
  run_stmt (λ db, stmt_ok
    ((λ a, {| re_sandbox_id := sid; re_agent_id := a |}) <$> db_routing db !! sid) db).

(** [ORDER BY sandbox_id]: UUIDs compare as their digits. *)
Definition pg_list_routing_entries
    : ST World (result (list RoutingEntry) ControllerError) :=
  run_stmt (λ db, stmt_ok
    ((λ e, {| re_sandbox_id := e.1; re_agent_id := e.2 |}) <$>
     merge_sort (λ e1 e2 : SandboxId * AgentId, String.le (simple e1.1) (simple e2.1))
       (map_to_list (db_routing db))) db).

Definition sql_delete_route (sid : SandboxId) : Stmt () := λ db,
  stmt_ok () (with_routing (delete sid (db_routing db)) db).

Definition pg_remove_routing_entry (sid : SandboxId)
    : ST World (result () ControllerError) :=
  transaction (
    let!? _ := tx_stmt (sql_delete_route sid) in
    let!? _ := notify_routing_change "remove" sid None in
    st_ret (Ok (Commit ()))).

Definition pg_save_sandbox_state (sid : SandboxId) (aid : AgentId) (st : string)
    (err : option string) : ST World (result () ControllerError) :=
  run_stmt (λ db,
    let row := match db_sandboxes db !! sid with
      | Some old => {| s_agent_id := s_agent_id old; s_state := st; s_error := err;
                       s_cpu_millicores := s_cpu_millicores old;
                       s_memory_bytes := s_memory_bytes old |}
      | None => {| s_agent_id := aid; s_state := st; s_error := err;
                   s_cpu_millicores := 0; s_memory_bytes := 0 |}
      end in
    stmt_ok () (with_sandboxes (<[sid := row]> (db_sandboxes db)) db)).

Definition pg_get_sandbox_state (sid : SandboxId)
    : ST World (result (option SandboxStateRow) ControllerError) :=
  run_stmt (λ db, stmt_ok
    ((λ r, {| row_state := s_state r; row_error := s_error r |}) <$>
     db_sandboxes db !! sid) db).

Definition pg_mark_agent_dead_atomic (aid : AgentId)
    : ST World (result () ControllerError) :=
  transaction (
    let!? rows := tx_stmt (sql_update_state aid Dead) in
    if decide (rows = 0) then st_ret (Err (AgentNotFound (hyphenated aid))) else
    let!? affected := tx_stmt (sql_routes_of aid) in
    let!? _ := tx_stmt (sql_delete_routes_of aid) in
    let!? _ := notify_removed affected in
    st_ret (Ok (Commit ()))).

Definition sql_select_agent (aid : AgentId) : Stmt (option AgentRow) := λ db,
  stmt_ok (db_agents db !! aid) db.

(** [UPDATE agents SET available_.. = available_.. - $n, running_sandboxes + 1]. *)
Definition sql_debit_agent (aid : AgentId) (cpu mem : Z) : Stmt () := λ db,
  match db_agents db !! aid with
  | None => stmt_ok () db
  | Some r =>
      let? c := pg_int4 (a_available_cpu_millicores r - cpu) in
      let? m := pg_int8 (a_available_memory_bytes r - mem) in
      let? n := pg_int4 (a_running_sandboxes r + 1) in
      stmt_ok () (with_agents (<[aid :=
        {| a_cpu_cores := a_cpu_cores r; a_memory_bytes := a_memory_bytes r;
           a_available_cpu_millicores := c; a_available_memory_bytes := m;
           a_running_sandboxes := n; a_state := a_state r;
           a_last_heartbeat_at := a_last_heartbeat_at r |}]> (db_agents db)) db)
  end.

Definition sql_reserve (sid : SandboxId) (aid : AgentId) (cpu mem : Z) : Stmt () := λ db,
  let row := match db_sandboxes db !! sid with
    | Some old => {| s_agent_id := aid; s_state := s_state old; s_error := s_error old;
                     s_cpu_millicores := cpu; s_memory_bytes := mem |}
    | None => {| s_agent_id := aid; s_state := "reserved"; s_error := None;
                 s_cpu_millicores := cpu; s_memory_bytes := mem |}
    end in
  stmt_ok () (with_sandboxes (<[sid := row]> (db_sandboxes db)) db).

Definition pg_try_assign_sandbox (aid : AgentId) (sid : SandboxId) (cpu mem : Z)
    : ST World (result bool ControllerError) :=
  transaction (
    let!? row := tx_stmt (sql_select_agent aid) in
    match row with
    | None => st_ret (Err (AgentNotFound (hyphenated aid)))
    | Some r =>
        if decide (a_state r ≠ "active") then st_ret (Ok (Rollback false)) else
        if decide (as_u32 (a_available_cpu_millicores r) < cpu ∨
                   as_u64 (a_available_memory_bytes r) < mem)%Z
        then st_ret (Ok (Rollback false)) else
        let!? _ := tx_stmt (sql_debit_agent aid (as_i32 cpu) (as_i64 mem)) in
        let!? _ := tx_stmt (sql_route_insert sid aid) in
        let!? _ := notify_routing_change "insert" sid (Some aid) in
        let!? _ := tx_stmt (sql_reserve sid aid (as_i32 cpu) (as_i64 mem)) in
        st_ret (Ok (Commit true))
    end).

Definition pg_record_heartbeat (aid : AgentId) : ST World (result () ControllerError) :=
  run_stmt (λ db,
    match db_agents db !! aid with
    | None => stmt_ok () db
    | Some r => stmt_ok () (with_agents (<[aid :=
        {| a_cpu_cores := a_cpu_cores r; a_memory_bytes := a_memory_bytes r;
           a_available_cpu_millicores := a_available_cpu_millicores r;
           a_available_memory_bytes := a_available_memory_bytes r;
           a_running_sandboxes := a_running_sandboxes r; a_state := a_state r;
           a_last_heartbeat_at := db_now db |}]> (db_agents db)) db)
    end).

Definition pg_dead_agents : ST World (result (list AgentId) ControllerError) :=
  run_stmt (λ db, stmt_ok
    (map_to_list (filter (λ e, a_state e.2 = "active" ∧
       (a_last_heartbeat_at e.2 < db_now db - DEAD_AGENT_TIMEOUT)%Z)
       (db_agents db))).*1 db).

Definition sql_select_sandbox (sid : SandboxId) : Stmt (option (AgentId * Z * Z)) := λ db,
  stmt_ok ((λ r, (s_agent_id r, s_cpu_millicores r, s_memory_bytes r)) <$>
           db_sandboxes db !! sid) db.

(** [running_sandboxes = GREATEST(running_sandboxes - 1, 0)]. *)
Definition sql_credit_agent (aid : AgentId) (cpu mem : Z) : Stmt () := λ db,
  match db_agents db !! aid with
  | None => stmt_ok () db
  | Some r =>
      let? c := pg_int4 (a_available_cpu_millicores r + cpu) in
      let? m := pg_int8 (a_available_memory_bytes r + mem) in
      let? n := pg_int4 (a_running_sandboxes r - 1) in
      stmt_ok () (with_agents (<[aid :=
        {| a_cpu_cores := a_cpu_cores r; a_memory_bytes := a_memory_bytes r;
           a_available_cpu_millicores := c; a_available_memory_bytes := m;
           a_running_sandboxes := Z.max n 0; a_state := a_state r;
           a_last_heartbeat_at := a_last_heartbeat_at r |}]> (db_agents db)) db)
  end.

Definition sql_delete_sandbox (sid : SandboxId) : Stmt () := λ db,
  stmt_ok () (with_sandboxes (delete sid (db_sandboxes db)) db).

Definition pg_release_sandbox (sid : SandboxId)
    : ST World (result (option AgentId) ControllerError) :=
  transaction (
    let!? row := tx_stmt (sql_select_sandbox sid) in
    match row with
    | None => st_ret (Ok (Rollback None))
    | Some (aid, cpu, mem) =>
        let!? _ := tx_stmt (sql_credit_agent aid cpu mem) in
        let!? _ := tx_stmt (sql_delete_route sid) in
        let!? _ := notify_routing_change "remove" sid None in
        let!? _ := tx_stmt (sql_delete_sandbox sid) in
        st_ret (Ok (Commit (Some aid)))
    end).
End methods.

#[export] Instance PgStore `{UuidLib} : ControllerStore World := {
  save_agent := pg_save_agent;
  get_agent := pg_get_agent;
  remove_agent := pg_remove_agent;
  list_active_agents := pg_list_active_agents;
  update_agent_state := pg_update_agent_state;
  insert_routing_entry := pg_insert_routing_entry;
  remove_routing_entries_for_agent := pg_remove_routing_entries_for_agent;
  find_routing_entry := pg_find_routing_entry;
  list_routing_entries := pg_list_routing_entries;
  remove_routing_entry := pg_remove_routing_entry;
  save_sandbox_state := pg_save_sandbox_state;
  get_sandbox_state := pg_get_sandbox_state;
  mark_agent_dead_atomic := pg_mark_agent_dead_atomic;
  try_assign_sandbox := pg_try_assign_sandbox;
  release_sandbox := pg_release_sandbox;
  record_heartbeat := pg_record_heartbeat;
  dead_agents := pg_dead_agents;
}.
