(* ===== verification/PgStoreSpec.v ===== *)
(** * PgStore implements the store interface

    A small program logic for transactions, the view of a database as an abstract
    store, and the refinement of every query to its specification under every fault
    script. *)

From S2P Require Import Prelude Contracts Store PgStore.

(** ** A logic for transaction bodies

    [tx_wp c db Q QE]: whatever faults occur, [c] run on [db] ends in an error
    satisfying [QE] or in a value and database satisfying [Q]. *)

Section tx_logic.
Context `{UuidLib}.
Implicit Types (db : Db) (w : World) (QE : ControllerError → Prop).

Definition tx_wp {A} (c : ST World (result A ControllerError)) db
    (Q : A → Db → Prop) QE : Prop :=
  ∀ fs, match c {| w_db := db; w_faults := fs |} with
        | (Ok x, w') => Q x (w_db w')
        | (Err e, _) => QE e
        end.

Lemma tx_wp_ret {A} (x : A) db Q QE : Q x db → tx_wp (st_ret (Ok x)) db Q QE.
Proof. by intros ? ?. Qed.

Lemma tx_wp_err {A} e db (Q : A → Db → Prop) QE : QE e → tx_wp (st_ret (Err e)) db Q QE.
Proof. by intros ? ?. Qed.

Lemma tx_wp_bind {A B} (c : ST World (result A ControllerError))
    (k : A → ST World (result B ControllerError)) db Q QE :
  tx_wp c db (λ x db', tx_wp (k x) db' Q QE) QE → tx_wp (st_bind_ok c k) db Q QE.
Proof.
  intros Hc fs. specialize (Hc fs). unfold st_bind_ok, st_bind.
  destruct (c _) as [[x|e] [db' fs']]; [|done]. apply (Hc fs').
Qed.

Lemma tx_wp_stmt {A} (q : Stmt A) db Q QE :
  (∀ d, QE (Database d)) → (∀ x db', q db = Ok (x, db') → Q x db') →
  tx_wp (tx_stmt q) db Q QE.
Proof.
  intros HE HQ fs. unfold tx_stmt. destruct (next_outcome _) as [[] ?];
    simpl; destruct (q db) as [[??]|?] eqn:?; auto.
Qed.

Lemma tx_wp_notify op sid aid db Q QE :
  (∀ d, QE (Database d)) →
  Q () (with_notifications (db_notifications db ++ [notify_payload op sid aid]) db) →
  tx_wp (notify_routing_change op sid aid) db Q QE.
Proof. intros HE HQ. apply tx_wp_stmt; [done|]. intros ?? [=]. by subst. Qed.

Lemma tx_wp_notify_removed ids db Q QE :
  (∀ d, QE (Database d)) →
  Q () (with_notifications
    (db_notifications db ++ ((λ sid, notify_payload "remove" sid None) <$> ids)) db) →
  tx_wp (notify_removed ids) db Q QE.
Proof.
  intros HE. revert db. induction ids as [|sid ids IH]; intros db HQ.
  - apply tx_wp_ret. rewrite fmap_nil, app_nil_r in HQ. by destruct db.
  - apply tx_wp_bind, tx_wp_notify; [done|]. apply IH. simpl.
    rewrite <- app_assoc. by destruct db.
Qed.

(** The three ways a transaction ends. *)
Lemma transaction_inv {A} (body : ST World (result (TxEnd A) ControllerError)) w r w'
    (QC : A → Db → Prop) (QR : A → Prop) QE :
  (∀ d, QE (Database d)) →
  tx_wp body (w_db w)
    (λ e db', match e with Commit x => QC x db' | Rollback x => QR x end) QE →
  transaction body w = (r, w') →
  (∃ e, r = Err e ∧ QE e ∧ w_db w' = w_db w) ∨
  (∃ x, r = Ok x ∧ QR x ∧ w_db w' = w_db w) ∨
  (∃ x, QC x (w_db w') ∧ (r = Ok x ∨ ∃ d, r = Err (Database d))).
Proof.
  intros HE Hb. unfold transaction. destruct (next_outcome w) as [[] os];
    [|intros [= <- <-]; left; eauto ..].
  specialize (Hb os). destruct (body _) as [[[x|x]|e] w1].
  - destruct (next_outcome w1) as [[] os']; intros [= <- <-]; [right; right|left|right; right]; eauto 10.
  - intros [= <- <-]. right; left. eauto.
  - intros [= <- <-]. left. eauto.
Qed.

Lemma run_stmt_inv {A} (q : Stmt A) w r w' :
  run_stmt q w = (r, w') →
  (∃ d, r = Err (Database d) ∧
     (w_db w' = w_db w ∨ ∃ x, q (w_db w) = Ok (x, w_db w'))) ∨
  (∃ x, q (w_db w) = Ok (x, w_db w') ∧ r = Ok x).
Proof.
  unfold run_stmt. destruct (next_outcome w) as [[] os];
    destruct (q (w_db w)) as [[x db']|e] eqn:E; intros [= <- <-]; simpl; eauto 10.
Qed.
End tx_logic.

Ltac tx_db_err := first [done | intros ?; by eexists | intros ?; left; by eexists].
Ltac tx_step :=
  lazymatch goal with
  | |- tx_wp (st_bind_ok _ _) _ _ _ => apply tx_wp_bind
  | |- tx_wp (tx_stmt _) _ _ _ => apply tx_wp_stmt; [tx_db_err|intros ?? ?]
  | |- tx_wp (notify_routing_change _ _ _) _ _ _ => apply tx_wp_notify; [tx_db_err|]
  | |- tx_wp (notify_removed _) _ _ _ => apply tx_wp_notify_removed; [tx_db_err|]
  | |- tx_wp (st_ret (Ok _)) _ _ _ => apply tx_wp_ret
  | |- tx_wp (st_ret (Err _)) _ _ _ => apply tx_wp_err
  end.

(** Invert the last statement executed. *)
Tactic Notation "tx_inv" uconstr(lem) "as" simple_intropattern(pat) :=
  match goal with Hq : _ = Ok (_, _) |- tx_wp _ _ _ _ => eapply lem in Hq as pat end.

(** Evaluate the statements that always succeed. *)
Ltac tx_unfold :=
  unfold sql_delete_route, sql_routes_of, sql_delete_routes_of, sql_select_agent,
    sql_select_sandbox, sql_delete_sandbox, sql_reserve, sql_update_state, stmt_ok in *;
  simplify_option_eq.

(** ** The database as an abstract store *)

Section view.
Context `{UuidLib}.
Implicit Types (db : Db) (w : World).

Definition row_reservation (r : SandboxRow) : Reservation :=
  {| rs_agent_id := s_agent_id r;
     rs_cpu_millicores := as_u32 (s_cpu_millicores r);
     rs_memory_bytes := as_u64 (s_memory_bytes r) |}.

Definition row_status (r : SandboxRow) : SandboxStateRow :=
  {| row_state := s_state r; row_error := s_error r |}.

Definition db_view (db : Db) : AbsStore :=
  {| as_agents := map_imap (λ a r, Some (into_record a r)) (db_agents db);
     as_routes := db_routing db;
     as_resv := row_reservation <$> db_sandboxes db;
     as_states := row_status <$> db_sandboxes db;
     as_hb := a_last_heartbeat_at <$> db_agents db;
     as_now := db_now db |}.

Definition agent_row_wf (r : AgentRow) : Prop :=
  in_i32 (a_cpu_cores r) ∧ in_i64 (a_memory_bytes r) ∧
  in_i32 (a_available_cpu_millicores r) ∧ in_i64 (a_available_memory_bytes r) ∧
  in_i32 (a_running_sandboxes r) ∧ (a_state r = "active" ∨ a_state r = "dead").

Record db_wf (db : Db) : Prop := {
  wf_rows : map_Forall (λ _, agent_row_wf) (db_agents db);
  wf_fk : map_Forall (λ _ a, is_Some (db_agents db !! a)) (db_routing db);
  wf_resv : map_Forall (λ _ r, in_i32 (s_cpu_millicores r) ∧ in_i64 (s_memory_bytes r))
              (db_sandboxes db);
}.

Lemma view_agent db a :
  as_agents (db_view db) !! a = into_record a <$> db_agents db !! a.
Proof. simpl. rewrite map_lookup_imap. by destruct (db_agents db !! a). Qed.

Lemma view_agents_insert db a r :
  as_agents (db_view (with_agents (<[a := r]> (db_agents db)) db)) =
  <[a := into_record a r]> (as_agents (db_view db)).
Proof. simpl. by rewrite map_imap_insert. Qed.

Lemma state_from_to_str st : state_from_str (state_to_str st) = st.
Proof. by destruct st. Qed.

Lemma row_active r :
  agent_row_wf r → a_state r = "active" ↔ state_from_str (a_state r) = Active.
Proof.
  intros (_ & _ & _ & _ & _ & [->| ->]); done.
Qed.
End view.

(** ** From statements and transactions to specifications *)

Section refine.
Context `{UuidLib}.
Implicit Types (db : Db) (w : World) (eff : AbsStore → AbsStore → Prop).

Definition is_database (e : ControllerError) : Prop := ∃ d, e = Database d.

Lemma run_stmt_writes {A} (q : Stmt A) (x : A) eff w r w' :
  db_wf (w_db w) →
  (∀ x' db', q (w_db w) = Ok (x', db') →
     x' = x ∧ db_wf db' ∧ eff (db_view (w_db w)) (db_view db')) →
  run_stmt q w = (r, w') →
  db_wf (w_db w') ∧ writes r x eff (db_view (w_db w)) (db_view (w_db w')).
Proof.
  intros Hwf Hq Hrun. unfold writes.
  apply run_stmt_inv in Hrun as [(d & -> & [->|[x' Hx]])|(x' & Hx & ->)]; [eauto 10| |];
    destruct (Hq _ _ Hx) as (-> & ? & ?); eauto 10.
Qed.

Lemma run_stmt_reads {A} (f : Db → A) (P : A → Prop) w r w' :
  db_wf (w_db w) → P (f (w_db w)) → run_stmt (λ db, stmt_ok (f db) db) w = (r, w') →
  db_wf (w_db w') ∧ reads r P (db_view (w_db w)) (db_view (w_db w')).
Proof.
  intros Hwf HP Hrun. unfold reads.
  apply run_stmt_inv in Hrun as [(d & -> & [->|[x' [= _ <-]]])|(x' & [= <- <-] & ->)];
    eauto 10.
Qed.

Lemma transaction_writes {A} body (x : A) eff w r w' :
  db_wf (w_db w) →
  tx_wp body (w_db w)
    (λ e db', match e with
       | Commit x' => x' = x ∧ db_wf db' ∧ eff (db_view (w_db w)) (db_view db')
       | Rollback _ => False
       end) is_database →
  transaction body w = (r, w') →
  db_wf (w_db w') ∧ writes r x eff (db_view (w_db w)) (db_view (w_db w')).
Proof.
  intros Hwf Hb Hrun. unfold writes.
  apply (transaction_inv _ _ _ _
    (λ x' db', x' = x ∧ db_wf db' ∧ eff (db_view (w_db w)) (db_view db'))
    (λ _, False) is_database) in Hrun; [|intros d; by exists d|exact Hb].
  destruct Hrun as [(e & -> & [d ->] & ->)|[(? & _ & [] & _)|(x' & (-> & ? & ?) & Hr)]];
    [eauto 10|]. destruct Hr as [->|[d ->]]; eauto 10.
Qed.

(** *** Well-formedness of updated databases *)

Lemma db_wf_notifications l db : db_wf db → db_wf (with_notifications l db).
Proof. by intros []. Qed.

Lemma db_wf_update_agent a r db :
  db_wf db → agent_row_wf r → db_wf (with_agents (<[a := r]> (db_agents db)) db).
Proof.
  intros [Hr Hf Hs] Hrow. split; simpl; [by apply map_Forall_insert_2| |done].
  intros s b Hb. destruct (decide (a = b)) as [->|]; [rewrite lookup_insert_eq; eauto|].
  rewrite lookup_insert_ne by done. by eapply Hf.
Qed.

Lemma db_wf_routing m db :
  db_wf db → map_Forall (λ _ a, is_Some (db_agents db !! a)) m → db_wf (with_routing m db).
Proof. by intros [] ?. Qed.

Lemma db_wf_filter_routes (P : SandboxId * AgentId → Prop) `{!∀ e, Decision (P e)} db :
  db_wf db → db_wf (with_routing (filter P (db_routing db)) db).
Proof.
  intros Hwf. apply db_wf_routing; [done|]. intros s a [? _]%map_lookup_filter_Some.
  by eapply wf_fk.
Qed.

Lemma db_wf_delete_route s db :
  db_wf db → db_wf (with_routing (delete s (db_routing db)) db).
Proof.
  intros Hwf. apply db_wf_routing; [done|]. apply map_Forall_delete, Hwf.
Qed.

Lemma db_wf_sandboxes m db :
  db_wf db →
  map_Forall (λ _ r, in_i32 (s_cpu_millicores r) ∧ in_i64 (s_memory_bytes r)) m →
  db_wf (with_sandboxes m db).
Proof. by intros [] ?. Qed.

Lemma as_i32_range z : in_i32 (as_i32 z).
Proof.
  unfold in_i32, as_i32, as_signed. pose proof (Z.mod_pos_bound z (2 ^ 32) ltac:(lia)).
  case_decide; lia.
Qed.
Lemma as_i64_range z : in_i64 (as_i64 z).
Proof.
  unfold in_i64, as_i64, as_signed. pose proof (Z.mod_pos_bound z (2 ^ 64) ltac:(lia)).
  case_decide; lia.
Qed.

(** *** The methods *)

Lemma pg_wf_agent_id db a rec :
  as_agents (db_view db) !! a = Some rec → ar_agent_id rec = a ∧ record_in_range rec.
Proof.
  rewrite view_agent, fmap_Some. intros (r & Hr & ->). split; [done|].
  unfold record_in_range, in_u32, in_u64. simpl.
  repeat split; apply as_unsigned_range; lia.
Qed.

Lemma into_record_save rec hb :
  record_in_range rec →
  into_record (ar_agent_id rec)
    {| a_cpu_cores := as_i32 (cpu_cores (ar_capacity rec));
       a_memory_bytes := as_i64 (memory_bytes (ar_capacity rec));
       a_available_cpu_millicores := as_i32 (av_cpu_millicores (ar_available rec));
       a_available_memory_bytes := as_i64 (av_memory_bytes (ar_available rec));
       a_running_sandboxes := as_i32 (av_running_sandboxes (ar_available rec));
       a_state := state_to_str (ar_state rec); a_last_heartbeat_at := hb |} = rec.
Proof.
  destruct rec as [id [] [] st]. unfold record_in_range, in_u32, in_u64, into_record. simpl.
  intros (? & ? & ? & ? & ?). unfold as_u32, as_u64, as_i32, as_i64.
  by rewrite !as_unsigned_signed, state_from_to_str by lia.
Qed.

Lemma pg_save_agent_refines rec w r w' :
  db_wf (w_db w) → record_in_range rec → pg_save_agent rec w = (r, w') →
  db_wf (w_db w') ∧
  writes r () (eff_save_agent rec) (db_view (w_db w)) (db_view (w_db w')).
Proof.
  intros Hwf Hrec. apply run_stmt_writes; [done|].
  intros ? db' [=<- <-]. split; [done|]. split.
  - apply db_wf_update_agent; [done|]. unfold agent_row_wf. simpl.
    repeat split; try apply as_i32_range; try apply as_i64_range.
    destruct (ar_state rec); auto.
  - unfold eff_save_agent. rewrite view_agents_insert, into_record_save by done.
    do 5 (split; [done|]). split; [intros b Hb; simpl; by rewrite !lookup_fmap, lookup_insert_ne|].
    simpl. rewrite !lookup_fmap, lookup_insert_eq. destruct (db_agents (w_db w) !! ar_agent_id rec); auto.
Qed.

Lemma pg_get_agent_refines a w r w' :
  db_wf (w_db w) → pg_get_agent a w = (r, w') →
  db_wf (w_db w') ∧
  reads r (λ o, o = as_agents (db_view (w_db w)) !! a) (db_view (w_db w)) (db_view (w_db w')).
Proof.
  intros Hwf. apply (run_stmt_reads (λ db, into_record a <$> db_agents db !! a)); [done|].
  by rewrite view_agent.
Qed.

Lemma pg_list_active_refines w r w' :
  db_wf (w_db w) → pg_list_active_agents w = (r, w') →
  db_wf (w_db w') ∧
  reads r (λ l, ∀ rec, rec ∈ l ↔ ar_state rec = Active ∧
    as_agents (db_view (w_db w)) !! ar_agent_id rec = Some rec)
    (db_view (w_db w)) (db_view (w_db w')).
Proof.
  intros Hwf. apply run_stmt_reads; [done|]. intros rec.
  rewrite list_elem_of_fmap, view_agent, fmap_Some. setoid_rewrite elem_of_map_to_list'.
  setoid_rewrite map_lookup_filter_Some. split.
  - intros ([a row] & -> & Hrow & Hact). simpl in *. split; [|eauto].
    apply row_active; [by eapply wf_rows|done].
  - intros (Hact & row & Hrow & Hrec). exists (ar_agent_id rec, row). simpl in *.
    split; [done|]. split; [done|]. apply row_active; [by eapply wf_rows|].
    by rewrite Hrec in Hact.
Qed.

Lemma pg_find_route_refines s w r w' :
  db_wf (w_db w) → pg_find_routing_entry s w = (r, w') →
  db_wf (w_db w') ∧
  reads r (λ o, o = (λ a, {| re_sandbox_id := s; re_agent_id := a |}) <$>
                     as_routes (db_view (w_db w)) !! s)
    (db_view (w_db w)) (db_view (w_db w')).
Proof. intros Hwf. by apply run_stmt_reads. Qed.

Lemma pg_list_routes_refines w r w' :
  db_wf (w_db w) → pg_list_routing_entries w = (r, w') →
  db_wf (w_db w') ∧
  reads r (λ l, NoDup l ∧ ∀ e, e ∈ l ↔
             as_routes (db_view (w_db w)) !! re_sandbox_id e = Some (re_agent_id e))
    (db_view (w_db w)) (db_view (w_db w')).
Proof.
  intros Hwf. apply run_stmt_reads; [done|]. simpl. split.
  - apply NoDup_fmap_2; [by intros [] [] [= -> ->]|].
    rewrite merge_sort_Permutation. apply NoDup_map_to_list.
  - intros e. rewrite list_elem_of_fmap. setoid_rewrite merge_sort_Permutation.
    setoid_rewrite elem_of_map_to_list'. split.
    + by intros ([s a] & -> & ?).
    + intros ?. exists (re_sandbox_id e, re_agent_id e). by destruct e.
Qed.

Lemma pg_get_state_refines s w r w' :
  db_wf (w_db w) → pg_get_sandbox_state s w = (r, w') →
  db_wf (w_db w') ∧
  reads r (λ o, o = as_states (db_view (w_db w)) !! s)
    (db_view (w_db w)) (db_view (w_db w')).
Proof. intros Hwf. apply run_stmt_reads; [done|]. simpl. by rewrite lookup_fmap. Qed.

Lemma pg_dead_agents_refines w r w' :
  db_wf (w_db w) → pg_dead_agents w = (r, w') →
  db_wf (w_db w') ∧
  reads r (λ l, ∀ a, a ∈ l ↔ is_active (as_agents (db_view (w_db w)) !! a) ∧
                             stale a (db_view (w_db w)))
    (db_view (w_db w)) (db_view (w_db w')).
Proof.
  intros Hwf. apply run_stmt_reads; [done|]. intros a. unfold is_active, stale.
  rewrite list_elem_of_fmap, view_agent. simpl. setoid_rewrite lookup_fmap.
  setoid_rewrite elem_of_map_to_list'. setoid_rewrite map_lookup_filter_Some. split.
  - intros ([b row] & -> & Hrow & Hact & Hold). simpl in *. rewrite Hrow. simpl.
    split; [|eauto]. eexists; split; [done|]. apply row_active; [by eapply wf_rows|done].
  - intros [(rec & (row & Hrow & ->)%fmap_Some & Hact) (t & Ht & Hold)].
    rewrite Hrow in Ht. simplify_eq/=. exists (a, row). simpl. repeat split; try done.
    apply row_active; [by eapply wf_rows|done].
Qed.
End refine.

Section refine_writes.
Context `{UuidLib}.
Implicit Types (db : Db) (w : World).

Lemma pg_remove_route_refines s w r w' :
  db_wf (w_db w) → pg_remove_routing_entry s w = (r, w') →
  db_wf (w_db w') ∧
  writes r () (eff_routes (delete s)) (db_view (w_db w)) (db_view (w_db w')).
Proof.
  intros Hwf. apply transaction_writes; [done|].
  repeat tx_step. tx_unfold.
  split; [done|]. split; [by apply db_wf_notifications, db_wf_delete_route|].
  by repeat split.
Qed.

Lemma pg_save_state_refines s a st err w r w' :
  db_wf (w_db w) → pg_save_sandbox_state s a st err w = (r, w') →
  db_wf (w_db w') ∧
  writes r () (eff_sandbox_state s st err) (db_view (w_db w)) (db_view (w_db w')).
Proof.
  intros Hwf. apply run_stmt_writes; [done|]. intros ? db' [= <- <-]. split; [done|]. split.
  - apply db_wf_sandboxes; [done|]. apply map_Forall_insert_2; [|apply Hwf].
    destruct (db_sandboxes (w_db w) !! s) as [old|] eqn:E; simpl; [|done].
    by apply (wf_resv _ Hwf s).
  - unfold eff_sandbox_state. simpl. rewrite !fmap_insert.
    split; [by destruct (db_sandboxes (w_db w) !! s)|]. do 2 (split; [done|]).
    split; [|done].
    rewrite lookup_fmap. destruct (db_sandboxes (w_db w) !! s) as [old|] eqn:E; simpl.
    + left. apply insert_id. rewrite lookup_fmap, E. by destruct old.
    + right. split; [done|]. by exists a.
Qed.

Lemma pg_heartbeat_refines a w r w' :
  db_wf (w_db w) → pg_record_heartbeat a w = (r, w') →
  db_wf (w_db w') ∧
  writes r () (eff_heartbeat a) (db_view (w_db w)) (db_view (w_db w')).
Proof.
  intros Hwf. apply run_stmt_writes; [done|]. intros ? db'.
  destruct (db_agents (w_db w) !! a) as [row|] eqn:E; intros [= <- <-]; (split; [done|]).
  - split; [apply db_wf_update_agent; [done|by eapply wf_rows in E]|].
    unfold eff_heartbeat. rewrite view_agents_insert. split.
    { rewrite insert_id; [done|]. rewrite view_agent, E. by destruct row. }
    simpl. do 4 (split; [done|]). split_and!; intros; rewrite lookup_fmap.
    + by rewrite lookup_insert_ne, lookup_fmap by done.
    + rewrite lookup_insert_eq. by right.
    + by rewrite lookup_insert_eq.
  - split; [done|]. unfold eff_heartbeat. repeat (split; [done|]). rewrite view_agent, E.
    split; [by left|by intros [? ?]].
Qed.

Lemma eff_mark_dead_row a row db l :
  db_agents db !! a = Some row →
  eff_mark_dead a (db_view db) (db_view (with_notifications l
    (with_routing (filter (λ e, e.2 ≠ a) (db_routing db))
      (with_agents (<[a := set_row_state "dead" row]> (db_agents db)) db)))).
Proof.
  intros Hrow. split; [|simpl; rewrite fmap_insert; repeat split].
  - exists (into_record a row). rewrite view_agent, Hrow. split; [done|].
    simpl. by rewrite map_imap_insert.
  - simpl. rewrite insert_id; [done|]. by rewrite lookup_fmap, Hrow.
Qed.

Lemma pg_mark_dead_refines a w r w' :
  db_wf (w_db w) → pg_mark_agent_dead_atomic a w = (r, w') →
  db_wf (w_db w') ∧
  (agent_missing r a (db_view (w_db w)) (db_view (w_db w')) ∨
   writes r () (eff_mark_dead a) (db_view (w_db w)) (db_view (w_db w'))).
Proof.
  intros Hwf Hrun. unfold pg_mark_agent_dead_atomic, agent_missing in *. rewrite view_agent.
  destruct (db_agents (w_db w) !! a) as [row|] eqn:E.
  - apply (transaction_writes _ () (eff_mark_dead a)) in Hrun as [??]; [auto|done|].
    do 2 tx_step. tx_unfold.
    repeat tx_step. tx_unfold. split; [done|]. split; [|by apply eff_mark_dead_row].
    apply db_wf_notifications, db_wf_routing.
    + apply db_wf_update_agent; [done|]. apply (wf_rows _ Hwf) in E. red in E. red. naive_solver.
    + intros s b [Hb _]%map_lookup_filter_Some. simpl. rewrite lookup_insert.
      case_decide; [eauto|]. by eapply wf_fk.
  - apply (transaction_inv _ _ _ _ (λ _ _, False) (λ _, False)
      (λ e, is_database e ∨ e = AgentNotFound (hyphenated a))) in Hrun; [|tx_db_err|].
    + destruct Hrun as [(e & -> & [[d ->]| ->] & ->)|[(?&?&?&?)|(?&?&?)]]; [|auto|done..].
      split; [done|]. right. right. eauto.
    + do 2 tx_step. tx_unfold. tx_step. auto.
Qed.
End refine_writes.

Section refine_capacity.
Context `{UuidLib}.
Implicit Types (db : Db) (w : World).

Lemma bind_result_Ok {A B E} (c : result A E) (k : A → result B E) b :
  bind_result c k = Ok b ↔ ∃ x, c = Ok x ∧ k x = Ok b.
Proof. destruct c; simpl; naive_solver. Qed.

Lemma pg_int4_Ok z x : pg_int4 z = Ok x ↔ x = z ∧ in_i32 z.
Proof. unfold pg_int4. case_decide; naive_solver. Qed.
Lemma pg_int8_Ok z x : pg_int8 z = Ok x ↔ x = z ∧ in_i64 z.
Proof. unfold pg_int8. case_decide; naive_solver. Qed.

(** The row after a debit or credit, when the arithmetic did not overflow. *)
Definition adjusted_row (r : AgentRow) (cpu mem running : Z) : AgentRow :=
  {| a_cpu_cores := a_cpu_cores r; a_memory_bytes := a_memory_bytes r;
     a_available_cpu_millicores := cpu; a_available_memory_bytes := mem;
     a_running_sandboxes := running; a_state := a_state r;
     a_last_heartbeat_at := a_last_heartbeat_at r |}.

Lemma sql_debit_Ok a row cpu mem db x db' :
  db_agents db !! a = Some row → sql_debit_agent a cpu mem db = Ok (x, db') →
  in_i32 (a_available_cpu_millicores row - cpu) ∧
  in_i64 (a_available_memory_bytes row - mem) ∧ in_i32 (a_running_sandboxes row + 1) ∧
  db' = with_agents (<[a := adjusted_row row (a_available_cpu_millicores row - cpu)
    (a_available_memory_bytes row - mem) (a_running_sandboxes row + 1)]> (db_agents db)) db.
Proof.
  intros Hrow. unfold sql_debit_agent. rewrite Hrow, !bind_result_Ok.
  intros (c & [-> ?]%pg_int4_Ok & Hk). rewrite bind_result_Ok in Hk.
  destruct Hk as (m & [-> ?]%pg_int8_Ok & Hk). rewrite bind_result_Ok in Hk.
  destruct Hk as (n & [-> ?]%pg_int4_Ok & [= _ <-]). done.
Qed.

Lemma sql_credit_Ok a row cpu mem db x db' :
  db_agents db !! a = Some row → sql_credit_agent a cpu mem db = Ok (x, db') →
  in_i32 (a_available_cpu_millicores row + cpu) ∧
  in_i64 (a_available_memory_bytes row + mem) ∧ in_i32 (a_running_sandboxes row - 1) ∧
  db' = with_agents (<[a := adjusted_row row (a_available_cpu_millicores row + cpu)
    (a_available_memory_bytes row + mem) (Z.max (a_running_sandboxes row - 1) 0)]>
    (db_agents db)) db.
Proof.
  intros Hrow. unfold sql_credit_agent. rewrite Hrow, !bind_result_Ok.
  intros (c & [-> ?]%pg_int4_Ok & Hk). rewrite bind_result_Ok in Hk.
  destruct Hk as (m & [-> ?]%pg_int8_Ok & Hk). rewrite bind_result_Ok in Hk.
  destruct Hk as (n & [-> ?]%pg_int4_Ok & [= _ <-]). done.
Qed.

Lemma sql_route_insert_Ok s a db x db' :
  sql_route_insert s a db = Ok (x, db') →
  db' = with_routing (<[s := a]> (db_routing db)) db.
Proof.
  unfold sql_route_insert, sql_route_upsert. repeat case_match; by intros [=].
Qed.

Lemma adjusted_row_wf row cpu mem running :
  agent_row_wf row → in_i32 cpu → in_i64 mem → in_i32 running →
  agent_row_wf (adjusted_row row cpu mem running).
Proof. unfold agent_row_wf, adjusted_row. simpl. tauto. Qed.

Lemma debit_record a row cpu mem :
  in_u32 cpu → in_u64 mem → fits cpu mem (into_record a row) →
  into_record a (adjusted_row row (a_available_cpu_millicores row - as_i32 cpu)
    (a_available_memory_bytes row - as_i64 mem) (a_running_sandboxes row + 1)) =
  set_available
    {| av_cpu_millicores := as_u32 (a_available_cpu_millicores row) - cpu;
       av_memory_bytes := as_u64 (a_available_memory_bytes row) - mem;
       av_running_sandboxes := as_u32 (a_running_sandboxes row + 1) |} (into_record a row).
Proof.
  unfold in_u32, in_u64, fits, into_record, set_available, adjusted_row. simpl.
  intros ? ? [??]. unfold as_u32, as_u64, as_i32, as_i64 in *.
  by rewrite !as_unsigned_sub by lia.
Qed.

Lemma eff_assign_row a s row cpu mem db l :
  db_agents db !! a = Some row → a_state row = "active" →
  in_u32 cpu → in_u64 mem → fits cpu mem (into_record a row) →
  db_sandboxes db !! s = None →
  eff_assign a s cpu mem (db_view db)
    (db_view (with_sandboxes (<[s := {| s_agent_id := a; s_state := "reserved";
         s_error := None; s_cpu_millicores := as_i32 cpu;
         s_memory_bytes := as_i64 mem |}]> (db_sandboxes db))
      (with_notifications l (with_routing (<[s := a]> (db_routing db))
        (with_agents (<[a := adjusted_row row
          (a_available_cpu_millicores row - as_i32 cpu)
          (a_available_memory_bytes row - as_i64 mem) (a_running_sandboxes row + 1)]>
          (db_agents db)) db))))).
Proof.
  intros Hrow Hact Hcpu Hmem Hfits Hs. exists (into_record a row).
  rewrite view_agent, Hrow. split; [done|]. split; [simpl; by rewrite Hact|].
  split; [done|]. split.
  - eexists. split; [simpl; rewrite map_imap_insert, debit_record by done; reflexivity|].
    simpl. intros ?. unfold as_u32 in *. rewrite as_unsigned_add; [|lia|]; simpl.
    + f_equal. + pose proof (as_unsigned_range 32 (a_running_sandboxes row) ltac:(lia)).
      change (as_unsigned 32 1) with 1%Z. lia.
  - simpl. split; [done|]. rewrite !fmap_insert.
    split; [|split; [intros; by rewrite lookup_insert_ne|split; [|done]]].
    + unfold row_reservation. simpl. unfold as_u32, as_u64, as_i32, as_i64.
      unfold in_u32, in_u64 in *. by rewrite !as_unsigned_signed by lia.
    + rewrite insert_id; [done|]. by rewrite lookup_fmap, Hrow.
Qed.

Lemma pg_try_assign_refines a s cpu mem w r w' :
  db_wf (w_db w) → in_u32 cpu → in_u64 mem →
  as_routes (db_view (w_db w)) !! s = None → as_resv (db_view (w_db w)) !! s = None →
  pg_try_assign_sandbox a s cpu mem w = (r, w') →
  db_wf (w_db w') ∧
  (agent_missing r a (db_view (w_db w)) (db_view (w_db w')) ∨
   (r = Ok false ∧ db_view (w_db w') = db_view (w_db w) ∧
    ∀ rec, as_agents (db_view (w_db w)) !! a = Some rec → ar_state rec = Active →
           ¬ fits cpu mem rec) ∨
   writes r true (eff_assign a s cpu mem) (db_view (w_db w)) (db_view (w_db w'))).
Proof.
  intros Hwf Hcpu Hmem Hroute Hresv Hrun. unfold agent_missing, writes.
  simpl in Hresv. rewrite lookup_fmap, fmap_None in Hresv.
  apply (transaction_inv _ _ _ _
    (λ x db', x = true ∧ db_wf db' ∧
              eff_assign a s cpu mem (db_view (w_db w)) (db_view db'))
    (λ x, x = false ∧ ∀ rec, as_agents (db_view (w_db w)) !! a = Some rec →
       ar_state rec = Active → ¬ fits cpu mem rec)
    (λ e, is_database e ∨ e = AgentNotFound (hyphenated a) ∧
            db_agents (w_db w) !! a = None)) in Hrun; [|tx_db_err|].
  { destruct Hrun as [(e & -> & [[d ->]|[-> ?]] & ->)|
      [(x & -> & [-> ?] & ->)|(x & (-> & ? & ?) & [->|[d ->]])]]; [by eauto 10| |by eauto 10..].
    split; [done|]. left. rewrite view_agent. by simplify_option_eq. }
  do 2 tx_step. tx_unfold. destruct (db_agents _ !! a) as [row|] eqn:E; [|tx_step; auto].
  assert (∀ rec, as_agents (db_view (w_db w)) !! a = Some rec → rec = into_record a row) as Hrec.
  { intros rec. rewrite view_agent, E. by intros [=]. }
  case_decide as Hact.
  { tx_step. split; [done|]. intros rec -> %Hrec Ha. destruct Hact.
    apply row_active; [by apply (wf_rows _ Hwf a)|done]. }
  case_decide as Hcap.
  { tx_step. split; [done|]. intros rec ->%Hrec Ha [??]. simpl in *. lia. }
  do 2 tx_step. tx_inv sql_debit_Ok as (? & ? & ? & ->); [|done].
  do 2 tx_step. tx_inv sql_route_insert_Ok as ->.
  repeat tx_step. unfold sql_reserve, stmt_ok in *. simpl in *. rewrite Hresv in *. simplify_eq.
  assert (fits cpu mem (into_record a row)) by (split; simpl; lia).
  split; [done|]. split; [|by apply eff_assign_row].
  apply db_wf_sandboxes.
  + apply db_wf_notifications, db_wf_routing.
    * apply db_wf_update_agent; [done|]. by apply adjusted_row_wf; [apply (wf_rows _ Hwf a)|..].
    * apply map_Forall_insert_2; [simpl; rewrite lookup_insert_eq; eauto|].
      intros s' b Hb. simpl. rewrite lookup_insert. case_decide; [eauto|]. by eapply wf_fk.
  + apply map_Forall_insert_2; [|apply Hwf]. split; [apply as_i32_range|apply as_i64_range].
Qed.
End refine_capacity.

Section refine_release.
Context `{UuidLib}.
Implicit Types (db : Db) (w : World).

Lemma credit_record a row cpu mem :
  credit_safe (as_u32 cpu) (as_u64 mem) (into_record a row) →
  as_u32 (a_available_cpu_millicores row + cpu) = (as_u32 (a_available_cpu_millicores row) + as_u32 cpu)%Z ∧
  as_u64 (a_available_memory_bytes row + mem) = (as_u64 (a_available_memory_bytes row) + as_u64 mem)%Z.
Proof.
  unfold credit_safe, into_record. simpl.
  unfold as_u32, as_u64 in *. intros [??]. by rewrite !as_unsigned_add by lia.
Qed.

Lemma credit_running row :
  agent_row_wf row → (as_u32 (a_running_sandboxes row) < 2 ^ 31)%Z →
  as_u32 (Z.max (a_running_sandboxes row - 1) 0) =
  Z.max (as_u32 (a_running_sandboxes row) - 1) 0.
Proof.
  intros (_ & _ & _ & _ & Hn & _). unfold in_i32, as_u32 in *. intros Hs.
  rewrite (as_unsigned_small_inv 32 (a_running_sandboxes row)) in * by lia.
  by rewrite as_unsigned_id by lia.
Qed.

(** The credit statement, whether or not the agent still exists. *)
Lemma sql_credit_spec s r db x db1 :
  db_wf db → db_sandboxes db !! s = Some r →
  sql_credit_agent (s_agent_id r) (s_cpu_millicores r) (s_memory_bytes r) db = Ok (x, db1) →
  db_wf db1 ∧
  (∀ db2, db_agents db2 = db_agents db1 → db_routing db2 = delete s (db_routing db) →
     db_sandboxes db2 = delete s (db_sandboxes db) → db_now db2 = db_now db →
     eff_release s (row_reservation r) (db_view db) (db_view db2)) ∧
  db_routing db1 = db_routing db ∧ db_sandboxes db1 = db_sandboxes db ∧ db_now db1 = db_now db.
Proof.
  intros Hwf Hs Hq. destruct (db_agents db !! s_agent_id r) as [row|] eqn:E.
  - destruct (sql_credit_Ok _ _ _ _ _ _ _ E Hq) as (? & ? & ? & ->).
    pose proof (wf_rows _ Hwf _ _ E) as Hrow. simpl in Hrow. split; [|split; [|done]].
    { apply db_wf_update_agent; [done|]. apply adjusted_row_wf; [done..|].
      unfold in_i32 in *. lia. }
    intros db2 Ha Hr Hsb Hn. unfold eff_release. rewrite view_agent. simpl.
    rewrite E, Ha, Hr, Hsb, Hn. simpl. rewrite !fmap_insert, !fmap_delete, map_imap_insert.
    split; [|split; [done|repeat split]].
    + intros rec [= <-]. do 3 eexists. split; [done|]. split; [apply credit_record|].
      by apply credit_running.
    + intros. by rewrite lookup_delete_ne.
    + rewrite insert_id; [done|]. by rewrite lookup_fmap, E.
  - unfold sql_credit_agent in Hq. rewrite E in Hq. injection Hq as _ <-.
    split; [done|]. split; [|done].
    intros db2 Ha Hr Hsb Hn. unfold eff_release. rewrite view_agent. simpl.
    rewrite E, Ha, Hr, Hsb, Hn. simpl. rewrite !fmap_delete.
    repeat split; [by intros|intros; by rewrite lookup_delete_ne].
Qed.

Lemma pg_release_refines s w r w' :
  db_wf (w_db w) → pg_release_sandbox s w = (r, w') →
  db_wf (w_db w') ∧
  match as_resv (db_view (w_db w)) !! s with
  | None => (r = Ok None ∨ ∃ d, r = Err (Database d)) ∧
            db_view (w_db w') = db_view (w_db w)
  | Some rs => writes r (Some (rs_agent_id rs)) (eff_release s rs)
                 (db_view (w_db w)) (db_view (w_db w'))
  end.
Proof.
  intros Hwf Hrun. simpl. rewrite lookup_fmap. destruct (db_sandboxes _ !! s) as [row|] eqn:E.
  - eapply transaction_writes in Hrun; [exact Hrun|done|]. do 2 tx_step. tx_unfold.
    do 2 tx_step. pose proof (sql_credit_spec s row _ _ _ Hwf E H0) as (? & Heff & Hr & Hsb & Hn).
    repeat tx_step. tx_unfold. split; [done|]. split.
    + apply db_wf_sandboxes; [by apply db_wf_notifications, db_wf_delete_route|].
      simpl. rewrite Hsb. apply map_Forall_delete. by apply wf_resv.
    + apply Heff; simpl; congruence.
  - apply (transaction_inv _ _ _ _ (λ _ _, False) (λ x, x = None) is_database) in Hrun;
      [|tx_db_err|].
    + destruct Hrun as [(e & -> & [d ->] & ->)|[(x & -> & -> & ->)|(?&?&?)]]; [..|done]; simpl; eauto.
    + do 2 tx_step. tx_unfold. by tx_step.
Qed.
End refine_release.

(** The Postgres store implements the store interface: for every fault script, every
    call preserves the schema's invariants and refines its abstract specification; in
    particular a transaction happens as a whole or not at all. *)
#[export] Instance PgStoreSpec `{UuidLib} : StoreSpec World := {
  view w := db_view (w_db w);
  store_wf w := db_wf (w_db w);
  wf_agent_id w a rec _ := pg_wf_agent_id (w_db w) a rec;
  save_agent_spec := pg_save_agent_refines;
  get_agent_spec := pg_get_agent_refines;
  list_active_agents_spec := pg_list_active_refines;
  find_routing_entry_spec := pg_find_route_refines;
  list_routing_entries_spec := pg_list_routes_refines;
  remove_routing_entry_spec := pg_remove_route_refines;
  save_sandbox_state_spec := pg_save_state_refines;
  get_sandbox_state_spec := pg_get_state_refines;
  mark_agent_dead_spec := pg_mark_dead_refines;
  try_assign_spec := pg_try_assign_refines;
  release_spec := pg_release_refines;
  record_heartbeat_spec := pg_heartbeat_refines;
  dead_agents_spec := pg_dead_agents_refines;
}.

(** ** With no fault left in the script, the calls answer *)

Section reliable.
Context `{UuidLib}.

Lemma run_stmt_answers {A} (q : Stmt A) w r w' :
  (∀ db, ∃ x db', q db = Ok (x, db')) → w_faults w = [] → run_stmt q w = (r, w') →
  w_faults w' = [] ∧ ∀ d, r ≠ Err (Database d).
Proof.
  intros Hq Hw. unfold run_stmt, next_outcome. rewrite Hw.
  destruct (Hq (w_db w)) as (x & db' & ->). by intros [= <- <-].
Qed.

Lemma notify_removed_answers ids w :
  w_faults w = [] → ∃ w', notify_removed ids w = (Ok (), w') ∧ w_faults w' = [].
Proof.
  revert w. induction ids as [|s ids IH]; intros w Hw; simpl; [by exists w|].
  unfold st_bind_ok, st_bind, notify_routing_change, tx_stmt, next_outcome. rewrite Hw. simpl.
  by apply IH.
Qed.

Lemma mark_dead_answers a w r w' :
  w_faults w = [] → pg_mark_agent_dead_atomic a w = (r, w') →
  w_faults w' = [] ∧ ∀ d, r ≠ Err (Database d).
Proof.
  intros Hw. unfold pg_mark_agent_dead_atomic, transaction, st_bind_ok, st_bind, tx_stmt,
    next_outcome, sql_update_state. rewrite Hw. simpl.
  destruct (db_agents (w_db w) !! a) as [row|]; simpl; [|by intros [= <- <-]].
  match goal with |- context [notify_removed ?l ?w0] =>
    destruct (notify_removed_answers l w0 eq_refl) as (w1 & -> & Hw1) end.
  simpl. rewrite Hw1. by intros [= <- <-].
Qed.
End reliable.

#[export] Instance PgStoreReliable `{UuidLib} : StoreReliable World.
Proof.
  refine {| reliable w := w_faults w = [] |}.
  all: repeat intro; simpl in *.
  all: try (eapply run_stmt_answers; [|done..]; intros db; unfold stmt_ok; repeat case_match; eauto).
  by eapply mark_dead_answers.
Defined.
