(* ===== verification/MemStore.v ===== *)
(** * The in-memory store (crates/controller/src/testutil.rs)

    The store the controller's own tests and single-process setups run on. Its routing
    table is a vector; the model keeps it as a list, with the scans the code makes. *)

From S2P Require Import Prelude Contracts Store.

Record MemStore `{UuidLib} := {
  m_agents : gmap AgentId AgentRecord;
  m_routing : list RoutingEntry;
  m_sandbox_states : gmap SandboxId SandboxStateRow;
  m_reservations : gmap SandboxId Reservation;
  m_heartbeats : gmap AgentId Z;
  m_now : Z;
}.

Section methods.
Context `{UuidLib}.
Implicit Types (m : MemStore).

Definition mem_set (ag : gmap AgentId AgentRecord) (ro : list RoutingEntry)
    (rs : gmap SandboxId Reservation) m : MemStore :=
  {| m_agents := ag; m_routing := ro; m_sandbox_states := m_sandbox_states m;
     m_reservations := rs; m_heartbeats := m_heartbeats m; m_now := m_now m |}.

Definition saturating_add (max a b : Z) : Z := Z.min (a + b) max.
Definition saturating_sub (a b : Z) : Z := Z.max (a - b) 0.

Definition mem_save_agent (rec : AgentRecord) : ST MemStore (result () ControllerError) :=
  λ m, (Ok (), mem_set (<[ar_agent_id rec := rec]> (m_agents m)) (m_routing m)
                 (m_reservations m) m).

Definition mem_get_agent (a : AgentId)
    : ST MemStore (result (option AgentRecord) ControllerError) :=
  λ m, (Ok (m_agents m !! a), m).

Definition mem_remove_agent (a : AgentId) : ST MemStore (result () ControllerError) :=
  λ m, (Ok (), mem_set (delete a (m_agents m)) (m_routing m) (m_reservations m) m).

Definition mem_list_active_agents
    : ST MemStore (result (list AgentRecord) ControllerError) :=
  λ m, (Ok (filter (λ rec, ar_state rec = Active) (map_to_list (m_agents m)).*2), m).

Definition mem_update_agent_state (a : AgentId) (st : AgentState)
    : ST MemStore (result () ControllerError) :=
  λ m, match m_agents m !! a with
       | Some rec => (Ok (), mem_set (<[a := set_state st rec]> (m_agents m)) (m_routing m)
                               (m_reservations m) m)
       | None => (Err (AgentNotFound (hyphenated a)), m)
       end.

Definition mem_insert_routing_entry (e : RoutingEntry)
    : ST MemStore (result () ControllerError) :=
  λ m, (Ok (), mem_set (m_agents m) (m_routing m ++ [e]) (m_reservations m) m).

Definition mem_remove_routing_entries_for_agent (a : AgentId)
    : ST MemStore (result () ControllerError) :=
  λ m, (Ok (), mem_set (m_agents m) (filter (λ e, re_agent_id e ≠ a) (m_routing m))
                 (m_reservations m) m).

Definition mem_find_routing_entry (s : SandboxId)
    : ST MemStore (result (option RoutingEntry) ControllerError) :=
  λ m, (Ok (snd <$> list_find (λ e, re_sandbox_id e = s) (m_routing m)), m).

Definition mem_list_routing_entries
    : ST MemStore (result (list RoutingEntry) ControllerError) :=
  λ m, (Ok (m_routing m), m).

Definition mem_remove_routing_entry (s : SandboxId)
    : ST MemStore (result () ControllerError) :=
  λ m, (Ok (), mem_set (m_agents m) (filter (λ e, re_sandbox_id e ≠ s) (m_routing m))
                 (m_reservations m) m).

Definition mem_save_sandbox_state (s : SandboxId) (_ : AgentId) (st : string)
    (err : option string) : ST MemStore (result () ControllerError) :=
  λ m, (Ok (),
    {| m_agents := m_agents m; m_routing := m_routing m;
       m_sandbox_states := <[s := {| row_state := st; row_error := err |}]>
                             (m_sandbox_states m);
       m_reservations := m_reservations m; m_heartbeats := m_heartbeats m;
       m_now := m_now m |}).

Definition mem_get_sandbox_state (s : SandboxId)
    : ST MemStore (result (option SandboxStateRow) ControllerError) :=
  λ m, (Ok (m_sandbox_states m !! s), m).

Definition mem_mark_agent_dead_atomic (a : AgentId)
    : ST MemStore (result () ControllerError) :=
  λ m, match m_agents m !! a with
       | Some rec =>
           (Ok (), mem_set (<[a := set_state Dead rec]> (m_agents m))
                     (filter (λ e, re_agent_id e ≠ a) (m_routing m)) (m_reservations m) m)
       | None => (Err (AgentNotFound (hyphenated a)), m)
       end.

Definition mem_try_assign_sandbox (a : AgentId) (s : SandboxId) (cpu mem : Z)
    : ST MemStore (result bool ControllerError) :=
  λ m, match m_agents m !! a with
       | None => (Err (AgentNotFound (hyphenated a)), m)
       | Some rec =>
           if decide (ar_state rec ≠ Active) then (Ok false, m) else
           if decide (av_cpu_millicores (ar_available rec) < cpu ∨
                      av_memory_bytes (ar_available rec) < mem)%Z then (Ok false, m) else
           (Ok true, mem_set
             (<[a := set_available
                {| av_cpu_millicores := av_cpu_millicores (ar_available rec) - cpu;
                   av_memory_bytes := av_memory_bytes (ar_available rec) - mem;
                   av_running_sandboxes := saturating_add u32_max
                     (av_running_sandboxes (ar_available rec)) 1 |} rec]> (m_agents m))
             (m_routing m ++ [{| re_sandbox_id := s; re_agent_id := a |}])
             (<[s := {| rs_agent_id := a; rs_cpu_millicores := cpu;
                        rs_memory_bytes := mem |}]> (m_reservations m)) m)
       end.

Definition saturating_credit (rs : Reservation) (rec : AgentRecord) : AgentRecord :=
  set_available
    {| av_cpu_millicores := saturating_add u32_max (av_cpu_millicores (ar_available rec))
                              (rs_cpu_millicores rs);
       av_memory_bytes := saturating_add u64_max (av_memory_bytes (ar_available rec))
                            (rs_memory_bytes rs);
       av_running_sandboxes := saturating_sub (av_running_sandboxes (ar_available rec)) 1 |}
    rec.

Definition mem_release_sandbox (s : SandboxId)
    : ST MemStore (result (option AgentId) ControllerError) :=
  λ m, match m_reservations m !! s with
       | None => (Ok None, m)
       | Some rs =>
           (Ok (Some (rs_agent_id rs)), mem_set
             (alter (saturating_credit rs) (rs_agent_id rs) (m_agents m))
             (filter (λ e, re_sandbox_id e ≠ s) (m_routing m))
             (delete s (m_reservations m)) m)
       end.

Definition mem_record_heartbeat (a : AgentId) : ST MemStore (result () ControllerError) :=
  λ m, (Ok (),
    {| m_agents := m_agents m; m_routing := m_routing m;
       m_sandbox_states := m_sandbox_states m; m_reservations := m_reservations m;
       m_heartbeats := <[a := m_now m]> (m_heartbeats m); m_now := m_now m |}).

Definition mem_dead_agents : ST MemStore (result (list AgentId) ControllerError) :=
  λ m, (Ok (filter (λ a, ar_state <$> m_agents m !! a = Some Active)
             (filter (λ e, (m_now m - e.2 > DEAD_AGENT_TIMEOUT)%Z)
                (map_to_list (m_heartbeats m))).*1), m).
End methods.

#[export] Instance InMemoryStore `{UuidLib} : ControllerStore MemStore := {
  save_agent := mem_save_agent;
  get_agent := mem_get_agent;
  remove_agent := mem_remove_agent;
  list_active_agents := mem_list_active_agents;
  update_agent_state := mem_update_agent_state;
  insert_routing_entry := mem_insert_routing_entry;
  remove_routing_entries_for_agent := mem_remove_routing_entries_for_agent;
  find_routing_entry := mem_find_routing_entry;
  list_routing_entries := mem_list_routing_entries;
  remove_routing_entry := mem_remove_routing_entry;
  save_sandbox_state := mem_save_sandbox_state;
  get_sandbox_state := mem_get_sandbox_state;
  mark_agent_dead_atomic := mem_mark_agent_dead_atomic;
  try_assign_sandbox := mem_try_assign_sandbox;
  release_sandbox := mem_release_sandbox;
  record_heartbeat := mem_record_heartbeat;
  dead_agents := mem_dead_agents;
}.

(** ** Refinement *)

Section proofs.
Context `{UuidLib}.
Implicit Types (m : MemStore) (l : list RoutingEntry).

Definition route_map l : gmap SandboxId AgentId :=
  list_to_map ((λ e, (re_sandbox_id e, re_agent_id e)) <$> l).

Definition mem_view m : AbsStore :=
  {| as_agents := m_agents m; as_routes := route_map (m_routing m);
     as_resv := m_reservations m; as_states := m_sandbox_states m;
     as_hb := m_heartbeats m; as_now := m_now m |}.

Definition reservation_wf (rs : Reservation) : Prop :=
  in_u32 (rs_cpu_millicores rs) ∧ in_u64 (rs_memory_bytes rs).

Record mem_wf m : Prop := {
  mwf_agents : map_Forall (λ a rec, ar_agent_id rec = a ∧ record_in_range rec) (m_agents m);
  mwf_routing : NoDup (re_sandbox_id <$> m_routing m);
  mwf_resv : map_Forall (λ _, reservation_wf) (m_reservations m);
}.

Lemma route_map_nodup_fst l :
  ((λ e, (re_sandbox_id e, re_agent_id e)) <$> l).*1 = re_sandbox_id <$> l.
Proof. by rewrite <- list_fmap_compose. Qed.

Lemma route_map_Some l s a :
  NoDup (re_sandbox_id <$> l) →
  route_map l !! s = Some a ↔ {| re_sandbox_id := s; re_agent_id := a |} ∈ l.
Proof.
  intros Hnd. unfold route_map. rewrite <- elem_of_list_to_map by by rewrite route_map_nodup_fst.
  rewrite list_elem_of_fmap. split.
  - by intros ([] & [= -> ->] & ?).
  - intros. eexists. by split; [|done].
Qed.

Lemma route_map_filter (P : RoutingEntry → Prop) `{!∀ e, Decision (P e)}
    (Q : SandboxId * AgentId → Prop) `{!∀ e, Decision (Q e)} l :
  (∀ e, P e ↔ Q (re_sandbox_id e, re_agent_id e)) →
  NoDup (re_sandbox_id <$> l) →
  NoDup (re_sandbox_id <$> filter P l) ∧ route_map (filter P l) = filter Q (route_map l).
Proof.
  intros HPQ Hnd. assert (NoDup (re_sandbox_id <$> filter P l)) as Hnd'.
  { eapply sublist_NoDup; [exact Hnd|]. apply fmap_sublist, sublist_filter. }
  split; [done|]. apply map_eq. intros s. apply option_eq. intros a.
  rewrite route_map_Some, map_lookup_filter_Some, route_map_Some by done.
  rewrite list_elem_of_filter, HPQ. simpl. tauto.
Qed.

Lemma route_map_fresh l s : route_map l !! s = None → s ∉ (re_sandbox_id <$> l).
Proof.
  intros Hs%not_elem_of_list_to_map. by rewrite route_map_nodup_fst in Hs.
Qed.

Lemma route_map_snoc l s a :
  NoDup (re_sandbox_id <$> l) → route_map l !! s = None →
  NoDup (re_sandbox_id <$> l ++ [{| re_sandbox_id := s; re_agent_id := a |}]) ∧
  route_map (l ++ [{| re_sandbox_id := s; re_agent_id := a |}]) = <[s := a]> (route_map l).
Proof.
  intros Hnd Hs. pose proof (route_map_fresh _ _ Hs) as Hni. split.
  - rewrite fmap_app. apply NoDup_app. split; [done|]. split; [|apply NoDup_singleton].
    intros x Hx ->%list_elem_of_singleton. done.
  - unfold route_map in *. rewrite fmap_app, list_to_map_app. simpl.
    rewrite insert_empty. rewrite insert_union_singleton_l.
    apply map_union_comm. by apply map_disjoint_singleton_r.
Qed.
End proofs.

Section laws.
Context `{UuidLib}.
Implicit Types (m : MemStore).

Lemma mem_wf_agent m a rec :
  mem_wf m → ar_agent_id rec = a → record_in_range rec →
  map_Forall (λ a rec, ar_agent_id rec = a ∧ record_in_range rec)
    (<[a := rec]> (m_agents m)).
Proof. intros Hwf ??. by apply map_Forall_insert_2; [|apply Hwf]. Qed.

Lemma mem_mark_dead_refines a m r m' :
  mem_wf m → mem_mark_agent_dead_atomic a m = (r, m') →
  mem_wf m' ∧ (agent_missing r a (mem_view m) (mem_view m') ∨
               writes r () (eff_mark_dead a) (mem_view m) (mem_view m')).
Proof.
  intros Hwf. unfold mem_mark_agent_dead_atomic, agent_missing, writes.
  destruct (m_agents m !! a) as [rec|] eqn:E; intros [= <- <-]; [|by auto].
  destruct (mwf_agents _ Hwf _ _ E) as [??].
  destruct (route_map_filter (λ e, re_agent_id e ≠ a) (λ e, e.2 ≠ a) (m_routing m))
    as [? Hr]; [done|apply Hwf|].
  split; [split; simpl; [by apply mem_wf_agent|done|apply Hwf]|]. right. left. split; [done|].
  split; [eauto|]. by repeat split.
Qed.

Lemma mem_try_assign_refines a s cpu mem m r m' :
  mem_wf m → in_u32 cpu → in_u64 mem →
  as_routes (mem_view m) !! s = None → as_resv (mem_view m) !! s = None →
  mem_try_assign_sandbox a s cpu mem m = (r, m') →
  mem_wf m' ∧
  (agent_missing r a (mem_view m) (mem_view m') ∨
   (r = Ok false ∧ mem_view m' = mem_view m ∧
    ∀ rec, as_agents (mem_view m) !! a = Some rec → ar_state rec = Active →
           ¬ fits cpu mem rec) ∨
   writes r true (eff_assign a s cpu mem) (mem_view m) (mem_view m')).
Proof.
  intros Hwf Hcpu Hmem Hs Hrs. unfold mem_try_assign_sandbox, agent_missing, writes.
  destruct (m_agents m !! a) as [rec|] eqn:E; [|intros [= <- <-]; by auto].
  destruct (mwf_agents _ Hwf _ _ E) as [? Hrec].
  case_decide as Hact; [intros [= <- <-]; split; [done|]; right; left; simpl; naive_solver|].
  case_decide as Hcap.
  { intros [= <- <-]. split; [done|]. right; left. simpl. do 2 (split; [done|]).
    rewrite E. intros ? [= <-] ? [??]. lia. }
  intros [= <- <-].
  destruct (route_map_snoc (m_routing m) s a) as [? Hr]; [apply Hwf|done|].
  unfold record_in_range, in_u32, in_u64 in *. split; [split; simpl|].
  - apply mem_wf_agent; [done|done|]. unfold record_in_range, in_u32, in_u64, saturating_add, u32_max.
    simpl. lia.
  - done.
  - apply map_Forall_insert_2; [done|apply Hwf].
  - right; right; left. split; [done|]. exists rec. simpl. rewrite E. do 2 (split; [done|]).
    split; [split; lia|]. split; [|by rewrite Hr].
    eexists. split; [done|]. intros. unfold saturating_add, u32_max. lia.
Qed.

Lemma mem_release_refines s m r m' :
  mem_wf m → mem_release_sandbox s m = (r, m') →
  mem_wf m' ∧
  match as_resv (mem_view m) !! s with
  | None => (r = Ok None ∨ ∃ d, r = Err (Database d)) ∧ mem_view m' = mem_view m
  | Some rs => writes r (Some (rs_agent_id rs)) (eff_release s rs) (mem_view m) (mem_view m')
  end.
Proof.
  intros Hwf. unfold mem_release_sandbox, writes. simpl.
  destruct (m_reservations m !! s) as [rs|] eqn:E; intros [= <- <-]; [|by auto].
  destruct (route_map_filter (λ e, re_sandbox_id e ≠ s) (λ e, e.1 ≠ s) (m_routing m))
    as [? Hr]; [done|apply Hwf|].
  destruct (mwf_resv _ Hwf _ _ E) as [??]. unfold in_u32, in_u64 in *. split; [split; simpl|].
  - intros a rec. rewrite lookup_alter. case_decide; [|apply Hwf]. subst.
    rewrite fmap_Some. intros (rec' & Hrec' & ->). destruct (mwf_agents _ Hwf _ _ Hrec') as [? Hin].
    split; [done|]. unfold saturating_credit, record_in_range, in_u32, in_u64, saturating_add, saturating_sub,
      u32_max, u64_max in *. simpl. lia.
  - done.
  - apply map_Forall_delete, Hwf.
  - left. split; [done|]. unfold eff_release. simpl.
    assert (route_map (filter (λ e, re_sandbox_id e ≠ s) (m_routing m)) =
            delete s (route_map (m_routing m))) as ->.
    { rewrite Hr. apply map_eq. intros s'. rewrite map_lookup_filter, lookup_delete.
      case_decide; subst; destruct (route_map _ !! s'); simpl; try done; by case_guard. }
    split; [|split; [|done]].
    + intros rec Hrec. destruct (mwf_agents _ Hwf _ _ Hrec) as [? Hin].
      do 3 eexists. split; [|split; [|intros; reflexivity]].
      * apply map_eq. intros a. rewrite lookup_alter, lookup_insert. case_decide; [|done]. subst.
        by rewrite Hrec.
      * intros [??]. unfold saturating_add, u32_max, u64_max, record_in_range, in_u32, in_u64 in *. lia.
    + intros Hnone. apply map_eq. intros a. rewrite lookup_alter. case_decide; [|done].
      subst. by rewrite Hnone.
Qed.

Lemma mem_list_active_refines m r m' :
  mem_wf m → mem_list_active_agents m = (r, m') → mem_wf m' ∧
  reads r (λ l, ∀ rec, rec ∈ l ↔
    ar_state rec = Active ∧ as_agents (mem_view m) !! ar_agent_id rec = Some rec)
    (mem_view m) (mem_view m').
Proof.
  intros Hwf [= <- <-]. split; [done|]. split; [done|]. left. eexists. split; [done|].
  intros rec. rewrite list_elem_of_filter, list_elem_of_fmap. simpl.
  setoid_rewrite elem_of_map_to_list'. split.
  - intros (? & [a ?] & -> & Ha). simpl in *. split; [done|].
    by destruct (mwf_agents _ Hwf _ _ Ha) as [-> _].
  - intros [? Ha]. split; [done|]. by exists (ar_agent_id rec, rec).
Qed.

Lemma mem_dead_agents_refines m r m' :
  mem_wf m → mem_dead_agents m = (r, m') → mem_wf m' ∧
  reads r (λ l, ∀ a, a ∈ l ↔ is_active (as_agents (mem_view m) !! a) ∧ stale a (mem_view m))
    (mem_view m) (mem_view m').
Proof.
  intros Hwf [= <- <-]. split; [done|]. split; [done|]. left. eexists. split; [done|].
  intros a. unfold is_active, stale. rewrite list_elem_of_filter, list_elem_of_fmap. simpl.
  setoid_rewrite list_elem_of_filter. setoid_rewrite elem_of_map_to_list'. rewrite fmap_Some. split.
  - intros ((rec & ? & ?) & [b t] & -> & ? & ?). simpl in *. split; [by exists rec|].
    exists t. split; [done|lia].
  - intros ((rec & ? & ?) & t & ? & ?). split; [by exists rec|]. exists (a, t). simpl.
    split; [done|]. split; [lia|done].
Qed.
End laws.

#[export] Instance InMemoryStoreSpec `{UuidLib} : StoreSpec MemStore.
Proof.
  refine {| view := mem_view; store_wf := mem_wf;
    list_active_agents_spec := mem_list_active_refines;
    mark_agent_dead_spec := mem_mark_dead_refines;
    try_assign_spec := mem_try_assign_refines;
    release_spec := mem_release_refines;
    dead_agents_spec := mem_dead_agents_refines |}.
  - intros w a rec Hwf Ha. by apply (mwf_agents _ Hwf).
  - intros rec w r w' Hwf Hrec [= <- <-]. split.
    + split; simpl; [by apply mem_wf_agent|apply Hwf|apply Hwf].
    + left. split; [done|]. do 6 (split; [done|]). by left.
  - intros a w r w' Hwf [= <- <-]. split; [done|]. split; [done|]. left. eauto.
  - intros s w r w' Hwf [= <- <-]. split; [done|]. split; [done|]. left. eexists. split; [done|].
    simpl. destruct (list_find _ (m_routing w)) as [[i e]|] eqn:Ef; simpl.
    + apply list_find_Some in Ef as (He & <- & _). apply list_elem_of_lookup_2 in He.
      destruct e as [s a]. apply route_map_Some in He; [|apply Hwf]. simpl. by rewrite He.
    + apply list_find_None in Ef. rewrite Forall_forall in Ef.
      destruct (route_map (m_routing w) !! s) eqn:Er; [|done].
      apply route_map_Some in Er; [|apply Hwf]. by apply Ef in Er.
  - intros w r w' Hwf [= <- <-]. split; [done|]. split; [done|]. left. eexists. split; [done|].
    simpl. split; [eapply NoDup_fmap_1, Hwf|].
    intros [s a]. by rewrite route_map_Some by apply Hwf.
  - intros s w r w' Hwf [= <- <-].
    destruct (route_map_filter (λ e, re_sandbox_id e ≠ s) (λ e, e.1 ≠ s) (m_routing w))
      as [? Hr]; [done|apply Hwf|]. split; [split; simpl; [apply Hwf|done|apply Hwf]|].
    left. split; [done|]. split; [|done]. simpl. rewrite Hr. apply map_eq. intros s'.
    rewrite map_lookup_filter, lookup_delete.
    case_decide; subst; destruct (route_map _ !! s'); simpl; try done; by case_guard.
  - intros s a st err w r w' Hwf [= <- <-]. split; [by destruct Hwf|]. left. split; [done|].
    repeat split. by left.
  - intros s w r w' Hwf [= <- <-]. split; [done|]. split; [done|]. left. eauto.
  - intros a w r w' Hwf [= <- <-]. split; [by destruct Hwf|]. left. split; [done|].
    unfold eff_heartbeat. simpl. do 5 (split; [done|]). split_and!.
    + intros b ?. by rewrite lookup_insert_ne.
    + rewrite lookup_insert_eq. by right.
    + by rewrite lookup_insert_eq.
Defined.

(** Concrete stores: well-formedness is decidable, so examples evaluate it. *)
#[export] Instance mem_wf_dec `{UuidLib} m : Decision (mem_wf m).
Proof.
  refine (cast_if_and3
    (decide (map_Forall (λ a rec, ar_agent_id rec = a ∧ record_in_range rec) (m_agents m)))
    (decide (NoDup (re_sandbox_id <$> m_routing m)))
    (decide (map_Forall (λ _, reservation_wf) (m_reservations m)))).
  all: abstract (first [by constructor | by intros []]).
Defined.

#[export] Instance InMemoryStoreReliable `{UuidLib} : StoreReliable MemStore.
Proof.
  refine {| reliable _ := True |}.
  all: repeat intro; simpl in *; split; [done|]; intros d ->.
  all: by repeat match goal with
    | H : ?m _ = _ |- _ => unfold m in H; simplify_eq
    | H : _ ?a ?m = _ |- _ => unfold mem_mark_agent_dead_atomic in H; repeat case_match; simplify_eq
    end.
Defined.
