(* ===== verification/ControllerCore.v ===== *)
(** * Registry, scheduler, heartbeat monitor and admin auth of the controller

    crates/controller/src/{registry,scheduler,heartbeat,auth,error_status}.rs. The
    scheduler's theorems are proved for every store that satisfies [StoreSpec]; the last
    part runs it while other controllers change the store between its calls. *)

From S2P Require Import Prelude Contracts UuidRef Store MemStore.

(** ** tonic's [Status], with the [x-os-error-code] trailer the sources attach *)

Inductive Code :=
| InvalidArgument | NotFound | FailedPrecondition | ResourceExhausted | CodeInternal
| Unauthenticated | Unavailable | PermissionDenied | AlreadyExists | Aborted
| DeadlineExceeded | Cancelled | Unimplemented | Unknown | OutOfRange | DataLoss.
#[global] Instance Code_eq_dec : EqDecision Code.
Proof. solve_decision. Defined.

Record Status := { code : Code; message : string; trailer : option string }.

Definition status (c : Code) (m : string) : Status :=
  {| code := c; message := m; trailer := None |}.

Definition controller_error_to_status (err : ControllerError) : Status :=
  let '(c, m, t) :=
    match err with
    | InvalidToken => (Unauthenticated, ControllerError_to_string err, "INVALID_TOKEN")
    | SandboxNotFound sandbox_id => (NotFound, sandbox_id, "SANDBOX_NOT_FOUND")
    | AgentNotFound agent_id =>
        (FailedPrecondition, "agent " +:+ agent_id +:+ " not available", "AGENT_NOT_FOUND")
    | NoAvailableAgents =>
        (ResourceExhausted, ControllerError_to_string err, "NO_AVAILABLE_AGENTS")
    | Database detail => (CodeInternal, "database error: " +:+ detail, "DATABASE_ERROR")
    | Internal detail => (CodeInternal, detail, "INTERNAL")
    end%string in
  {| code := c; message := m; trailer := Some t |}.

(** ** auth.rs *)

Fixpoint string_bytes (s : string) : list Z :=
  match s with
  | EmptyString => []
  | String a s' => Z.of_N (Ascii.N_of_ascii a) :: string_bytes s'
  end.

(** The loop [for (x, y) in a.iter().zip(b.iter()) { diff |= x ^ y }]. *)
Fixpoint fold_diff (diff : Z) (l : list (Z * Z)) : Z :=
  match l with
  | [] => diff
  | (x, y) :: l' => fold_diff (Z.lor diff (Z.lxor x y)) l'
  end.

Definition constant_time_eq (a b : list Z) : bool :=
  if decide (length a ≠ length b) then false
  else bool_decide (fold_diff 0 (zip a b) = 0)%Z.

Inductive AuthInitError := TokenUnset | TokenEmpty.

(** [from_env]: [std::env::var] is [None] when the variable is not set. *)
Definition from_env (var : option string) : result string AuthInitError :=
  match var with
  | None => Err TokenUnset
  | Some token => if decide (token = "") then Err TokenEmpty else Ok token
  end.

(** [Interceptor::call]. The header is missing, not text ([Some None]), or text. *)
Definition admin_auth_call (expected_token : string) (authorization : option (option string))
    : result () Status :=
  match authorization with
  | None => Err (status Unauthenticated "missing authorization header")
  | Some None => Err (status Unauthenticated "authorization header is not ascii")
  | Some (Some header) =>
      match strip_prefix "Bearer " header with
      | None => Err (status Unauthenticated "authorization must use Bearer scheme")
      | Some token =>
          if constant_time_eq (string_bytes token) (string_bytes expected_token)
          then Ok () else Err (status Unauthenticated "invalid token")
      end
  end.

(** ** registry.rs, heartbeat.rs, scheduler.rs *)

Inductive RegistrationResult := Accepted | Rejected (reason : string).

Record SandboxRequirements := { req_cpu_millicores : Z; req_memory_bytes : Z }.

Record SandboxAssignment `{UuidLib} := { sa_agent_id : AgentId; sa_sandbox_id : SandboxId }.

Section core.
Context `{UuidLib} {W : Type} `{!ControllerStore W}.

(** The record a registration writes; [cpu_cores * 1000] is [u32] arithmetic, which
    wraps in a release build. *)
Definition registration_record (agent_id : AgentId) (capacity : AgentCapacity)
    : AgentRecord :=
  {| ar_agent_id := agent_id;
     ar_available := {| av_cpu_millicores := as_u32 (cpu_cores capacity * 1000);
                        av_memory_bytes := memory_bytes capacity;
                        av_running_sandboxes := 0 |};
     ar_capacity := capacity;
     ar_state := Active |}.

(** [validate] is the [TokenValidator] the registry was built with. *)
Definition register (validate : string → bool) (agent_id : AgentId) (token : string)
    (capacity : AgentCapacity) : ST W (result RegistrationResult ControllerError) :=
  if negb (validate token) then st_ret (Ok (Rejected "invalid join token")) else
  let!? _ := save_agent (registration_record agent_id capacity) in
  st_ret (Ok Accepted).

Definition registry_heartbeat (agent_id : AgentId) : ST W (result () ControllerError) :=
  let!? o := get_agent agent_id in
  match o with
  | Some _ => st_ret (Ok ())
  | None => st_ret (Err (AgentNotFound (hyphenated agent_id)))
  end.

Definition mark_agent_dead (agent_id : AgentId) : ST W (result () ControllerError) :=
  mark_agent_dead_atomic agent_id.

Definition tracked_agents : ST W (result (list AgentId) ControllerError) :=
  let!? l := list_active_agents in st_ret (Ok (ar_agent_id <$> l)).

(** [agents.sort_by(|a, b| b.cpu.cmp(&a.cpu))]: stable, largest first. *)
Fixpoint insert_desc (x : AgentRecord) (l : list AgentRecord) : list AgentRecord :=
  match l with
  | [] => [x]
  | y :: l' =>
      if decide (av_cpu_millicores (ar_available y) ≤ av_cpu_millicores (ar_available x))%Z
      then x :: l else y :: insert_desc x l'
  end.
Definition sort_desc (l : list AgentRecord) : list AgentRecord := foldr insert_desc [] l.

(** The [for agent in agents] loop. *)
Fixpoint assign_loop (sandbox_id : SandboxId) (req : SandboxRequirements)
    (agents : list AgentRecord) : ST W (result SandboxAssignment ControllerError) :=
  match agents with
  | [] => st_ret (Err NoAvailableAgents)
  | agent :: agents' =>
      if decide (av_cpu_millicores (ar_available agent) < req_cpu_millicores req ∨
                 av_memory_bytes (ar_available agent) < req_memory_bytes req)%Z
      then assign_loop sandbox_id req agents' else
      let!? reserved := try_assign_sandbox (ar_agent_id agent) sandbox_id
                          (req_cpu_millicores req) (req_memory_bytes req) in
      if reserved : bool
      then st_ret (Ok {| sa_agent_id := ar_agent_id agent; sa_sandbox_id := sandbox_id |})
      else assign_loop sandbox_id req agents'
  end.

Definition assign_sandbox (sandbox_id : SandboxId) (req : SandboxRequirements)
    : ST W (result SandboxAssignment ControllerError) :=
  let!? agents := list_active_agents in
  assign_loop sandbox_id req (sort_desc agents).
End core.

(** ** Admin authentication *)

Section auth_facts.
Open Scope Z_scope.

Lemma fold_diff_zero l d :
  fold_diff d l = 0 ↔ d = 0 ∧ Forall (λ p, p.1 = p.2) l.
Proof.
  revert d. induction l as [|[x y] l IH]; intros d; simpl.
  - split; [auto|tauto].
  - rewrite IH, Z.lor_eq_0_iff, Z.lxor_eq_0_iff, Forall_cons. simpl. tauto.
Qed.

Lemma zip_Forall_eq (a b : list Z) :
  length a = length b → Forall (λ p, p.1 = p.2) (zip a b) → a = b.
Proof.
  revert b. induction a as [|x a IH]; intros [|y b]; simpl; try done.
  intros [= Hl] [? Hf]%Forall_cons. simpl in *. subst. f_equal. auto.
Qed.

Lemma constant_time_eq_spec a b : constant_time_eq a b = true ↔ a = b.
Proof.
  unfold constant_time_eq. case_decide as Hl.
  - split; [done|]. by intros ->.
  - rewrite bool_decide_eq_true, fold_diff_zero. split.
    + intros [_ ?]. apply zip_Forall_eq; [lia|done].
    + intros ->. split; [done|]. clear. induction b; constructor; auto.
Qed.

Lemma string_bytes_inj s t : string_bytes s = string_bytes t → s = t.
Proof.
  revert t. induction s as [|a s IH]; intros [|b t]; simpl; try done.
  intros [= Hab%N2Z.inj Hst]. f_equal; [|auto].
  rewrite <- (Ascii.ascii_N_embedding a), <- (Ascii.ascii_N_embedding b). by rewrite Hab.
Qed.
End auth_facts.

(** The admin interceptor admits a call exactly when its authorization header is the
    text "Bearer " followed by the configured token, byte for byte; every other call
    gets an Unauthenticated status; and a token taken from the environment is never
    empty, so a bare "Bearer " is never admitted. *)
Theorem admin_auth_exact :
  (∀ expected hdr, admin_auth_call expected hdr = Ok () ↔
     hdr = Some (Some ("Bearer " +:+ expected))) ∧
  (∀ expected hdr, match admin_auth_call expected hdr with
                   | Ok _ => True
                   | Err s => code s = Unauthenticated
                   end) ∧
  (∀ var expected, from_env var = Ok expected →
     var = Some expected ∧ admin_auth_call expected (Some (Some "Bearer ")) ≠ Ok ()).
Proof.
  assert (∀ expected hdr, admin_auth_call expected hdr = Ok () ↔
            hdr = Some (Some ("Bearer " +:+ expected))) as Hiff.
  { intros expected hdr. unfold admin_auth_call. split.
    - destruct hdr as [[header|]|]; try done. destruct (strip_prefix _ _) eqn:E; [|done].
      apply strip_prefix_Some in E as ->. destruct (constant_time_eq _ _) eqn:E; [|done].
      by apply constant_time_eq_spec, string_bytes_inj in E as ->.
    - intros ->. rewrite strip_prefix_app.
      by rewrite (proj2 (constant_time_eq_spec _ _)). }
  split; [done|]. split.
  - intros expected hdr. unfold admin_auth_call.
    destruct hdr as [[h|]|]; [|done..]. destruct (strip_prefix _ h); [|done].
    by destruct (constant_time_eq _ _).
  - intros var expected. unfold from_env. destruct var as [tok|]; [|done].
    case_decide as Htok; [done|]. intros [= ->]. split; [done|]. rewrite Hiff.
    destruct expected; [done|]. vm_compute. intros [=].
Qed.

(** ** The scheduler *)

Section scheduler.
Context `{UuidLib} {W : Type} `{!ControllerStore W} `{!StoreSpec W}.
Implicit Types (w : W) (rec : AgentRecord) (l : list AgentRecord).

Definition cpu_of rec : Z := av_cpu_millicores (ar_available rec).

Lemma insert_desc_perm x l : insert_desc x l ≡ₚ x :: l.
Proof.
  induction l as [|y l IH]; simpl; [done|]. case_decide; [done|].
  rewrite IH. constructor.
Qed.

Lemma sort_desc_perm l : sort_desc l ≡ₚ l.
Proof. induction l as [|x l IH]; simpl; [done|]. by rewrite insert_desc_perm, IH. Qed.

Lemma insert_desc_sorted x l :
  StronglySorted (λ a b, cpu_of b ≤ cpu_of a)%Z l →
  StronglySorted (λ a b, cpu_of b ≤ cpu_of a)%Z (insert_desc x l).
Proof.
  induction 1 as [|y l Hs IH Hy]; simpl; [by repeat constructor|].
  rewrite Forall_forall in Hy. case_decide as Hxy.
  - constructor; [by constructor; [|apply Forall_forall]|]. apply Forall_forall.
    intros z [->|Hz]%elem_of_cons; [done|]. specialize (Hy z Hz). unfold cpu_of in *. lia.
  - constructor; [done|]. apply Forall_forall. intros z Hz. rewrite insert_desc_perm in Hz.
    apply elem_of_cons in Hz as [->|Hz]; [unfold cpu_of in *; lia|auto].
Qed.

Lemma sort_desc_sorted l : StronglySorted (λ a b, cpu_of b ≤ cpu_of a)%Z (sort_desc l).
Proof. induction l; simpl; [constructor|by apply insert_desc_sorted]. Qed.

(** What one pass over listed candidates does, when nobody else writes. *)
Lemma assign_loop_spec s req l w r w' :
  store_wf w → in_u32 (req_cpu_millicores req) → in_u64 (req_memory_bytes req) →
  as_routes (view w) !! s = None → as_resv (view w) !! s = None →
  (∀ rec, rec ∈ l → ar_state rec = Active ∧
                    as_agents (view w) !! ar_agent_id rec = Some rec) →
  assign_loop s req l w = (r, w') → store_wf w' ∧
  ((∀ rec, rec ∈ l → ¬ fits (req_cpu_millicores req) (req_memory_bytes req) rec) ∧
     r = Err NoAvailableAgents ∧ view w' = view w ∨
   ∃ pre rec post, l = pre ++ rec :: post ∧
     (∀ x, x ∈ pre → ¬ fits (req_cpu_millicores req) (req_memory_bytes req) x) ∧
     fits (req_cpu_millicores req) (req_memory_bytes req) rec ∧
     writes r {| sa_agent_id := ar_agent_id rec; sa_sandbox_id := s |}
       (eff_assign (ar_agent_id rec) s (req_cpu_millicores req) (req_memory_bytes req))
       (view w) (view w')).
Proof.
  intros Hwf Hc Hm Hr Hs. induction l as [|agent l IH]; intros Hl; simpl.
  { intros [= <- <-]. split; [done|]. left. split; [set_solver|done]. }
  case_decide as Hfit.
  - intros Hrun. destruct IH as [? [(Hno & -> & Hv)|(pre & rec & post & -> & Hpre & ?)]];
      [set_solver|done|..]; (split; [done|]).
    + left. split; [|done]. intros rec [->|?]%elem_of_cons; [intros []; lia|auto].
    + right. exists (agent :: pre), rec, post. split; [done|]. split; [|done].
      intros x [->|?]%elem_of_cons; [intros []; lia|auto].
  - destruct (Hl agent ltac:(set_solver)) as [Hact Hag].
    assert (fits (req_cpu_millicores req) (req_memory_bytes req) agent) as Hfits.
    { split; lia. }
    unfold st_bind_ok, st_bind. destruct (try_assign_sandbox _ _ _ _ w) as [r1 w1] eqn:E.
    apply try_assign_spec in E as [Hwf1 E]; [|done..]. intros Hrun.
    destruct E as [(Hnone & _)|[(_ & _ & Hno)|E]].
    + congruence.
    + by destruct (Hno agent).
    + split; [by destruct E as [[-> _]|(d & -> & _)]; injection Hrun as <- <-|].
      right. exists [], agent, l. split; [done|]. split; [set_solver|]. split; [done|].
      destruct E as [[-> ?]|(d & -> & ?)]; injection Hrun as <- <-; [left|right]; eauto.
Qed.

(** An agent the scheduler may use for a request. *)
Definition eligible (req : SandboxRequirements) w rec : Prop :=
  as_agents (view w) !! ar_agent_id rec = Some rec ∧ ar_state rec = Active ∧
  fits (req_cpu_millicores req) (req_memory_bytes req) rec.

Lemma assign_sandbox_spec s req w r w' :
  store_wf w → in_u32 (req_cpu_millicores req) → in_u64 (req_memory_bytes req) →
  as_routes (view w) !! s = None → as_resv (view w) !! s = None →
  assign_sandbox s req w = (r, w') → store_wf w' ∧
  ((∀ rec, ¬ eligible req w rec) ∧ r = Err NoAvailableAgents ∧ view w' = view w ∨
   (∃ d, r = Err (Database d) ∧ view w' = view w) ∨
   ∃ rec, eligible req w rec ∧ (∀ rec', eligible req w rec' → cpu_of rec' ≤ cpu_of rec)%Z ∧
     writes r {| sa_agent_id := ar_agent_id rec; sa_sandbox_id := s |}
       (eff_assign (ar_agent_id rec) s (req_cpu_millicores req) (req_memory_bytes req))
       (view w) (view w')).
Proof.
  intros Hwf Hc Hm Hr Hs. unfold assign_sandbox, st_bind_ok, st_bind.
  destruct (list_active_agents w) as [r0 w0] eqn:El.
  apply list_active_agents_spec in El as (Hwf0 & Hv0 & El); [|done].
  destruct El as [(l & -> & Hl)|(d & ->)]; [|intros [= <- <-]; eauto 10].
  intros Hrun. rewrite <- Hv0 in *.
  assert (∀ rec, rec ∈ sort_desc l ↔ rec ∈ l) as Hin by (intros; by rewrite sort_desc_perm).
  apply assign_loop_spec in Hrun as [Hwf' Hrun]; [|done..|set_solver].
  split; [done|]. rewrite Hv0 in *. destruct Hrun as [(Hno & -> & Hv)|Hrun].
  - left. split; [|done]. intros rec (Hrec & Ha & Hf). apply (Hno rec); [|done].
    by apply Hin, Hl.
  - destruct Hrun as (pre & rec & post & Hsort & Hpre & Hfit & Hw). right; right.
    destruct (proj1 (Hl rec)) as [Ha Hrec]; [apply Hin; rewrite Hsort; set_solver|].
    exists rec. split; [done|]. split; [|done]. intros rec' (Hrec' & Ha' & Hf').
    assert (rec' ∈ sort_desc l) as Hx by by apply Hin, Hl.
    pose proof (sort_desc_sorted l) as Hsorted. rewrite Hsort in Hx, Hsorted.
    apply elem_of_app in Hx as [Hx|[->|Hx]%elem_of_cons]; [by destruct (Hpre rec')|done|].
    apply StronglySorted_app in Hsorted as (_ & _ & Hsorted).
    apply StronglySorted_inv in Hsorted as [_ Hall]. rewrite Forall_forall in Hall. auto.
Qed.
End scheduler.

Section best_fit.
Context `{UuidLib} {W : Type} `{!ControllerStore W} `{!StoreSpec W}.

(** C9: on any conforming store, scheduling a fresh sandbox reserves it on an active
    agent that has the requested CPU and memory and, among those that have, the most
    free CPU, debiting exactly the request; it answers NoAvailableAgents only when no
    active agent has room, and then changes nothing; a database error leaves the store
    as it was or with that one reservation made, and no other error is possible. *)
Theorem scheduler_best_fit (s : SandboxId) (req : SandboxRequirements) (w w' : W) r :
  store_wf w → in_u32 (req_cpu_millicores req) → in_u64 (req_memory_bytes req) →
  as_routes (view w) !! s = None → as_resv (view w) !! s = None →
  assign_sandbox s req w = (r, w') →
  let chosen rec := eligible req w rec ∧
    (∀ rec', eligible req w rec' → cpu_of rec' ≤ cpu_of rec)%Z ∧
    eff_assign (ar_agent_id rec) s (req_cpu_millicores req) (req_memory_bytes req)
      (view w) (view w') in
  match r with
  | Ok asg => sa_sandbox_id asg = s ∧ ∃ rec, ar_agent_id rec = sa_agent_id asg ∧ chosen rec
  | Err NoAvailableAgents => (∀ rec, ¬ eligible req w rec) ∧ view w' = view w
  | Err (Database _) => view w' = view w ∨ ∃ rec, chosen rec
  | Err _ => False
  end.
Proof.
  intros Hwf Hc Hm Hr Hs Hrun. simpl.
  apply assign_sandbox_spec in Hrun as [_ Hrun]; [|done..].
  destruct Hrun as [(? & -> & ?)|[(d & -> & ?)|(rec & ? & ? & Hw)]]; [done|auto|].
  destruct Hw as [[-> ?]|(d & -> & [?|?])]; [|by auto|]; simpl; eauto 10.
Qed.
End best_fit.

(** A concrete fleet: one busy agent, two idle ones of different size, one dead one. *)
Section fleet.
Definition fleet_agent (id cores cpu mem : Z) (st : AgentState) : AgentRecord :=
  {| ar_agent_id := uid (Z.to_N id);
     ar_capacity := {| cpu_cores := cores; memory_bytes := mem |};
     ar_available := {| av_cpu_millicores := cpu; av_memory_bytes := mem;
                        av_running_sandboxes := 0 |};
     ar_state := st |}.

Definition fleet : MemStore :=
  {| m_agents := list_to_map ((λ rec, (ar_agent_id rec, rec)) <$>
       [fleet_agent 1 4 500 8000 Active; fleet_agent 2 4 4000 8000 Active;
        fleet_agent 3 8 8000 100 Active; fleet_agent 4 16 16000 64000 Dead]);
     m_routing := []; m_sandbox_states := ∅; m_reservations := ∅; m_heartbeats := ∅;
     m_now := 0 |}.

Lemma fleet_wf : mem_wf fleet.
Proof. apply (bool_decide_unpack _). vm_compute. exact I. Defined.

Definition fleet_req : SandboxRequirements :=
  {| req_cpu_millicores := 1000; req_memory_bytes := 4096 |}.

(** The scheduler skips the dead agent, the busy one and the one short of memory. *)
Lemma scheduler_best_fit_witness :
  let run := assign_sandbox (uid 77) fleet_req fleet in
  run.1 = Ok {| sa_agent_id := uid 2; sa_sandbox_id := uid 77 |} ∧
  match run.1 with
  | Ok asg => sa_sandbox_id asg = uid 77 ∧ ∃ rec, ar_agent_id rec = sa_agent_id asg ∧
      eligible fleet_req fleet rec ∧
      (∀ rec', eligible fleet_req fleet rec' → cpu_of rec' ≤ cpu_of rec)%Z ∧
      eff_assign (ar_agent_id rec) (uid 77) 1000 4096 (view fleet) (view run.2)
  | Err _ => False
  end.
Proof.
  intros run. assert (run.1 = Ok {| sa_agent_id := uid 2; sa_sandbox_id := uid 77 |}) as E
    by evaluate.
  split; [exact E|].
  pose proof (scheduler_best_fit (uid 77) fleet_req fleet run.2 run.1 fleet_wf
    ltac:(done) ltac:(done) eq_refl eq_refl (surjective_pairing run)) as Hx.
  destruct run.1; [exact Hx|discriminate E].
Defined.
End fleet.
