(* ===== verification/Capacity.v ===== *)
(** * Capacity accounting over the abstract store

    The invariant the reserve/release protocol of crates/controller/src/store.rs keeps:
    for every agent, what is free plus what its sandboxes have reserved is the capacity
    it registered with. Stated on [AbsStore], so it holds for both stores. *)

From S2P Require Import Prelude Contracts Store ControllerCore.

Section reserved.
Context `{UuidLib}.
Implicit Types (f : Reservation → Z) (a : AgentId) (s : SandboxId)
  (m : gmap SandboxId Reservation).
Open Scope Z_scope.

Definition share f a (rs : Reservation) : Z := if decide (rs_agent_id rs = a) then f rs else 0.

(** The total agent [a]'s sandboxes hold. *)
Definition reserved f a m : Z := map_fold (λ _ rs acc, share f a rs + acc) 0 m.

Lemma reserved_insert f a m s rs :
  m !! s = None → reserved f a (<[s := rs]> m) = share f a rs + reserved f a m.
Proof.
  intros. unfold reserved.
  apply (map_fold_insert_L (λ _ rs acc, share f a rs + acc)); [intros; lia|done].
Qed.

Lemma reserved_delete f a m s rs :
  m !! s = Some rs → reserved f a m = share f a rs + reserved f a (delete s m).
Proof.
  intros. unfold reserved.
  apply (map_fold_delete_L (λ _ rs acc, share f a rs + acc)); [intros; lia|done].
Qed.

Lemma reserved_empty f a : reserved f a ∅ = 0.
Proof. apply map_fold_empty. Qed.

Lemma reserved_nonneg f a m :
  map_Forall (λ _ rs, 0 ≤ f rs) m → 0 ≤ reserved f a m.
Proof.
  induction m as [|s rs m Hs IH] using map_ind; [by rewrite reserved_empty|].
  rewrite map_Forall_insert by done. intros [? ?]. rewrite reserved_insert by done.
  specialize (IH ltac:(done)). unfold share. case_decide; lia.
Qed.
End reserved.

Section invariant.
Context `{UuidLib}.
Implicit Types (v : AbsStore) (a : AgentId) (s : SandboxId) (over : AgentId → Prop).
Open Scope Z_scope.

Definition agent_accounted (m : gmap SandboxId Reservation) a (rec : AgentRecord) : Prop :=
  cpu_cores (ar_capacity rec) * 1000 < 2 ^ 31 ∧
  memory_bytes (ar_capacity rec) < 2 ^ 63 ∧
  0 ≤ av_cpu_millicores (ar_available rec) ∧ 0 ≤ av_memory_bytes (ar_available rec) ∧
  av_cpu_millicores (ar_available rec) + reserved rs_cpu_millicores a m =
    cpu_cores (ar_capacity rec) * 1000 ∧
  av_memory_bytes (ar_available rec) + reserved rs_memory_bytes a m =
    memory_bytes (ar_capacity rec).

(** The books of every agent balance, except those of the agents in [over]. *)
Record capacity_inv over v : Prop := {
  ci_resv : map_Forall (λ _ rs, 0 ≤ rs_cpu_millicores rs ∧ 0 ≤ rs_memory_bytes rs) (as_resv v);
  ci_agents : map_Forall (λ a rec, ¬ over a → agent_accounted (as_resv v) a rec) (as_agents v);
}.

(** What the invariant is for: an agent is never promised more than it has. *)
Lemma capacity_inv_no_overcommit over v a rec :
  capacity_inv over v → as_agents v !! a = Some rec → ¬ over a →
  reserved rs_cpu_millicores a (as_resv v) ≤ cpu_cores (ar_capacity rec) * 1000 ∧
  reserved rs_memory_bytes a (as_resv v) ≤ memory_bytes (ar_capacity rec).
Proof. intros Hci Ha Ho. destruct (ci_agents _ _ Hci _ _ Ha Ho) as (?&?&?&?&?&?). lia. Qed.

Lemma capacity_inv_weaken (over over' : AgentId → Prop) v :
  (∀ a, over a → over' a) → capacity_inv over v → capacity_inv over' v.
Proof. intros Ho [Hr Ha]. split; [done|]. intros a rec Hrec Hn. apply Ha; auto. Qed.

Lemma capacity_inv_assign over a s cpu mem v v' :
  capacity_inv over v → 0 ≤ cpu → 0 ≤ mem → as_resv v !! s = None →
  eff_assign a s cpu mem v v' → capacity_inv over v'.
Proof.
  intros [Hr Ha] Hc Hm Hs (rec & Hrec & _ & [??] & (n & Hag & _) & _ & Hrs & _).
  split; rewrite Hrs, ?Hag.
  - by apply map_Forall_insert_2.
  - intros b rb. unfold agent_accounted. rewrite !reserved_insert by done. unfold share. simpl.
    rewrite lookup_insert. case_decide as Hab.
    + subst. intros [= <-] Ho. simpl.
      destruct (Ha _ _ Hrec Ho) as (?&?&?&?&?&?). lia.
    + intros Hb Ho. destruct (Ha _ _ Hb Ho) as (?&?&?&?&?&?). lia.
Qed.

Lemma accounted_credit_safe over v a s rec rs :
  capacity_inv over v → as_agents v !! a = Some rec → ¬ over a → as_resv v !! s = Some rs →
  rs_agent_id rs = a → credit_safe (rs_cpu_millicores rs) (rs_memory_bytes rs) rec.
Proof.
  intros [Hr Ha] Hrec Ho Hs <-. destruct (Ha _ _ Hrec Ho) as (?&?&?&?&Hc&Hm).
  rewrite (reserved_delete _ _ _ _ _ Hs) in Hc; rewrite (reserved_delete _ _ _ _ _ Hs) in Hm. unfold share in Hc, Hm.
  rewrite decide_True in Hc, Hm by done.
  assert (∀ f, map_Forall (λ _ rs, 0 ≤ f rs) (as_resv v) →
               0 ≤ reserved f (rs_agent_id rs) (delete s (as_resv v))) as Hnn.
  { intros f Hf. by apply reserved_nonneg, map_Forall_delete. }
  pose proof (Hnn rs_cpu_millicores ltac:(intros ?? [] %Hr; done)).
  pose proof (Hnn rs_memory_bytes ltac:(intros ?? [] %Hr; done)).
  split; lia.
Qed.

Lemma capacity_inv_release over s rs v v' :
  capacity_inv over v → as_resv v !! s = Some rs → eff_release s rs v v' → capacity_inv over v'.
Proof.
  intros Hci Hs (Hsome & Hnone & _ & Hrs & _).
  assert (map_Forall (λ _ rs, 0 ≤ rs_cpu_millicores rs ∧ 0 ≤ rs_memory_bytes rs) (as_resv v'))
    by (rewrite Hrs; apply map_Forall_delete, Hci).
  split; [done|]. rewrite Hrs. pose proof (ci_agents _ _ Hci) as Ha.
  assert (∀ b rb, as_agents v !! b = Some rb → b ≠ rs_agent_id rs → ¬ over b →
                  agent_accounted (delete s (as_resv v)) b rb) as Hother.
  { intros b rb Hb Hne Ho. destruct (Ha _ _ Hb Ho) as (?&?&?&?&Hc&Hm).
    rewrite (reserved_delete _ _ _ _ _ Hs) in Hc; rewrite (reserved_delete _ _ _ _ _ Hs) in Hm. unfold share in Hc, Hm.
    rewrite decide_False in Hc, Hm by done. repeat split; lia. }
  destruct (as_agents v !! rs_agent_id rs) as [rec|] eqn:Hrec.
  - destruct (Hsome rec eq_refl) as (cpu & mem & n & -> & Hsafe & _).
    intros b rb. rewrite lookup_insert. case_decide as Hb; [|intros ?; by apply Hother].
    subst. intros [= <-] Ho. destruct Hsafe as [-> ->]; [by eapply accounted_credit_safe|].
    unfold agent_accounted. simpl.
    destruct (ci_resv _ _ Hci _ _ Hs) as [??].
    destruct (Ha _ _ Hrec Ho) as (?&?&?&?&Hc&Hm).
    rewrite (reserved_delete _ _ _ _ _ Hs) in Hc; rewrite (reserved_delete _ _ _ _ _ Hs) in Hm. unfold share in Hc, Hm.
    rewrite decide_True in Hc, Hm by done. lia.
  - rewrite Hnone by done. intros b rb Hb. apply Hother; [done|congruence].
Qed.

Lemma capacity_inv_mark_dead over a v v' :
  capacity_inv over v → eff_mark_dead a v v' → capacity_inv over v'.
Proof.
  intros [Hr Ha] ((rec & Hrec & Hag) & _ & Hrs & _). split; rewrite Hrs; [done|].
  rewrite Hag. intros b rb. rewrite lookup_insert. case_decide; [|by apply Ha].
  subst. intros [= <-] Ho. by destruct (Ha _ _ Hrec Ho).
Qed.

Lemma capacity_inv_state over s st err v v' :
  capacity_inv over v → eff_sandbox_state s st err v v' → capacity_inv over v'.
Proof.
  intros [Hr Ha] (_ & Hag & _ & [Hrs|[Hs (a & Hrs)]] & _); split; rewrite Hrs, ?Hag; try done.
  - by apply map_Forall_insert_2.
  - intros b rb Hb Ho. unfold agent_accounted. rewrite !reserved_insert by done. unfold share.
    simpl. destruct (Ha _ _ Hb Ho) as (?&?&?&?&?&?). case_decide; lia.
Qed.

Lemma capacity_inv_heartbeat over a v v' :
  capacity_inv over v → eff_heartbeat a v v' → capacity_inv over v'.
Proof. intros [] (Hag & _ & Hrs & _). split; by rewrite Hrs, ?Hag. Qed.

Lemma capacity_inv_routes over f v v' :
  capacity_inv over v → eff_routes f v v' → capacity_inv over v'.
Proof. intros [] (_ & Hag & Hrs & _). split; by rewrite Hrs, ?Hag. Qed.

(** Nothing is reserved on an agent, and the capacity it registers with fits the columns. *)
Definition clean_registration a (cap : AgentCapacity) v : Prop :=
  cpu_cores cap * 1000 < 2 ^ 31 ∧ memory_bytes cap < 2 ^ 63 ∧
  map_Forall (λ _ rs, rs_agent_id rs ≠ a) (as_resv v).
#[global] Instance clean_registration_dec a cap v : Decision (clean_registration a cap v).
Proof. apply _. Defined.

Lemma reserved_none f a (m : gmap SandboxId Reservation) :
  map_Forall (λ _ rs, rs_agent_id rs ≠ a) m → reserved f a m = 0.
Proof.
  induction m as [|s rs m Hs IH] using map_ind; [by rewrite reserved_empty|].
  rewrite map_Forall_insert by done. intros [Hne Hno].
  rewrite reserved_insert by done. unfold share. rewrite decide_False by done. by rewrite IH.
Qed.

(** A registration keeps the books of the other agents, and a clean one opens those of its
    own agent anew. *)
Lemma capacity_inv_register over a cap v v' :
  capacity_inv over v → in_u32 (cpu_cores cap) → in_u64 (memory_bytes cap) →
  eff_save_agent (registration_record a cap) v v' →
  capacity_inv (λ b, if decide (b = a) then ¬ clean_registration a cap v else over b) v'.
Proof.
  intros [Hr Ha] Hc Hm (Hag & _ & Hrs & _). split; rewrite Hrs; [done|].
  rewrite Hag. simpl. intros b rb. rewrite lookup_insert.
  case_decide; subst; [|rewrite decide_False by done; by apply Ha].
  rewrite decide_True by done. intros [= <-] Ho. apply dec_stable in Ho as (Hc' & Hm' & Hno).
  unfold agent_accounted. simpl. rewrite !reserved_none by done. unfold in_u32, in_u64 in *.
  unfold as_u32. rewrite as_unsigned_id by lia. lia.
Qed.
End invariant.
#[export] Hint Resolve capacity_inv_assign capacity_inv_release capacity_inv_mark_dead
  capacity_inv_state capacity_inv_heartbeat capacity_inv_routes : os.
