(* ===== verification/ControllerGrpc.v ===== *)
(** * The controller's gRPC side (crates/controller/src/grpc.rs)

    The agent stream handler, one definition per message kind, the connection table and
    [Controller]. A command channel is the list of what was sent through it and whether
    its receiver is still there; a full channel makes the sender wait, so a send either
    arrives or finds the receiver gone. *)

From S2P Require Import Prelude Contracts UuidRef Store MemStore ControllerCore.

(** ** Messages (proto/controller.proto) *)

Record SandboxConfig := {
  cpu_limit_millicores : Z;
  memory_limit_bytes : Z;
  env_vars : gmap string string;
  exposed_port : Z;
  pull_policy : Z;
}.

Inductive ControllerCommand :=
| RegisterResponse (accepted : bool) (rejection_reason agent_certificate : string)
| HeartbeatAck (timestamp : Z)
| StartSandbox (sandbox_id image : string) (config : option SandboxConfig)
| StopSandbox (sandbox_id : string) (timeout_seconds : Z)
| PauseSandbox (sandbox_id : string)
| UnpauseSandbox (sandbox_id : string)
| FetchLogs (sandbox_id : string) (tail_lines : Z) (follow : bool).

Record AgentResources := { res_cpu_cores : Z; res_memory_bytes : Z }.

Inductive AgentPayload :=
| Register (agent_id join_token : string) (resources : option AgentResources)
| Heartbeat (agent_id : string)
| SandboxStatus (sandbox_id : string) (state : Z) (error_message : string)
| ResourceReport.

(** [AgentMessage.payload]. *)
Definition AgentMessage : Type := option AgentPayload.

Record Channel := { ch_sent : list (result ControllerCommand Status); ch_open : bool }.

(** The controller process: the store, the connection table, the channels by number,
    and the wall clock. *)
Record Ctl `{UuidLib} (W : Type) := {
  c_store : W;
  c_conns : gmap AgentId nat;
  c_chans : gmap nat Channel;
  c_clock : Z;
}.
Arguments c_store {_ _} _.
Arguments c_conns {_ _} _.
Arguments c_chans {_ _} _.
Arguments c_clock {_ _} _.

Definition sandbox_state_to_str (state : SandboxState) : string :=
  match state with
  | Creating => "creating"
  | Running => "running"
  | Stopping => "stopping"
  | Stopped => "stopped"
  | Failed => "failed"
  | Pausing => "pausing"
  | Paused => "paused"
  | Unpausing => "unpausing"
  | Unspecified => "unknown"
  end.

Section grpc.
Context `{UuidLib} {W : Type} `{!ControllerStore W}.
Implicit Types (c : Ctl W) (cid : nat).

Definition with_store (w : W) c : Ctl W :=
  {| c_store := w; c_conns := c_conns c; c_chans := c_chans c; c_clock := c_clock c |}.

Definition lift {A} (m : ST W A) : ST (Ctl W) A := λ c,
  let '(r, w) := m (c_store c) in (r, with_store w c).

Definition with_conns (m : gmap AgentId nat) c : Ctl W :=
  {| c_store := c_store c; c_conns := m; c_chans := c_chans c; c_clock := c_clock c |}.
Definition with_chans (m : gmap nat Channel) c : Ctl W :=
  {| c_store := c_store c; c_conns := c_conns c; c_chans := m; c_clock := c_clock c |}.

(** [tx.send(x).await]. *)
Definition chan_send cid (x : result ControllerCommand Status) : ST (Ctl W) (result () ()) :=
  λ c, match c_chans c !! cid with
       | Some {| ch_sent := l; ch_open := true |} =>
           (Ok (), with_chans (<[cid := {| ch_sent := l ++ [x]; ch_open := true |}]>
                                 (c_chans c)) c)
       | _ => (Err (), c)
       end.

(** *** [AgentConnections] *)

Definition connections_add (agent_id : AgentId) cid : ST (Ctl W) () :=
  λ c, ((), with_conns (<[agent_id := cid]> (c_conns c)) c).

Definition connections_remove (agent_id : AgentId) : ST (Ctl W) () :=
  λ c, ((), with_conns (delete agent_id (c_conns c)) c).

Definition send_command (agent_id : AgentId) (command : ControllerCommand)
    : ST (Ctl W) (result () ControllerError) := λ c,
  match c_conns c !! agent_id with
  | Some cid =>
      let '(r, c') := chan_send cid (Ok command) c in
      (map_err (λ _, Internal ("agent " +:+ hyphenated agent_id +:+ " channel closed")) r, c')
  | None => (Err (AgentNotFound (hyphenated agent_id)), c)
  end.

(** *** [agent_stream]: one message

    The stream's local state is the agent it registered; [Continue] goes on reading,
    [Break] leaves the loop. *)
Inductive Flow := Continue (registered : option AgentId) | Break (registered : option AgentId).

Section stream.
Context (validate : string → bool) (cid : nat).

Definition after_send (registered : option AgentId) (r : result () ()) : Flow :=
  match r with Ok _ => Continue registered | Err _ => Break registered end.

Definition on_register (registered : option AgentId) (agent_id join_token : string)
    (resources : option AgentResources) : ST (Ctl W) Flow :=
  match parse_str agent_id with
  | None =>
      let! _ := chan_send cid (Err (status InvalidArgument "invalid agent_id UUID")) in
      st_ret (Break registered)
  | Some agent_id =>
      let capacity :=
        {| cpu_cores := from_option res_cpu_cores 0 resources;
           memory_bytes := from_option res_memory_bytes 0 resources |}%Z in
      let! result := lift (register validate agent_id join_token capacity) in
      match result with
      | Ok Accepted =>
          let! _ := connections_add agent_id cid in
          let! _ := lift (record_heartbeat agent_id) in
          let! r := chan_send cid (Ok (RegisterResponse true "" "")) in
          st_ret (after_send (Some agent_id) r)
      | Ok (Rejected reason) =>
          let! r := chan_send cid (Ok (RegisterResponse false reason "")) in
          st_ret (after_send registered r)
      | Err e =>
          let! r := chan_send cid
            (Ok (RegisterResponse false (ControllerError_to_string e) "")) in
          st_ret (after_send registered r)
      end
  end.

Definition on_heartbeat (registered : option AgentId) (agent_id : string)
    : ST (Ctl W) Flow :=
  match parse_str agent_id with
  | None => st_ret (Continue registered)
  | Some agent_id =>
      if decide (registered = Some agent_id) then
        let! r := lift (registry_heartbeat agent_id) in
        match r with
        | Err e =>
            let! _ := chan_send cid (Err (status NotFound (ControllerError_to_string e))) in
            st_ret (Break registered)
        | Ok _ =>
            let! _ := lift (record_heartbeat agent_id) in
            let! r := λ c, chan_send cid (Ok (HeartbeatAck (c_clock c))) c in
            st_ret (after_send registered r)
        end
      else st_ret (Continue registered)
  end.

Definition is_terminal (s : SandboxState) : bool :=
  match s with Stopped | Failed => true | _ => false end.

(** The [match store.find_routing_entry(..)]: fall through or [continue]. *)
Definition accepts_status (found : result (option RoutingEntry) ControllerError)
    (agent_id : AgentId) (st : SandboxState) : bool :=
  match found with
  | Ok (Some entry) => bool_decide (re_agent_id entry = agent_id)
  | Ok None => is_terminal st
  | Err _ => false
  end.

Definition on_sandbox_status (registered : option AgentId) (sandbox_id : string)
    (state : Z) (error_message : string) : ST (Ctl W) Flow :=
  match registered with
  | None => st_ret (Continue registered)
  | Some agent_id =>
      match parse_str sandbox_id with
      | None => st_ret (Continue registered)
      | Some sandbox_id =>
          let st := SandboxState_from_i32 state in
          let! found := lift (find_routing_entry sandbox_id) in
          if accepts_status found agent_id st then
            let error := if decide (error_message = "") then None else Some error_message in
            let! _ := lift (save_sandbox_state sandbox_id agent_id
                              (sandbox_state_to_str st) error) in
            st_ret (Continue registered)
          else st_ret (Continue registered)
      end
  end.

Definition on_message (registered : option AgentId) (msg : AgentMessage)
    : ST (Ctl W) Flow :=
  match msg with
  | None => st_ret (Continue registered)
  | Some (Register agent_id join_token resources) =>
      on_register registered agent_id join_token resources
  | Some (Heartbeat agent_id) => on_heartbeat registered agent_id
  | Some (SandboxStatus sandbox_id state error_message) =>
      on_sandbox_status registered sandbox_id state error_message
  | Some ResourceReport => st_ret (Continue registered)
  end.

(** After the loop. *)
Definition stream_end (registered : option AgentId) : ST (Ctl W) () :=
  match registered with
  | Some agent_id => connections_remove agent_id
  | None => st_ret ()
  end.

(** The whole task, on the messages the stream delivers before it ends. *)
Fixpoint agent_stream (registered : option AgentId) (inbound : list AgentMessage)
    : ST (Ctl W) () :=
  match inbound with
  | [] => stream_end registered
  | msg :: inbound' =>
      let! flow := on_message registered msg in
      match flow with
      | Continue registered' => agent_stream registered' inbound'
      | Break registered' => stream_end registered'
      end
  end.
End stream.

(** *** [Controller] *)

Record CreateSandboxRequest := {
  cr_sandbox_id : SandboxId;
  cr_image : string;
  cr_requirements : SandboxRequirements;
  cr_env_vars : gmap string string;
  cr_exposed_port : Z;
  cr_pull_policy : PullPolicy;
}.

Definition start_command (request : CreateSandboxRequest) : ControllerCommand :=
  StartSandbox (hyphenated (cr_sandbox_id request)) (cr_image request)
    (Some {| cpu_limit_millicores := req_cpu_millicores (cr_requirements request);
             memory_limit_bytes := req_memory_bytes (cr_requirements request);
             env_vars := cr_env_vars request;
             exposed_port := cr_exposed_port request;
             pull_policy := wire_pull_policy_as_i32 (to_wire (cr_pull_policy request)) |}).

Definition create_sandbox (request : CreateSandboxRequest)
    : ST (Ctl W) (result SandboxAssignment ControllerError) :=
  let!? assignment := lift (assign_sandbox (cr_sandbox_id request) (cr_requirements request)) in
  let! sent := send_command (sa_agent_id assignment) (start_command request) in
  match sent with
  | Err err =>
      let! _ := lift (release_sandbox (sa_sandbox_id assignment)) in
      st_ret (Err err)
  | Ok _ => st_ret (Ok assignment)
  end.

Fixpoint sweep_loop (dead : list AgentId) : ST (Ctl W) () :=
  match dead with
  | [] => st_ret ()
  | agent_id :: dead' =>
      let! r := lift (mark_agent_dead agent_id) in
      let! _ := match r with
                | Ok _ | Err (AgentNotFound _) => connections_remove agent_id
                | Err _ => st_ret ()
                end in
      sweep_loop dead'
  end.

Definition sweep_dead_agents : ST (Ctl W) (list AgentId) :=
  let! r := lift dead_agents in
  match r with
  | Err _ => st_ret []
  | Ok dead => let! _ := sweep_loop dead in st_ret dead
  end.
End grpc.
Arguments Flow {_}.

(** ** Stepping through a handler *)

(** Name the result of the first call of a handler and go on with the rest. *)
Ltac ctl_step r c E :=
  match goal with
  | |- context [st_bind ?m _ ?s] =>
      unfold st_bind at 1; destruct (m s) as [r c] eqn:E
  | |- context [st_bind_ok ?m _ ?s] =>
      unfold st_bind_ok at 1, st_bind at 1; destruct (m s) as [r c] eqn:E
  end.

Section facts.
Context `{UuidLib} {W : Type} `{!ControllerStore W}.
Implicit Types (c : Ctl W).

Lemma lift_inv {A} (m : ST W A) c r c' :
  lift m c = (r, c') → ∃ w', m (c_store c) = (r, w') ∧ c' = with_store w' c.
Proof. unfold lift. destruct (m (c_store c)) as [r0 w0]. intros [= <- <-]. eauto. Qed.

Lemma chan_send_inv cid x c r c' :
  chan_send cid x c = (r, c') →
  (∃ l, c_chans c !! cid = Some {| ch_sent := l; ch_open := true |} ∧ r = Ok () ∧
     c' = with_chans (<[cid := {| ch_sent := l ++ [x]; ch_open := true |}]> (c_chans c)) c) ∨
  (∀ l, c_chans c !! cid ≠ Some {| ch_sent := l; ch_open := true |}) ∧ r = Err () ∧ c' = c.
Proof.
  unfold chan_send. destruct (c_chans c !! cid) as [[l []]|] eqn:E; intros [= <- <-]; eauto;
    right; split; congruence || done.
Qed.

Lemma chan_send_store cid x c r c' : chan_send cid x c = (r, c') →
  c_store c' = c_store c ∧ c_conns c' = c_conns c ∧ c_clock c' = c_clock c.
Proof. by intros [(l & _ & _ & ->)|(_ & _ & ->)]%chan_send_inv. Qed.

(** A command reaches exactly the channel the agent is connected through, or an error
    is returned and nothing changes. *)
Lemma send_command_inv a cmd c r c' :
  send_command a cmd c = (r, c') →
  (∃ cid l, c_conns c !! a = Some cid ∧
     c_chans c !! cid = Some {| ch_sent := l; ch_open := true |} ∧ r = Ok () ∧
     c' = with_chans (<[cid := {| ch_sent := l ++ [Ok cmd]; ch_open := true |}]>
                        (c_chans c)) c) ∨
  (c' = c ∧ (r = Err (AgentNotFound (hyphenated a)) ∧ c_conns c !! a = None ∨
     ∃ d, r = Err (Internal d) ∧ ∃ cid, c_conns c !! a = Some cid ∧
       ∀ l, c_chans c !! cid ≠ Some {| ch_sent := l; ch_open := true |})).
Proof.
  unfold send_command. destruct (c_conns c !! a) as [cid|]; [|intros [= <- <-]; auto].
  destruct (chan_send cid (Ok cmd) c) as [r0 c0] eqn:E. intros [= <- <-].
  apply chan_send_inv in E as [(l & ? & -> & ->)|(? & -> & ->)]; simpl; [left|right]; eauto 10.
Qed.
End facts.

(** ** Sandbox status reports *)

Section status.
Context `{UuidLib} {W : Type} `{!ControllerStore W} `{!StoreSpec W} `{!StoreReliable W}.
Implicit Types (c : Ctl W).

(** Who may report [state] for sandbox [s]: the agent it is routed to, or, once it is
    not routed any more, anybody registered if the state is final. *)
Definition may_report (v : AbsStore) (a : AgentId) (s : SandboxId) (state : Z) : Prop :=
  as_routes v !! s = Some a ∨
  (as_routes v !! s = None ∧ is_terminal (SandboxState_from_i32 state) = true).

Definition error_field (msg : string) : option string :=
  if decide (msg = "") then None else Some msg.

Lemma on_sandbox_status_inv registered id state msg c f c' :
  store_wf (c_store c) → on_sandbox_status registered id state msg c = (f, c') →
  f = Continue registered ∧
  ∃ w', c' = with_store w' c ∧ store_wf w' ∧
  (view w' = view (c_store c) ∨
   ∃ a s, registered = Some a ∧ parse_str id = Some s ∧
     may_report (view (c_store c)) a s state ∧
     eff_sandbox_state s (sandbox_state_to_str (SandboxState_from_i32 state))
       (error_field msg) (view (c_store c)) (view w')) ∧
  (reliable (c_store c) → reliable w' ∧
   ∀ a s, registered = Some a → parse_str id = Some s →
     may_report (view (c_store c)) a s state →
     as_states (view w') !! s =
       Some {| row_state := sandbox_state_to_str (SandboxState_from_i32 state);
               row_error := error_field msg |}).
Proof.
  intros Hwf. unfold on_sandbox_status.
  assert (c = with_store (c_store c) c) as Hid by by destruct c.
  destruct registered as [a|]; [|intros [= <- <-]; eauto 15 with congruence].
  destruct (parse_str id) as [s|]; [|intros [= <- <-]; eauto 15 with congruence].
  ctl_step found c1 E. apply lift_inv in E as (w1 & E & ->).
  pose proof E as E2. apply find_routing_entry_spec in E as (Hwf1 & Hv & E); [|done].
  assert (reliable (c_store c) → reliable w1 ∧ ∀ d, found ≠ Err (Database d)) as Hrel.
  { intros. by eapply find_routing_entry_answers. }
  destruct E as [(o & -> & ->)|(d & ->)].
  2:{ intros [= <- <-]. split; [done|]. exists w1. split; [done|]. split; [done|].
      split; [auto|]. intros Hr. destruct (Hrel Hr) as [_ Hx]. by destruct (Hx d). }
  match goal with |- context [accepts_status ?o a ?st] => set (accept := accepts_status o a st) end.
  assert (accept = true ↔ may_report (view (c_store c)) a s state) as Hacc.
  { unfold accept, accepts_status, may_report. destruct (as_routes _ !! s) as [b|] eqn:Es; simpl.
    - rewrite bool_decide_eq_true. naive_solver.
    - naive_solver. }
  destruct accept.
  - ctl_step r2 c2 E. apply lift_inv in E as (w2 & E & ->). simpl in E. intros [= <- <-].
    split; [done|]. exists w2. split; [done|]. pose proof E as E3.
    apply save_sandbox_state_spec in E as [Hwf2 Hw]; [|done]. rewrite Hv in Hw.
    split; [done|]. split.
    + destruct Hw as [[_ ?]|(d & _ & [?|?])]; [right|by left|right]; exists a, s; naive_solver.
    + intros Hr. destruct (Hrel Hr) as [Hr1 _].
      destruct (save_sandbox_state_answers _ _ _ _ _ _ _ Hr1 E3) as [Hr2 Hok]. split; [done|].
      intros ? ? [= <-] [= <-] _. destruct Hw as [[_ He]|(d & -> & _)]; [|by destruct (Hok d)].
      destruct He as (-> & _). apply lookup_insert_eq.
  - intros [= <- <-]. split; [done|]. exists w1. split; [done|]. split; [done|].
    split; [auto|]. intros Hr. split; [by apply Hrel|]. intros ? ? [= <-] [= <-] ?%Hacc. done.
Qed.
End status.

(** ** Creating a sandbox *)

Section create.
Context `{UuidLib} {W : Type} `{!ControllerStore W} `{!StoreSpec W}.
Implicit Types (c : Ctl W) (req : CreateSandboxRequest).

(** Agents whose free amounts can be debited and credited back exactly. *)
Definition agents_bounded (v : AbsStore) : Prop :=
  map_Forall (λ _ rec, (av_cpu_millicores (ar_available rec) < 2 ^ 31)%Z ∧
                       (av_memory_bytes (ar_available rec) < 2 ^ 63)%Z ∧
                       (av_running_sandboxes (ar_available rec) < 2 ^ 31 - 1)%Z)
    (as_agents v).

Record create_pre req c : Prop := {
  cp_wf : store_wf (c_store c);
  cp_cpu : in_u32 (req_cpu_millicores (cr_requirements req));
  cp_mem : in_u64 (req_memory_bytes (cr_requirements req));
  cp_route : as_routes (view (c_store c)) !! cr_sandbox_id req = None;
  cp_resv : as_resv (view (c_store c)) !! cr_sandbox_id req = None;
}.

Definition assigned req (a : AgentId) : AbsStore → AbsStore → Prop :=
  eff_assign a (cr_sandbox_id req) (req_cpu_millicores (cr_requirements req))
    (req_memory_bytes (cr_requirements req)).

(** The command left through the channel the agent is connected by. *)
Definition delivered (a : AgentId) (cmd : ControllerCommand) c c' : Prop :=
  ∃ cid l, c_conns c !! a = Some cid ∧
    c_chans c !! cid = Some {| ch_sent := l; ch_open := true |} ∧
    c_chans c' = <[cid := {| ch_sent := l ++ [Ok cmd]; ch_open := true |}]> (c_chans c).

(** The store is what it was before the reservation for [s], apart from the status of [s]
    itself. *)
Definition restored (s : SandboxId) (v v' : AbsStore) : Prop :=
  as_agents v' = as_agents v ∧ as_routes v' = as_routes v ∧ as_resv v' = as_resv v ∧
  (∀ s', s' ≠ s → as_states v' !! s' = as_states v !! s') ∧
  as_hb v' = as_hb v ∧ as_now v' = as_now v.

(** Undoing a reservation restores the books. *)
Lemma release_after_assign a s cpu mem (v v1 v2 : AbsStore) :
  agents_bounded v → (∀ b rec, as_agents v !! b = Some rec → record_in_range rec) →
  (0 ≤ cpu)%Z → (0 ≤ mem)%Z →
  as_routes v !! s = None → as_resv v !! s = None →
  eff_assign a s cpu mem v v1 →
  eff_release s {| rs_agent_id := a; rs_cpu_millicores := cpu; rs_memory_bytes := mem |} v1 v2 →
  restored s v v2.
Proof.
  intros Hb Hin Hc Hm Hr Hs (rec & Hrec & _ & _ & (n & Hag & Hn) & Hr1 & Hs1 & Hst1 & Hh1 & Hn1)
    (Hsome & _ & Hr2 & Hs2 & Hst2 & Hh2 & Hn2). simpl in *.
  destruct (Hb _ _ Hrec) as (Hb1 & Hb2 & Hb3). destruct (Hin _ _ Hrec) as (_ & _ & _ & _ & Hrun).
  unfold in_u32 in Hrun. specialize (Hn ltac:(lia)). subst n.
  edestruct Hsome as (cpu' & mem' & n & Hag2 & Hsafe & Hn); [rewrite Hag; apply lookup_insert_eq|].
  destruct Hsafe as [-> ->]; [split; simpl; lia|]. simpl in *. specialize (Hn ltac:(lia)). subst n.
  split; [|split_and!; [by rewrite Hr2, Hr1, delete_insert_id|by rewrite Hs2, Hs1, delete_insert_id
    |intros s' Hs'; by rewrite Hst2, Hst1|congruence|congruence]].
  rewrite Hag2, Hag, insert_insert_eq. apply insert_id. rewrite Hrec. f_equal.
  destruct rec as [? ? [] ?]. unfold set_available. simpl in *. f_equal. f_equal; lia.
Qed.

Lemma create_sandbox_inv req c r c' :
  create_pre req c → create_sandbox req c = (r, c') →
  c_conns c' = c_conns c ∧ store_wf (c_store c') ∧
  match r with
  | Ok asg =>
      sa_sandbox_id asg = cr_sandbox_id req ∧
      delivered (sa_agent_id asg) (start_command req) c c' ∧
      assigned req (sa_agent_id asg) (view (c_store c)) (view (c_store c'))
  | Err e =>
      c_chans c' = c_chans c ∧
      (view (c_store c') = view (c_store c) ∨
       (∃ d a, e = Database d ∧
          assigned req a (view (c_store c)) (view (c_store c'))) ∨
       ∃ a w1 rr, assigned req a (view (c_store c)) (view w1) ∧
         store_wf w1 ∧ release_sandbox (cr_sandbox_id req) w1 = (rr, c_store c'))
  end.
Proof.
  intros [Hwf Hcpu Hmem Hroute Hresv]. unfold create_sandbox.
  ctl_step r1 c1 E. apply lift_inv in E as (w1 & E & ->).
  apply assign_sandbox_spec in E as [Hwf1 E]; [|done..].
  destruct E as [(_ & -> & Hv)|[(d & -> & Hv)|(rec & Hel & _ & Hw)]].
  - intros [= <- <-]. simpl. auto.
  - intros [= <- <-]. simpl. auto.
  - destruct Hw as [[-> Heff]|(d & -> & [Hv|Heff])].
    2,3: intros [= <- <-]; simpl; eauto 10.
    ctl_step sent c2 E. simpl in E.
    apply send_command_inv in E as [(cid & l & ? & ? & -> & ->)|(-> & He)].
    + intros [= <- <-]. simpl. split; [done|]. split; [done|]. split; [done|].
      split; [|done]. by exists cid, l.
    + destruct sent as [|err]; [naive_solver|].
      ctl_step rr c3 E. apply lift_inv in E as (w3 & E & ->). simpl in E.
      intros [= <- <-]. simpl. pose proof E as E'.
      apply release_spec in E as [Hwf3 _]; [|done]. split; [done|]. split; [done|].
      split; [done|]. right; right. eexists _, w1, rr. eauto.
Qed.
End create.

Section create_theorem.
Context `{UuidLib} {W : Type} `{!ControllerStore W} `{!StoreSpec W}.

(** What a creation that failed with [e] leaves in the store: what was there, or, when the
    database failed in it or in its rollback, the reservation. *)
Definition failed_store (req : CreateSandboxRequest) (e : ControllerError) (c c' : Ctl W) : Prop :=
  restored (cr_sandbox_id req) (view (c_store c)) (view (c_store c')) ∨
  ∃ a, assigned req a (view (c_store c)) (view (c_store c')) ∧
    ((∃ d, e = Database d) ∨
     ∃ w1 d, release_sandbox (cr_sandbox_id req) w1 = (Err (Database d), c_store c')).

Lemma create_failed req (c c' : Ctl W) e :
  create_pre req c → agents_bounded (view (c_store c)) → create_sandbox req c = (Err e, c') →
  c_chans c' = c_chans c ∧ failed_store req e c c'.
Proof.
  intros Hpre Hb Hrun. pose proof Hpre as [Hwf Hcpu Hmem Hroute Hresv].
  apply create_sandbox_inv in Hrun as (_ & _ & Hch & Hr); [|done]. split; [done|].
  destruct Hr as [Hv|[(d & a & -> & ?)|(a & w1 & rr & Ha & Hwf1 & Erel)]].
  - left. unfold restored. by rewrite Hv.
  - right. eauto.
  - pose proof Erel as E. apply release_spec in E as [_ E]; [|done].
    pose proof Ha as (rec & _ & _ & _ & _ & _ & Hs1 & _). rewrite Hs1, lookup_insert_eq in E.
    assert (eff_release (cr_sandbox_id req) {| rs_agent_id := a;
        rs_cpu_millicores := req_cpu_millicores (cr_requirements req);
        rs_memory_bytes := req_memory_bytes (cr_requirements req) |} (view w1)
        (view (c_store c')) → restored (cr_sandbox_id req) (view (c_store c)) (view (c_store c'))) as Hres.
    { intros ?. unfold in_u32, in_u64 in *. eapply release_after_assign; [done| |..|done|done]; try lia; try done.
      intros b rb Hrb. by apply (wf_agent_id (c_store c)) in Hrb as []. }
    destruct E as [[_ ?]|(d & -> & [Hv|?])]; [by left; auto| |by left; auto].
    right. exists a. unfold assigned in *. rewrite Hv. eauto 10.
Qed.

(** C11: creating a sandbox is all or nothing. On success the chosen agent holds the
    reservation and the route, and exactly one StartSandbox with the request's limits
    was queued on the channel that agent is connected through. On failure no command
    was queued anywhere and the store is what it was (agents, routes, reservations,
    heartbeats and the states of the other sandboxes), unless the database failed: its error
    is the one returned, or it struck the rollback and the reservation is still there to be
    released. The sandbox id is a new one, and the amounts in the agents' rows leave room for
    one more sandbox in the columns that hold them. *)
Theorem create_sandbox_all_or_nothing (req : CreateSandboxRequest) (c c' : Ctl W) r :
  create_pre req c → agents_bounded (view (c_store c)) → create_sandbox req c = (r, c') →
  c_conns c' = c_conns c ∧
  match r with
  | Ok asg =>
      sa_sandbox_id asg = cr_sandbox_id req ∧
      delivered (sa_agent_id asg) (start_command req) c c' ∧
      assigned req (sa_agent_id asg) (view (c_store c)) (view (c_store c'))
  | Err e => c_chans c' = c_chans c ∧ failed_store req e c c'
  end.
Proof.
  intros Hpre Hb Hrun. pose proof Hrun as Hinv. apply create_sandbox_inv in Hinv as (? & _ & Hr); [|done].
  split; [done|]. destruct r as [asg|e]; [done|]. by apply create_failed.
Qed.
End create_theorem.

(** ** Sweeping dead agents *)

Section sweep.
Context `{UuidLib} {W : Type} `{!ControllerStore W} `{!StoreSpec W} `{!StoreReliable W}.
Implicit Types (c : Ctl W) (v : AbsStore).

Definition bury (dead : list AgentId) (a : AgentId) (rec : AgentRecord) : AgentRecord :=
  if decide (a ∈ dead) then set_state Dead rec else rec.

(** The store after the agents of [dead] were buried: marked dead, their routes gone,
    everything else as it was. *)
Definition buried (dead : list AgentId) v v' : Prop :=
  (∀ a, as_agents v' !! a = bury dead a <$> as_agents v !! a) ∧
  as_routes v' = filter (λ e, e.2 ∉ dead) (as_routes v) ∧
  as_resv v' = as_resv v ∧ as_states v' = as_states v ∧
  as_hb v' = as_hb v ∧ as_now v' = as_now v.

Lemma buried_nil v : buried [] v v.
Proof.
  split; [|split; [|done]].
  - intros a. unfold bury. by destruct (as_agents v !! a).
  - symmetry. apply map_filter_id. set_solver.
Qed.

Lemma buried_cons a dead v v1 v' :
  eff_mark_dead a v v1 → buried dead v1 v' → buried (a :: dead) v v'.
Proof.
  intros ((rec & Hrec & Hag) & Hr & Hrs & Hst & Hhb & Hnow) (Hag' & Hr' & Hrs' & Hst' & Hhb' & Hnow').
  split; [|split; [|by rewrite Hrs', Hst', Hhb', Hnow']].
  - intros b. rewrite Hag', Hag, lookup_insert. unfold bury.
    destruct (decide (a = b)) as [->|Hab].
    + rewrite Hrec. simpl. rewrite (decide_True (P := b ∈ b :: dead)) by set_solver.
      by case_decide.
    + destruct (as_agents v !! b); simpl; [|done]. f_equal.
      by destruct (decide (b ∈ dead)), (decide (b ∈ a :: dead)); set_solver.
  - rewrite Hr', Hr, map_filter_filter. apply map_filter_ext. set_solver.
Qed.

Lemma buried_missing a dead v v' :
  as_agents v !! a = None → (∀ s, as_routes v !! s ≠ Some a) →
  buried dead v v' → buried (a :: dead) v v'.
Proof.
  intros Hnone Hnor (Hag & Hr & Hrest). split; [|split; [|done]].
  - intros b. rewrite Hag. unfold bury. destruct (as_agents v !! b) eqn:Eb; simpl; [|done].
    f_equal. assert (b ≠ a) by congruence.
    by destruct (decide (b ∈ dead)), (decide (b ∈ a :: dead)); set_solver.
  - rewrite Hr. apply map_filter_ext. intros s b Hb. simpl. rewrite not_elem_of_cons.
    split; [|tauto]. intros ?. split; [|done]. intros ->. by destruct (Hnor s).
Qed.

Lemma filter_cut_cons (a : AgentId) (cut : list AgentId) (m : gmap AgentId nat) :
  filter (λ e, e.1 ∉ cut) (delete a m) = filter (λ e, e.1 ∉ a :: cut) m.
Proof.
  apply map_eq. intros b. apply option_eq. intros n.
  rewrite !map_lookup_filter_Some, lookup_delete_Some. simpl.
  rewrite not_elem_of_cons. naive_solver.
Qed.

Lemma sweep_loop_inv dead c u c' :
  store_wf (c_store c) → (∀ a, a ∈ dead → is_Some (as_agents (view (c_store c)) !! a)) →
  sweep_loop dead c = (u, c') →
  store_wf (c_store c') ∧ c_chans c' = c_chans c ∧ c_clock c' = c_clock c ∧
  ∃ done cut, done ⊆ dead ∧ cut ⊆ done ∧
    buried done (view (c_store c)) (view (c_store c')) ∧
    c_conns c' = filter (λ e, e.1 ∉ cut) (c_conns c) ∧
    (reliable (c_store c) → reliable (c_store c') ∧ cut = dead ∧ done = dead).
Proof.
  revert c u. induction dead as [|a dead IH]; intros c u Hwf Hsome; simpl.
  { intros [= <- <-]. do 3 (split; [done|]). exists [], []. do 2 (split; [done|]).
    split; [apply buried_nil|]. split; [|done]. symmetry. apply map_filter_id. set_solver. }
  ctl_step r c1 E. apply lift_inv in E as (w1 & E & ->). unfold mark_agent_dead in E.
  pose proof E as E'. apply mark_agent_dead_spec in E as [Hwf1 E]; [|done].
  assert (reliable (c_store c) → reliable w1 ∧ ∀ d, r ≠ Err (Database d)) as Hrel.
  { intros. by eapply mark_agent_dead_answers. }
  destruct E as [(Hnone & _)|E].
  { destruct (Hsome a) as [? ?]; [set_solver|congruence]. }
  assert (∀ v', (v' = view (c_store c) ∨ eff_mark_dead a (view (c_store c)) v') →
    ∀ b, is_Some (as_agents (view (c_store c)) !! b) → is_Some (as_agents v' !! b)) as Hkeep.
  { intros v' [->|((rec & Hrec & ->) & _)] b Hb; [done|].
    rewrite lookup_insert. case_decide; eauto. }
  destruct E as [[-> Heff]|(d & -> & [Hv|Heff])].
  - ctl_step u2 c2 E. injection E as <- <-. intros Hrun.
    apply IH in Hrun as (? & Hch & Hcl & dn & cut & ? & ? & Hbur & Hconn & Hr);
      [|done|simpl; intros; apply (Hkeep _ (or_intror Heff)), Hsome; set_solver].
    simpl in *. do 3 (split; [done|]). exists (a :: dn), (a :: cut). split; [set_solver|].
    split; [set_solver|]. split; [by eapply buried_cons|]. split.
    + by rewrite Hconn, filter_cut_cons.
    + intros Hx. destruct (Hrel Hx) as [Hx1 _]. destruct (Hr Hx1) as (? & -> & ->). done.
  - ctl_step u2 c2 E. injection E as <- <-. intros Hrun.
    apply IH in Hrun as (? & Hch & Hcl & dn & cut & ? & ? & Hbur & Hconn & Hr);
      [|done|simpl; intros; rewrite Hv; apply Hsome; set_solver].
    simpl in *. rewrite Hv in Hbur. do 3 (split; [done|]). exists dn, cut.
    do 2 (split; [set_solver|]). do 2 (split; [done|]).
    intros Hx. destruct (Hrel Hx) as [_ Hno]. by destruct (Hno d).
  - ctl_step u2 c2 E. injection E as <- <-. intros Hrun.
    apply IH in Hrun as (? & Hch & Hcl & dn & cut & ? & ? & Hbur & Hconn & Hr);
      [|done|simpl; intros; apply (Hkeep _ (or_intror Heff)), Hsome; set_solver].
    simpl in *. do 3 (split; [done|]). exists (a :: dn), cut. do 2 (split; [set_solver|]).
    split; [by eapply buried_cons|]. split; [done|].
    intros Hx. destruct (Hrel Hx) as [_ Hno]. by destruct (Hno d).
Qed.
End sweep.

Section claims.
Context `{UuidLib} {W : Type} `{!ControllerStore W} `{!StoreSpec W} `{!StoreReliable W}.
Implicit Types (c : Ctl W).

(** A sweep buries agents it had reason to bury and only those. Every agent it
    returns was active with a heartbeat older than the dead-agent timeout; an agent is
    marked dead together with the loss of all its routes, every other agent, route and
    connection is untouched; and when the database answers, the returned agents are
    exactly the stale active ones and all of them are buried and disconnected. *)
Theorem sweep_buries_exactly_the_stale c dead c' :
  store_wf (c_store c) → sweep_dead_agents c = (dead, c') →
  let v := view (c_store c) in
  (∀ a, a ∈ dead → is_active (as_agents v !! a) ∧ stale a v) ∧
  c_chans c' = c_chans c ∧
  ∃ done cut, done ⊆ dead ∧ cut ⊆ done ∧ buried done v (view (c_store c')) ∧
    c_conns c' = filter (λ e, e.1 ∉ cut) (c_conns c) ∧
    (reliable (c_store c) → done = dead ∧ cut = dead ∧
       ∀ a, is_active (as_agents v !! a) → stale a v → a ∈ dead).
Proof.
  intros Hwf. unfold sweep_dead_agents. ctl_step r c1 E.
  apply lift_inv in E as (w1 & E & ->). pose proof E as E'.
  apply dead_agents_spec in E as (Hwf1 & Hv & E); [|done].
  destruct E as [(l & -> & Hl)|(d & ->)].
  - ctl_step u c2 E. intros [= <- <-]. apply sweep_loop_inv in E; [|done|].
    2:{ simpl. rewrite Hv. intros a [(rec & -> & _) _]%Hl. eauto. }
    destruct E as (_ & Hch & _ & dn & cut & ? & ? & Hb & Hc & Hr). simpl in *.
    split; [apply Hl|]. split; [done|]. rewrite Hv in Hb. exists dn, cut.
    do 4 (split; [done|]). intros Hx. destruct (dead_agents_answers _ _ _ Hx E') as [Hx1 _].
    destruct (Hr Hx1) as (_ & -> & ->). naive_solver.
  - intros [= <- <-]. simpl. split; [set_solver|]. split; [done|]. exists [], [].
    rewrite Hv. do 2 (split; [done|]). split; [apply buried_nil|].
    split; [symmetry; apply map_filter_id; set_solver|].
    intros Hx. destruct (dead_agents_answers _ _ _ Hx E') as [_ Hno]. by destruct (Hno d).
Qed.

(** C17: a sandbox status report changes nothing but the state row of the sandbox it
    names, and only if the stream registered as the agent the sandbox is routed to, or
    the sandbox is no longer routed and the reported state is final; an authorised
    report is recorded with its error text whenever the database answers. *)
Theorem status_reports_owned validate cid registered id state msg c f c' :
  store_wf (c_store c) →
  on_message validate cid registered (Some (SandboxStatus id state msg)) c = (f, c') →
  let v := view (c_store c) in let v' := view (c_store c') in
  f = Continue registered ∧ c_conns c' = c_conns c ∧ c_chans c' = c_chans c ∧
  (v' = v ∨ ∃ a s, registered = Some a ∧ parse_str id = Some s ∧ may_report v a s state ∧
     eff_sandbox_state s (sandbox_state_to_str (SandboxState_from_i32 state))
       (error_field msg) v v') ∧
  (reliable (c_store c) →
   ∀ a s, registered = Some a → parse_str id = Some s → may_report v a s state →
     as_states v' !! s =
       Some {| row_state := sandbox_state_to_str (SandboxState_from_i32 state);
               row_error := error_field msg |}).
Proof.
  intros Hwf Hrun. apply on_sandbox_status_inv in Hrun; [|done].
  destruct Hrun as (-> & w' & -> & _ & ? & Hrel). simpl. repeat split; try done.
  intros Hr. by apply Hrel.
Qed.
End claims.

(** ** The claims at work on a small fleet *)

Section examples.
(** Agent 1 has been silent for 100 seconds; sandbox 77 runs on agent 2, 78 on agent 1. *)
Definition busy_fleet : MemStore :=
  {| m_agents := m_agents fleet;
     m_routing := [{| re_sandbox_id := uid 77; re_agent_id := uid 2 |};
                   {| re_sandbox_id := uid 78; re_agent_id := uid 1 |}];
     m_sandbox_states := {[uid 77 := {| row_state := "running"; row_error := None |}]};
     m_reservations := {[uid 77 := {| rs_agent_id := uid 2; rs_cpu_millicores := 100;
                                      rs_memory_bytes := 100 |}]};
     m_heartbeats := list_to_map [(uid 1, 0); (uid 2, 99000); (uid 4, 0)]%Z;
     m_now := 100000 |}.

Lemma busy_fleet_wf : mem_wf busy_fleet.
Proof. apply (bool_decide_unpack _). vm_compute. exact I. Defined.

Definition fleet_ctl : Ctl MemStore :=
  {| c_store := busy_fleet;
     c_conns := list_to_map [(uid 1, 10); (uid 2, 20)];
     c_chans := list_to_map [(10, {| ch_sent := []; ch_open := true |});
                             (20, {| ch_sent := []; ch_open := true |})];
     c_clock := 100000 |}.

Definition fleet_request : CreateSandboxRequest :=
  {| cr_sandbox_id := uid 99; cr_image := "alpine"; cr_requirements := fleet_req;
     cr_env_vars := ∅; cr_exposed_port := 8080; cr_pull_policy := Never |}.

Lemma fleet_bounded : agents_bounded (view fleet_ctl.(c_store)).
Proof. apply (bool_decide_unpack _). vm_compute. exact I. Defined.

Lemma fleet_create_pre : create_pre fleet_request fleet_ctl.
Proof. constructor; [exact busy_fleet_wf|done|done|reflexivity|reflexivity]. Defined.

Lemma create_sandbox_all_or_nothing_witness :
  let run := create_sandbox fleet_request fleet_ctl in
  run.1 = Ok {| sa_agent_id := uid 2; sa_sandbox_id := uid 99 |} ∧
  match run.1 with
  | Ok asg => sa_sandbox_id asg = uid 99 ∧
              delivered (sa_agent_id asg) (start_command fleet_request) fleet_ctl run.2
  | Err _ => False
  end.
Proof.
  intros run. assert (run.1 = Ok {| sa_agent_id := uid 2; sa_sandbox_id := uid 99 |}) as E
    by evaluate.
  split; [exact E|].
  pose proof (create_sandbox_all_or_nothing fleet_request fleet_ctl run.2 run.1
    fleet_create_pre fleet_bounded (surjective_pairing run)) as [_ Hx].
  destruct run.1; [|discriminate E]. destruct Hx as (? & ? & _). split; assumption.
Defined.

Lemma sweep_buries_exactly_the_stale_witness :
  let run := sweep_dead_agents fleet_ctl in
  run.1 = [uid 1] ∧ c_conns run.2 !! uid 1 = None ∧ c_conns run.2 !! uid 2 = Some 20 ∧
  buried [uid 1] (view busy_fleet) (view (c_store run.2)).
Proof.
  intros run. assert (run.1 = [uid 1]) as E by evaluate.
  pose proof (sweep_buries_exactly_the_stale fleet_ctl run.1 run.2 busy_fleet_wf
    (surjective_pairing run)) as (_ & _ & dn & cut & _ & _ & Hb & _ & Hr).
  destruct (Hr I) as (-> & _ & _). rewrite E in Hb.
  split; [exact E|]. split; [evaluate|]. split; [evaluate|exact Hb].
Defined.

(** Agent 2 reports its own sandbox; agent 1's report about it is ignored. *)
Lemma status_reports_owned_witness :
  let report a := on_message (λ _, true) 0 (Some (uid a))
    (Some (SandboxStatus (hyphenated (uid 77)) 2 "")) fleet_ctl in
  as_states (view (c_store (report 2%N).2)) !! uid 77 =
    Some {| row_state := "running"; row_error := None |} ∧
  view (c_store (report 1%N).2) = view busy_fleet.
Proof.
  intros report. split.
  - pose proof (status_reports_owned (λ _, true) 0 (Some (uid 2)) (hyphenated (uid 77)) 2 ""
      fleet_ctl (report 2%N).1 (report 2%N).2 busy_fleet_wf (surjective_pairing _))
      as (_ & _ & _ & _ & Hx).
    apply (Hx I (uid 2) (uid 77)); [reflexivity|apply parse_hyphenated|left; reflexivity].
  - pose proof (status_reports_owned (λ _, true) 0 (Some (uid 1)) (hyphenated (uid 77)) 2 ""
      fleet_ctl (report 1%N).1 (report 1%N).2 busy_fleet_wf (surjective_pairing _))
      as (_ & _ & _ & [Hx|(a & s & Ha & Hs & Hm & _)] & _); [exact Hx|].
    rewrite parse_hyphenated in Hs. injection Hs as <-. injection Ha as <-.
    assert (as_routes (view (c_store fleet_ctl)) !! uid 77 = Some (uid 2)) as Er by evaluate.
    assert (uid 2 ≠ uid 1) by (apply (bool_decide_unpack _); vm_compute; exact I).
    unfold may_report in Hm. rewrite Er in Hm. naive_solver.
Defined.
End examples.
