(* ===== verification/Management.v ===== *)
(** * The sandbox management service (crates/controller/src/management.rs)

    One definition per RPC. A fresh [SandboxId::new()] is an argument of
    [mgmt_create_sandbox]. *)

From S2P Require Import Prelude Contracts UuidRef Store MemStore ControllerCore Capacity ControllerGrpc.

(** ** Requests and responses (proto/api.proto) *)

Record ApiCreateSandboxRequest := {
  acr_image : string;
  acr_cpu_millicores : Z;
  acr_memory_bytes : Z;
  acr_env_vars : gmap string string;
  acr_exposed_port : Z;
  acr_pull_policy : Z;
}.

Record CreateSandboxResponse := {
  csr_sandbox_id : string;
  csr_subdomain : string;
  csr_agent_id : string;
  csr_status : string;
}.

Record GetSandboxResponse := {
  gsr_sandbox_id : string;
  gsr_agent_id : string;
  gsr_subdomain : string;
  gsr_status : string;
  gsr_error : string;
}.

Definition LIST_SANDBOXES_MAX : nat := 1000.
Arguments LIST_SANDBOXES_MAX : simpl never.

Section management.
Context `{UuidLib} {W : Type} `{!ControllerStore W}.

Definition parse_id (id : string) : result SandboxId Status :=
  match parse_str id with
  | Some u => Ok u
  | None => Err (status InvalidArgument "invalid sandbox_id")
  end.

Definition status_with_invalid_state (msg : string) : Status :=
  {| code := FailedPrecondition; message := msg; trailer := Some "INVALID_STATE" |}.

(** [.await.map_err(|e| controller_error_to_status(&e))]. *)
Definition or_status {A} (m : ST (Ctl W) (result A ControllerError))
    : ST (Ctl W) (result A Status) :=
  let! r := m in st_ret (map_err controller_error_to_status r).

Definition default_if_zero (default v : Z) : Z := if decide (v = 0)%Z then default else v.

Definition internal_request (sandbox_id : SandboxId) (req : ApiCreateSandboxRequest)
    (pull_policy : PullPolicy) : CreateSandboxRequest :=
  {| cr_sandbox_id := sandbox_id;
     cr_image := acr_image req;
     cr_requirements :=
       {| req_cpu_millicores :=
            default_if_zero DEFAULT_SANDBOX_CPU_MILLICORES (acr_cpu_millicores req);
          req_memory_bytes :=
            default_if_zero DEFAULT_SANDBOX_MEMORY_BYTES (acr_memory_bytes req) |};
     cr_env_vars := acr_env_vars req;
     cr_exposed_port := default_if_zero DEFAULT_SANDBOX_EXPOSED_PORT (acr_exposed_port req);
     cr_pull_policy := pull_policy |}.

Definition mgmt_create_sandbox (sandbox_id : SandboxId) (req : ApiCreateSandboxRequest)
    : ST (Ctl W) (result CreateSandboxResponse Status) :=
  match from_wire_i32_strict (acr_pull_policy req) with
  | Err e => st_ret (Err (status InvalidArgument (UnknownPullPolicy_to_string e)))
  | Ok pull_policy =>
      let!? assignment :=
        or_status (create_sandbox (internal_request sandbox_id req pull_policy)) in
      let! _ := lift (save_sandbox_state sandbox_id (sa_agent_id assignment) "creating" None) in
      st_ret (Ok {| csr_sandbox_id := hyphenated sandbox_id;
                    csr_subdomain := subdomain sandbox_id;
                    csr_agent_id := hyphenated (sa_agent_id assignment);
                    csr_status := "creating" |})
  end.

(** A sandbox whose agent has not reported yet reads as running. *)
Definition sandbox_response (entry : RoutingEntry) (row : option SandboxStateRow)
    : GetSandboxResponse :=
  let '(st, err) := match row with
    | Some r => (row_state r, default "" (row_error r))
    | None => ("running", "")
    end in
  {| gsr_sandbox_id := hyphenated (re_sandbox_id entry);
     gsr_agent_id := hyphenated (re_agent_id entry);
     gsr_subdomain := subdomain (re_sandbox_id entry);
     gsr_status := st; gsr_error := err |}.

Definition mgmt_get_sandbox (id : string) : ST (Ctl W) (result GetSandboxResponse Status) :=
  match parse_id id with
  | Err e => st_ret (Err e)
  | Ok sandbox_id =>
      let!? entry := or_status (lift (find_routing_entry sandbox_id)) in
      match entry with
      | Some entry =>
          let!? row := or_status (lift (get_sandbox_state sandbox_id)) in
          st_ret (Ok (sandbox_response entry row))
      | None => st_ret (Err (status NotFound id))
      end
  end.

Definition mgmt_delete_sandbox (id : string) : ST (Ctl W) (result bool Status) :=
  match parse_id id with
  | Err e => st_ret (Err e)
  | Ok sandbox_id =>
      let!? entry := or_status (lift (find_routing_entry sandbox_id)) in
      match entry with
      | None => st_ret (Err (status NotFound id))
      | Some entry =>
          let command := StopSandbox (hyphenated sandbox_id)
                           (as_u32 (SANDBOX_STOP_TIMEOUT / 1000)) in
          let!? _ := or_status (send_command (re_agent_id entry) command) in
          let!? _ := or_status (lift (release_sandbox sandbox_id)) in
          st_ret (Ok true)
      end
  end.

(** Pause and unpause: the same guard, dispatch and optimistic write, with other
    states and another command. *)
Definition guarded_transition (id : string) (allowed : list string) (verb : string)
    (command : string → ControllerCommand) (optimistic : string)
    : ST (Ctl W) (result string Status) :=
  match parse_id id with
  | Err e => st_ret (Err e)
  | Ok sandbox_id =>
      let!? entry := or_status (lift (find_routing_entry sandbox_id)) in
      match entry with
      | None => st_ret (Err (status NotFound id))
      | Some entry =>
          let!? row := or_status (lift (get_sandbox_state sandbox_id)) in
          let permitted := match row with
            | Some row => bool_decide (row_state row ∈ allowed)
            | None => true
            end in
          let current := from_option row_state "" row in
          if negb permitted then
            st_ret (Err (status_with_invalid_state
              ("cannot " +:+ verb +:+ " sandbox in state '" +:+ current +:+ "'")))
          else
            let!? _ := or_status (send_command (re_agent_id entry)
                                    (command (hyphenated sandbox_id))) in
            let! _ := lift (save_sandbox_state sandbox_id (re_agent_id entry)
                              optimistic None) in
            st_ret (Ok optimistic)
      end
  end.

Definition mgmt_pause_sandbox (id : string) : ST (Ctl W) (result string Status) :=
  guarded_transition id ["running"; "pausing"; "paused"] "pause" PauseSandbox "pausing".

Definition mgmt_unpause_sandbox (id : string) : ST (Ctl W) (result string Status) :=
  guarded_transition id ["paused"; "unpausing"; "running"] "unpause" UnpauseSandbox
    "unpausing".

Fixpoint list_loop (entries : list RoutingEntry)
    : ST (Ctl W) (result (list GetSandboxResponse) Status) :=
  match entries with
  | [] => st_ret (Ok [])
  | entry :: entries' =>
      let!? row := or_status (lift (get_sandbox_state (re_sandbox_id entry))) in
      let!? rest := list_loop entries' in
      st_ret (Ok (sandbox_response entry row :: rest))
  end.

Definition mgmt_list_sandboxes : ST (Ctl W) (result (list GetSandboxResponse) Status) :=
  let!? entries := or_status (lift list_routing_entries) in
  let entries := if decide (LIST_SANDBOXES_MAX < length entries)
                 then take LIST_SANDBOXES_MAX entries else entries in
  list_loop entries.
End management.

(** ** What the RPCs guarantee *)

Section facts.
Context `{UuidLib} {W : Type} `{!ControllerStore W} `{!StoreSpec W} `{!StoreReliable W}.
Implicit Types (c : Ctl W).

Lemma or_status_inv {A} (m : ST (Ctl W) (result A ControllerError)) c r c' :
  or_status m c = (r, c') →
  ∃ r0, m c = (r0, c') ∧ r = map_err controller_error_to_status r0.
Proof. unfold or_status, st_bind. destruct (m c) as [r0 c0]. intros [= <- <-]. eauto. Qed.

Lemma controller_status_not_invalid_state e :
  trailer (controller_error_to_status e) ≠ Some "INVALID_STATE".
Proof. by destruct e. Qed.

(** Looking a sandbox up changes nothing, and finds its route if the database answers. *)
Lemma find_entry_inv i c r c' :
  store_wf (c_store c) → or_status (lift (find_routing_entry i)) c = (r, c') →
  ∃ w', c' = with_store w' c ∧ store_wf w' ∧ view w' = view (c_store c) ∧
    (reliable (c_store c) → reliable w') ∧
    ((∃ d, r = Err (controller_error_to_status (Database d)) ∧ ¬ reliable (c_store c)) ∨
     r = Ok ((λ a, {| re_sandbox_id := i; re_agent_id := a |}) <$>
             as_routes (view (c_store c)) !! i)).
Proof.
  intros Hwf (r0 & E & ->)%or_status_inv. apply lift_inv in E as (w' & E & ->).
  exists w'. split; [done|]. pose proof E as E'.
  apply find_routing_entry_spec in E as (Hwf' & Hv & E); [|done].
  do 2 (split; [done|]). split; [intros; by eapply find_routing_entry_answers|].
  destruct E as [(o & -> & ->)|(d & ->)]; [by right|left].
  exists d. split; [done|]. intros Hr.
  destruct (find_routing_entry_answers _ _ _ _ Hr E') as [_ Hno]. by destruct (Hno d).
Qed.

Lemma get_state_inv i c r c' :
  store_wf (c_store c) → or_status (lift (get_sandbox_state i)) c = (r, c') →
  ∃ w', c' = with_store w' c ∧ store_wf w' ∧ view w' = view (c_store c) ∧
    (reliable (c_store c) → reliable w') ∧
    ((∃ d, r = Err (controller_error_to_status (Database d)) ∧ ¬ reliable (c_store c)) ∨
     r = Ok (as_states (view (c_store c)) !! i)).
Proof.
  intros Hwf (r0 & E & ->)%or_status_inv. apply lift_inv in E as (w' & E & ->).
  exists w'. split; [done|]. pose proof E as E'.
  apply get_sandbox_state_spec in E as (Hwf' & Hv & E); [|done].
  do 2 (split; [done|]). split; [intros; by eapply get_sandbox_state_answers|].
  destruct E as [(o & -> & ->)|(d & ->)]; [by right|left].
  exists d. split; [done|]. intros Hr.
  destruct (get_sandbox_state_answers _ _ _ _ Hr E') as [_ Hno]. by destruct (Hno d).
Qed.

(** A recorded state that a request is allowed to start from. *)
Definition state_allows (allowed : list string) (row : option SandboxStateRow) : Prop :=
  match row with Some r => row_state r ∈ allowed | None => True end.

(** The outcome of a pause or unpause request. *)
Definition transition_outcome id allowed (command : string → ControllerCommand) optimistic
    c (r : result string Status) c' : Prop :=
  let v := view (c_store c) in let v' := view (c_store c') in
  c_conns c' = c_conns c ∧
  match r with
  | Ok st => st = optimistic ∧ ∃ i a, parse_str id = Some i ∧ as_routes v !! i = Some a ∧
      state_allows allowed (as_states v !! i) ∧
      delivered a (command (hyphenated i)) c c' ∧
      (v' = v ∨ eff_sandbox_state i optimistic None v v') ∧
      (reliable (c_store c) → eff_sandbox_state i optimistic None v v')
  | Err e => v' = v ∧ c_chans c' = c_chans c ∧
      (trailer e = Some "INVALID_STATE" → ∃ i, parse_str id = Some i ∧
         is_Some (as_routes v !! i) ∧ ¬ state_allows allowed (as_states v !! i))
  end.

Lemma guarded_transition_outcome id allowed verb command optimistic c r c' :
  store_wf (c_store c) →
  guarded_transition id allowed verb command optimistic c = (r, c') →
  transition_outcome id allowed command optimistic c r c'.
Proof.
  intros Hwf. unfold guarded_transition, transition_outcome, parse_id.
  destruct (parse_str id) as [i|]; [|by intros [= <- <-]].
  ctl_step r1 c1 E. apply find_entry_inv in E as (w1 & -> & Hwf1 & Hv1 & Hrel1 & E); [|done].
  destruct E as [(d & -> & _)| ->]; [intros [= <- <-]; simpl; by rewrite Hv1|].
  destruct (as_routes (view (c_store c)) !! i) as [a|] eqn:Er; simpl;
    [|intros [= <- <-]; simpl; by rewrite Hv1].
  ctl_step r2 c2 E. apply get_state_inv in E as (w2 & -> & Hwf2 & Hv2 & Hrel2 & E); [|done].
  simpl in *. rewrite Hv1 in *.
  destruct E as [(d & -> & _)| ->]; [intros [= <- <-]; simpl; by rewrite Hv2|].
  set (row := as_states (view (c_store c)) !! i) in *.
  set (permitted := match row with Some _ => _ | None => _ end).
  assert (permitted = true ↔ state_allows allowed row) as Hperm.
  { unfold permitted, state_allows. destruct row; [apply bool_decide_eq_true|done]. }
  destruct permitted; simpl.
  2:{ intros [= <- <-]. simpl. rewrite Hv2. do 3 (split; [done|]). intros _. exists i.
      split; [done|]. split; [by rewrite Er|]. by intros ?%Hperm. }
  ctl_step r3 c3 E. apply or_status_inv in E as (r0 & E & ->).
  apply send_command_inv in E as [(cid & l & ? & ? & -> & ->)|[-> He]].
  - cbn [map_err]. ctl_step r4 c4 E. apply lift_inv in E as (w4 & E & ->). simpl in E.
    intros [= <- <-]. simpl. split; [done|]. split; [done|]. exists i, a.
    split; [done|]. split; [done|]. split; [by apply Hperm|].
    split; [by exists cid, l|]. pose proof E as E'.
    apply save_sandbox_state_spec in E as [_ Hw]; [|done]. rewrite Hv2 in Hw. split.
    + destruct Hw as [[_ ?]|(d & _ & [?|?])]; auto.
    + intros Hr. destruct (save_sandbox_state_answers i a optimistic None _ _ _ (Hrel2 (Hrel1 Hr)) E')
        as [_ Hno]. destruct Hw as [[_ ?]|(d & -> & _)]; [done|]. by destruct (Hno d).
  - destruct r0 as [|e]; [naive_solver|]. intros [= <- <-]. simpl. rewrite Hv2.
    do 3 (split; [done|]). by intros ?%controller_status_not_invalid_state.
Qed.
End facts.

Section rpc_claims.
Context `{UuidLib} {W : Type} `{!ControllerStore W} `{!StoreSpec W} `{!StoreReliable W}.
Implicit Types (c : Ctl W).

(** Pausing and unpausing are guarded. A request that succeeds named a routed
    sandbox whose recorded state permits it, queued exactly one command on the owning
    agent's channel, and recorded the transition unless that write failed; a request
    that is refused changed nothing and sent nothing, and it is refused as an invalid
    state only when the recorded state does not permit it. *)
Theorem pause_unpause_guarded id c :
  store_wf (c_store c) →
  (∀ r c', mgmt_pause_sandbox id c = (r, c') →
     transition_outcome id ["running"; "pausing"; "paused"] PauseSandbox "pausing" c r c') ∧
  (∀ r c', mgmt_unpause_sandbox id c = (r, c') →
     transition_outcome id ["paused"; "unpausing"; "running"] UnpauseSandbox "unpausing" c r c').
Proof. intros Hwf. split; intros r c' Hr; by eapply guarded_transition_outcome. Qed.

(** Deletion stops before it forgets. A successful delete queued one StopSandbox on
    the owning agent's channel and then released the sandbox: route and reservation are
    gone and the amounts credited to the agent they were debited from. If the stop
    cannot be queued, nothing is released; a failed release is reported, with the
    sandbox either still fully there or fully gone. *)
Theorem delete_stops_then_releases id c r c' :
  store_wf (c_store c) → mgmt_delete_sandbox id c = (r, c') →
  let v := view (c_store c) in let v' := view (c_store c') in
  let released i := match as_resv v !! i with
                    | Some rs => eff_release i rs v v'
                    | None => v' = v
                    end in
  match r with
  | Ok b => b = true ∧ ∃ i a, parse_str id = Some i ∧ as_routes v !! i = Some a ∧
      delivered a (StopSandbox (hyphenated i) 10) c c' ∧ released i
  | Err e =>
      (c_chans c' = c_chans c ∧ v' = v) ∨
      (code e = CodeInternal ∧ ∃ i a, parse_str id = Some i ∧ as_routes v !! i = Some a ∧
         delivered a (StopSandbox (hyphenated i) 10) c c' ∧ (v' = v ∨ released i))
  end.
Proof.
  intros Hwf. unfold mgmt_delete_sandbox, parse_id. simpl.
  destruct (parse_str id) as [i|]; [|by intros [= <- <-]; left].
  ctl_step r1 c1 E. apply find_entry_inv in E as (w1 & -> & Hwf1 & Hv1 & _ & E); [|done].
  destruct E as [(d & -> & _)| ->]; [by intros [= <- <-]; left|].
  destruct (as_routes (view (c_store c)) !! i) as [a|] eqn:Er; simpl;
    [|by intros [= <- <-]; left].
  ctl_step r2 c2 E. apply or_status_inv in E as (r0 & E & ->).
  apply send_command_inv in E as [(cid & l & ? & ? & -> & ->)|[-> He]].
  2:{ destruct r0; [naive_solver|]. by intros [= <- <-]; left. }
  cbn [map_err]. ctl_step r3 c3 E. apply or_status_inv in E as (r4 & E & ->).
  apply lift_inv in E as (w3 & E & ->). simpl in E.
  apply release_spec in E as [_ E]; [|done]. rewrite Hv1 in E.
  assert (∀ (c'' : Ctl W), c_chans c'' = <[cid := {| ch_sent := l ++
      [Ok (StopSandbox (hyphenated i) 10)]; ch_open := true |}]> (c_chans c) →
    delivered a (StopSandbox (hyphenated i) 10) c c'') as Hdel by (intros; by exists cid, l).
  destruct (as_resv (view (c_store c)) !! i) as [rs|] eqn:Es.
  - destruct E as [[-> ?]|(d & -> & ?)]; intros [= <- <-]; simpl.
    + split; [done|]. exists i, a. do 2 (split; [done|]).
      split; [by apply Hdel|]. rewrite Es. auto.
    + right. split; [done|]. exists i, a. do 2 (split; [done|]).
      split; [by apply Hdel|]. rewrite Es. auto.
  - destruct E as [[->|(d & ->)] ?]; intros [= <- <-]; simpl.
    + split; [done|]. exists i, a. do 2 (split; [done|]).
      split; [by apply Hdel|]. rewrite Es. auto.
    + right. split; [done|]. exists i, a. do 2 (split; [done|]).
      split; [by apply Hdel|]. rewrite Es. auto.
Qed.

Lemma list_loop_inv entries c r c' :
  store_wf (c_store c) → list_loop entries c = (r, c') →
  c_chans c' = c_chans c ∧ c_conns c' = c_conns c ∧ view (c_store c') = view (c_store c) ∧
  match r with
  | Ok l => l = (λ e, sandbox_response e (as_states (view (c_store c)) !! re_sandbox_id e)) <$>
                entries
  | Err _ => ¬ reliable (c_store c)
  end.
Proof.
  revert c r c'. induction entries as [|e entries IH]; intros c r c' Hwf; simpl; [by intros [= <- <-]|].
  ctl_step r1 c1 E. apply get_state_inv in E as (w1 & -> & Hwf1 & Hv1 & Hrel & E); [|done].
  destruct E as [(d & -> & ?)| ->]; [by intros [= <- <-]|].
  ctl_step r2 c2 E. apply IH in E as (? & ? & Hv2 & Hr2); [|done]. simpl in *. rewrite Hv1 in *.
  destruct r2 as [l|]; intros [= <- <-]; [|naive_solver]. subst. done.
Qed.

(** Listing is faithful. It reports only routed sandboxes, each once, with its
    owner, its subdomain and its recorded state ("running" until the agent reports), at
    most 1000 of them, and all of them when there are no more than that; it changes
    nothing, and fails only when the database does. *)
Theorem list_sandboxes_faithful c r c' :
  store_wf (c_store c) → mgmt_list_sandboxes c = (r, c') →
  let v := view (c_store c) in
  view (c_store c') = v ∧ c_chans c' = c_chans c ∧ c_conns c' = c_conns c ∧
  match r with
  | Err _ => ¬ reliable (c_store c)
  | Ok l => ∃ es, NoDup es ∧ length es ≤ 1000 ∧
      l = (λ e, sandbox_response e (as_states v !! re_sandbox_id e)) <$> es ∧
      (∀ e, e ∈ es → as_routes v !! re_sandbox_id e = Some (re_agent_id e)) ∧
      (size (as_routes v) ≤ 1000 → ∀ i a, as_routes v !! i = Some a →
         {| re_sandbox_id := i; re_agent_id := a |} ∈ es)
  end.
Proof.
  intros Hwf. unfold mgmt_list_sandboxes. ctl_step r1 c1 E.
  apply or_status_inv in E as (r0 & E & ->). apply lift_inv in E as (w1 & E & ->).
  pose proof E as E'. apply list_routing_entries_spec in E as (Hwf1 & Hv1 & E); [|done].
  destruct E as [(es & -> & Hnd & Hes)|(d & ->)]; cbn [map_err].
  2:{ intros [= <- <-]. simpl. repeat (split; [done|]). intros Hr.
      destruct (list_routing_entries_answers _ _ _ Hr E') as [_ Hno]. by destruct (Hno d). }
  intros Hl. apply list_loop_inv in Hl as (? & ? & Hv2 & Hl); [|done]. simpl in *.
  rewrite Hv1 in *. split; [done|]. split; [done|]. split; [done|]. destruct r as [l|].
  2:{ intros Hr. apply Hl. by eapply list_routing_entries_answers. }
  eexists. split; [|split; [|split; [exact Hl|]]].
  - case_decide; [|done]. eapply sublist_NoDup; [done|apply sublist_take].
  - case_decide as Hlen; [rewrite length_take|]; unfold LIST_SANDBOXES_MAX in *; lia.
  - split.
    + intros e He. apply Hes. case_decide; [|done]. eapply elem_of_take in He as (? & ? & ?).
      by eapply list_elem_of_lookup_2.
    + intros Hsz i a Hi. rewrite decide_False; [by apply Hes|].
      unfold LIST_SANDBOXES_MAX. apply Nat.nlt_ge. etrans; [|exact Hsz].
      rewrite <- (length_fmap re_sandbox_id), <- size_dom.
      rewrite <- (size_list_to_set (C := gset SandboxId) (re_sandbox_id <$> es)).
      * apply subseteq_size. intros j. rewrite elem_of_list_to_set, list_elem_of_fmap.
        intros (e & -> & He%Hes). by apply elem_of_dom_2 in He.
      * apply NoDup_fmap_2_strong; [|done]. intros [i1 a1] [i2 a2] Hi1%Hes Hi2%Hes ?.
        simpl in *. congruence.
Qed.
End rpc_claims.

Section rpc_examples.
Lemma pause_unpause_guarded_witness :
  let run := mgmt_pause_sandbox (hyphenated (uid 77)) fleet_ctl in
  run.1 = Ok "pausing" ∧
  delivered (uid 2) (PauseSandbox (hyphenated (uid 77))) fleet_ctl run.2.
Proof.
  intros run. assert (run.1 = Ok "pausing") as E by evaluate. split; [exact E|].
  pose proof (pause_unpause_guarded (hyphenated (uid 77)) fleet_ctl busy_fleet_wf) as [Hp _].
  destruct (Hp run.1 run.2 (surjective_pairing run)) as [_ Hx]. rewrite E in Hx.
  destruct Hx as (_ & i & a & Hi & Ha & _ & Hd & _).
  rewrite parse_hyphenated in Hi. injection Hi as <-.
  assert (as_routes (view (c_store fleet_ctl)) !! uid 77 = Some (uid 2)) as Er by evaluate.
  rewrite Er in Ha. injection Ha as <-. exact Hd.
Defined.

Lemma delete_stops_then_releases_witness :
  let run := mgmt_delete_sandbox (hyphenated (uid 77)) fleet_ctl in
  run.1 = Ok true ∧ as_routes (view (c_store run.2)) !! uid 77 = None ∧
  as_resv (view (c_store run.2)) !! uid 77 = None.
Proof.
  intros run. assert (run.1 = Ok true) as E by evaluate. split; [exact E|].
  pose proof (delete_stops_then_releases (hyphenated (uid 77)) fleet_ctl run.1 run.2
    busy_fleet_wf (surjective_pairing run)) as Hx. rewrite E in Hx.
  destruct Hx as (_ & i & a & Hi & _ & _ & Hrel).
  rewrite parse_hyphenated in Hi. injection Hi as <-.
  assert (as_resv (view (c_store fleet_ctl)) !! uid 77 = Some {| rs_agent_id := uid 2;
    rs_cpu_millicores := 100; rs_memory_bytes := 100 |}) as Es by evaluate.
  rewrite Es in Hrel. destruct Hrel as (_ & _ & Hr & Hs & _). rewrite Hr, Hs.
  split; apply lookup_delete_eq.
Defined.

Lemma list_sandboxes_faithful_witness :
  let run := mgmt_list_sandboxes fleet_ctl in
  run.1 = Ok [sandbox_response {| re_sandbox_id := uid 77; re_agent_id := uid 2 |}
                (Some {| row_state := "running"; row_error := None |});
              sandbox_response {| re_sandbox_id := uid 78; re_agent_id := uid 1 |} None] ∧
  view (c_store run.2) = view busy_fleet.
Proof.
  intros run. split; [evaluate|].
  pose proof (list_sandboxes_faithful fleet_ctl run.1 run.2 busy_fleet_wf
    (surjective_pairing run)) as [Hx _]. exact Hx.
Defined.
End rpc_examples.
