(* ===== verification/ControllerSystem.v ===== *)
(** * The controller as a transition system

    The agent streams, the management RPCs and the sweeper run against one controller;
    an [Event] is one of them handling one input. [reachable] is what any sequence of
    events can lead to, and its invariant is that capacity is never overcommitted. *)

From S2P Require Import Prelude Contracts UuidRef Store MemStore ControllerCore Capacity ControllerGrpc Management.

Record Sys `{UuidLib} (W : Type) := {
  sys_ctl : Ctl W;
  (** the running stream tasks and the agent each has registered *)
  sys_streams : gmap nat (option AgentId);
}.
Arguments sys_ctl {_ _} _.
Arguments sys_streams {_ _} _.

Inductive Event `{UuidLib} :=
| EvOpen (cid : nat)
| EvMessage (cid : nat) (msg : AgentMessage)
| EvInboundEnd (cid : nat)
| EvReceiverGone (cid : nat)
| EvCreate (sandbox_id : SandboxId) (req : ApiCreateSandboxRequest)
| EvGet (id : string)
| EvDelete (id : string)
| EvPause (id : string)
| EvUnpause (id : string)
| EvList
| EvSweep.

Section system.
Context `{UuidLib} {W : Type} `{!ControllerStore W} (validate : string → bool).
Implicit Types (s : Sys W) (e : Event).

(** The task leaves its loop. *)
Definition finish_stream (cid : nat) (registered : option AgentId) (c : Ctl W) s : Sys W :=
  {| sys_ctl := (stream_end registered c).2; sys_streams := delete cid (sys_streams s) |}.

Definition on_ctl {A} (m : ST (Ctl W) A) s : Sys W :=
  {| sys_ctl := (m (sys_ctl s)).2; sys_streams := sys_streams s |}.

Definition step e s : Sys W :=
  match e with
  | EvOpen cid =>
      {| sys_ctl := with_chans (<[cid := {| ch_sent := []; ch_open := true |}]>
                                  (c_chans (sys_ctl s))) (sys_ctl s);
         sys_streams := <[cid := None]> (sys_streams s) |}
  | EvMessage cid msg =>
      match sys_streams s !! cid with
      | None => s
      | Some registered =>
          match on_message validate cid registered msg (sys_ctl s) with
          | (Continue registered', c) =>
              {| sys_ctl := c; sys_streams := <[cid := registered']> (sys_streams s) |}
          | (Break registered', c) => finish_stream cid registered' c s
          end
      end
  | EvInboundEnd cid =>
      match sys_streams s !! cid with
      | None => s
      | Some registered => finish_stream cid registered (sys_ctl s) s
      end
  | EvReceiverGone cid =>
      {| sys_ctl := with_chans (alter (λ ch, {| ch_sent := ch_sent ch; ch_open := false |}) cid
                                  (c_chans (sys_ctl s))) (sys_ctl s);
         sys_streams := sys_streams s |}
  | EvCreate sandbox_id req => on_ctl (mgmt_create_sandbox sandbox_id req) s
  | EvGet id => on_ctl (mgmt_get_sandbox id) s
  | EvDelete id => on_ctl (mgmt_delete_sandbox id) s
  | EvPause id => on_ctl (mgmt_pause_sandbox id) s
  | EvUnpause id => on_ctl (mgmt_unpause_sandbox id) s
  | EvList => on_ctl mgmt_list_sandboxes s
  | EvSweep => on_ctl sweep_dead_agents s
  end.
End system.

(** ** What a handler does to the controller

    [moves R m]: every run of [m] is related by [R]; for a preorder this is shown call by
    call. *)

Section moves.
Context `{UuidLib} {W : Type} `{!ControllerStore W}.
Implicit Types (R : relation (Ctl W)) (I : W → Prop).

Definition moves R {A} (m : ST (Ctl W) A) : Prop := ∀ c r c', m c = (r, c') → R c c'.

(** The relation of an invariant of the store. *)
Definition keeps I : relation (Ctl W) := λ c c', I (c_store c) → I (c_store c').
#[global] Instance keeps_preorder I : PreOrder (keeps I).
Proof. unfold keeps. split; [by intros c|]. intros c1 c2 c3 H12 H23. auto. Qed.

Lemma moves_ret R `{!PreOrder R} {A} (x : A) : moves R (st_ret x).
Proof. by intros c r c' [= <- <-]. Qed.

Lemma moves_bind R `{!PreOrder R} {A B} (m : ST (Ctl W) A) (k : A → ST (Ctl W) B) :
  moves R m → (∀ x, moves R (k x)) → moves R (st_bind m k).
Proof.
  intros Hm Hk c r c'. unfold st_bind. destruct (m c) as [x c1] eqn:E. intros Hr.
  etrans; [by eapply Hm|by eapply Hk].
Qed.

Lemma moves_bind_ok R `{!PreOrder R} {A B E} (m : ST (Ctl W) (result A E))
    (k : A → ST (Ctl W) (result B E)) :
  moves R m → (∀ x, moves R (k x)) → moves R (st_bind_ok m k).
Proof. intros Hm Hk. apply moves_bind; [done..|]. intros []; [done|by apply moves_ret]. Qed.

Lemma moves_or_status R `{!PreOrder R} {A} (m : ST (Ctl W) (result A ControllerError)) :
  moves R m → moves R (or_status m).
Proof. intros. apply moves_bind; [done..|]. intros. by apply moves_ret. Qed.

Lemma keeps_lift I {A} (m : ST W A) :
  (∀ w r w', I w → m w = (r, w') → I w') → moves (keeps I) (lift m).
Proof. intros Hm c r c' (w' & E & ->)%lift_inv Hc. by eapply Hm. Qed.

Lemma keeps_chan_send I cid x : moves (keeps I) (chan_send cid x).
Proof. intros c r c' (Hs & _)%chan_send_store Hc. by rewrite Hs. Qed.

Lemma keeps_send_command I a cmd : moves (keeps I) (send_command a cmd).
Proof. by intros c r c' [(cid & l & _ & _ & _ & ->)|[-> _]]%send_command_inv Hc. Qed.

Lemma keeps_conns_add I a cid : moves (keeps I) (connections_add a cid).
Proof. by intros c r c' [= <- <-] Hc. Qed.
Lemma keeps_conns_remove I a : moves (keeps I) (connections_remove a).
Proof. by intros c r c' [= <- <-] Hc. Qed.
End moves.

Create HintDb moves.
#[export] Hint Resolve keeps_chan_send keeps_send_command keeps_conns_add keeps_conns_remove
  keeps_lift : moves.

(** Walk a handler call by call. *)
Ltac walk :=
  repeat (intros;
    match goal with
    | |- moves _ (st_bind_ok _ _) => apply moves_bind_ok; [apply _|..]
    | |- moves _ (st_bind _ _) => apply moves_bind; [apply _|..]
    | |- moves _ (st_ret _) => apply moves_ret; apply _
    | |- moves _ (or_status _) => apply moves_or_status; [apply _|]
    | |- moves _ match _ with _ => _ end => case_match
    | |- moves _ _ => solve [eauto 4 with moves typeclass_instances]
    end); intros.

(** The calls of the management RPCs and of the streams. *)
Class Handled `{UuidLib} {W : Type} `{!ControllerStore W} (R : relation (Ctl W)) := {
  handled_pre :: PreOrder R;
  handled_find i : moves R (lift (find_routing_entry i));
  handled_get_state i : moves R (lift (get_sandbox_state i));
  handled_list : moves R (lift list_routing_entries);
  handled_save_state i a st err : moves R (lift (save_sandbox_state i a st err));
  handled_release i : moves R (lift (release_sandbox i));
  handled_get_agent a : moves R (lift (get_agent a));
  handled_heartbeat a : moves R (lift (record_heartbeat a));
  handled_dead : moves R (lift dead_agents);
  handled_send a cmd : moves R (send_command a cmd);
}.
#[export] Hint Resolve handled_find handled_get_state handled_list handled_save_state
  handled_release handled_get_agent handled_heartbeat handled_dead handled_send : moves.

Section handlers.
Context `{UuidLib} {W : Type} `{!ControllerStore W} (R : relation (Ctl W)) `{!Handled R}.

Lemma mgmt_get_moves id : moves R (mgmt_get_sandbox id).
Proof. unfold mgmt_get_sandbox. walk. Qed.

Lemma mgmt_delete_moves id : moves R (mgmt_delete_sandbox id).
Proof. unfold mgmt_delete_sandbox. walk. Qed.

Lemma guarded_transition_moves id allowed verb command optimistic :
  moves R (guarded_transition id allowed verb command optimistic).
Proof. unfold guarded_transition. walk. Qed.

Lemma mgmt_list_moves : moves R mgmt_list_sandboxes.
Proof.
  unfold mgmt_list_sandboxes. apply moves_bind_ok; [apply _|walk|]. intros entries.
  generalize (if decide (LIST_SANDBOXES_MAX < length entries)
              then take LIST_SANDBOXES_MAX entries else entries).
  intros l. induction l as [|e l IH]; simpl; walk.
Qed.

(** A sweep; [Q] is known of the agents it finds in a controller with [P]. *)
Lemma sweep_moves (P : Ctl W → Prop) (Q : AgentId → Prop) c r c' :
  (∀ a, Q a → moves R (lift (mark_agent_dead a)) ∧ moves R (connections_remove a)) →
  (∀ c l c', P c → lift dead_agents c = (Ok l, c') → Forall Q l) →
  P c → sweep_dead_agents c = (r, c') → R c c'.
Proof.
  intros HQ Hdead Hc. assert (∀ l, Forall Q l → moves R (sweep_loop l)) as Hloop.
  { intros l Hl. induction Hl as [|a l Ha _ IH]; simpl; walk; apply HQ in Ha as []; walk. }
  unfold sweep_dead_agents, st_bind at 1. destruct (lift dead_agents c) as [r1 c1] eqn:E.
  pose proof (handled_dead _ _ _ E) as H1. intros H2. etrans; [exact H1|]. revert H2.
  destruct r1 as [l|e]; [|by intros [= <- <-]]. apply Hdead in E as Hl; [|done]. apply Hloop in Hl.
  assert (moves R (let! _ := sweep_loop l in st_ret l)) as Hm by walk. apply Hm.
Qed.

Lemma on_heartbeat_moves cid registered id :
  (∀ x, moves R (chan_send cid x)) → moves R (on_heartbeat cid registered id).
Proof.
  intros Hs. unfold on_heartbeat. walk.
  - assert (∀ a, moves R (lift (registry_heartbeat a))) as Hr; [|apply Hr].
    intros b c r c'. unfold lift, registry_heartbeat, st_bind_ok, st_bind.
    destruct (get_agent b (c_store c)) as [o w1] eqn:E.
    assert (R c (with_store w1 c)) as Hm by (apply (handled_get_agent b _ o); unfold lift; by rewrite E).
    destruct o as [[]|]; by intros [= <- <-].
  - intros c r c' Hc. by eapply Hs.
Qed.

Lemma on_sandbox_status_moves registered id state msg :
  moves R (on_sandbox_status registered id state msg).
Proof. unfold on_sandbox_status. walk. Qed.
End handlers.

Create HintDb balanced.

(** ** Capacity is kept by every event *)

Section capacity.
Context `{UuidLib} {W : Type} `{!ControllerStore W} `{!StoreSpec W}.
Implicit Types (s : Sys W) (e : Event) (over : AgentId → Prop).

(** The books balance, except those of the agents in [over]. *)
Definition balanced (over : AgentId → Prop) (w : W) : Prop := store_wf w ∧ capacity_inv over (view w).

(** A write keeps the books if its effect does. *)
Lemma balanced_writes {A} over (r : result A ControllerError) x eff w w' :
  balanced over w → store_wf w' → writes r x eff (view w) (view w') →
  (capacity_inv over (view w) → eff (view w) (view w') → capacity_inv over (view w')) → balanced over w'.
Proof.
  intros [? ?] ? Hw Heff. split; [done|].
  destruct Hw as [[_ ?]|(d & _ & [->|?])]; auto.
Qed.

Lemma balanced_reads {A} over (r : result A ControllerError) P w w' :
  balanced over w → store_wf w' → reads r P (view w) (view w') → balanced over w'.
Proof. intros [? ?] ? [Hv _]. split; [done|]. by rewrite Hv. Qed.

Lemma balanced_find_routing_entry over i w r w' :
  balanced over w → find_routing_entry i w = (r, w') → balanced over w'.
Proof. intros Hb [? ?]%find_routing_entry_spec; [|apply Hb]. by eapply balanced_reads. Qed.
Lemma balanced_get_sandbox_state over i w r w' :
  balanced over w → get_sandbox_state i w = (r, w') → balanced over w'.
Proof. intros Hb [? ?]%get_sandbox_state_spec; [|apply Hb]. by eapply balanced_reads. Qed.
Lemma balanced_list_routing_entries over w r w' :
  balanced over w → list_routing_entries w = (r, w') → balanced over w'.
Proof. intros Hb [? ?]%list_routing_entries_spec; [|apply Hb]. by eapply balanced_reads. Qed.
Lemma balanced_get_agent over a w r w' : balanced over w → get_agent a w = (r, w') → balanced over w'.
Proof. intros Hb [? ?]%get_agent_spec; [|apply Hb]. by eapply balanced_reads. Qed.
Lemma balanced_dead_agents over w r w' : balanced over w → dead_agents w = (r, w') → balanced over w'.
Proof. intros Hb [? ?]%dead_agents_spec; [|apply Hb]. by eapply balanced_reads. Qed.

Lemma balanced_save_sandbox_state over i a st err w r w' :
  balanced over w → save_sandbox_state i a st err w = (r, w') → balanced over w'.
Proof.
  intros Hb [? ?]%save_sandbox_state_spec; [|apply Hb].
  eapply balanced_writes; eauto with os.
Qed.
Lemma balanced_record_heartbeat over a w r w' :
  balanced over w → record_heartbeat a w = (r, w') → balanced over w'.
Proof.
  intros Hb [? ?]%record_heartbeat_spec; [|apply Hb]. eapply balanced_writes; eauto with os.
Qed.
Lemma balanced_mark_agent_dead over a w r w' :
  balanced over w → mark_agent_dead a w = (r, w') → balanced over w'.
Proof.
  intros Hb [? [(_ & Hv & _)|?]]%mark_agent_dead_spec; [..|apply Hb].
  - split; [done|]. rewrite Hv. apply Hb.
  - eapply balanced_writes; eauto with os.
Qed.
Lemma balanced_release_sandbox over i w r w' :
  balanced over w → release_sandbox i w = (r, w') → balanced over w'.
Proof.
  intros Hb [? Hr]%release_spec; [|apply Hb].
  destruct (as_resv (view w) !! i) as [rs|] eqn:E.
  - eapply balanced_writes; eauto with os.
  - split; [done|]. destruct Hr as [_ ->]. apply Hb.
Qed.
End capacity.
#[export] Hint Resolve balanced_find_routing_entry balanced_get_sandbox_state
  balanced_list_routing_entries balanced_get_agent balanced_dead_agents
  balanced_save_sandbox_state balanced_record_heartbeat balanced_mark_agent_dead
  balanced_release_sandbox : balanced.


#[export] Instance balanced_handled `{UuidLib} {W : Type} `{!ControllerStore W} `{!StoreSpec W} over :
  Handled (keeps (W := W) (balanced over)).
Proof. split; [apply _|..]; intros; solve [eauto 4 with moves balanced]. Qed.

Lemma balanced_sweep `{UuidLib} {W : Type} `{!ControllerStore W} `{!StoreSpec W} over :
  moves (keeps (W := W) (balanced over)) sweep_dead_agents.
Proof.
  intros c r c'. apply (sweep_moves _ (λ _, True) (λ _, True)); [|intros; by apply Forall_true|done].
  intros. split; eauto 4 with moves balanced.
Qed.

(** The run of a handler whose every call keeps the books. *)
Ltac preserved :=
  match goal with |- ?m _ = _ → balanced ?over _ =>
    let Hm := fresh in assert (moves (keeps (balanced over)) m) as Hm by walk;
    let Hr := fresh in intros Hr; apply Hm in Hr; by apply Hr
  end.

Section reach.
Context `{UuidLib} {W : Type} `{!ControllerStore W} `{!StoreSpec W}.
Context (validate : string → bool).
Implicit Types (s : Sys W) (e : Event) (c : Ctl W) (over : AgentId → Prop).

(** The inputs: a sandbox id from [SandboxId::new()] is not in use, and the numbers of a
    message are those of its wire types. *)
Definition create_ok (i : SandboxId) (req : ApiCreateSandboxRequest) (w : W) : Prop :=
  in_u32 (acr_cpu_millicores req) ∧ in_u64 (acr_memory_bytes req) ∧
  as_routes (view w) !! i = None ∧ as_resv (view w) !! i = None.

Definition capacity_of (res : option AgentResources) : AgentCapacity :=
  {| cpu_cores := from_option res_cpu_cores 0%Z res; memory_bytes := from_option res_memory_bytes 0%Z res |}.

Definition register_ok (res : option AgentResources) : Prop :=
  in_u32 (cpu_cores (capacity_of res)) ∧ in_u64 (memory_bytes (capacity_of res)).

Definition event_ok e s : Prop :=
  match e with
  | EvCreate i req => create_ok i req (c_store (sys_ctl s))
  | EvMessage _ (Some (Register _ _ res)) => register_ok res
  | _ => True
  end.

(** The agents whose last registration found sandboxes reserved on them, or announced more
    than the columns hold: a registration with a good token puts its agent in, and an accepted
    one that is clean takes it out. *)
Definition overbooked_after e s (over : gset AgentId) : gset AgentId :=
  match e with
  | EvMessage cid (Some (Register id token res)) =>
      match sys_streams s !! cid, parse_str id with
      | Some _, Some a =>
          if validate token then
            if decide (clean_registration a (capacity_of res) (view (c_store (sys_ctl s)))) then
              match (register validate a token (capacity_of res) (c_store (sys_ctl s))).1 with
              | Ok Accepted => over ∖ {[a]}
              | _ => over
              end
            else {[a]} ∪ over
          else over
      | _, _ => over
      end
  | _ => over
  end.

Inductive reachable (s0 : Sys W) : gset AgentId → Sys W → Prop :=
| reach_init : reachable s0 ∅ s0
| reach_step (over : gset AgentId) s e : reachable s0 over s → event_ok e s →
    reachable s0 (overbooked_after e s over) (step validate e s).

Lemma balanced_weaken over over' w :
  (∀ a, over a → over' a) → balanced over w → balanced over' w.
Proof. intros Ho [? ?]. split; [done|]. by eapply capacity_inv_weaken. Qed.

Lemma balanced_assigned over req a w w' :
  balanced over w → (0 ≤ req_cpu_millicores (cr_requirements req))%Z →
  (0 ≤ req_memory_bytes (cr_requirements req))%Z →
  as_resv (view w) !! cr_sandbox_id req = None → store_wf w' →
  assigned req a (view w) (view w') → balanced over w'.
Proof.
  intros [? ?] ???? Ha. split; [done|]. eapply capacity_inv_assign; [..|exact Ha]; done.
Qed.

Lemma create_sandbox_balanced over req c r c' :
  create_pre req c → balanced over (c_store c) → create_sandbox req c = (r, c') →
  balanced over (c_store c').
Proof.
  intros Hpre Hb Hrun. pose proof Hpre as [? Hcpu Hmem ? ?]. unfold in_u32, in_u64 in *.
  apply create_sandbox_inv in Hrun as (_ & Hwf & Hr); [|done].
  assert (∀ a w, store_wf w → assigned req a (view (c_store c)) (view w) → balanced over w) as Hass.
  { intros. eapply balanced_assigned; eauto; lia. }
  destruct r as [asg|e]; [destruct Hr as (_ & _ & ?); by eapply Hass|].
  destruct Hr as [_ [Hv|[(d & a & _ & ?)|(a & w1 & rr & ? & ? & ?)]]].
  - split; [done|]. rewrite Hv. apply Hb.
  - by eapply Hass.
  - eapply balanced_release_sandbox; [|done]. by eapply Hass.
Qed.

Lemma mgmt_create_balanced over i req c r c' :
  balanced over (c_store c) → create_ok i req (c_store c) →
  mgmt_create_sandbox i req c = (r, c') → balanced over (c_store c').
Proof.
  intros Hb (Hcpu & Hmem & Hr & Hs). unfold mgmt_create_sandbox.
  destruct (from_wire_i32_strict _) as [pp|]; [|by intros [= <- <-]].
  ctl_step r1 c1 E. revert E. unfold or_status. ctl_step r0 c0 E0. intros [= <- <-].
  assert (balanced over (c_store c0)) as Hb0.
  { eapply create_sandbox_balanced; [|done|exact E0].
    constructor; simpl; [apply Hb| | |done|done]; unfold default_if_zero; by case_decide. }
  destruct r0 as [asg|e]; simpl; [|by intros [= <- <-]].
  ctl_step r2 c2 E. apply lift_inv in E as (w2 & E & ->). intros [= <- <-]. simpl.
  by eapply balanced_save_sandbox_state.
Qed.

(** The agents without books after a registration that returned [r]. *)
Definition after_register a cap (v : AbsStore) (r : result RegistrationResult ControllerError) over
    : AgentId → Prop :=
  λ b, if decide (b = a) then
         match r with Ok Accepted => ¬ clean_registration a cap v
                 | Ok _ => over a
                 | Err _ => over a ∨ ¬ clean_registration a cap v end
       else over b.

Lemma registration_in_range a cap :
  in_u32 (cpu_cores cap) → in_u64 (memory_bytes cap) → record_in_range (registration_record a cap).
Proof.
  unfold record_in_range, registration_record, as_u32. simpl. intros. split_and!; try done.
  apply as_unsigned_range. lia.
Qed.

Lemma register_balanced over a tok cap w r w' :
  balanced over w → in_u32 (cpu_cores cap) → in_u64 (memory_bytes cap) →
  register validate a tok cap w = (r, w') → balanced (after_register a cap (view w) r over) w'.
Proof.
  intros Hb Hc Hm. unfold register, after_register. destruct (negb _).
  { intros [= <- <-]. eapply balanced_weaken, Hb. intros b ?. by case_decide; subst. }
  unfold st_bind_ok, st_bind. destruct (save_agent _ w) as [r1 w1] eqn:E.
  apply save_agent_spec in E as [Hwf1 Hw]; [|apply Hb|].
  2: by apply registration_in_range.
  assert (∀ v', eff_save_agent (registration_record a cap) (view w) v' →
    capacity_inv (λ b, if decide (b = a) then ¬ clean_registration a cap (view w) else over b) v') as Hinv.
  { intros v' Hv. by eapply capacity_inv_register; [apply Hb|..]. }
  destruct Hw as [[-> Hv]|(d & -> & [Hv|Hv])]; intros [= <- <-]; (split; [done|]).
  - by apply Hinv.
  - rewrite Hv. apply (capacity_inv_weaken over); [|apply Hb]. intros b ?. case_decide; subst; auto.
  - eapply capacity_inv_weaken; [|by apply Hinv]. intros b. cbn. repeat case_decide; tauto.
Qed.

Lemma on_message_balanced over cid registered msg c f c' :
  balanced over (c_store c) → (∀ id tok res, msg = Some (Register id tok res) → register_ok res) →
  on_message validate cid registered msg c = (f, c') →
  match msg with
  | Some (Register id tok res) => match parse_str id with
      | Some a => balanced (after_register a (capacity_of res) (view (c_store c))
          (register validate a tok (capacity_of res) (c_store c)).1 over) (c_store c')
      | None => balanced over (c_store c')
      end
  | _ => balanced over (c_store c')
  end.
Proof.
  intros Hb Hok. destruct msg as [[id tok res|id|id st err|]|]; simpl.
  2: { intros Hr. by eapply (on_heartbeat_moves (keeps (balanced over))); [apply keeps_chan_send|..]. }
  2: { intros Hr. by eapply (on_sandbox_status_moves (keeps (balanced over))). }
  2,3: by intros [= <- <-].
  destruct (Hok id tok res eq_refl) as [Hc Hm]. unfold on_register.
  destruct (parse_str id) as [a|] eqn:Ep.
  2: by preserved.
  ctl_step r c1 E. apply lift_inv in E as (w1 & E & ->). fold (capacity_of res) in *.
  rewrite E. cbn [fst].
  eapply register_balanced in E; [|done..].
  set (over1 := after_register _ _ _ r over) in *.
  assert (balanced over1 (c_store (with_store w1 c))) as Hb1 by done. revert Hb1. clearbody over1.
  generalize (with_store w1 c). intros c1 Hb1. destruct r as [[|]|]; by preserved.
Qed.

(** The agents without books in [over] are without them in [over'] after the event. *)
Definition covers over over' e s : Prop :=
  match e with
  | EvMessage cid (Some (Register id tok res)) =>
      match sys_streams s !! cid, parse_str id with
      | Some _, Some a => ∀ b, after_register a (capacity_of res) (view (c_store (sys_ctl s)))
          (register validate a tok (capacity_of res) (c_store (sys_ctl s))).1 over b → over' b
      | _, _ => ∀ b, over b → over' b
      end
  | _ => ∀ b, over b → over' b
  end.

Lemma covers_overbooked e s (over : gset AgentId) : covers (.∈ over) (.∈ overbooked_after e s over) e s.
Proof.
  destruct e as [|cid [[id tok res| | |]|]| | | | | | | | |]; cbn; try done.
  destruct (sys_streams s !! cid), (parse_str id) as [a|]; try done. intros b. unfold after_register.
  destruct (validate tok) eqn:Hv.
  - destruct (decide (clean_registration _ _ _)), (register _ _ _ _ _).1 as [[]|]; case_decide; set_solver.
  - unfold register. rewrite Hv. cbn. by case_decide; subst.
Qed.

Lemma step_balanced over over' e s :
  covers over over' e s → balanced over (c_store (sys_ctl s)) → event_ok e s →
  balanced over' (c_store (sys_ctl (step validate e s))).
Proof.
  assert (∀ A (m : ST (Ctl W) A), moves (keeps (balanced over)) m →
    balanced over (c_store (sys_ctl s)) → balanced over (c_store (sys_ctl (on_ctl m s)))) as Hctl.
  { intros A m Hm Hb. unfold on_ctl. simpl. destruct (m (sys_ctl s)) eqn:E. by eapply Hm. }
  assert (∀ over reg, moves (keeps (balanced over)) (stream_end (W := W) reg)) as Hend.
  { intros ? []; simpl; walk. }
  intros Hcov Hb Hok. destruct e as [cid|cid msg|cid|cid|i req|id|id|id|id| |]; simpl in Hcov |- *;
    [|clear Hctl|..]; try apply (balanced_weaken over over' _ Hcov).
  - done.
  - destruct (sys_streams s !! cid) as [reg|] eqn:Es; [|by eapply balanced_weaken, Hb; repeat case_match].
    destruct (on_message validate cid reg msg (sys_ctl s)) as [f c'] eqn:E.
    assert (balanced over' (c_store c')) as Hb1.
    { apply (on_message_balanced over) in E; [|done|by intros ? ? ? ->].
      destruct msg as [[id tok res| | |]|]; try (by eapply balanced_weaken, E).
      destruct (parse_str id) as [a|]; by eapply balanced_weaken, E. }
    destruct f as [reg'|reg']; simpl; [done|].
    destruct (stream_end reg' c') eqn:Ee. by eapply Hend.
  - destruct (sys_streams s !! cid) as [reg|]; [|done]. simpl.
    destruct (stream_end reg (sys_ctl s)) eqn:Ee. by eapply Hend.
  - done.
  - destruct (mgmt_create_sandbox i req (sys_ctl s)) eqn:E. by eapply mgmt_create_balanced.
  - by apply Hctl; [apply mgmt_get_moves, _|].
  - by apply Hctl; [apply mgmt_delete_moves, _|].
  - by apply Hctl; [apply guarded_transition_moves, _|].
  - by apply Hctl; [apply guarded_transition_moves, _|].
  - by apply Hctl; [apply mgmt_list_moves, _|].
  - by apply Hctl; [apply balanced_sweep|].
Qed.
End reach.

Section safety.
Context `{UuidLib} {W : Type} `{!ControllerStore W} `{!StoreSpec W}.
Context (validate : string → bool).

(** C1: capacity is never overcommitted. Whatever streams, RPCs and sweeps do, in any
    order and with any database faults, in every reachable state the free CPU and memory of
    each agent plus what is reserved on it is exactly the capacity it registered with, so the
    reservations never exceed it; except for an agent whose last registration came while
    sandboxes were reserved on it or announced a capacity beyond its columns, and such an
    agent does not disturb the books of the others. *)
Theorem capacity_never_overcommitted (s0 s : Sys W) (overbooked : gset AgentId) :
  balanced (λ _, False) (c_store (sys_ctl s0)) → reachable validate s0 overbooked s →
  ∀ a rec, as_agents (view (c_store (sys_ctl s))) !! a = Some rec → a ∉ overbooked →
    let held f := reserved f a (as_resv (view (c_store (sys_ctl s)))) in
    (av_cpu_millicores (ar_available rec) + held rs_cpu_millicores =
       cpu_cores (ar_capacity rec) * 1000)%Z ∧
    (av_memory_bytes (ar_available rec) + held rs_memory_bytes =
       memory_bytes (ar_capacity rec))%Z ∧
    (held rs_cpu_millicores ≤ cpu_cores (ar_capacity rec) * 1000)%Z ∧
    (held rs_memory_bytes ≤ memory_bytes (ar_capacity rec))%Z.
Proof.
  intros H0 Hreach a rec Ha Ho. simpl.
  assert (balanced (.∈ overbooked) (c_store (sys_ctl s))) as [_ Hci].
  { clear Ha Ho. induction Hreach; [by eapply balanced_weaken, H0|].
    eapply step_balanced; [apply covers_overbooked|done..]. }
  destruct (ci_agents _ _ Hci _ _ Ha Ho) as (_ & _ & _ & _ & ? & ?).
  split; [done|]. split; [done|]. by eapply capacity_inv_no_overcommit.
Qed.
End safety.

Section runs.
Definition empty_store : MemStore :=
  {| m_agents := ∅; m_routing := []; m_sandbox_states := ∅; m_reservations := ∅;
     m_heartbeats := ∅; m_now := 0 |}.

Definition boot : Sys MemStore :=
  {| sys_ctl := {| c_store := empty_store; c_conns := ∅; c_chans := ∅; c_clock := 0 |};
     sys_streams := ∅ |}.

Definition run (es : list Event) (s : Sys MemStore) : Sys MemStore :=
  foldl (λ s e, step (λ _, true) e s) s es.

(** A four-core agent. *)
Definition join (cid : nat) : Event :=
  EvMessage cid (Some (Register (hyphenated (uid 1)) "token"
    (Some {| res_cpu_cores := 4; res_memory_bytes := 8000 |}))).

Definition big_sandbox : ApiCreateSandboxRequest :=
  {| acr_image := "alpine"; acr_cpu_millicores := 4000; acr_memory_bytes := 4000;
     acr_env_vars := ∅; acr_exposed_port := 0; acr_pull_policy := 0 |}.

Lemma boot_balanced over : balanced over (c_store (sys_ctl boot)).
Proof.
  split; [apply (bool_decide_unpack _); vm_compute; exact I|].
  split; apply map_Forall_empty.
Qed.

Lemma capacity_never_overcommitted_witness :
  let s := run [EvOpen 1; join 1; EvCreate (uid 50) big_sandbox] boot in
  ∃ rec, as_agents (view (c_store (sys_ctl s))) !! uid 1 = Some rec ∧
    (reserved rs_cpu_millicores (uid 1) (as_resv (view (c_store (sys_ctl s)))) ≤
     cpu_cores (ar_capacity rec) * 1000)%Z.
Proof.
  intros s. destruct (as_agents (view (c_store (sys_ctl s))) !! uid 1) as [rec|] eqn:Hrec.
  2:{ exfalso. assert (bool_decide (is_Some (as_agents (view (c_store (sys_ctl s))) !! uid 1)) =
        true) as Hx by evaluate. rewrite Hrec in Hx. discriminate Hx. }
  exists rec. split; [reflexivity|].
  assert (∃ over, reachable (λ _, true) boot over s ∧ uid 1 ∉ over) as (over & Hs & Ho).
  { eexists. split.
    - eapply (reach_step _ _ _ _ (EvCreate (uid 50) big_sandbox)).
      + eapply (reach_step _ _ _ _ (join 1)).
        * eapply (reach_step _ _ _ _ (EvOpen 1)); [apply reach_init|exact I].
        * split; done.
      + split; [done|]. split; [done|]. split; reflexivity.
    - apply (bool_decide_unpack _). vm_compute. exact I. }
  destruct (capacity_never_overcommitted (λ _, true) boot s over (boot_balanced _) Hs (uid 1) rec Hrec Ho)
    as (_ & _ & Hx & _). exact Hx.
Defined.

(** The exception is needed: an agent that registers again, as it does
    on every reconnect, has its free capacity reset to the full amount while the
    sandboxes it runs stay reserved, and is then promised twice what it has. *)
Theorem reregistration_overcommits :
  let s := run [EvOpen 1; join 1; EvCreate (uid 50) big_sandbox; EvOpen 2; join 2;
                EvCreate (uid 51) big_sandbox] boot in
  reserved rs_cpu_millicores (uid 1) (as_resv (view (c_store (sys_ctl s)))) = 8000%Z ∧
  (λ rec, cpu_cores (ar_capacity rec)) <$> as_agents (view (c_store (sys_ctl s))) !! uid 1 =
    Some 4%Z.
Proof. split; evaluate. Qed.

(** When an agent reconnects before its old stream has ended, the end of the old stream
    removes the new stream's sender: the agent is active and its stream open, but no
    command reaches it any more. *)
Theorem stale_stream_end_disconnects :
  let s := run [EvOpen 1; join 1; EvOpen 2; join 2; EvInboundEnd 1] boot in
  sys_streams s !! 2 = Some (Some (uid 1)) ∧ c_conns (sys_ctl s) !! uid 1 = None ∧
  (send_command (uid 1) (PauseSandbox "x") (sys_ctl s)).1 =
    Err (AgentNotFound (hyphenated (uid 1))).
Proof. split; [evaluate|]. split; evaluate. Qed.
End runs.
