(* ===== verification/Contention.v ===== *)
(** * The scheduler among concurrent controllers

    Between any two store calls of one request, other requests and other controller
    replicas may change the store. [Contended W] is the store [W] together with the
    changes they will make: each call first lets the next one happen. Running the
    unchanged scheduler on it is running it under that interleaving. *)

From S2P Require Import Prelude Contracts UuidRef Store MemStore ControllerCore.

Record Contended (W : Type) := { ct_store : W; ct_env : list (W → W) }.
Arguments ct_store {_} _.
Arguments ct_env {_} _.

Definition contend {W A} (m : ST W A) : ST (Contended W) A := λ x,
  let '(f, env) := match ct_env x with [] => (id, []) | f :: env => (f, env) end in
  let '(r, w) := m (f (ct_store x)) in (r, {| ct_store := w; ct_env := env |}).

#[export] Instance ContendedStore `{UuidLib} {W} `{!ControllerStore W} :
  ControllerStore (Contended W) := {
  save_agent rec := contend (save_agent rec);
  get_agent a := contend (get_agent a);
  remove_agent a := contend (remove_agent a);
  list_active_agents := contend list_active_agents;
  update_agent_state a st := contend (update_agent_state a st);
  insert_routing_entry e := contend (insert_routing_entry e);
  remove_routing_entries_for_agent a := contend (remove_routing_entries_for_agent a);
  find_routing_entry s := contend (find_routing_entry s);
  list_routing_entries := contend list_routing_entries;
  remove_routing_entry s := contend (remove_routing_entry s);
  save_sandbox_state s a st err := contend (save_sandbox_state s a st err);
  get_sandbox_state s := contend (get_sandbox_state s);
  mark_agent_dead_atomic a := contend (mark_agent_dead_atomic a);
  try_assign_sandbox a s cpu mem := contend (try_assign_sandbox a s cpu mem);
  release_sandbox s := contend (release_sandbox s);
  record_heartbeat a := contend (record_heartbeat a);
  dead_agents := contend dead_agents;
}.

Section contention.
Context `{UuidLib} {W : Type} `{!ControllerStore W} `{!StoreSpec W}.
Implicit Types (w : W) (x : Contended W).

Definition unused (s : SandboxId) w : Prop :=
  store_wf w ∧ as_routes (view w) !! s = None ∧ as_resv (view w) !! s = None.

(** Others keep the store well formed and do not know the new sandbox's id. *)
Definition env_ok (s : SandboxId) x : Prop :=
  Forall (λ f, ∀ w, unused s w → unused s (f w)) (ct_env x).

Lemma contend_inv {A} (m : ST W A) s x r x' :
  unused s (ct_store x) → env_ok s x → contend m x = (r, x') →
  ∃ w1, unused s w1 ∧ m w1 = (r, ct_store x') ∧ env_ok s x'.
Proof.
  unfold contend, env_ok. destruct x as [w [|f env]]; simpl.
  - intros ? _. destruct (m (w)) as [r0 w0] eqn:E.
    intros [= <- <-]. eauto.
  - intros ? [Hf ?]%Forall_cons. destruct (m (f w)) as [r0 w0] eqn:E.
    intros [= <- <-]. eauto.
Qed.

Lemma contended_loop s req l x asg x' :
  in_u32 (req_cpu_millicores req) → in_u64 (req_memory_bytes req) →
  unused s (ct_store x) → env_ok s x →
  assign_loop s req l x = (Ok asg, x') →
  sa_sandbox_id asg = s ∧ (∃ rec, rec ∈ l ∧ ar_agent_id rec = sa_agent_id asg) ∧
  ∃ w1, store_wf w1 ∧
    eff_assign (sa_agent_id asg) s (req_cpu_millicores req) (req_memory_bytes req)
      (view w1) (view (ct_store x')).
Proof.
  intros Hc Hm. revert x. induction l as [|agent l IH]; intros x Hs Henv; simpl; [done|].
  case_decide; [intros Hr; apply IH in Hr as (? & (? & ? & ?) & ?); set_solver|].
  unfold st_bind_ok, st_bind.
  destruct (contend (try_assign_sandbox _ _ _ _) x) as [r1 x1] eqn:E.
  apply (contend_inv _ s) in E as (w1 & (Hwf1 & Hr1 & Hs1) & E & Henv1); [|done..].
  apply try_assign_spec in E as [Hwf2 E]; [|done..].
  destruct r1 as [[]|]; [|intros Hr|by intros [=]].
  - intros [= <- <-]. simpl. split; [done|]. split; [set_solver|]. exists w1. split; [done|].
    by destruct E as [(_ & _ & [=])|[([=] & _)|[[_ ?]|(d & [=] & _)]]].
  - apply IH in Hr as (? & (? & ? & ?) & ?); [set_solver| |done].
    destruct E as [(_ & _ & [=])|[(_ & Hv & _)|[[[=] _]|(d & [=] & _)]]].
    split; [done|]. by rewrite Hv.
Qed.

(** C30: a reservation is decided on live capacity. Whatever other requests do to the
    store between the scheduler's calls, an assignment it returns was made in a single
    step from a store in which that agent was active and still had the requested CPU
    and memory: the snapshot the candidates were sorted by is never trusted. *)
Theorem scheduler_safe_under_contention s req x asg x' :
  in_u32 (req_cpu_millicores req) → in_u64 (req_memory_bytes req) →
  unused s (ct_store x) → env_ok s x →
  assign_sandbox s req x = (Ok asg, x') →
  sa_sandbox_id asg = s ∧
  ∃ w1 rec, store_wf w1 ∧ as_agents (view w1) !! sa_agent_id asg = Some rec ∧
    ar_state rec = Active ∧ fits (req_cpu_millicores req) (req_memory_bytes req) rec ∧
    eff_assign (sa_agent_id asg) s (req_cpu_millicores req) (req_memory_bytes req)
      (view w1) (view (ct_store x')).
Proof.
  intros Hc Hm Hs Henv. unfold assign_sandbox. unfold st_bind_ok, st_bind. simpl.
  destruct (contend list_active_agents x) as [r1 x1] eqn:E.
  apply (contend_inv _ s) in E as (w1 & (Hwf1 & Hr1 & Hs1) & E & Henv1); [|done..].
  apply list_active_agents_spec in E as (Hwf2 & Hv & _); [|done].
  destruct r1 as [l|]; [|by intros [=]]. intros Hr.
  apply contended_loop in Hr as (? & _ & w2 & ? & He); [|done|done| |done].
  - split; [done|]. pose proof He as (rec & ? & ? & ? & _). eauto 10.
  - split; [done|]. by rewrite Hv.
Qed.
End contention.

Section example.
(** A sweep on another replica buries agent 3, the best candidate, after the snapshot
    was read; the scheduler moves on to agent 2. *)
Definition rival (w : MemStore) : MemStore := (mem_mark_agent_dead_atomic (uid 3) w).2.

Definition contended_fleet : Contended MemStore :=
  {| ct_store := fleet; ct_env := [id; rival] |}.

Definition small_req : SandboxRequirements :=
  {| req_cpu_millicores := 400; req_memory_bytes := 50 |}.

Lemma rival_spares w : unused (uid 77) w → unused (uid 77) (rival w).
Proof.
  intros (Hwf & Hr & Hs). unfold rival.
  destruct (mem_mark_agent_dead_atomic (uid 3) w) as [r w'] eqn:E. simpl.
  apply mem_mark_dead_refines in E as [Hwf' E]; [|done]. split; [done|].
  assert (∀ v', eff_mark_dead (uid 3) (mem_view w) v' →
    as_routes v' !! uid 77 = None ∧ as_resv v' !! uid 77 = None) as Heff.
  { intros v' (_ & -> & -> & _). split; [|done]. rewrite map_lookup_filter.
    change (as_routes (mem_view w) !! uid 77 = None) in Hr. by rewrite Hr. }
  change (as_routes (mem_view w') !! uid 77 = None ∧ as_resv (mem_view w') !! uid 77 = None).
  destruct E as [(_ & -> & _)|[[_ ?]|(d & _ & [->|?])]]; auto.
Qed.

Lemma contended_fleet_env : env_ok (uid 77) contended_fleet.
Proof.
  apply Forall_cons. split; [by intros|]. by apply Forall_singleton, rival_spares.
Qed.

Lemma scheduler_safe_under_contention_witness :
  let run := assign_sandbox (uid 77) small_req contended_fleet in
  run.1 = Ok {| sa_agent_id := uid 2; sa_sandbox_id := uid 77 |} ∧
  ∃ w1, store_wf w1 ∧
    eff_assign (uid 2) (uid 77) 400 50 (view w1) (view (ct_store run.2)).
Proof.
  intros run.
  assert (run.1 = Ok {| sa_agent_id := uid 2; sa_sandbox_id := uid 77 |}) as E by evaluate.
  split; [exact E|].
  assert (run = (Ok {| sa_agent_id := uid 2; sa_sandbox_id := uid 77 |}, run.2)) as Erun.
  { rewrite <- E. apply surjective_pairing. }
  pose proof (scheduler_safe_under_contention (uid 77) small_req contended_fleet
    {| sa_agent_id := uid 2; sa_sandbox_id := uid 77 |} run.2 ltac:(done) ltac:(done)
    (conj fleet_wf (conj eq_refl eq_refl))
    contended_fleet_env Erun)
    as (_ & w1 & rec & ? & _ & _ & _ & ?).
  exists w1. split; assumption.
Defined.
End example.
