(* ===== verification/Routing.v ===== *)
(** * The proxy's routing: host names, the routing table and its cache

    crates/proxy/src/{router,routing_cache,routing_store,pg_store}.rs and the
    notification loop of crates/cli/src/run.rs. The routing table is the list of its
    rows in the order the server scans them. *)

From S2P Require Import Prelude Contracts UuidRef Store PgStore PgStoreSpec.

Record CachedRoute `{UuidLib} := { cr_agent_id : AgentId; cr_route_id : SandboxId }.

(** [trait RoutingStore], on the rows [R] it reads from. *)
Class RoutingStore `{UuidLib} (R : Type) := {
  rs_lookup : SandboxId → R → result (option AgentId) ProxyError;
  rs_lookup_by_subdomain : string → R → result (option RoutingEntry) ProxyError;
  rs_load_all : R → result (list RoutingEntry) ProxyError;
}.

(** ** pg_store.rs *)

(** SQL [LIKE]: [%] any text, [_] any character, backslash quotes the next one. *)
Fixpoint sql_like (pattern text : string) {struct pattern} : bool :=
  match pattern with
  | EmptyString => bool_decide (text = "")
  | String p pattern' =>
      if decide (p = "%"%char) then
        (fix any (t : string) : bool :=
           sql_like pattern' t ||
           match t with EmptyString => false | String _ t' => any t' end) text
      else if decide (p = "_"%char) then
        match text with EmptyString => false | String _ t' => sql_like pattern' t' end
      else if decide (p = ascii_of_nat 92) then
        match pattern', text with
        | String q pattern'', String c t' =>
            if decide (q = c) then sql_like pattern'' t' else false
        | _, _ => false
        end
      else
        match text with
        | String c t' => if decide (p = c) then sql_like pattern' t' else false
        | EmptyString => false
        end
  end.

(** A connection that answers, with the table behind it, or one that does not. *)
Inductive PgRows `{UuidLib} := Rows (rows : list RoutingEntry) | Down (detail : string).

Section pg.
Context `{UuidLib}.

Definition query {A} (f : list RoutingEntry → A) (db : PgRows) : result A ProxyError :=
  match db with Rows rows => Ok (f rows) | Down d => Err (ProxyInternal d) end.

Definition pg_lookup (sandbox_id : SandboxId) : PgRows → result (option AgentId) ProxyError :=
  query (λ rows, re_agent_id ∘ snd <$> list_find (λ e, re_sandbox_id e = sandbox_id) rows).

Definition pg_lookup_by_subdomain (subdomain : string)
    : PgRows → result (option RoutingEntry) ProxyError :=
  query (λ rows,
    snd <$> list_find (λ e, sql_like (subdomain +:+ "%")
                              (drop_hyphens (hyphenated (re_sandbox_id e))) = true) rows).

Definition pg_load_all : PgRows → result (list RoutingEntry) ProxyError := query id.
End pg.

#[export] Instance PgRoutingStore `{UuidLib} : RoutingStore PgRows := {
  rs_lookup := pg_lookup;
  rs_lookup_by_subdomain := pg_lookup_by_subdomain;
  rs_load_all := pg_load_all;
}.

(** *** Notifications *)

Inductive RoutingChange `{UuidLib} :=
| RInsert (sandbox_id : SandboxId) (agent_id : AgentId)
| RRemove (sandbox_id : SandboxId).

Section parse.
Context `{UuidLib}.

Definition extract_json_field (payload field : string) : option string :=
  rest ← find_after (dq +:+ field +:+ dq +:+ ":" +:+ dq) payload;
  before_char (ascii_of_nat 34) rest.

Definition routing_change_parse (payload : string) : option RoutingChange :=
  op ← extract_json_field payload "op";
  sandbox_id_str ← extract_json_field payload "sandbox_id";
  sandbox_id ← parse_str sandbox_id_str;
  if decide (op = "insert") then
    agent_id_str ← extract_json_field payload "agent_id";
    agent_id ← parse_str agent_id_str;
    Some (RInsert sandbox_id agent_id)
  else if decide (op = "remove") then Some (RRemove sandbox_id)
  else None.
End parse.

(** ** routing_cache.rs *)

Abbreviation Cache := (gmap string CachedRoute) (only parsing).

Section cache.
Context `{UuidLib} {R : Type} `{!RoutingStore R}.
Implicit Types (cache : Cache).

Definition cache_lookup (sub : string) cache : option CachedRoute := cache !! sub.

Definition cache_insert (sandbox_id : SandboxId) (agent_id : AgentId) cache : Cache :=
  <[subdomain sandbox_id := {| cr_agent_id := agent_id; cr_route_id := sandbox_id |}]> cache.

Definition lookup_or_fetch (db : R) (sub : string)
    : ST Cache (result (option CachedRoute) ProxyError) := λ cache,
  match cache_lookup sub cache with
  | Some hit => (Ok (Some hit), cache)
  | None =>
      match rs_lookup_by_subdomain sub db with
      | Err e => (Err e, cache)
      | Ok (Some entry) =>
          (Ok (Some {| cr_agent_id := re_agent_id entry; cr_route_id := re_sandbox_id entry |}),
           cache_insert (re_sandbox_id entry) (re_agent_id entry) cache)
      | Ok None => (Ok None, cache)
      end
  end.

Definition refresh (db : R) : ST Cache (result () ProxyError) := λ cache,
  match rs_load_all db with
  | Err e => (Err e, cache)
  | Ok entries =>
      (Ok (), foldl (λ c entry, cache_insert (re_sandbox_id entry) (re_agent_id entry) c)
                ∅ entries)
  end.

Definition remove_by_subdomain (sub : string) cache : Cache := delete sub cache.

Definition remove_by_sandbox_id (sandbox_id : SandboxId) cache : Cache :=
  delete (subdomain sandbox_id) cache.

Definition remove_for_agent (agent_id : AgentId) cache : Cache :=
  filter (λ e, cr_agent_id e.2 ≠ agent_id) cache.

(** The body of the LISTEN loop: one notification. *)
Definition on_notification (payload : string) cache : Cache :=
  match routing_change_parse payload with
  | Some (RInsert sandbox_id agent_id) => cache_insert sandbox_id agent_id cache
  | Some (RRemove sandbox_id) => remove_by_sandbox_id sandbox_id cache
  | None => cache
  end.
End cache.

(** ** router.rs *)

(** [host.split(c).next()]. *)
Definition split_first (c : ascii) (s : string) : string := default s (before_char c s).

Definition extract_sandbox_id (host : string) : option string :=
  let host := split_first ":" host in
  sub ← before_char "." host;
  let lower := to_ascii_lowercase sub in
  if negb (subdomain_is_valid lower) then None else Some lower.

(** [route_request], up to the hand-over to the stream multiplexer: the agent and the
    sandbox the request is sent to. *)
Definition route_request_target `{UuidLib} {R} `{!RoutingStore R} (db : R) (host : string)
    : ST Cache (result (AgentId * string) ProxyError) := λ cache,
  match extract_sandbox_id host with
  | None => (Err (RoutingMiss host), cache)
  | Some sub =>
      match lookup_or_fetch db sub cache with
      | (Err e, cache') => (Err e, cache')
      | (Ok None, cache') => (Err (RoutingMiss sub), cache')
      | (Ok (Some route), cache') => (Ok (cr_agent_id route, hyphenated (cr_route_id route)), cache')
      end
  end.

(** ** Text lemmas *)

Lemma find_after_skip_chars a n s t :
  string_forallb (λ b, negb (bool_decide (b = a))) s = true →
  find_after (String a n) (s +:+ t) = find_after (String a n) t.
Proof.
  induction s as [|b s IH]; [done|]. rewrite string_app_cons. cbn [string_forallb].
  rewrite andb_true_iff, negb_true_iff, bool_decide_eq_false. intros [Hb Hs].
  rewrite find_after_skip; [auto|]. simpl. by rewrite decide_False by congruence.
Qed.

Lemma uuid_char_not_quote `{UuidLaws} u :
  string_forallb (λ b, negb (bool_decide (b = ascii_of_nat 34))) (hyphenated u) = true.
Proof.
  eapply string_forallb_impl; [|apply hyphenated_chars]. intros a Ha.
  rewrite negb_true_iff, bool_decide_eq_false. intros ->. vm_compute in Ha. discriminate.
Qed.

(** A host label that lower-cases to hex digits has no separator in it. *)
Lemma label_no_separator c l :
  c = ":"%char ∨ c = "."%char →
  string_forallb is_lower_hexdigit (to_ascii_lowercase l) = true →
  string_forallb (λ b, negb (bool_decide (b = c))) l = true.
Proof.
  intros Hc. induction l as [|a l IH]; [done|]. cbn. rewrite !andb_true_iff.
  intros [Ha Hl]. split; [|auto]. rewrite negb_true_iff, bool_decide_eq_false. intros ->.
  destruct Hc as [-> | ->]; vm_compute in Ha; discriminate.
Qed.

(** ** Notifications survive the trip *)

Section notifications.
Context `{UuidLaws}.

Definition needle (key : string) : string := dq +:+ key +:+ dq +:+ ":" +:+ dq.

Lemma json_field_needle key v rest :
  json_field key v +:+ rest = needle key +:+ (v +:+ String (ascii_of_nat 34) rest).
Proof. unfold json_field, needle, dq. by rewrite !string_app_assoc. Qed.

(** The field at the front of the text. *)
Lemma extract_here key v rest :
  string_forallb (λ b, negb (bool_decide (b = ascii_of_nat 34))) v = true →
  extract_json_field (json_field key v +:+ rest) key = Some v.
Proof.
  intros Hv. unfold extract_json_field. fold (needle key).
  rewrite json_field_needle, find_after_app. by apply before_char_app.
Qed.

(** The text before a field is skipped when no field can start in it. *)
Lemma extract_skip key pre t :
  find_after (needle key) (pre +:+ t) = find_after (needle key) t →
  extract_json_field (pre +:+ t) key = extract_json_field t key.
Proof. unfold extract_json_field. fold (needle key). by intros ->. Qed.

(** No key starts inside a UUID's text: the key of the agent begins like a hex digit,
    but its second letter is not one. *)
Lemma agent_key_not_in_uuid h t :
  string_forallb is_uuid_char h = true →
  strip_prefix (needle "agent_id")
    (String (ascii_of_nat 34) (h +:+ String (ascii_of_nat 34) t)) = None.
Proof.
  intros Hh. destruct h as [|c [|d h]]; [done|..].
  - rewrite string_app_cons, string_app_nil. simpl. by repeat case_decide.
  - rewrite !string_app_cons. simpl. cbn in Hh. rewrite !andb_true_iff in Hh.
    destruct Hh as (_ & Hd & _). case_decide; [|done]. rewrite decide_False; [done|].
    intros <-. vm_compute in Hd. discriminate.
Qed.

Lemma skip_sandbox_field h t :
  string_forallb is_uuid_char h = true →
  string_forallb (λ b, negb (bool_decide (b = ascii_of_nat 34))) h = true →
  find_after (needle "agent_id") (json_field "sandbox_id" h +:+ ("," +:+ t)) =
  find_after (needle "agent_id") ("," +:+ t).
Proof.
  intros Hu Hq. rewrite json_field_needle.
  change (needle "sandbox_id" +:+ (h +:+ String (ascii_of_nat 34) ("," +:+ t))) with
    ((dq +:+ "sandbox_id" +:+ dq +:+ ":") +:+
     String (ascii_of_nat 34) (h +:+ String (ascii_of_nat 34) ("," +:+ t))).
  transitivity (find_after (needle "agent_id")
    (String (ascii_of_nat 34) (h +:+ String (ascii_of_nat 34) ("," +:+ t)))); [reflexivity|].
  rewrite find_after_skip by by apply agent_key_not_in_uuid.
  unfold needle at 1, dq at 1. rewrite string_app_cons, find_after_skip_chars by done.
  by rewrite find_after_skip.
Qed.

(** Find a field behind fixed text. *)
Ltac extract_field :=
  repeat (rewrite extract_skip by reflexivity); by apply extract_here.

Lemma parse_insert s a :
  routing_change_parse (notify_payload "insert" s (Some a)) = Some (RInsert s a).
Proof.
  pose proof (uuid_char_not_quote s) as Hs. pose proof (uuid_char_not_quote a) as Ha.
  unfold routing_change_parse, notify_payload.
  assert (∀ x, extract_json_field ("{" +:+ json_field "op" "insert" +:+ x) "op" = Some "insert")
    as -> by (intros x; extract_field).
  assert (∀ x, extract_json_field ("{" +:+ json_field "op" "insert" +:+ "," +:+
    json_field "sandbox_id" (hyphenated s) +:+ x) "sandbox_id" = Some (hyphenated s)) as ->
    by (intros x; extract_field).
  simpl. rewrite parse_hyphenated. simpl.
  do 3 (rewrite extract_skip by reflexivity).
  rewrite (extract_skip _ (json_field "sandbox_id" _)).
  2:{ apply skip_sandbox_field; [apply hyphenated_chars|done]. }
  rewrite extract_skip, extract_here by done. simpl. by rewrite parse_hyphenated.
Qed.

Lemma parse_remove s :
  routing_change_parse (notify_payload "remove" s None) = Some (RRemove s).
Proof.
  pose proof (uuid_char_not_quote s) as Hs. unfold routing_change_parse, notify_payload.
  assert (∀ x, extract_json_field ("{" +:+ json_field "op" "remove" +:+ x) "op" = Some "remove")
    as -> by (intros x; extract_field).
  assert (∀ x, extract_json_field ("{" +:+ json_field "op" "remove" +:+ "," +:+
    json_field "sandbox_id" (hyphenated s) +:+ x) "sandbox_id" = Some (hyphenated s)) as ->
    by (intros x; extract_field).
  simpl. by rewrite parse_hyphenated.
Qed.
End notifications.

(** ** Host names *)

Section hosts.
Context `{UuidLaws}.

Lemma extract_label l rest :
  subdomain_is_valid (to_ascii_lowercase l) = true →
  string_forallb is_lower_hexdigit (to_ascii_lowercase l) = true →
  extract_sandbox_id (l +:+ "." +:+ rest) = Some (to_ascii_lowercase l).
Proof.
  intros Hv Hl. unfold extract_sandbox_id, split_first.
  pose proof (label_no_separator ":" l (or_introl eq_refl) Hl) as Hcolon.
  pose proof (label_no_separator "." l (or_intror eq_refl) Hl) as Hdot.
  assert (∃ t, default (l +:+ "." +:+ rest) (before_char ":" (l +:+ "." +:+ rest)) =
               l +:+ String "." t) as [t ->].
  { rewrite before_char_skip by done. rewrite string_app_cons, string_app_nil. simpl.
    destruct (before_char ":" rest) as [t|]; simpl; eauto. }
  rewrite before_char_app by done. simpl. by rewrite Hv.
Qed.

Lemma lowercase_valid_lower l :
  subdomain_is_valid (to_ascii_lowercase l) = true →
  string_forallb is_lower_hexdigit (to_ascii_lowercase l) = true.
Proof.
  unfold subdomain_is_valid. rewrite andb_true_iff. intros [_ Hx]. revert Hx.
  unfold to_ascii_lowercase. induction l as [|a l IH]; [done|]. cbn.
  rewrite !andb_true_iff. intros [Ha Hl]. split; [by apply ascii_lower_hexdigit|auto].
Qed.

(** Host names round-trip. The name a sandbox is given, under any domain, with any
    port and in any letter case, is read back as that sandbox's subdomain; and whatever
    the router reads from a host is a well-formed lower-case subdomain, so it can hold
    neither separators nor the wildcards of the SQL pattern it becomes. *)
Theorem host_subdomain_roundtrip :
  (∀ s label rest, to_ascii_lowercase label = subdomain s →
     extract_sandbox_id (label +:+ "." +:+ rest) = Some (subdomain s)) ∧
  (∀ host sub, extract_sandbox_id host = Some sub →
     String.length sub = SUBDOMAIN_LEN ∧ string_forallb is_lower_hexdigit sub = true).
Proof.
  split.
  - intros s l rest Hl. rewrite extract_label; rewrite ?Hl; [done|apply subdomain_valid|].
    apply subdomain_chars.
  - intros host sub. unfold extract_sandbox_id.
    destruct (before_char "." (split_first ":" host)) as [l|]; simpl; [|done].
    destruct (subdomain_is_valid (to_ascii_lowercase l)) eqn:Hv; [|done].
    intros [= <-]. split; [|by apply lowercase_valid_lower].
    unfold subdomain_is_valid in Hv. rewrite andb_true_iff, bool_decide_eq_true in Hv.
    by destruct Hv.
Qed.
End hosts.

(** ** The prefix query *)

Lemma sql_like_any t : sql_like "%" t = true.
Proof.
  cbn. induction t as [|c t IH]; [done|]. by destruct (bool_decide (String c t = "")%string).
Qed.

Lemma sql_like_char p pattern t :
  is_lower_hexdigit p = true →
  sql_like (String p pattern) t =
  match t with
  | String c t' => if decide (p = c) then sql_like pattern t' else false
  | EmptyString => false
  end.
Proof.
  intros Hp. simpl.
  do 3 (rewrite decide_False by (intros ->; vm_compute in Hp; discriminate)). done.
Qed.

(** The pattern the query builds from a subdomain is a plain prefix test. *)
Lemma sql_like_prefix sub t :
  string_forallb is_lower_hexdigit sub = true →
  sql_like (sub +:+ "%") t = starts_with t sub.
Proof.
  revert t. induction sub as [|p sub IH]; intros t Hs.
  - rewrite string_app_nil, sql_like_any. symmetry. by apply (starts_with_app "" t).
  - cbn in Hs. apply andb_true_iff in Hs as [Hp Hs].
    rewrite string_app_cons, sql_like_char by done. unfold starts_with. simpl.
    destruct t as [|c t]; [done|]. case_decide; [by apply IH|done].
Qed.

Lemma string_take_app s t : string_take (String.length s) (s +:+ t) = s.
Proof. induction s as [|a s IH]; [by destruct t|]. rewrite string_app_cons. simpl. by rewrite IH. Qed.

Section query.
Context `{UuidLaws}.

Lemma query_matches_subdomain id sub :
  String.length sub = SUBDOMAIN_LEN → string_forallb is_lower_hexdigit sub = true →
  sql_like (sub +:+ "%") (drop_hyphens (hyphenated id)) = true ↔ subdomain id = sub.
Proof.
  intros Hlen Hs. rewrite simple_hyphenated, sql_like_prefix by done.
  rewrite starts_with_spec. unfold subdomain. rewrite <- Hlen. split.
  - intros [t ->]. apply string_take_app.
  - intros Ht. destruct (string_take_prefix (String.length sub) (simple id)) as [t Hx].
    exists t. by rewrite Ht in Hx.
Qed.

Lemma subdomain_query_spec rows sub :
  String.length sub = SUBDOMAIN_LEN → string_forallb is_lower_hexdigit sub = true →
  match pg_lookup_by_subdomain sub (Rows rows) with
  | Ok (Some e) => e ∈ rows ∧ subdomain (re_sandbox_id e) = sub
  | Ok None => ∀ e, e ∈ rows → subdomain (re_sandbox_id e) ≠ sub
  | Err _ => False
  end.
Proof.
  intros Hlen Hs. unfold pg_lookup_by_subdomain, query.
  destruct (list_find _ rows) as [[i e]|] eqn:Ef; simpl.
  - apply list_find_Some in Ef as (He & Hm & _). split; [by eapply list_elem_of_lookup_2|].
    by apply query_matches_subdomain.
  - apply list_find_None in Ef. rewrite Forall_forall in Ef. intros e He Hsub.
    apply (Ef e He). by apply query_matches_subdomain.
Qed.

(** The subdomain query is exact. On a table and a subdomain the router can produce,
    the prefix query returns a row of the table whose sandbox has that very subdomain,
    and it returns none exactly when no row has it. *)
Theorem subdomain_query_exact rows sub :
  String.length sub = SUBDOMAIN_LEN → string_forallb is_lower_hexdigit sub = true →
  match pg_lookup_by_subdomain sub (Rows rows) with
  | Ok (Some e) => e ∈ rows ∧ subdomain (re_sandbox_id e) = sub
  | Ok None => ∀ e, e ∈ rows → subdomain (re_sandbox_id e) ≠ sub
  | Err _ => False
  end.
Proof. apply subdomain_query_spec. Qed.
End query.

(** ** The cache follows the table

    [coherent]: the cache holds exactly the routes of the table, under their names. *)

Section coherence.
Context `{UuidLaws}.
Implicit Types (cache : Cache) (routes : gmap SandboxId AgentId) (db : Db) (w : World).

(** Every cached route is current (a cold or partial cache is fine). *)
Definition cache_sound cache routes : Prop :=
  ∀ sub r, cache !! sub = Some r →
    subdomain (cr_route_id r) = sub ∧ routes !! cr_route_id r = Some (cr_agent_id r).

Definition coherent cache routes : Prop :=
  (∀ s a, routes !! s = Some a →
     cache !! subdomain s = Some {| cr_agent_id := a; cr_route_id := s |}) ∧
  cache_sound cache routes.

(** Sandboxes in play whose names do not collide. *)
Definition distinct_names (live : gset SandboxId) : Prop :=
  ∀ s s', s ∈ live → s' ∈ live → subdomain s = subdomain s' → s = s'.

Lemma sound_insert_route s a cache routes :
  cache_sound cache routes → cache_sound (cache_insert s a cache) (<[s := a]> routes).
Proof.
  intros Hout sub r. unfold cache_insert. rewrite lookup_insert. case_decide as Heq.
  - intros [= <-]. simpl. by rewrite lookup_insert_eq.
  - intros Hr. destruct (Hout _ _ Hr) as [Hsub Hroute]. split; [done|].
    rewrite lookup_insert_ne; [done|]. intros ->. by destruct Heq.
Qed.

Lemma sound_remove_route s cache routes :
  cache_sound cache routes → cache_sound (remove_by_sandbox_id s cache) (delete s routes).
Proof.
  intros Hout sub r. unfold remove_by_sandbox_id. intros [Hne Hr]%lookup_delete_Some. destruct (Hout _ _ Hr) as [Hsub Hroute].
  split; [done|]. rewrite lookup_delete_ne; [done|]. intros ->. by destruct Hne.
Qed.

Lemma coherent_insert live s a cache routes :
  distinct_names live → dom routes ⊆ live → s ∈ live →
  coherent cache routes → coherent (cache_insert s a cache) (<[s := a]> routes).
Proof.
  intros Hnames Hdom Hs [Hin Hout]. split; [|by apply sound_insert_route]. unfold cache_insert.
  intros s' a'. rewrite lookup_insert. case_decide as Heq.
  - subst. intros [= ->]. by rewrite lookup_insert_eq.
  - intros Hs'. rewrite lookup_insert_ne; [by apply Hin|].
    intros Hsub. apply Heq, (Hnames s s'); [done| |done].
    apply Hdom, elem_of_dom. eauto.
Qed.

Lemma coherent_remove live s cache routes :
  distinct_names live → dom routes ⊆ live → s ∈ live →
  coherent cache routes → coherent (remove_by_sandbox_id s cache) (delete s routes).
Proof.
  intros Hnames Hdom Hs [Hin Hout]. split; [|by apply sound_remove_route].
  intros s' a' [Hne Hs']%lookup_delete_Some. unfold remove_by_sandbox_id.
  rewrite lookup_delete_ne; [by apply Hin|].
  intros Hsub. apply Hne, (Hnames s s'); [done| |done]. apply Hdom, elem_of_dom. eauto.
Qed.

Definition replay (ns : list string) cache : Cache := foldl (λ c p, on_notification p c) cache ns.

Lemma on_remove s cache :
  on_notification (notify_payload "remove" s None) cache = remove_by_sandbox_id s cache.
Proof. unfold on_notification. by rewrite parse_remove. Qed.

Lemma on_insert s a cache :
  on_notification (notify_payload "insert" s (Some a)) cache = cache_insert s a cache.
Proof. unfold on_notification. by rewrite parse_insert. Qed.

Lemma replay_cons p ns cache : replay (p :: ns) cache = replay ns (on_notification p cache).
Proof. done. Qed.

Lemma replay_remove_all live ids cache routes :
  distinct_names live → dom routes ⊆ live → (∀ s, s ∈ ids → s ∈ live) →
  let cache' := replay ((λ s, notify_payload "remove" s None) <$> ids) cache in
  let routes' := filter (λ e, e.1 ∉ ids) routes in
  (coherent cache routes → coherent cache' routes') ∧ (cache_sound cache routes → cache_sound cache' routes').
Proof.
  intros Hnames. revert cache routes. induction ids as [|s ids IH]; intros cache routes Hdom Hids; cbn zeta.
  - simpl. rewrite map_filter_id; [done|set_solver].
  - rewrite fmap_cons, replay_cons, on_remove.
    assert (filter (λ e, e.1 ∉ s :: ids) routes = filter (λ e, e.1 ∉ ids) (delete s routes)) as ->.
    { apply map_eq. intros s'. apply option_eq. intros a.
      rewrite !map_lookup_filter_Some, lookup_delete_Some. simpl.
      rewrite not_elem_of_cons. naive_solver. }
    destruct (IH (remove_by_sandbox_id s cache) (delete s routes)) as [IH1 IH2]; [set_solver..|].
    split; intros Hc; [apply IH1; eapply coherent_remove; set_solver|by apply IH2, sound_remove_route].
Qed.

(** From [db] to [db'] the listeners were told everything they need. *)
Definition told (live : gset SandboxId) db db' : Prop :=
  ∃ ns, db_notifications db' = db_notifications db ++ ns ∧
    ∀ cache, (coherent cache (db_routing db) → coherent (replay ns cache) (db_routing db')) ∧
             (cache_sound cache (db_routing db) → cache_sound (replay ns cache) (db_routing db')).

Lemma told_same live db db' :
  db_notifications db' = db_notifications db → db_routing db' = db_routing db → told live db db'.
Proof. intros Hn Hr. exists []. rewrite app_nil_r, Hr. auto. Qed.

Lemma told_insert live s a db db' :
  distinct_names live → dom (db_routing db) ⊆ live → s ∈ live →
  db_notifications db' = db_notifications db ++ [notify_payload "insert" s (Some a)] →
  db_routing db' = <[s := a]> (db_routing db) → told live db db'.
Proof.
  intros ??? Hn Hr. eexists. split; [exact Hn|]. intros cache. rewrite Hr, replay_cons, on_insert.
  split; intros Hc; [by eapply coherent_insert|by apply sound_insert_route].
Qed.

Lemma told_remove live s db db' :
  distinct_names live → dom (db_routing db) ⊆ live → s ∈ live →
  db_notifications db' = db_notifications db ++ [notify_payload "remove" s None] →
  db_routing db' = delete s (db_routing db) → told live db db'.
Proof.
  intros ??? Hn Hr. eexists. split; [exact Hn|]. intros cache. rewrite Hr, replay_cons, on_remove.
  split; intros Hc; [by eapply coherent_remove|by apply sound_remove_route].
Qed.

Lemma told_remove_agent live a db db' :
  distinct_names live → dom (db_routing db) ⊆ live →
  db_notifications db' = db_notifications db ++ ((λ s, notify_payload "remove" s None) <$>
    (map_to_list (filter (λ e, e.2 = a) (db_routing db))).*1) →
  db_routing db' = filter (λ e, e.2 ≠ a) (db_routing db) → told live db db'.
Proof.
  intros Hnames Hdom Hn Hr. eexists. split; [exact Hn|]. intros cache. rewrite Hr.
  set (ids := (map_to_list _).*1).
  assert (∀ s, s ∈ ids ↔ db_routing db !! s = Some a) as Hids.
  { intros s. unfold ids. rewrite list_elem_of_fmap. setoid_rewrite elem_of_map_to_list'.
    setoid_rewrite map_lookup_filter_Some. split.
    - intros ([s' b] & -> & ? & ?). simpl in *. congruence.
    - intros ?. by exists (s, a). }
  replace (filter (λ e, e.2 ≠ a) (db_routing db)) with (filter (λ e, e.1 ∉ ids) (db_routing db)).
  - eapply replay_remove_all; [done..|]. intros s Hs%Hids. apply Hdom, elem_of_dom. eauto.
  - apply map_filter_ext. intros s b Hb. simpl. rewrite Hids. split; congruence.
Qed.
End coherence.

Section followed.
Context `{UuidLaws}.
Implicit Types (db : Db) (w : World) (live : gset SandboxId).

Lemma told_transaction {A} (body : ST World (result (TxEnd A) ControllerError)) live w r w' :
  tx_wp body (w_db w)
    (λ e db', match e with Commit _ => told live (w_db w) db' | Rollback _ => True end)
    (λ _, True) →
  transaction body w = (r, w') → told live (w_db w) (w_db w').
Proof.
  intros Hb Hrun.
  apply (transaction_inv _ _ _ _ (λ _ db', told live (w_db w) db') (λ _, True) (λ _, True))
    in Hrun; [|done|done].
  destruct Hrun as [(? & _ & _ & ->)|[(? & _ & _ & ->)|(? & ? & _)]]; [by apply told_same..|done].
Qed.

Lemma sql_debit_frame a cpu mem db x db' :
  sql_debit_agent a cpu mem db = Ok (x, db') →
  db_routing db' = db_routing db ∧ db_notifications db' = db_notifications db.
Proof.
  unfold sql_debit_agent. destruct (db_agents db !! a); [|by intros [= _ <-]].
  rewrite bind_result_Ok. intros (? & _ & Hk). rewrite bind_result_Ok in Hk.
  destruct Hk as (? & _ & Hk). rewrite bind_result_Ok in Hk. by destruct Hk as (? & _ & [= _ <-]).
Qed.

Lemma sql_credit_frame a cpu mem db x db' :
  sql_credit_agent a cpu mem db = Ok (x, db') →
  db_routing db' = db_routing db ∧ db_notifications db' = db_notifications db.
Proof.
  unfold sql_credit_agent. destruct (db_agents db !! a); [|by intros [= _ <-]].
  rewrite bind_result_Ok. intros (? & _ & Hk). rewrite bind_result_Ok in Hk.
  destruct Hk as (? & _ & Hk). rewrite bind_result_Ok in Hk. by destruct Hk as (? & _ & [= _ <-]).
Qed.

Section ops.
Context (live : gset SandboxId) (Hnames : distinct_names live).
Context (w w' : World) (Hdom : dom (db_routing (w_db w)) ⊆ live).

Lemma told_try_assign a s cpu mem r :
  s ∈ live → pg_try_assign_sandbox a s cpu mem w = (r, w') → told live (w_db w) (w_db w').
Proof.
  intros Hs. apply told_transaction. do 2 tx_step. tx_unfold.
  destruct (db_agents _ !! a) as [row|]; [|by tx_step]. case_decide; [by tx_step|].
  case_decide; [by tx_step|].
  do 2 tx_step. tx_inv sql_debit_frame as [Hr1 Hn1].
  do 2 tx_step. tx_inv sql_route_insert_Ok as ->. repeat tx_step. tx_unfold.
  by apply (told_insert live s a); simpl; rewrite ?Hn1, ?Hr1.
Qed.

Lemma told_release s r :
  s ∈ live → pg_release_sandbox s w = (r, w') → told live (w_db w) (w_db w').
Proof.
  intros Hs. apply told_transaction. do 2 tx_step. tx_unfold.
  destruct (db_sandboxes _ !! s) as [row|]; simpl; [|by tx_step].
  do 2 tx_step. tx_inv sql_credit_frame as [Hr1 Hn1]. repeat tx_step. tx_unfold.
  by apply (told_remove live s); simpl; rewrite ?Hn1, ?Hr1.
Qed.

Lemma told_mark_dead a r :
  pg_mark_agent_dead_atomic a w = (r, w') → told live (w_db w) (w_db w').
Proof.
  apply told_transaction. destruct (db_agents (w_db w) !! a) as [row|] eqn:E.
  - do 2 tx_step. tx_unfold. repeat tx_step. tx_unfold. by eapply told_remove_agent.
  - do 2 tx_step. tx_unfold. by tx_step.
Qed.

Lemma told_insert_routing_entry e r :
  re_sandbox_id e ∈ live → pg_insert_routing_entry e w = (r, w') → told live (w_db w) (w_db w').
Proof.
  intros Hs. apply told_transaction. do 2 tx_step. unfold sql_route_upsert, stmt_ok in *.
  destruct (db_agents _ !! _); simplify_eq. repeat tx_step.
  by eapply told_insert.
Qed.

Lemma told_remove_routing_entry s r :
  s ∈ live → pg_remove_routing_entry s w = (r, w') → told live (w_db w) (w_db w').
Proof.
  intros Hs. apply told_transaction. repeat tx_step. tx_unfold. by eapply told_remove.
Qed.

Lemma told_remove_for_agent a r :
  pg_remove_routing_entries_for_agent a w = (r, w') → told live (w_db w) (w_db w').
Proof. apply told_transaction. repeat tx_step. tx_unfold. by eapply told_remove_agent. Qed.

End ops.

(** The store operations that change the routing table. *)
Inductive routing_op (live : gset SandboxId) : (World → World → Prop) → Prop :=
| op_try_assign a s cpu mem : s ∈ live →
    routing_op live (λ w w', (pg_try_assign_sandbox a s cpu mem w).2 = w')
| op_release s : s ∈ live → routing_op live (λ w w', (pg_release_sandbox s w).2 = w')
| op_mark_dead a : routing_op live (λ w w', (pg_mark_agent_dead_atomic a w).2 = w')
| op_insert e : re_sandbox_id e ∈ live →
    routing_op live (λ w w', (pg_insert_routing_entry e w).2 = w')
| op_remove s : s ∈ live → routing_op live (λ w w', (pg_remove_routing_entry s w).2 = w')
| op_remove_agent a :
    routing_op live (λ w w', (pg_remove_routing_entries_for_agent a w).2 = w').

Lemma routing_op_told live op w w' :
  distinct_names live → dom (db_routing (w_db w)) ⊆ live →
  routing_op live op → op w w' → told live (w_db w) (w_db w').
Proof.
  intros Hnames Hdom Hop Hw.
  destruct Hop; subst;
    match goal with |- context [?m.2] => destruct m eqn:E; simpl end;
    eauto using told_try_assign, told_release, told_mark_dead, told_insert_routing_entry,
      told_remove_routing_entry, told_remove_for_agent.
Qed.

(** C15: the proxies see every routing change. Each operation of the controller's store
    that can change the routing table also publishes, in the same transaction, payloads
    that the proxy parses back into exactly that change: whatever faults strike, a cache
    that equalled the table before equals it again once the new payloads are applied.
    The sandboxes in play are assumed to have distinct 12-digit names. *)
Theorem notifications_keep_cache_coherent live op w w' cache :
  distinct_names live → dom (db_routing (w_db w)) ⊆ live →
  routing_op live op → op w w' →
  coherent cache (db_routing (w_db w)) →
  ∃ ns, db_notifications (w_db w') = db_notifications (w_db w) ++ ns ∧
    coherent (replay ns cache) (db_routing (w_db w')).
Proof.
  intros Hnames Hdom Hop Hw Hc.
  destruct (routing_op_told live op w w' Hnames Hdom Hop Hw) as (ns & Hns & Htold).
  exists ns. split; [done|]. by apply Htold.
Qed.
End followed.

(** ** Routing a request *)

Section routing.
Context `{UuidLaws}.
Implicit Types (cache : Cache) (routes : gmap SandboxId AgentId).

(** The rows a query scans are the table's. *)
Definition rows_of (rows : list RoutingEntry) routes : Prop :=
  ∀ e, e ∈ rows ↔ routes !! re_sandbox_id e = Some (re_agent_id e).

Lemma cache_sound_insert s a cache routes :
  routes !! s = Some a → cache_sound cache routes → cache_sound (cache_insert s a cache) routes.
Proof.
  intros Hs Hc sub r. unfold cache_insert. rewrite lookup_insert.
  case_decide; [by intros [= <-]|]. apply Hc.
Qed.

(** Requests reach the right agent. With a cache whose entries are current, cold or
    not, a request to a routed sandbox's host, in any letter case and under any domain,
    is handed to the agent the table routes it to, whenever the name is cached or the
    database answers; a request to a name no routed sandbox has is a routing miss; and
    the cache stays current. *)
Theorem requests_reach_their_agent live rows routes cache label rest :
  distinct_names live → dom routes ⊆ live → rows_of rows routes → cache_sound cache routes →
  subdomain_is_valid (to_ascii_lowercase label) = true →
  let host := label +:+ "." +:+ rest in
  (∀ db s a, routes !! s = Some a → subdomain s = to_ascii_lowercase label →
     db = Rows rows ∨ is_Some (cache !! subdomain s) →
     ∃ cache', route_request_target db host cache = (Ok (a, hyphenated s), cache') ∧
               cache_sound cache' routes) ∧
  ((∀ s, is_Some (routes !! s) → subdomain s ≠ to_ascii_lowercase label) →
   route_request_target (Rows rows) host cache =
     (Err (RoutingMiss (to_ascii_lowercase label)), cache)).
Proof.
  intros Hnames Hdom Hrows Hc Hv host.
  pose proof (lowercase_valid_lower _ Hv) as Hlow.
  assert (String.length (to_ascii_lowercase label) = SUBDOMAIN_LEN) as Hlen.
  { unfold subdomain_is_valid in Hv. rewrite andb_true_iff, bool_decide_eq_true in Hv. by destruct Hv. }
  unfold route_request_target, host. rewrite extract_label by done.
  set (sub := to_ascii_lowercase label) in *. unfold lookup_or_fetch, cache_lookup.
  assert (∀ s r, is_Some (routes !! s) → subdomain s = sub → is_Some (routes !! cr_route_id r) →
            subdomain (cr_route_id r) = sub → s = cr_route_id r) as Hsame.
  { intros s r Hs Hsub Hr Hrsub. apply Hnames; [| |congruence]; by apply Hdom, elem_of_dom. }
  split.
  - intros db s a Hs Hsub Hdb. destruct (cache !! sub) as [r|] eqn:Ec.
    + destruct (Hc _ _ Ec) as [Hrsub Hr]. exists cache. split; [|done].
      assert (s = cr_route_id r) as -> by (apply Hsame; eauto). by simplify_eq.
    + destruct Hdb as [-> | [? Hx]]; [|rewrite Hsub, Ec in Hx; done].
      pose proof (subdomain_query_spec rows sub Hlen Hlow) as Hq. simpl in *.
      destruct (snd <$> _) as [e|].
      * destruct Hq as [He%Hrows Hesub].
        assert (s = re_sandbox_id e) as ->
          by (apply (Hsame s {| cr_agent_id := a; cr_route_id := re_sandbox_id e |}); simpl; eauto).
        simplify_eq. eexists. split; [done|]. by apply cache_sound_insert.
      * destruct (Hq {| re_sandbox_id := s; re_agent_id := a |}); [by apply Hrows|done].
  - intros Hno. destruct (cache !! sub) as [r|] eqn:Ec.
    { destruct (Hc _ _ Ec) as [Hrsub Hr]. destruct (Hno (cr_route_id r)); eauto. }
    pose proof (subdomain_query_spec rows sub Hlen Hlow) as Hq. simpl in *.
    destruct (snd <$> _) as [e|]; [|done]. destruct Hq as [He%Hrows Hesub].
    destruct (Hno (re_sandbox_id e)); eauto.
Qed.

Lemma foldl_insert_coherent live rows cache routes routes' :
  distinct_names live → dom routes' ⊆ live → coherent cache routes →
  (∀ e, e ∈ rows → routes' !! re_sandbox_id e = Some (re_agent_id e)) →
  routes ⊆ routes' →
  ∃ routes2, routes ⊆ routes2 ∧ routes2 ⊆ routes' ∧
    (∀ e, e ∈ rows → routes2 !! re_sandbox_id e = Some (re_agent_id e)) ∧
    coherent (foldl (λ c e, cache_insert (re_sandbox_id e) (re_agent_id e) c) cache rows) routes2.
Proof.
  intros Hnames Hdom. revert cache routes. induction rows as [|e rows IH]; intros cache routes Hc Hin Hsub.
  - exists routes. split; [done|]. split; [done|]. split; [set_solver|done].
  - assert (routes' !! re_sandbox_id e = Some (re_agent_id e)) as He by (apply Hin; set_solver).
    assert (dom routes ⊆ live) by (etrans; [by apply subseteq_dom|done]).
    destruct (IH (cache_insert (re_sandbox_id e) (re_agent_id e) cache)
      (<[re_sandbox_id e := re_agent_id e]> routes)) as (r2 & Hr1 & Hr2 & Hr3 & Hr4).
    + eapply coherent_insert; [done..| |done]. apply Hdom, elem_of_dom. eauto.
    + set_solver.
    + by apply insert_subseteq_l.
    + exists r2. split; [|split; [done|split; [|done]]].
      * apply map_subseteq_spec. intros s a Hs. eapply lookup_weaken; [|exact Hr1].
        rewrite lookup_insert. case_decide; [|done]. subst.
        eapply lookup_weaken in Hs; [|exact Hsub]. congruence.
      * intros e' [->|?]%elem_of_cons; [|auto]. eapply lookup_weaken; [|exact Hr1].
        apply lookup_insert_eq.
Qed.
End routing.

Section refresh.
Context `{UuidLaws}.

(** A refresh rebuilds the cache. Whatever was cached, after a refresh that reads the
    table the cache holds exactly the table's routes under their names; a refresh that
    cannot read it reports the error and leaves the cache alone. *)
Theorem refresh_rebuilds_cache live rows routes cache :
  distinct_names live → dom routes ⊆ live → rows_of rows routes →
  (∃ cache', refresh (Rows rows) cache = (Ok (), cache') ∧ coherent cache' routes) ∧
  (∀ d, refresh (Down d) cache = (Err (ProxyInternal d), cache)).
Proof.
  intros Hnames Hdom Hrows. split; [|done]. eexists. split; [reflexivity|].
  destruct (foldl_insert_coherent live rows ∅ ∅ routes) as (r2 & _ & Hsub & Hall & Hcoh);
    [done|done|split; intros ?? Hx; by rewrite lookup_empty in Hx|
     by intros e He%Hrows|apply map_empty_subseteq|].
  replace routes with r2; [exact Hcoh|]. apply map_eq. intros s. apply option_eq. intros a. split.
  - intros. by eapply lookup_weaken.
  - intros Hs. apply (Hall {| re_sandbox_id := s; re_agent_id := a |}). by apply Hrows.
Qed.

(** Routing notifications round-trip: the payloads the controller publishes for an
    insertion and a removal are parsed by the proxy as that insertion and that removal. *)
Theorem notification_roundtrip s a :
  routing_change_parse (notify_payload "insert" s (Some a)) = Some (RInsert s a) ∧
  routing_change_parse (notify_payload "remove" s None) = Some (RRemove s).
Proof. split; [apply parse_insert|apply parse_remove]. Qed.
End refresh.

(** ** Examples *)

Section examples.
(** UUIDs that differ in their first digits. *)
Definition sb1 : SandboxId := uid 0x11111111111111111111111111111111.
Definition sb2 : SandboxId := uid 0x22222222222222222222222222222222.
Definition in_play : gset SandboxId := {[sb1; sb2]}.
Definition routes1 : gmap SandboxId AgentId := {[sb1 := uid 1]}.
Definition rows1 : list RoutingEntry := [{| re_sandbox_id := sb1; re_agent_id := uid 1 |}].

Lemma in_play_distinct : distinct_names in_play.
Proof.
  intros s s'. unfold in_play. rewrite !elem_of_union, !elem_of_singleton.
  intros [-> | ->] [-> | ->] Hsub; try done; vm_compute in Hsub; discriminate Hsub.
Qed.

Lemma routes1_in_play : dom routes1 ⊆ in_play.
Proof. unfold routes1, in_play. rewrite dom_singleton. set_solver. Qed.

Lemma rows1_of : rows_of rows1 routes1.
Proof.
  intros [s a]. unfold rows1, routes1. rewrite list_elem_of_singleton. simpl.
  rewrite lookup_singleton_Some. naive_solver.
Qed.

Lemma sound_empty : cache_sound ∅ routes1.
Proof. intros ?? Hx. by rewrite lookup_empty in Hx. Qed.

Lemma host_subdomain_roundtrip_witness :
  extract_sandbox_id ("111111111111" +:+ "." +:+ "sandbox.test:8443") = Some (subdomain sb1).
Proof.
  destruct host_subdomain_roundtrip as [Hx _].
  apply (Hx sb1 "111111111111" "sandbox.test:8443"). reflexivity.
Defined.

Lemma subdomain_query_exact_witness :
  match pg_lookup_by_subdomain "111111111111" (Rows rows1) with
  | Ok (Some e) => e ∈ rows1 ∧ subdomain (re_sandbox_id e) = "111111111111"
  | _ => False
  end.
Proof.
  pose proof (subdomain_query_exact rows1 "111111111111" eq_refl eq_refl) as Hx.
  destruct (pg_lookup_by_subdomain "111111111111" (Rows rows1)) as [[e|]|] eqn:E;
    [exact Hx| |exact Hx].
  apply (f_equal (λ r, match r with Ok (Some _) => true | _ => false end)) in E.
  vm_compute in E. discriminate E.
Defined.

Lemma notification_roundtrip_witness :
  routing_change_parse (notify_payload "insert" sb1 (Some (uid 1))) = Some (RInsert sb1 (uid 1)).
Proof. apply (notification_roundtrip sb1 (uid 1)). Defined.

Lemma refresh_rebuilds_cache_witness :
  ∃ cache', refresh (Rows rows1) ∅ = (Ok (), cache') ∧ coherent cache' routes1.
Proof.
  destruct (refresh_rebuilds_cache in_play rows1 routes1 ∅ in_play_distinct routes1_in_play
    rows1_of) as [Hx _]. exact Hx.
Defined.

Lemma requests_reach_their_agent_witness :
  ∃ cache', route_request_target (Rows rows1) ("111111111111" +:+ "." +:+ "example.com") ∅ =
              (Ok (uid 1, hyphenated sb1), cache') ∧ cache_sound cache' routes1.
Proof.
  pose proof (requests_reach_their_agent in_play rows1 routes1 ∅ "111111111111" "example.com"
    in_play_distinct routes1_in_play rows1_of sound_empty eq_refl) as [Hx _].
  apply Hx; [apply lookup_singleton_eq|reflexivity|left; reflexivity].
Defined.

(** One agent with a sandbox; releasing it tells the proxies. *)
Definition world1 : World :=
  {| w_db := {| db_agents := ∅; db_routing := routes1;
       db_sandboxes := {[sb1 := {| s_agent_id := uid 1; s_state := "running"; s_error := None;
                                   s_cpu_millicores := 0; s_memory_bytes := 0 |}]};
       db_notifications := []; db_now := 0 |};
     w_faults := [] |}.

Definition cache1 : Cache :=
  {["111111111111" := {| cr_agent_id := uid 1; cr_route_id := sb1 |}]}.

Lemma cache1_coherent : coherent cache1 routes1.
Proof.
  unfold cache1, routes1. split.
  - intros s a. rewrite !lookup_singleton_Some. intros [<- <-].
    split; [reflexivity|done].
  - intros sub r. rewrite lookup_singleton_Some. intros [<- <-]. simpl.
    split; [reflexivity|apply lookup_singleton_eq].
Qed.

Lemma notifications_keep_cache_coherent_witness :
  let w' := (pg_release_sandbox sb1 world1).2 in
  db_routing (w_db w') !! sb1 = None ∧
  ∃ ns, db_notifications (w_db w') = ns ∧ coherent (replay ns cache1) (db_routing (w_db w')).
Proof.
  intros w'. split; [evaluate|].
  destruct (notifications_keep_cache_coherent in_play
    (λ w w', (pg_release_sandbox sb1 w).2 = w') world1 w' cache1 in_play_distinct
    routes1_in_play (op_release in_play sb1 ltac:(unfold in_play; set_solver)) eq_refl
    cache1_coherent) as (ns & Hns & Hc).
  exists ns. split; [exact Hns|exact Hc].
Defined.
End examples.
