(* ===== verification/Doubles.v ===== *)
(** * The test doubles of the controller and the proxy
      (crates/controller/src/testutil.rs, crates/proxy/src/testutil.rs)

    The store that fails once on demand meets the contract of the controller's stores, so every
    theorem about the controller holds on it; the proxy's table in memory answers as the one in
    the database; and a sweep whose database failed is made good by the next. *)

From S2P Require Import Prelude Contracts UuidRef Store MemStore ControllerCore ControllerGrpc ControllerSystem Routing.

(** ** Tokens *)

Definition AcceptAllTokens (token : string) : bool := true.
Definition RejectAllTokens (token : string) : bool := false.

(** ** A store that fails on demand *)

Record FailNextStore `{UuidLib} := {
  fn_inner : MemStore;
  fn_fail_update_agent_state : bool;
  fn_fail_remove_routing_entries_for_agent : bool;
}.

Section fail_next.
Context `{UuidLib}.
Implicit Types (f : FailNextStore).

Definition arm_update_agent_state_failure f : FailNextStore :=
  {| fn_inner := fn_inner f; fn_fail_update_agent_state := true;
     fn_fail_remove_routing_entries_for_agent := fn_fail_remove_routing_entries_for_agent f |}.
Definition arm_remove_routing_entries_for_agent_failure f : FailNextStore :=
  {| fn_inner := fn_inner f; fn_fail_update_agent_state := fn_fail_update_agent_state f;
     fn_fail_remove_routing_entries_for_agent := true |}.

Definition with_inner (m : MemStore) f : FailNextStore :=
  {| fn_inner := m; fn_fail_update_agent_state := fn_fail_update_agent_state f;
     fn_fail_remove_routing_entries_for_agent := fn_fail_remove_routing_entries_for_agent f |}.

(** A method that passes through. *)
Definition inner {A} (op : ST MemStore A) : ST FailNextStore A := λ f,
  let '(r, m) := op (fn_inner f) in (r, with_inner m f).

Definition fn_update_agent_state (id : AgentId) (state : AgentState) : ST FailNextStore (result () ControllerError) := λ f,
  let f' := {| fn_inner := fn_inner f; fn_fail_update_agent_state := false;
               fn_fail_remove_routing_entries_for_agent := fn_fail_remove_routing_entries_for_agent f |} in
  if fn_fail_update_agent_state f then (Err (Database "injected failure"), f')
  else inner (update_agent_state id state) f'.

Definition fn_mark_agent_dead_atomic (agent_id : AgentId) : ST FailNextStore (result () ControllerError) := λ f,
  let f' := {| fn_inner := fn_inner f; fn_fail_update_agent_state := false;
               fn_fail_remove_routing_entries_for_agent := false |} in
  if fn_fail_update_agent_state f || fn_fail_remove_routing_entries_for_agent f then
    match inner (get_agent agent_id) f' with
    | (Err e, f') => (Err e, f')
    | (Ok None, f') => (Err (AgentNotFound (hyphenated agent_id)), f')
    | (Ok (Some _), f') => (Err (Database "injected mark_agent_dead_atomic failure"), f')
    end
  else inner (mark_agent_dead_atomic agent_id) f'.

#[export] Instance FailNext : ControllerStore FailNextStore := {
  save_agent record := inner (save_agent record);
  get_agent id := inner (get_agent id);
  remove_agent id := inner (remove_agent id);
  list_active_agents := inner list_active_agents;
  update_agent_state := fn_update_agent_state;
  insert_routing_entry entry := inner (insert_routing_entry entry);
  remove_routing_entries_for_agent agent_id := inner (remove_routing_entries_for_agent agent_id);
  find_routing_entry sandbox_id := inner (find_routing_entry sandbox_id);
  list_routing_entries := inner list_routing_entries;
  remove_routing_entry sandbox_id := inner (remove_routing_entry sandbox_id);
  save_sandbox_state sandbox_id agent_id state error := inner (save_sandbox_state sandbox_id agent_id state error);
  get_sandbox_state sandbox_id := inner (get_sandbox_state sandbox_id);
  mark_agent_dead_atomic := fn_mark_agent_dead_atomic;
  try_assign_sandbox agent_id sandbox_id cpu_millicores memory_bytes :=
    inner (try_assign_sandbox agent_id sandbox_id cpu_millicores memory_bytes);
  release_sandbox sandbox_id := inner (release_sandbox sandbox_id);
  record_heartbeat agent_id := inner (record_heartbeat agent_id);
  dead_agents := inner dead_agents;
}.

Lemma inner_inv {A} (op : ST MemStore A) f r f' :
  inner op f = (r, f') → ∃ m, op (fn_inner f) = (r, m) ∧ f' = with_inner m f.
Proof. unfold inner. destruct (op (fn_inner f)) as [r0 m]. intros [= <- <-]. eauto. Qed.

(** It keeps the contract of a store. *)
#[export] Instance FailNextSpec : StoreSpec FailNextStore.
Proof.
  refine {| view f := view (fn_inner f); store_wf f := store_wf (fn_inner f) |}.
  - intros w a rec. apply wf_agent_id.
  - intros rec w r w' Hwf Hrec (m & Hm & ->)%inner_inv. by eapply save_agent_spec.
  - intros a w r w' Hwf (m & Hm & ->)%inner_inv. by eapply get_agent_spec.
  - intros w r w' Hwf (m & Hm & ->)%inner_inv. by eapply list_active_agents_spec.
  - intros s w r w' Hwf (m & Hm & ->)%inner_inv. by eapply find_routing_entry_spec.
  - intros w r w' Hwf (m & Hm & ->)%inner_inv. by eapply list_routing_entries_spec.
  - intros s w r w' Hwf (m & Hm & ->)%inner_inv. by eapply remove_routing_entry_spec.
  - intros s a st err w r w' Hwf (m & Hm & ->)%inner_inv. by eapply save_sandbox_state_spec.
  - intros s w r w' Hwf (m & Hm & ->)%inner_inv. by eapply get_sandbox_state_spec.
  - intros a w r w' Hwf. cbn. unfold fn_mark_agent_dead_atomic. destruct (_ || _).
    + destruct (inner (get_agent a) _) as [r1 f1] eqn:E. apply inner_inv in E as (m & Hm & ->).
      apply get_agent_spec in Hm as (Hwf' & Hv & Hr); [|done]. cbn in *.
      destruct Hr as [(o & -> & Ho)|[d ->]]; [destruct o as [rec|]|]; intros [= <- <-]; cbn; (split; [done|]).
      * right. right. eauto.
      * left. split_and!; [exact (eq_sym Ho)|done|done].
      * right. right. eauto.
    + intros (m & Hm & ->)%inner_inv. by eapply mark_agent_dead_spec in Hm.
  - intros a s cpu mem w r w' Hwf Hc Hm' Hr Hs (m & Hm & ->)%inner_inv. by eapply try_assign_spec in Hm.
  - intros s w r w' Hwf (m & Hm & ->)%inner_inv. by eapply release_spec in Hm.
  - intros a w r w' Hwf (m & Hm & ->)%inner_inv. by eapply record_heartbeat_spec.
  - intros w r w' Hwf (m & Hm & ->)%inner_inv. by eapply dead_agents_spec.
Defined.

(** With no failure armed it answers. *)
Definition unarmed f : Prop :=
  fn_fail_update_agent_state f = false ∧ fn_fail_remove_routing_entries_for_agent f = false.

Lemma inner_answers {A} (op : ST MemStore (result A ControllerError)) :
  answers op → ∀ f r f', unarmed f → inner op f = (r, f') → unarmed f' ∧ ∀ d, r ≠ Err (Database d).
Proof. intros Ha f r f' Hf (m & Hm & ->)%inner_inv. split; [done|]. by destruct (Ha _ _ _ I Hm). Qed.

#[export] Instance FailNextReliable : StoreReliable FailNextStore.
Proof.
  refine {| reliable := unarmed;
    save_agent_answers rec := inner_answers _ (save_agent_answers rec);
    get_agent_answers a := inner_answers _ (get_agent_answers a);
    list_active_agents_answers := inner_answers _ list_active_agents_answers;
    find_routing_entry_answers s := inner_answers _ (find_routing_entry_answers s);
    list_routing_entries_answers := inner_answers _ list_routing_entries_answers;
    save_sandbox_state_answers s a st err := inner_answers _ (save_sandbox_state_answers s a st err);
    get_sandbox_state_answers s := inner_answers _ (get_sandbox_state_answers s);
    record_heartbeat_answers a := inner_answers _ (record_heartbeat_answers a);
    dead_agents_answers := inner_answers _ dead_agents_answers |}.
  intros a f r f' [H1 H2]. cbn. unfold fn_mark_agent_dead_atomic. rewrite H1, H2. cbn [orb].
  intros Hm. by eapply (inner_answers _ (mark_agent_dead_answers a)); [|exact Hm].
Defined.
End fail_next.

(** ** Sweeps make good for each other *)

Section sweeps.
Context `{UuidLib} {W : Type} `{!ControllerStore W} `{!StoreSpec W} `{!StoreReliable W}.
Implicit Types (c : Ctl W).

Fixpoint sweeps (n : nat) c : Ctl W :=
  match n with O => c | S n => sweeps n (sweep_dead_agents c).2 end.

(** Buried, or still to be: active, and silent for too long. *)
Definition gone a c : Prop :=
  (∃ rec, as_agents (view (c_store c)) !! a = Some rec ∧ ar_state rec = Dead) ∧
  ∀ s, as_routes (view (c_store c)) !! s ≠ Some a.
Definition due a c : Prop := is_active (as_agents (view (c_store c)) !! a) ∧ stale a (view (c_store c)).

Lemma sweep_wf c : store_wf (c_store c) → store_wf (c_store (sweep_dead_agents c).2).
Proof.
  intros Hwf. destruct (sweep_dead_agents c) as [dead c'] eqn:E. cbn. revert E. unfold sweep_dead_agents. ctl_step r c1 E.
  apply lift_inv in E as (w1 & E & ->). apply dead_agents_spec in E as (Hwf1 & Hv & E); [|done].
  destruct E as [(l & -> & Hl)|(d & ->)]; [|by intros [= <- <-]].
  ctl_step u c2 E. intros [= <- <-]. apply sweep_loop_inv in E; [|done|]; [by destruct E|].
  cbn. rewrite Hv. intros a [(rec & -> & _) _]%Hl. eauto.
Qed.

Lemma buried_gone dead v v' a :
  buried dead v v' → is_active (as_agents v !! a) → a ∈ dead →
  (∃ rec, as_agents v' !! a = Some rec ∧ ar_state rec = Dead) ∧ ∀ s, as_routes v' !! s ≠ Some a.
Proof.
  intros (Ha & Hr & _) (rec & Hrec & _) Hin. split.
  - rewrite Ha, Hrec. cbn. unfold bury. rewrite decide_True by done. by eexists.
  - intros s Hs. rewrite Hr in Hs. apply map_lookup_filter_Some in Hs as [_ Hs]. by cbn in Hs.
Qed.

(** A sweep under any failures: an agent it should have buried is gone, or the next one should. *)
Lemma sweep_due a c : store_wf (c_store c) → due a c → gone a (sweep_dead_agents c).2 ∨ due a (sweep_dead_agents c).2.
Proof.
  intros Hwf [Hact Hst]. destruct (sweep_dead_agents c) as [dead c'] eqn:E.
  destruct (sweep_buries_exactly_the_stale c dead c' Hwf E) as (_ & _ & dn & cut & _ & _ & Hb & _). cbn.
  destruct (decide (a ∈ dn)) as [Hin|Hin]; [left; by eapply buried_gone|]. right.
  destruct Hb as (Ha & _ & _ & _ & Hhb & Hnow). split.
  - destruct Hact as (rec & Hrec & Hs). rewrite Ha, Hrec. cbn. unfold bury. rewrite decide_False by done. by exists rec.
  - destruct Hst as (t & Ht & Hlt). exists t. by rewrite Hhb, Hnow.
Qed.

Lemma sweep_gone a c : store_wf (c_store c) → gone a c → gone a (sweep_dead_agents c).2.
Proof.
  intros Hwf [(rec & Hrec & Hs) Hr]. destruct (sweep_dead_agents c) as [dead c'] eqn:E.
  destruct (sweep_buries_exactly_the_stale c dead c' Hwf E) as (_ & _ & dn & cut & _ & _ & (Ha & Hb & _) & _). cbn. split.
  - rewrite Ha, Hrec. cbn. unfold bury. case_decide; by eexists.
  - intros s Hs'. rewrite Hb in Hs'. apply map_lookup_filter_Some in Hs' as [Hs' _]. by destruct (Hr s).
Qed.

(** C13: Failure detection survives failures: an agent that is active and has been silent for too
    long is, whatever went wrong in any number of sweeps, dead and without routes after the
    first sweep whose database answers. *)
Theorem sweeps_recover n a c :
  store_wf (c_store c) → due a c → reliable (c_store (sweeps n c)) → gone a (sweeps (S n) c).
Proof.
  assert (∀ n c, sweeps (S n) c = (sweep_dead_agents (sweeps n c)).2) as Hlast.
  { clear. induction n as [|n IH]; intros c; [done|]. change (sweeps (S (S n)) c) with (sweeps (S n) (sweep_dead_agents c).2).
    by rewrite IH. }
  intros Hwf Hd Hrel. rewrite Hlast.
  assert (store_wf (c_store (sweeps n c)) ∧ (gone a (sweeps n c) ∨ due a (sweeps n c))) as [Hwf' [Hg|Hd']].
  { clear Hrel Hlast. revert c Hwf Hd. induction n as [|n IH]; intros c Hwf Hd; [auto|]. cbn [sweeps].
    pose proof (sweep_wf c Hwf) as Hwf1. destruct (sweep_due a c Hwf Hd) as [Hg|Hd1]; [|by apply IH].
    clear IH Hd. revert Hwf1 Hg. generalize (sweep_dead_agents c).2 as c1. induction n as [|n IH]; intros c1 Hwf1 Hg; [auto|].
    cbn [sweeps]. apply IH; [by apply sweep_wf|by apply sweep_gone]. }
  - by apply sweep_gone.
  - destruct (sweep_dead_agents (sweeps n c)) as [dead c'] eqn:E. destruct Hd' as [Hact Hst].
    destruct (sweep_buries_exactly_the_stale _ dead c' Hwf' E) as (_ & _ & dn & cut & _ & _ & Hb & _ & Hr).
    destruct (Hr Hrel) as (-> & _ & Hin). by eapply buried_gone, Hin.
Qed.
End sweeps.

Module SweepExamples.
(** Agent 1 is silent; the first sweep's marking fails, the second makes it good. *)
Definition armed : Ctl FailNextStore :=
  {| c_store := arm_update_agent_state_failure
       {| fn_inner := busy_fleet; fn_fail_update_agent_state := false;
          fn_fail_remove_routing_entries_for_agent := false |};
     c_conns := c_conns fleet_ctl; c_chans := c_chans fleet_ctl; c_clock := c_clock fleet_ctl |}.

Lemma sweeps_recover_witness :
  (sweep_dead_agents armed).1 = [uid 1] ∧
  ar_state <$> as_agents (view (c_store (sweeps 1 armed))) !! uid 1 = Some Active ∧
  gone (uid 1) (sweeps 2 armed).
Proof.
  split; [evaluate|]. split; [evaluate|]. apply (sweeps_recover 1).
  - exact busy_fleet_wf.
  - split; [|exists 0%Z; by split; [evaluate|]].
    destruct (as_agents (view (c_store armed)) !! uid 1) as [rec|] eqn:E; [|discriminate E].
    exists rec. split; [done|]. injection E as <-. done.
  - split; evaluate.
Defined.
End SweepExamples.

(** ** The proxy's table in memory *)

Record MemRouting `{UuidLib} := { mr_entries : gmap SandboxId AgentId }.

Section mem_routing.
Context `{UuidLib}.

Definition add_entry (sandbox_id : SandboxId) (agent_id : AgentId) (t : MemRouting) : MemRouting :=
  {| mr_entries := <[sandbox_id := agent_id]> (mr_entries t) |}.
Definition clear_entries (t : MemRouting) : MemRouting := {| mr_entries := ∅ |}.

Definition mr_rows (t : MemRouting) : list RoutingEntry :=
  (λ e, {| re_sandbox_id := e.1; re_agent_id := e.2 |}) <$> map_to_list (mr_entries t).

#[export] Instance InMemoryRoutingStore : RoutingStore MemRouting := {
  rs_lookup sandbox_id t := Ok (mr_entries t !! sandbox_id);
  rs_lookup_by_subdomain sub t := Ok (snd <$> list_find (λ e, subdomain (re_sandbox_id e) = sub) (mr_rows t));
  rs_load_all t := Ok (mr_rows t);
}.
End mem_routing.

Section routing_agree.
Context `{UuidLaws}.

Lemma mr_rows_spec t e : e ∈ mr_rows t ↔ mr_entries t !! re_sandbox_id e = Some (re_agent_id e).
Proof.
  unfold mr_rows. rewrite list_elem_of_fmap. split.
  - intros ([s a] & -> & Hin). by apply elem_of_map_to_list in Hin.
  - intros He. exists (re_sandbox_id e, re_agent_id e). split; [by destruct e|]. by apply elem_of_map_to_list.
Qed.

(** The double and the database answer alike: on the same routes, for names a router asks for
    and sandboxes whose names differ. *)
Theorem routing_stores_agree t rows :
  NoDup rows → (∀ e, e ∈ rows ↔ mr_entries t !! re_sandbox_id e = Some (re_agent_id e)) →
  distinct_names (dom (mr_entries t)) →
  (∀ s, rs_lookup s t = rs_lookup s (Rows rows)) ∧
  (∀ sub, String.length sub = SUBDOMAIN_LEN → string_forallb is_lower_hexdigit sub = true →
     rs_lookup_by_subdomain sub t = rs_lookup_by_subdomain sub (Rows rows)) ∧
  ∃ l, rs_load_all t = Ok l ∧ l ≡ₚ rows.
Proof.
  intros Hnd Hrows Hnames. split_and!.
  - intros s. cbn. unfold pg_lookup, query. f_equal.
    destruct (list_find _ rows) as [[i e]|] eqn:Ef; cbn.
    + apply list_find_Some in Ef as (He & <- & _). apply list_elem_of_lookup_2, Hrows in He. done.
    + apply list_find_None in Ef. rewrite Forall_forall in Ef. destruct (mr_entries t !! s) as [a|] eqn:E; [|done].
      by destruct (Ef {| re_sandbox_id := s; re_agent_id := a |}); [apply Hrows|].
  - intros sub Hlen Hhex. pose proof (subdomain_query_spec rows sub Hlen Hhex) as Hq.
    cbn [rs_lookup_by_subdomain InMemoryRoutingStore PgRoutingStore].
    destruct (pg_lookup_by_subdomain sub (Rows rows)) as [[e|]|]; [..|done]; f_equal.
    + destruct Hq as [He Hs]. apply Hrows in He as Hl.
      destruct (list_find _ (mr_rows t)) as [[i e']|] eqn:Ef; cbn [fmap option_fmap option_map snd].
      * apply list_find_Some in Ef as (He' & Hs' & _). apply list_elem_of_lookup_2, mr_rows_spec in He'.
        assert (re_sandbox_id e' = re_sandbox_id e) as Hid.
        { apply Hnames; [by eapply elem_of_dom_2..|by rewrite Hs, Hs']. }
        destruct e, e'. cbn in *. subst. congruence.
      * apply list_find_None in Ef. rewrite Forall_forall in Ef. by destruct (Ef e); [apply mr_rows_spec|].
    + destruct (list_find _ (mr_rows t)) as [[i e']|] eqn:Ef; [|done].
      apply list_find_Some in Ef as (He' & Hs' & _). apply list_elem_of_lookup_2, mr_rows_spec, Hrows in He'.
      by destruct (Hq e').
  - exists (mr_rows t). split; [done|]. apply NoDup_Permutation; [|done|].
    + unfold mr_rows. apply NoDup_fmap_2; [|apply NoDup_map_to_list]. intros [] [] [= -> ->]. done.
    + intros e. by rewrite mr_rows_spec, Hrows.
Qed.
End routing_agree.
