(* ===== verification/CacheTasks.v ===== *)
(** * The proxy's routing cache and the tasks that keep it

    crates/cli/src/run.rs [run_proxy]: a task that reads the whole table every half minute, a
    task that listens for notifications and subscribes again when the connection breaks, and
    the request path, which fetches what it misses; crates/proxy/src/{routing_cache,pg_store}.rs.
    A read of the table and the write to the cache that follows are two steps, since the task
    waits for the database between them. *)

From S2P Require Import Prelude Contracts UuidRef Store PgStore PgStoreSpec Routing.

Section tasks.
Context `{UuidLaws}.
Implicit Types (cache : Cache) (routes : gmap SandboxId AgentId) (q : list string).

Record Tasks := {
  tk_world : World;
  (** the notifications that wait for the listener, while it is subscribed *)
  tk_queue : option (list string);
  (** what a refresh, and the requests that missed, have read and not yet written *)
  tk_loaded : option (list RoutingEntry);
  tk_fetched : list RoutingEntry;
  tk_cache : Cache;
}.
Implicit Types (t : Tasks).

Definition table t : gmap SandboxId AgentId := db_routing (w_db (tk_world t)).

Definition with_world (w : World) t : Tasks :=
  {| tk_world := w;
     tk_queue := (λ q, q ++ drop (length (db_notifications (w_db (tk_world t)))) (db_notifications (w_db w))) <$>
                   tk_queue t;
     tk_loaded := tk_loaded t; tk_fetched := tk_fetched t; tk_cache := tk_cache t |}.
Definition with_queue (q : option (list string)) (cache : Cache) t : Tasks :=
  {| tk_world := tk_world t; tk_queue := q; tk_loaded := tk_loaded t; tk_fetched := tk_fetched t;
     tk_cache := cache |}.
Definition with_reads (loaded : option (list RoutingEntry)) (fetched : list RoutingEntry) (cache : Cache) t : Tasks :=
  {| tk_world := tk_world t; tk_queue := tk_queue t; tk_loaded := loaded; tk_fetched := fetched;
     tk_cache := cache |}.

(** [refresh] after [load_all] answered. *)
Definition installed (entries : list RoutingEntry) : Cache :=
  foldl (λ c entry, cache_insert (re_sandbox_id entry) (re_agent_id entry) c) ∅ entries.

(** One step of a task, or of the controller. *)
Inductive task_step (live : gset SandboxId) : Tasks → Tasks → Prop :=
| ts_controller op w' t : routing_op live op → op (tk_world t) w' → task_step live t (with_world w' t)
| ts_subscribed t : tk_queue t = None → task_step live t (with_queue (Some []) (tk_cache t) t)
| ts_not_subscribed t : tk_queue t = None → task_step live t t
| ts_notified p q t : tk_queue t = Some (p :: q) →
    task_step live t (with_queue (Some q) (on_notification p (tk_cache t)) t)
| ts_recv_failed t : task_step live t (with_queue None (tk_cache t) t)
| ts_loaded rows t : rows_of rows (table t) →
    task_step live t (with_reads (Some rows) (tk_fetched t) (tk_cache t) t)
| ts_load_failed t : task_step live t t
| ts_installed rows t : tk_loaded t = Some rows →
    task_step live t (with_reads None (tk_fetched t) (installed rows) t)
| ts_fetched e t : table t !! re_sandbox_id e = Some (re_agent_id e) →
    task_step live t (with_reads (tk_loaded t) (tk_fetched t ++ [e]) (tk_cache t) t)
| ts_filled es e es' t : tk_fetched t = es ++ e :: es' →
    task_step live t (with_reads (tk_loaded t) (es ++ es')
      (cache_insert (re_sandbox_id e) (re_agent_id e) (tk_cache t)) t)
| ts_fetch_dropped es e es' t : tk_fetched t = es ++ e :: es' →
    task_step live t (with_reads (tk_loaded t) (es ++ es') (tk_cache t) t)
| ts_evicted agent t :
    task_step live t (with_reads (tk_loaded t) (tk_fetched t) (remove_for_agent agent (tk_cache t)) t).

(** ** Replaying notifications *)

(** What a notification says of a name, and what the last of them says. *)
Definition says (p : string) (k : string) : option (option CachedRoute) :=
  match routing_change_parse p with
  | Some (RInsert s a) => if decide (subdomain s = k) then Some (Some {| cr_agent_id := a; cr_route_id := s |}) else None
  | Some (RRemove s) => if decide (subdomain s = k) then Some None else None
  | None => None
  end.
Definition verdict q (k : string) : option (option CachedRoute) := last (omap (λ p, says p k) q).

Lemma on_notification_lookup p cache k :
  on_notification p cache !! k = default (cache !! k) (says p k).
Proof.
  unfold on_notification, says. destruct (routing_change_parse p) as [[s a|s]|]; [| |done].
  - unfold cache_insert. rewrite lookup_insert. by case_decide.
  - unfold remove_by_sandbox_id. rewrite lookup_delete. by case_decide.
Qed.

Lemma verdict_cons p q k : verdict (p :: q) k = match verdict q k with Some v => Some v | None => says p k end.
Proof.
  unfold verdict. cbn. destruct (says p k); [rewrite last_cons; by destruct (last _)|]. by destruct (last _).
Qed.

Lemma replay_lookup q cache k : replay q cache !! k = default (cache !! k) (verdict q k).
Proof.
  revert cache. induction q as [|p q IH]; intros cache; [done|].
  rewrite replay_cons, IH, verdict_cons, on_notification_lookup. by destruct (verdict q k).
Qed.

(** ** Current caches *)

(** What is waiting for the listener ends in what the table says. *)
Definition queue_true q routes : Prop := cache_sound (replay q ∅) routes.
Definition read_current t : Prop :=
  (∀ rows, tk_loaded t = Some rows → rows_of rows (table t)) ∧
  (∀ e, e ∈ tk_fetched t → table t !! re_sandbox_id e = Some (re_agent_id e)).

(** The listener is subscribed; and besides, once it has caught up every cached route will be
    the table's, and so will what is being written. *)
Definition listening t : Prop := ∃ q, tk_queue t = Some q ∧ queue_true q (table t).
Definition in_sync t : Prop :=
  ∃ q, tk_queue t = Some q ∧ queue_true q (table t) ∧ cache_sound (replay q (tk_cache t)) (table t) ∧ read_current t.

Lemma sound_mono cache cache' routes :
  (∀ k r, cache' !! k = Some r → cache !! k = Some r) → cache_sound cache routes → cache_sound cache' routes.
Proof. intros Hsub Hs k r Hr. by apply Hs, Hsub. Qed.

(** A queue that ends in the table turns a current cache into a current one. *)
Lemma replay_sound q cache routes :
  queue_true q routes → cache_sound cache routes → cache_sound (replay q cache) routes.
Proof.
  intros Hq Hc k r. rewrite replay_lookup. destruct (verdict q k) as [v|] eqn:E; cbn.
  - intros ->. apply Hq. by rewrite replay_lookup, E.
  - apply Hc.
Qed.

Lemma queue_true_tail p q routes : queue_true (p :: q) routes → queue_true q routes.
Proof.
  apply sound_mono. intros k r. rewrite !replay_lookup, verdict_cons. by destruct (verdict q k).
Qed.

Lemma installed_sound rows routes : rows_of rows routes → cache_sound (installed rows) routes.
Proof.
  intros Hr. unfold installed. assert (∀ cache, cache_sound cache routes →
    (∀ e, e ∈ rows → routes !! re_sandbox_id e = Some (re_agent_id e)) →
    cache_sound (foldl (λ c e, cache_insert (re_sandbox_id e) (re_agent_id e) c) cache rows) routes) as Hg.
  { clear Hr. induction rows as [|e rows IH]; intros cache Hc Hin; [done|]. cbn.
    apply IH; [apply cache_sound_insert; [apply Hin; by left|done]|]. intros e' He'. apply Hin. by right. }
  apply Hg; [intros k r Hx; by rewrite lookup_empty in Hx|]. intros e He. by apply Hr.
Qed.

(** A change of the table, and what the listener is told of it. *)
Lemma controller_told live op w w' q cache :
  distinct_names live → dom (db_routing (w_db w)) ⊆ live → routing_op live op → op w w' →
  let ns := drop (length (db_notifications (w_db w))) (db_notifications (w_db w')) in
  cache_sound (replay q cache) (db_routing (w_db w)) →
  cache_sound (replay (q ++ ns) cache) (db_routing (w_db w')).
Proof.
  intros Hn Hd Hop Hw ns Hq. destruct (routing_op_told live op w w' Hn Hd Hop Hw) as (ns' & Hns & Ht).
  unfold ns. rewrite Hns, drop_app_length. unfold replay. rewrite foldl_app. by apply Ht.
Qed.

(** A step that keeps the subscription, and one that besides does not change the table under
    a read. *)
Definition keeps_listening t t' : Prop := is_Some (tk_queue t) → is_Some (tk_queue t').
Definition undisturbed_reads t t' : Prop :=
  tk_world t' = tk_world t ∨ tk_loaded t = None ∧ tk_fetched t = [].

Section steps.
Context (live : gset SandboxId) (Hnames : distinct_names live).

Definition kept t t' : Prop := task_step live t t' ∧ keeps_listening t t' ∧ dom (table t) ⊆ live.
Definition smooth t t' : Prop := kept t t' ∧ undisturbed_reads t t'.

Lemma kept_listening t t' : kept t t' → listening t → listening t'.
Proof.
  intros (Hs & Hk & Hd) (q & Hq & Ht). destruct Hs; unfold keeps_listening in Hk; cbn in Hk.
  - eexists. cbn. rewrite Hq. split; [done|]. by eapply controller_told.
  - congruence.
  - by exists q.
  - assert (q = p :: q0) as -> by congruence. exists q0. split; [done|]. by eapply queue_true_tail.
  - rewrite Hq in Hk. destruct Hk; [by eexists|done].
  - by exists q.
  - by exists q.
  - by exists q.
  - by exists q.
  - by exists q.
  - by exists q.
  - by exists q.
Qed.

(** An entry among those that were fetched. *)
Ltac fetched :=
  match goal with E : tk_fetched _ = _ |- _ => rewrite E end; rewrite ?elem_of_app, ?elem_of_cons in *; tauto.

Lemma smooth_in_sync t t' : smooth t t' → in_sync t → in_sync t'.
Proof.
  intros [Hkept Hr] (q & Hq & Ht & Hc & [Hl Hf]).
  destruct (kept_listening t t' Hkept) as (q' & Hq' & Ht'); [by exists q|].
  destruct Hkept as (Hs & _ & Hd). exists q'. split; [done|]. split; [done|].
  destruct Hs; cbn in Hq', Ht' |- *; try (assert (q' = q) as -> by congruence).
  - rewrite Hq in Hq'. injection Hq' as <-. split; [by eapply controller_told|].
    destruct Hr as [Hw|[Hl0 Hf0]]; [|split; cbn; [congruence|rewrite Hf0; by intros ? ?%not_elem_of_nil]]. cbn in Hw. subst w'. done.
  - congruence.
  - done.
  - assert (q = p :: q0) as -> by congruence. assert (q' = q0) as -> by congruence. done.
  - congruence.
  - split; [done|]. split; cbn; [|done]. by intros ? [= <-].
  - done.
  - split; [|split; cbn; [done|done]]. apply replay_sound; [done|]. apply installed_sound. by apply Hl.
  - split; [done|]. split; cbn; [done|]. intros e' [He'|He']%elem_of_app; [by apply Hf|]. by apply list_elem_of_singleton in He' as ->.
  - split; [|split; cbn; [done|]]; [|intros e' He'; apply Hf; by fetched]. intros k r. rewrite replay_lookup. destruct (verdict q k) as [v|] eqn:E; cbn.
    + intros ->. apply Hc. by rewrite replay_lookup, E.
    + unfold cache_insert. rewrite lookup_insert. case_decide as Hk.
      * intros [= <-]. split; [done|]. apply Hf. by fetched.
      * intros Hr'. apply Hc. by rewrite replay_lookup, E.
  - split; [done|]. split; cbn; [done|]. intros e' He'. apply Hf. by fetched.
  - split; [|done]. revert Hc. apply sound_mono. intros k r. rewrite !replay_lookup.
    destruct (verdict q k); [done|]. cbn. unfold remove_for_agent. by intros [? _]%map_lookup_filter_Some.
Qed.

Lemma installed_in_sync t rows :
  listening t → tk_loaded t = Some rows → read_current t →
  in_sync (with_reads None (tk_fetched t) (installed rows) t).
Proof.
  intros (q & Hq & Ht) Hl [Hload Hf]. exists q. split; [done|]. split; [done|].
  split; [|split; cbn; [done|done]]. apply replay_sound; [done|]. by apply installed_sound, Hload.
Qed.
End steps.

(** C29: The routing cache recovers and then stays current. From the moment the listener has
    subscribed, whatever was in the cache and whatever races happened since: a refresh that
    writes what the table still holds makes every cached route the table's own, up to the
    notifications that wait for the listener; and this lasts, through every change the
    controller makes, every notification, refresh, fetch and eviction in any order, until the
    subscription breaks or the table changes between a task's read and its write. Then, with
    no notification waiting, no request is sent to an agent the table does not name. *)
Theorem routing_cache_recovers live t0 t1 rows t2 :
  distinct_names live → tk_queue t0 = Some [] → rtc (kept live) t0 t1 →
  tk_loaded t1 = Some rows → read_current t1 →
  rtc (smooth live) (with_reads None (tk_fetched t1) (installed rows) t1) t2 →
  ∃ q, tk_queue t2 = Some q ∧ cache_sound (replay q (tk_cache t2)) (table t2) ∧
    (q = [] → cache_sound (tk_cache t2) (table t2)).
Proof.
  intros Hn Hq H01 Hl Hr H12.
  assert (listening t1) as Hlis.
  { assert (listening t0) as H0.
    { exists []. split; [done|]. intros k r Hx. cbn in Hx. by rewrite lookup_empty in Hx. }
    clear Hl Hr H12 Hq. induction H01 as [t|t t' t'' Hs _ IH]; [done|]. by eapply IH, kept_listening. }
  pose proof (installed_in_sync t1 rows Hlis Hl Hr) as Hsync.
  assert (in_sync t2) as (q & Hq2 & _ & Hc & _).
  { revert Hsync. induction H12 as [t|t t' t'' Hs _ IH]; [done|]. intros Ht. by eapply IH, smooth_in_sync. }
  exists q. split; [done|]. split; [done|]. by intros ->.
Qed.
End tasks.

Module CacheTasksExamples.
Definition stale : Cache := {["111111111111" := {| cr_agent_id := uid 2; cr_route_id := sb1 |}]}.
Definition subscribed (cache : Cache) : Tasks :=
  {| tk_world := world1; tk_queue := Some []; tk_loaded := None; tk_fetched := []; tk_cache := cache |}.
Definition loaded (cache : Cache) : Tasks := with_reads (Some rows1) [] cache (subscribed cache).
Definition released : World := (pg_release_sandbox sb1 world1).2.
Definition payload : string := notify_payload "remove" sb1 None.

Lemma release_step t : tk_world t = world1 → task_step in_play t (with_world released t).
Proof.
  intros Hw. apply (ts_controller in_play (λ w w', (pg_release_sandbox sb1 w).2 = w')).
  - apply op_release. unfold in_play. set_solver.
  - by rewrite Hw.
Qed.

Lemma load_step cache : task_step in_play (subscribed cache) (loaded cache).
Proof. exact (ts_loaded in_play rows1 (subscribed cache) rows1_of). Qed.

(** A wrong route is put right by a refresh, and goes when its sandbox does. *)
Lemma routing_cache_recovers_witness :
  let t1 := with_world released (with_reads None [] (installed rows1) (loaded stale)) in
  tk_queue t1 = Some [payload] ∧
  let t2 := with_queue (Some []) (on_notification payload (tk_cache t1)) t1 in
  cache_sound (tk_cache t2) (table t2) ∧ tk_cache t2 !! "111111111111" = None.
Proof.
  intros t1. assert (tk_queue t1 = Some [payload]) as Hq by evaluate. split; [exact Hq|]. intros t2.
  assert (table t1 = ∅) as Ht by evaluate.
  assert (dom (table t1) ⊆ in_play) as Hd by (rewrite Ht, dom_empty_L; apply empty_subseteq).
  destruct (routing_cache_recovers in_play (subscribed stale) (loaded stale) rows1 t2) as (q & Hq2 & _ & Hc).
  - exact in_play_distinct.
  - reflexivity.
  - apply rtc_once. split; [exact (load_step stale)|]. split; [intros _; by eexists|exact routes1_in_play].
  - reflexivity.
  - split; [intros rows [= <-]; exact rows1_of|intros e He; destruct (not_elem_of_nil e He)].
  - apply (rtc_l _ _ t1).
    + split; [split; [exact (release_step (with_reads None [] (installed rows1) (loaded stale)) eq_refl)|]|].
      * split; [intros _; exists [payload]; exact Hq|exact routes1_in_play].
      * right. split; reflexivity.
    + apply rtc_once. split; [split; [exact (ts_notified in_play payload [] t1 Hq)|]|left; reflexivity].
      split; [intros _; exists []; reflexivity|exact Hd].
  - split; [apply Hc; injection Hq2 as <-; reflexivity|evaluate].
Defined.

(** A refresh that reads before a removal and writes after its notification brings the route
    back, with nothing left that would take it away before the next refresh; and so does a
    request that fetched it. *)
Example refresh_undoes_removal :
  ∃ t, rtc (task_step in_play) (subscribed ∅) t ∧ tk_queue t = Some [] ∧ table t !! sb1 = None ∧
    tk_cache t !! "111111111111" = Some {| cr_agent_id := uid 1; cr_route_id := sb1 |}.
Proof.
  set (t1 := with_world released (loaded ∅)). set (t2 := with_queue (Some []) (on_notification payload ∅) t1).
  assert (tk_queue t1 = Some [payload]) as Hq by evaluate.
  exists (with_reads None [] (installed rows1) t2). split; [|split; [reflexivity|split; evaluate]].
  apply (rtc_l _ _ _ _ (load_step ∅)). apply (rtc_l _ _ t1); [by apply release_step|].
  apply (rtc_l _ _ t2); [exact (ts_notified in_play payload [] t1 Hq)|]. apply rtc_once. by apply (ts_installed in_play rows1 t2).
Qed.
End CacheTasksExamples.
