(* ===== verification/IoFrames.v ===== *)
(** * The frames of the data plane (proto/proxy.proto)

    Message types shared by the proxy, the agent and the API gateway; [bytes] fields are
    byte strings. *)

From S2P Require Import Prelude.

Abbreviation bytes := string (only parsing).

Record HttpRequest := {
  hq_method : string;
  hq_uri : string;
  hq_headers : gmap string string;
  hq_body : bytes;
  hq_sandbox_id : string;
}.

Record HttpResponse := {
  hr_status_code : Z;
  hr_headers : gmap string string;
  hr_body : bytes;
}.

Record ExecParams := {
  ex_command : list string;
  ex_cwd : string;
  ex_env : gmap string string;
}.

Inductive IoParams :=
| PExec (p : ExecParams)
| PReadFile (path cwd : string)
| PWriteFile (path cwd expected_revision : string) (force : bool)
| PWriteFilesTargz (cwd : string)
| PListDir (path cwd : string)
| PWaitPortListening (port timeout_ms : Z)
| PDeleteFile (path cwd : string) (recursive : bool).

Record IoStart := { is_sandbox_id : string; is_params : option IoParams }.

Inductive IoClientPayload :=
| CStart (s : IoStart)
| CStdin (data : bytes)
| CSignal (signum : Z)
| CClose (stdin_eof : bool).

Record IoClientFrame := { icf_stream_id : string; icf_payload : option IoClientPayload }.

Inductive ListDirEntryType := TyUnspecified | TyFile | TyDir | TySymlink | TyOther.

Record ListDirEntry := {
  lde_name : string;
  lde_type : ListDirEntryType;
  lde_size : Z;
  lde_revision : string;
  lde_mode : string;
  lde_target : string;
}.

Inductive IoServerPayload :=
| SStarted (exec_id : string) (in_container_pid : Z)
| SStdout (data : bytes)
| SStderr (data : bytes)
| SExited (exit_code : Z) (command_not_found : bool)
| SError (code detail : string)
| SListDirResult (path : string) (entries : list ListDirEntry) (truncated : bool)
    (total_entries : Z)
| SWaitPortListeningResult (ready : bool) (elapsed_ms : Z)
| SFileMeta (revision : string) (size : Z).

Record IoServerFrame := { isf_stream_id : string; isf_payload : option IoServerPayload }.

Inductive TunnelRequestPayload :=
| QHttpRequest (r : HttpRequest)
| QData (data : bytes) (is_final : bool)
| QClose (reason : string)
| QIoClient (f : IoClientFrame).

Record TunnelRequest := { tq_stream_id : string; tq_payload : option TunnelRequestPayload }.

Inductive TunnelResponsePayload :=
| RHttpResponse (r : HttpResponse)
| RData (data : bytes) (is_final : bool)
| RClose (reason : string)
| RReady (agent_id : string)
| RIoServer (f : IoServerFrame).

Record TunnelResponse := { tr_stream_id : string; tr_payload : option TunnelResponsePayload }.

(** The frames that end a session: one [IoExited] or [IoError]. *)
Definition is_terminal_payload (p : IoServerPayload) : bool :=
  match p with SExited _ _ | SError _ _ => true | _ => false end.
