(* ===== verification/Tunnels.v ===== *)
(** * The proxy's tunnel pool, HTTP multiplexer and IO sessions

    crates/proxy/src/{tunnel_pool,stream_mux,io_sessions}.rs. Each is a module with its
    state and the methods on it. Senders are channel numbers; what is sent through them
    is kept by the proxy's state (ProxyGrpc.v) or, for the one-shot replies of the
    multiplexer and the gateway-side streams, by the component itself. *)

From S2P Require Import Prelude Contracts UuidRef ControllerCore IoFrames.

(** [AtomicU64::fetch_add(1)]. *)
Definition fetch_add (n : Z) : Z * Z := (n, as_u64 (n + 1)).

(** ** tunnel_pool.rs *)

Module TunnelPool.
Section pool.
Context `{UuidLib}.

Record AgentTunnel := { request_tx : nat; generation : Z }.

Record t := { tunnels : gmap AgentId AgentTunnel; next_generation : Z }.

Definition new : t := {| tunnels := ∅; next_generation := 1 |}.

Definition register (agent_id : AgentId) (tx : nat) : ST t Z := λ p,
  let '(g, next) := fetch_add (next_generation p) in
  (g, {| tunnels := <[agent_id := {| request_tx := tx; generation := g |}]> (tunnels p);
         next_generation := next |}).

Definition remove (agent_id : AgentId) (p : t) : t :=
  {| tunnels := delete agent_id (tunnels p); next_generation := next_generation p |}.

Definition remove_if_current (agent_id : AgentId) (g : Z) : ST t bool := λ p,
  match tunnels p !! agent_id with
  | Some tn => if decide (generation tn = g) then (true, remove agent_id p) else (false, p)
  | None => (false, p)
  end.

Definition get_sender (agent_id : AgentId) (p : t) : option nat :=
  request_tx <$> tunnels p !! agent_id.

Definition get_sender_with_generation (agent_id : AgentId) (p : t) : option (nat * Z) :=
  (λ tn, (request_tx tn, generation tn)) <$> tunnels p !! agent_id.
End pool.
Arguments t {_}.
End TunnelPool.

(** ** stream_mux.rs *)

Module StreamMux.
Section mux.
Context `{UuidLib}.

Record PendingStream := { response_tx : nat; agent_id : AgentId; generation : Z }.

(** The one-shot channels by number: empty, or the reply that was sent. A number that is
    absent was dropped by its receiver. *)
Record t := {
  pending : gmap string PendingStream;
  stream_counter : Z;
  oneshots : gmap nat (option (result HttpResponse ProxyError));
}.

Definition stream_id_of (n : Z) : string := "s-" +:+ pretty n.

Definition with_pending (m : gmap string PendingStream) (x : t) : t :=
  {| pending := m; stream_counter := stream_counter x; oneshots := oneshots x |}.

Definition oneshot_send (tx : nat) (r : result HttpResponse ProxyError) : ST t bool := λ x,
  match oneshots x !! tx with
  | Some None => (true, {| pending := pending x; stream_counter := stream_counter x;
                           oneshots := <[tx := Some r]> (oneshots x) |})
  | _ => (false, x)
  end.

(** [send_request] up to the hand-over to the tunnel: reserve a stream id and a reply
    slot. The caller provides a fresh slot number. *)
Definition open_stream (slot : nat) (agent : AgentId) (g : Z) : ST t string := λ x,
  let '(n, next) := fetch_add (stream_counter x) in
  let id := stream_id_of n in
  (id, {| pending := <[id := {| response_tx := slot; agent_id := agent; generation := g |}]>
                       (pending x);
          stream_counter := next;
          oneshots := <[slot := None]> (oneshots x) |}).

Definition cancel_stream (id : string) (x : t) : t := with_pending (delete id (pending x)) x.

(** The waiting side of a reply slot goes away. *)
Definition drop_receiver (slot : nat) (x : t) : t :=
  {| pending := pending x; stream_counter := stream_counter x;
     oneshots := delete slot (oneshots x) |}.

(** Take the stream's entry if the carrier owns it. *)
Definition take_owned (id : string) (from_agent : AgentId) (x : t) : option PendingStream :=
  match pending x !! id with
  | Some p => if decide (agent_id p = from_agent) then Some p else None
  | None => None
  end.

Definition deliver_response (id : string) (from_agent : AgentId) (response : HttpResponse)
    : ST t bool := λ x,
  match take_owned id from_agent x with
  | Some p => oneshot_send (response_tx p) (Ok response) (cancel_stream id x)
  | None => (false, x)
  end.

Definition fail_stream (id : string) (from_agent : AgentId) (reason : string) (x : t) : t :=
  match take_owned id from_agent x with
  | Some p => (oneshot_send (response_tx p) (Err (UpstreamRejected id reason))
                 (cancel_stream id x)).2
  | None => x
  end.

Definition cancel_agent_streams_at_generation (agent : AgentId) (g : Z) (x : t) : t :=
  with_pending (filter (λ e, ¬ (agent_id e.2 = agent ∧ generation e.2 = g)) (pending x)) x.
End mux.
Arguments t {_}.
End StreamMux.

(** ** io_sessions.rs *)

Module IoSessions.
Section sessions.
Context `{UuidLib}.

Record IoSessionRecord := { agent_id : AgentId; server_tx : nat; generation : Z }.

(** A gateway-side stream: what its receiver has taken, its bounded queue, the terminal
    frames whose [send().await] was spawned because the queue was full, and whether the
    receiver is there. *)
Record Gateway := {
  received : list (result IoServerFrame Status);
  queue : list (result IoServerFrame Status);
  spawned : list (result IoServerFrame Status);
  gw_open : bool;
}.

Definition IO_SESSION_BUFFER : nat := 256.
#[global] Arguments IO_SESSION_BUFFER : simpl never.

Record t := {
  inner : gmap string IoSessionRecord;
  counter : Z;
  gateways : gmap nat Gateway;
}.

Definition stream_id_of (n : Z) : string := "io-" +:+ pretty n.

Definition next_stream_id : ST t string := λ x,
  let '(n, next) := fetch_add (counter x) in
  (stream_id_of n, {| inner := inner x; counter := next; gateways := gateways x |}).

Definition with_inner (m : gmap string IoSessionRecord) (x : t) : t :=
  {| inner := m; counter := counter x; gateways := gateways x |}.
Definition with_gateways (m : gmap nat Gateway) (x : t) : t :=
  {| inner := inner x; counter := counter x; gateways := m |}.

Definition insert (id : string) (r : IoSessionRecord) (x : t) : t :=
  with_inner (<[id := r]> (inner x)) x.

Definition remove (id : string) : ST t (option IoSessionRecord) := λ x,
  (inner x !! id, with_inner (delete id (inner x)) x).

Inductive TrySend := Sent | Full | Closed.

Definition try_send (tx : nat) (frame : result IoServerFrame Status) : ST t TrySend := λ x,
  match gateways x !! tx with
  | Some gw =>
      if negb (gw_open gw) then (Closed, x) else
      if decide (length (queue gw) < IO_SESSION_BUFFER) then
        (Sent, with_gateways (<[tx := {| received := received gw; queue := queue gw ++ [frame];
                                         spawned := spawned gw; gw_open := true |}]>
                                (gateways x)) x)
      else (Full, x)
  | None => (Closed, x)
  end.

(** [tokio::spawn(async move { tx.send(frame).await })]: it waits behind the queue. *)
Definition spawn_send (tx : nat) (frame : result IoServerFrame Status) (x : t) : t :=
  with_gateways (alter (λ gw, {| received := received gw; queue := queue gw;
                                 spawned := spawned gw ++ [frame];
                                 gw_open := gw_open gw |}) tx (gateways x)) x.

Definition send_or_spawn (tx : nat) (frame : result IoServerFrame Status) (x : t) : t :=
  match try_send tx frame x with
  | (Sent, x') => x'
  | (Full, x') => spawn_send tx frame x'
  | (Closed, x') => x'
  end.

Definition deliver_server_frame (id : string) (from_agent : AgentId) (frame : IoServerFrame)
    : ST t bool := λ x,
  let sender := match inner x !! id with
    | Some r => if decide (agent_id r = from_agent) then Some (server_tx r) else None
    | None => None
    end in
  match sender with
  | Some tx => match try_send tx (Ok frame) x with
               | (Sent, x') => (true, x')
               | (_, x') => (false, x')
               end
  | None => (false, x)
  end.

Definition fail_stream (id : string) (st : Status) (x : t) : t :=
  match remove id x with
  | (Some rec, x') => send_or_spawn (server_tx rec) (Err st) x'
  | (None, x') => x'
  end.

(** Remove the listed sessions, each with a terminal status. *)
Fixpoint fail_each (ids : list string) (st : Status) (x : t) : t :=
  match ids with
  | [] => x
  | id :: ids' => fail_each ids' st (fail_stream id st x)
  end.

Definition cancel_agent_streams_at_generation (agent : AgentId) (g : Z) (x : t) : t :=
  let ids := (map_to_list (filter (λ e, agent_id e.2 = agent ∧ generation e.2 = g)
                             (inner x))).*1 in
  fail_each ids (status Unavailable ("agent " +:+ hyphenated agent +:+ " disconnected")) x.

Definition fail_all_remaining (st : Status) : ST t nat := λ x,
  let drained := map_to_list (inner x) in
  (length drained,
   foldl (λ x e, send_or_spawn (server_tx e.2) (Err st) x) (with_inner ∅ x) drained).

(** The gateway takes the next frame; a spawned send then finds room. *)
Definition receive_gw (gw : Gateway) : Gateway :=
  match queue gw, spawned gw with
  | frame :: q, s :: ss => {| received := received gw ++ [frame]; queue := q ++ [s];
                              spawned := ss; gw_open := gw_open gw |}
  | frame :: q, [] => {| received := received gw ++ [frame]; queue := q; spawned := [];
                         gw_open := gw_open gw |}
  | [], _ => gw
  end.

Definition receive (tx : nat) (x : t) : t :=
  with_gateways (alter receive_gw tx (gateways x)) x.

(** The gateway drops its receiver. *)
Definition close_gw (tx : nat) (x : t) : t :=
  with_gateways (alter (λ gw, {| received := received gw; queue := queue gw;
                                 spawned := spawned gw; gw_open := false |}) tx (gateways x)) x.
End sessions.
Arguments t {_}.
End IoSessions.

(** ** What the sessions guarantee their gateways *)

Section session_facts.
Context `{UuidLib}.
Import IoSessions.
Implicit Types (x : IoSessions.t) (gw : Gateway) (st : Status) (ids : list string).

(** Everything sent to a gateway, in the order it arrives. *)
Definition frames gw : list (result IoServerFrame Status) :=
  received gw ++ queue gw ++ spawned gw.

(** The queue is bounded, and a send was only spawned because it was full. *)
Definition gw_ok gw : Prop :=
  length (queue gw) ≤ IO_SESSION_BUFFER ∧
  (spawned gw ≠ [] → length (queue gw) = IO_SESSION_BUFFER).

Definition sessions_ok x : Prop := map_Forall (λ _, gw_ok) (gateways x).

(** [gw'] is [gw] with the frames [l] appended. *)
Definition extended gw l gw' : Prop :=
  gw_ok gw' ∧ gw_open gw' = gw_open gw ∧ received gw' = received gw ∧
  frames gw' = frames gw ++ l.

Lemma extended_refl gw : gw_ok gw → extended gw [] gw.
Proof. intros. repeat split; try apply H0; by rewrite app_nil_r. Qed.

Lemma extended_trans gw l gw1 l' gw' :
  extended gw l gw1 → extended gw1 l' gw' → extended gw (l ++ l') gw'.
Proof.
  intros (? & Ho & Hr & Hf) (? & Ho' & Hr' & Hf'). split; [done|]. split; [congruence|].
  split; [congruence|]. by rewrite Hf', Hf, app_assoc.
Qed.

Lemma try_send_inv tx f x r x' :
  sessions_ok x → try_send tx f x = (r, x') →
  match r with
  | Sent => ∃ gw gw', gateways x !! tx = Some gw ∧ gw_open gw = true ∧ extended gw [f] gw' ∧
              x' = with_gateways (<[tx := gw']> (gateways x)) x
  | Full => x' = x ∧ ∃ gw, gateways x !! tx = Some gw ∧ gw_open gw = true ∧
              length (queue gw) = IO_SESSION_BUFFER
  | Closed => x' = x ∧ ∀ gw, gateways x !! tx = Some gw → gw_open gw = false
  end.
Proof.
  intros Hok. unfold try_send. destruct (gateways x !! tx) as [gw|] eqn:E.
  2:{ intros [= <- <-]. split; [done|]. congruence. }
  destruct (gw_open gw) eqn:Eo; simpl.
  2:{ intros [= <- <-]. split; [done|]. intros gw' Hgw. congruence. }
  destruct (Hok _ _ E) as [Hlen Hsp]. case_decide; intros [= <- <-].
  - eexists gw, _. split; [done|]. split; [done|]. split; [|reflexivity].
    assert (spawned gw = []) as Hn.
    { destruct (spawned gw); [done|]. assert (length (queue gw) = IO_SESSION_BUFFER); [|lia].
      apply Hsp. done. }
    split; [split; simpl|split; [|split]]; simpl.
    + rewrite length_app. simpl. lia.
    + by rewrite Hn.
    + done.
    + done.
    + unfold frames. simpl. by rewrite Hn, !app_nil_r, app_assoc.
  - split; [done|]. exists gw. split; [done|]. split; [done|lia].
Qed.

(** A terminal frame is never lost: it is queued or its send is pending. *)
Lemma send_or_spawn_inv tx f x :
  sessions_ok x →
  let x' := send_or_spawn tx f x in
  inner x' = inner x ∧ counter x' = counter x ∧ sessions_ok x' ∧
  (∀ tx', tx' ≠ tx → gateways x' !! tx' = gateways x !! tx') ∧
  match gateways x !! tx with
  | None => gateways x' !! tx = None
  | Some gw => ∃ gw', gateways x' !! tx = Some gw' ∧
      extended gw (if gw_open gw then [f] else []) gw'
  end.
Proof.
  intros Hok. unfold send_or_spawn. destruct (try_send tx f x) as [r x'] eqn:E.
  apply try_send_inv in E; [|done]. destruct r.
  - destruct E as (gw & gw' & Egw & Ho & Hext & ->). simpl. rewrite Egw, Ho.
    do 2 (split; [done|]). split; [apply map_Forall_insert_2; [apply Hext|done]|].
    split; [intros; by rewrite lookup_insert_ne|].
    exists gw'. split; [apply lookup_insert_eq|done].
  - destruct E as (-> & gw & Egw & Ho & Hlen). unfold spawn_send. simpl. rewrite Egw, Ho.
    assert (gw_ok {| received := received gw; queue := queue gw; spawned := spawned gw ++ [f];
                     gw_open := gw_open gw |}) as Hok'.
    { split; simpl; [lia|done]. }
    do 2 (split; [done|]). split.
    { intros tx' gw'. simpl. rewrite lookup_alter. case_decide; [|apply Hok]. subst.
      rewrite Egw. by intros [= <-]. }
    split; [intros; by rewrite lookup_alter_ne|].
    eexists. rewrite lookup_alter_eq, Egw. split; [reflexivity|].
    split; [done|]. split; [done|]. split; [done|].
    unfold frames. simpl. by rewrite !app_assoc.
  - destruct E as [-> Hcl]. do 3 (split; [done|]). split; [done|].
    destruct (gateways x !! tx) as [gw|] eqn:Egw; [|done]. exists gw. split; [done|].
    rewrite (Hcl gw eq_refl). apply extended_refl. by apply (Hok tx).
Qed.

Lemma fail_stream_inv id st x :
  sessions_ok x →
  let x' := fail_stream id st x in
  inner x' = delete id (inner x) ∧ counter x' = counter x ∧ sessions_ok x' ∧
  (∀ tx gw, gateways x !! tx = Some gw → ∃ gw' l, gateways x' !! tx = Some gw' ∧
     extended gw l gw' ∧ Forall (λ f, f = Err st) l ∧
     (gw_open gw = true → (∃ r, inner x !! id = Some r ∧ server_tx r = tx) → l ≠ []) ∧
     ((∀ r, inner x !! id = Some r → server_tx r ≠ tx) → gw' = gw ∧ l = [])).
Proof.
  intros Hok. unfold fail_stream, remove. destruct (inner x !! id) as [r|] eqn:E.
  - destruct (send_or_spawn_inv (server_tx r) (Err st) (with_inner (delete id (inner x)) x))
      as (Hi & Hc & Hok' & Hother & Htx); [done|]. simpl in *.
    split; [done|]. split; [done|]. split; [done|]. intros tx gw Hgw.
    destruct (decide (tx = server_tx r)) as [->|Hne].
    + rewrite Hgw in Htx. destruct Htx as (gw' & Hgw' & Hext). exists gw'. eexists.
      split; [done|]. split; [exact Hext|]. split; [destruct (gw_open gw); by repeat constructor|].
      split; [by intros -> _|]. intros Hn. by destruct (Hn r).
    + exists gw, []. rewrite Hother by done. split; [done|].
      split; [by apply extended_refl, (Hok tx)|]. split; [constructor|]. split; [naive_solver|done].
  - simpl. split; [by rewrite delete_id|]. split; [done|]. split; [done|]. intros tx gw Hgw.
    exists gw, []. split; [done|]. split; [by apply extended_refl, (Hok tx)|].
    split; [constructor|]. naive_solver.
Qed.
End session_facts.

Section session_bulk.
Context `{UuidLib}.
Import IoSessions.
Implicit Types (x : IoSessions.t) (gw : Gateway) (st : Status) (ids : list string).

(** [x'] is [x] without the sessions [ids], each of which was told [st]. *)
Definition sessions_failed ids st x x' : Prop :=
  inner x' = filter (λ e, e.1 ∉ ids) (inner x) ∧ counter x' = counter x ∧ sessions_ok x' ∧
  (∀ tx gw, gateways x !! tx = Some gw → ∃ gw' l, gateways x' !! tx = Some gw' ∧
     extended gw l gw' ∧ Forall (λ f, f = Err st) l ∧
     (gw_open gw = true → (∃ id r, id ∈ ids ∧ inner x !! id = Some r ∧ server_tx r = tx) →
        l ≠ []) ∧
     ((∀ id r, id ∈ ids → inner x !! id = Some r → server_tx r ≠ tx) → gw' = gw ∧ l = [])).

Lemma fail_each_inv ids st x : sessions_ok x → sessions_failed ids st x (fail_each ids st x).
Proof.
  revert x. induction ids as [|id ids IH]; intros x Hok; simpl.
  - split; [symmetry; apply map_filter_id; set_solver|]. split; [done|]. split; [done|].
    intros tx gw Hgw. exists gw, []. split; [done|]. split; [by apply extended_refl, (Hok tx)|].
    split; [constructor|]. split; [set_solver|done].
  - destruct (fail_stream_inv id st x Hok) as (Hi1 & Hc1 & Hok1 & Hgw1).
    destruct (IH _ Hok1) as (Hi2 & Hc2 & Hok2 & Hgw2).
    split; [|split; [congruence|split; [done|]]].
    + rewrite Hi2, Hi1. apply map_eq. intros j. apply option_eq. intros r.
      rewrite !map_lookup_filter_Some, lookup_delete_Some. simpl.
      rewrite not_elem_of_cons. naive_solver.
    + intros tx gw Hgw. destruct (Hgw1 tx gw Hgw) as (gw1 & l1 & E1 & Hx1 & Hf1 & Hn1 & Hs1).
      destruct (Hgw2 tx gw1 E1) as (gw2 & l2 & E2 & Hx2 & Hf2 & Hn2 & Hs2).
      exists gw2, (l1 ++ l2). split; [done|]. split; [by eapply extended_trans|].
      split; [by apply Forall_app|]. rewrite Hi1 in Hn2, Hs2. split.
      * intros Ho (j & r & Hj & Hr & Htx). destruct (decide (j = id)) as [->|Hne].
        -- intros [? _]%app_nil. apply Hn1; eauto.
        -- intros [_ ?]%app_nil. apply Hn2; [by destruct Hx1 as (_ & -> & _)| |done].
           exists j, r. split; [set_solver|]. by rewrite lookup_delete_ne.
      * intros Hno. destruct Hs1 as [-> ->]; [intros r Hr; apply (Hno id); [set_solver|done]|].
        apply Hs2. intros j r Hj [_ Hr]%lookup_delete_Some. apply (Hno j); [set_solver|done].
Qed.

Lemma cancel_inv agent g x :
  sessions_ok x →
  ∃ ids, (∀ id, id ∈ ids ↔ ∃ r, inner x !! id = Some r ∧ agent_id r = agent ∧ generation r = g) ∧
    sessions_failed ids
      (status Unavailable ("agent " +:+ hyphenated agent +:+ " disconnected")) x
      (cancel_agent_streams_at_generation agent g x).
Proof.
  intros Hok. eexists. split; [|by apply fail_each_inv].
  intros id. rewrite list_elem_of_fmap. setoid_rewrite elem_of_map_to_list'.
  setoid_rewrite map_lookup_filter_Some. split.
  - intros ([j r] & -> & ? & ?). simpl in *. eauto.
  - intros (r & ? & ?). by exists (id, r).
Qed.

Lemma fail_all_fold (l : list (string * IoSessionRecord)) st x :
  sessions_ok x →
  let x' := foldl (λ x e, send_or_spawn (server_tx e.2) (Err st) x) x l in
  inner x' = inner x ∧ counter x' = counter x ∧ sessions_ok x' ∧
  (∀ tx gw, gateways x !! tx = Some gw → ∃ gw' fs, gateways x' !! tx = Some gw' ∧
     extended gw fs gw' ∧ Forall (λ f, f = Err st) fs ∧
     (gw_open gw = true → (∃ e, e ∈ l ∧ server_tx e.2 = tx) → fs ≠ [])).
Proof.
  revert x. induction l as [|[id r] l IH]; intros x Hok; simpl.
  - do 3 (split; [done|]). intros tx gw Hgw. exists gw, [].
    split; [done|]. split; [by apply extended_refl, (Hok tx)|]. split; [constructor|set_solver].
  - destruct (send_or_spawn_inv (server_tx r) (Err st) x Hok) as (Hi1 & Hc1 & Hok1 & Hoth & Htx).
    destruct (IH _ Hok1) as (Hi2 & Hc2 & Hok2 & Hgw2). simpl in *.
    split; [congruence|]. split; [congruence|]. split; [done|]. intros tx gw Hgw.
    destruct (decide (tx = server_tx r)) as [->|Hne].
    + rewrite Hgw in Htx. destruct Htx as (gw1 & Hg1 & Hx1).
      destruct (Hgw2 _ _ Hg1) as (gw2 & fs & Hg2 & Hx2 & Hf2 & _).
      exists gw2. eexists. split; [done|]. split; [by eapply extended_trans|].
      split; [apply Forall_app; split; [destruct (gw_open gw); by repeat constructor|done]|].
      by intros -> _.
    + rewrite <- (Hoth tx) in Hgw by done. destruct (Hgw2 _ _ Hgw) as (gw2 & fs & ? & ? & ? & Hn).
      exists gw2, fs. do 3 (split; [done|]). intros Ho ([id' r'] & He & Hr').
      apply Hn; [done|]. apply elem_of_cons in He as [[= -> ->]|He]; [simpl in *; congruence|eauto].
Qed.
End session_bulk.
