(* ===== verification/ProxyGrpc.v ===== *)
(** * The proxy's gRPC handlers (crates/proxy/src/grpc.rs)

    The gates of both RPCs, the OpenTunnel task per message and its cleanup, and the two
    halves of the multiplexer's request on the proxy's state. The OpenIoStream task is in
    IoStream.v. *)

From S2P Require Import Prelude Contracts UuidRef ControllerCore IoFrames Routing Tunnels.

Inductive ProxyRole := Public | RoleInternal | Combined.

Definition accepts_open_tunnel (r : ProxyRole) : bool :=
  match r with Public | Combined => true | RoleInternal => false end.
Definition accepts_open_io_stream (r : ProxyRole) : bool :=
  match r with RoleInternal | Combined => true | Public => false end.

Record Proxy `{UuidLib} (R : Type) := {
  px_pool : TunnelPool.t;
  px_mux : StreamMux.t;
  px_sessions : IoSessions.t;
  px_cache : Cache;
  px_db : R;
  (** the requests queued to each tunnel, and whether its receiver is there *)
  px_tunnels : gmap nat (list TunnelRequest * bool);
  px_draining : bool;
}.
Arguments px_pool {_ _} _.
Arguments px_mux {_ _} _.
Arguments px_sessions {_ _} _.
Arguments px_cache {_ _} _.
Arguments px_db {_ _} _.
Arguments px_tunnels {_ _} _.
Arguments px_draining {_ _} _.

(** [metadata.get("authorization").and_then(to_str).and_then(strip_prefix)]: the header
    is missing, not text, or text. *)
Definition bearer (authorization : option (option string)) : option string :=
  header ← mjoin authorization; strip_prefix "Bearer " header.

Definition token_ok (expected : option string) (authorization : option (option string)) : bool :=
  match expected with
  | Some tok => bool_decide (bearer authorization = Some tok)
  | None => true
  end.

(** The checks before [open_tunnel] accepts the stream. *)
Definition open_tunnel_gate (role : ProxyRole) (tunnel_token : option string) (draining : bool)
    (authorization : option (option string)) : result () Status :=
  if negb (accepts_open_tunnel role) then
    Err (status Unimplemented
      "OpenTunnel is not served on this proxy listener; agents must dial the public listener")
  else if negb (token_ok tunnel_token authorization) then
    Err (status Unauthenticated "missing or invalid tunnel-join token")
  else if draining then Err (status Unavailable "proxy is shutting down; reconnect")
  else Ok ().

Definition open_io_stream_gate (role : ProxyRole) (internal_token : option string)
    (draining : bool) (authorization : option (option string)) : result () Status :=
  if negb (accepts_open_io_stream role) then
    Err (status Unimplemented
      "OpenIoStream is not served on this proxy listener; the api gateway must dial the internal listener")
  else if negb (token_ok internal_token authorization) then
    Err (status Unauthenticated "missing or invalid internal authorization")
  else if draining then Err (status Unavailable "proxy is shutting down; retry")
  else Ok ().

Section proxy.
Context `{UuidLib} {R : Type} `{!RoutingStore R}.
Implicit Types (px : Proxy R).

Definition with_pool (p : TunnelPool.t) px : Proxy R :=
  {| px_pool := p; px_mux := px_mux px; px_sessions := px_sessions px;
     px_cache := px_cache px; px_db := px_db px; px_tunnels := px_tunnels px;
     px_draining := px_draining px |}.
Definition with_mux (m : StreamMux.t) px : Proxy R :=
  {| px_pool := px_pool px; px_mux := m; px_sessions := px_sessions px;
     px_cache := px_cache px; px_db := px_db px; px_tunnels := px_tunnels px;
     px_draining := px_draining px |}.
Definition with_sessions (x : IoSessions.t) px : Proxy R :=
  {| px_pool := px_pool px; px_mux := px_mux px; px_sessions := x;
     px_cache := px_cache px; px_db := px_db px; px_tunnels := px_tunnels px;
     px_draining := px_draining px |}.
Definition with_cache (c : Cache) px : Proxy R :=
  {| px_pool := px_pool px; px_mux := px_mux px; px_sessions := px_sessions px;
     px_cache := c; px_db := px_db px; px_tunnels := px_tunnels px;
     px_draining := px_draining px |}.
Definition with_tunnels (m : gmap nat (list TunnelRequest * bool)) px : Proxy R :=
  {| px_pool := px_pool px; px_mux := px_mux px; px_sessions := px_sessions px;
     px_cache := px_cache px; px_db := px_db px; px_tunnels := m;
     px_draining := px_draining px |}.
Definition set_draining px : Proxy R :=
  {| px_pool := px_pool px; px_mux := px_mux px; px_sessions := px_sessions px;
     px_cache := px_cache px; px_db := px_db px; px_tunnels := px_tunnels px;
     px_draining := true |}.

(** [sender.send(request).await] into a tunnel. *)
Definition tunnel_send (tx : nat) (req : TunnelRequest) : ST (Proxy R) bool := λ px,
  match px_tunnels px !! tx with
  | Some (l, true) => (true, with_tunnels (<[tx := (l ++ [req], true)]> (px_tunnels px)) px)
  | _ => (false, px)
  end.

(** ** The OpenTunnel task *)

Record TunnelLocal := { registered : option AgentId; my_generation : option Z }.

Inductive TunnelFlow := TContinue (l : TunnelLocal) | TBreak (l : TunnelLocal).

Definition on_tunnel_message (request_tx : nat) (l : TunnelLocal) (msg : TunnelResponse)
    : ST (Proxy R) TunnelFlow := λ px,
  match tr_payload msg with
  | None => (TContinue l, px)
  | Some (RReady ready_agent_id) =>
      match parse_str ready_agent_id with
      | None => (TBreak l, px)
      | Some agent_id =>
          let '(g, pool) := TunnelPool.register agent_id request_tx (px_pool px) in
          (TContinue {| registered := Some agent_id; my_generation := Some g |},
           with_pool pool px)
      end
  | Some (RHttpResponse resp) =>
      match registered l with
      | None => (TContinue l, px)
      | Some agent_id =>
          (TContinue l, with_mux (StreamMux.deliver_response (tr_stream_id msg) agent_id resp
                                    (px_mux px)).2 px)
      end
  | Some (RClose reason) =>
      match registered l with
      | None => (TContinue l, px)
      | Some agent_id =>
          (TContinue l, with_mux (StreamMux.fail_stream (tr_stream_id msg) agent_id reason
                                    (px_mux px)) px)
      end
  | Some (RData _ _) => (TContinue l, px)
  | Some (RIoServer frame) =>
      match registered l with
      | None => (TContinue l, px)
      | Some agent_id =>
          (TContinue l, with_sessions (IoSessions.deliver_server_frame (tr_stream_id msg)
                                         agent_id frame (px_sessions px)).2 px)
      end
  end.

(** After the loop. *)
Definition tunnel_cleanup (l : TunnelLocal) px : Proxy R :=
  match registered l, my_generation l with
  | Some agent_id, Some g =>
      let px := with_mux (StreamMux.cancel_agent_streams_at_generation agent_id g (px_mux px)) px in
      let px := with_sessions (IoSessions.cancel_agent_streams_at_generation agent_id g
                                 (px_sessions px)) px in
      let '(was_current, pool) := TunnelPool.remove_if_current agent_id g (px_pool px) in
      let px := with_pool pool px in
      if was_current then with_cache (remove_for_agent agent_id (px_cache px)) px else px
  | _, _ => px
  end.

Fixpoint open_tunnel_task (request_tx : nat) (l : TunnelLocal) (inbound : list TunnelResponse)
    (px : Proxy R) : Proxy R :=
  match inbound with
  | [] => tunnel_cleanup l px
  | msg :: inbound' =>
      match on_tunnel_message request_tx l msg px with
      | (TContinue l', px') => open_tunnel_task request_tx l' inbound' px'
      | (TBreak l', px') => tunnel_cleanup l' px'
      end
  end.

(** ** stream_mux.rs: [send_request] on this state

    Up to the wait for the reply: the stream id, or why the request was not sent. *)
Definition send_request (slot : nat) (agent_id : AgentId) (req : HttpRequest)
    : ST (Proxy R) (result string ProxyError) := λ px,
  match TunnelPool.get_sender_with_generation agent_id (px_pool px) with
  | None => (Err (TunnelUnavailable (hyphenated agent_id)), px)
  | Some (sender, g) =>
      let '(id, mux) := StreamMux.open_stream slot agent_id g (px_mux px) in
      let px := with_mux mux px in
      match tunnel_send sender {| tq_stream_id := id; tq_payload := Some (QHttpRequest req) |} px with
      | (true, px') => (Ok id, px')
      | (false, px') =>
          (Err (TunnelUnavailable (hyphenated agent_id)),
           with_mux (StreamMux.cancel_stream id (px_mux px')) px')
      end
  end.

(** The wait: the reply, or the slot's sender was dropped, or the timeout fired. *)
Definition await_response (slot : nat) (agent_id : AgentId) (sandbox_id id : string)
    (timed_out : bool) : ST (Proxy R) (option (result HttpResponse ProxyError)) := λ px,
  match StreamMux.oneshots (px_mux px) !! slot with
  | Some (Some result) => (Some result, px)
  | Some None =>
      if timed_out then
        (Some (Err (UpstreamTimeout sandbox_id UPSTREAM_TIMEOUT)),
         with_mux (StreamMux.cancel_stream id (StreamMux.drop_receiver slot (px_mux px))) px)
      else match StreamMux.pending (px_mux px) !! id with
           | Some _ => (None, px)
           | None => (Some (Err (TunnelUnavailable (hyphenated agent_id))), px)
           end
  | None => (Some (Err (TunnelUnavailable (hyphenated agent_id))), px)
  end.
End proxy.
Arguments TunnelFlow {_}.
Arguments TunnelLocal {_}.

(** ** The gates *)

(** The proxy's gates. OpenTunnel is accepted exactly on the public or combined role,
    with the configured join token when there is one, while not draining; OpenIoStream
    likewise on the internal or combined role with the internal token; and a caller
    without the token gets the same answer whether or not the proxy is draining. *)
Theorem proxy_gates_exact role token draining auth :
  (open_tunnel_gate role token draining auth = Ok () ↔
     role ≠ RoleInternal ∧ draining = false ∧
     ∀ t, token = Some t → auth = Some (Some ("Bearer " +:+ t))) ∧
  (open_io_stream_gate role token draining auth = Ok () ↔
     role ≠ Public ∧ draining = false ∧
     ∀ t, token = Some t → auth = Some (Some ("Bearer " +:+ t))) ∧
  (token_ok token auth = false →
     open_tunnel_gate role token draining auth = open_tunnel_gate role token (negb draining) auth ∧
     open_io_stream_gate role token draining auth =
       open_io_stream_gate role token (negb draining) auth).
Proof.
  assert (token_ok token auth = true ↔
          ∀ t, token = Some t → auth = Some (Some ("Bearer " +:+ t))) as Htok.
  { unfold token_ok, bearer. destruct token as [t|]; [|naive_solver].
    rewrite bool_decide_eq_true. split.
    - intros Hb ? [= <-]. destruct auth as [[h|]|]; [|discriminate Hb..].
      change (strip_prefix "Bearer " h = Some t) in Hb. by apply strip_prefix_Some in Hb as ->.
    - intros Hx. rewrite (Hx t eq_refl).
      change (strip_prefix "Bearer " ("Bearer " +:+ t) = Some t). apply strip_prefix_app. }
  unfold open_tunnel_gate, open_io_stream_gate. destruct (token_ok token auth).
  - destruct role, draining; naive_solver.
  - assert (¬ ∀ t, token = Some t → auth = Some (Some ("Bearer " +:+ t))) by (intros ?; naive_solver).
    destruct role; simpl; naive_solver.
Qed.

(** ** Cleanup of a tunnel *)

Section cleanup.
Context `{UuidLib} {R : Type} `{!RoutingStore R}.
Implicit Types (px : Proxy R).

Definition stamped (a : AgentId) (g : Z) (agent : AgentId) (gen : Z) : Prop :=
  agent = a ∧ gen = g.

Lemma remove_if_current_inv a g p was p' :
  TunnelPool.remove_if_current a g p = (was, p') →
  (∀ b tn, TunnelPool.tunnels p' !! b = Some tn ↔
     TunnelPool.tunnels p !! b = Some tn ∧ ¬ stamped a g b (TunnelPool.generation tn)) ∧
  (was = true ↔ ∃ tn, TunnelPool.tunnels p !! a = Some tn ∧ TunnelPool.generation tn = g).
Proof.
  unfold TunnelPool.remove_if_current, stamped.
  destruct (TunnelPool.tunnels p !! a) as [tn|] eqn:E.
  - case_decide; intros [= <- <-]; simpl.
    + split; [|naive_solver]. intros b tn'. rewrite lookup_delete_Some. naive_solver.
    + split; [|naive_solver]. intros b tn'. naive_solver.
  - intros [= <- <-]. split; [|naive_solver]. naive_solver.
Qed.

(** C18: an old tunnel cannot hurt its successor. When the task of a tunnel ends, exactly
    the pool entry, the pending HTTP requests and the IO sessions stamped with its agent
    and its generation go; entries of any other generation, in particular those of the
    same agent's newer tunnel, stay as they are, and so does the routing cache unless
    the ending tunnel was the current one. Every session that goes is told so: its
    gateway, if still there, receives an Unavailable status after everything that was
    sent to it before. *)
Theorem tunnel_cleanup_generation_safe px l a g :
  sessions_ok (px_sessions px) → registered l = Some a → my_generation l = Some g →
  let px' := tunnel_cleanup l px in
  let inner p := IoSessions.inner (px_sessions p) in
  let gateways p := IoSessions.gateways (px_sessions p) in
  (∀ b tn, TunnelPool.tunnels (px_pool px') !! b = Some tn ↔
     TunnelPool.tunnels (px_pool px) !! b = Some tn ∧
     ¬ stamped a g b (TunnelPool.generation tn)) ∧
  (∀ id p, StreamMux.pending (px_mux px') !! id = Some p ↔
     StreamMux.pending (px_mux px) !! id = Some p ∧
     ¬ stamped a g (StreamMux.agent_id p) (StreamMux.generation p)) ∧
  (∀ id r, inner px' !! id = Some r ↔
     inner px !! id = Some r ∧ ¬ stamped a g (IoSessions.agent_id r) (IoSessions.generation r)) ∧
  (∀ id r gw, inner px !! id = Some r →
     stamped a g (IoSessions.agent_id r) (IoSessions.generation r) →
     gateways px !! IoSessions.server_tx r = Some gw → IoSessions.gw_open gw = true →
     ∃ gw' fs st, gateways px' !! IoSessions.server_tx r = Some gw' ∧ fs ≠ [] ∧
       frames gw' = frames gw ++ fs ∧ Forall (λ f, f = Err st) fs ∧ code st = Unavailable) ∧
  px_cache px' = (if decide (TunnelPool.generation <$> TunnelPool.tunnels (px_pool px) !! a = Some g)
                  then remove_for_agent a (px_cache px) else px_cache px).
Proof.
  intros Hok Hreg Hgen. unfold tunnel_cleanup. rewrite Hreg, Hgen. simpl.
  destruct (TunnelPool.remove_if_current a g (px_pool px)) as [was pool] eqn:Ep.
  apply remove_if_current_inv in Ep as [Hpool Hwas].
  destruct (cancel_inv a g (px_sessions px) Hok) as (ids & Hids & Hin & _ & _ & Hgw).
  set (x' := IoSessions.cancel_agent_streams_at_generation a g (px_sessions px)) in *.
  match goal with |- context [if was then ?p1 else ?p2] => set (px1 := p1); set (px2 := p2) end.
  assert (∀ px', px' = px1 ∨ px' = px2 →
    px_pool px' = pool ∧ px_sessions px' = x' ∧
    px_mux px' = StreamMux.cancel_agent_streams_at_generation a g (px_mux px)) as Hparts.
  { by intros ? [-> | ->]. }
  destruct (Hparts (if was then px1 else px2)) as (-> & -> & ->); [destruct was; auto|].
  split; [done|]. split; [|split; [|split]].
  - intros id p. simpl. rewrite map_lookup_filter_Some. done.
  - intros id r. rewrite Hin, map_lookup_filter_Some. simpl. rewrite Hids. unfold stamped.
    naive_solver.
  - intros id r gw Hr [Ha Hg] Hgw0 Ho. destruct (Hgw _ _ Hgw0) as (gw' & fs & ? & Hext & ? & Hn & _).
    exists gw', fs. eexists. split; [done|].
    split; [apply Hn; [done|]; exists id, r; split; [apply Hids; eauto|done]|].
    destruct Hext as (_ & _ & _ & Hfr). done.
  - destruct was; simpl.
    + rewrite decide_True; [done|]. destruct (proj1 Hwas eq_refl) as (tn & -> & <-). done.
    + rewrite decide_False; [done|]. intros (tn & ? & ?)%fmap_Some.
      assert (false = true) by (apply Hwas; eauto). done.
Qed.
End cleanup.

(** ** Frames from a tunnel *)

Section ownership.
Context `{UuidLib} {R : Type} `{!RoutingStore R}.
Implicit Types (px : Proxy R).

Lemma oneshot_send_inv tx r x b x' :
  StreamMux.oneshot_send tx r x = (b, x') →
  StreamMux.pending x' = StreamMux.pending x ∧
  ∀ slot v, StreamMux.oneshots x' !! slot = Some (Some v) →
    StreamMux.oneshots x !! slot = Some (Some v) ∨
    (slot = tx ∧ v = r ∧ StreamMux.oneshots x !! slot = Some None).
Proof.
  unfold StreamMux.oneshot_send.
  destruct (StreamMux.oneshots x !! tx) as [[o|]|] eqn:E; intros [= <- <-]; simpl; [auto| |auto].
  split; [done|]. intros slot v. rewrite lookup_insert. case_decide; [|auto].
  subst. intros [= <-]. auto.
Qed.

Lemma take_owned_inv id a x p :
  StreamMux.take_owned id a x = Some p ↔
  StreamMux.pending x !! id = Some p ∧ StreamMux.agent_id p = a.
Proof.
  unfold StreamMux.take_owned. destruct (StreamMux.pending x !! id); [|naive_solver].
  case_decide; naive_solver.
Qed.

Lemma deliver_server_frame_inv id a frame x b x' :
  IoSessions.deliver_server_frame id a frame x = (b, x') →
  IoSessions.inner x' = IoSessions.inner x ∧
  ∀ tx gw, IoSessions.gateways x' !! tx = Some gw →
    IoSessions.gateways x !! tx = Some gw ∨
    ∃ r, IoSessions.inner x !! id = Some r ∧ IoSessions.agent_id r = a ∧
         IoSessions.server_tx r = tx.
Proof.
  unfold IoSessions.deliver_server_frame, IoSessions.try_send.
  destruct (IoSessions.inner x !! id) as [r|]; [|intros [= <- <-]; auto].
  case_decide; [|intros [= <- <-]; auto].
  destruct (IoSessions.gateways x !! IoSessions.server_tx r) as [gw|]; [|intros [= <- <-]; auto].
  destruct (negb _); [intros [= <- <-]; auto|]. case_decide; intros [= <- <-]; simpl; [|auto].
  split; [done|]. intros tx gw'. rewrite lookup_insert. case_decide; [|auto]. subst. eauto 10.
Qed.

End ownership.

Module ProxyExamples.
(** Agent 1 reconnected: tunnel 0 was generation 1, tunnel 2 is generation 2, and each
    carried one session; stream s-0 is waiting on the newer one. *)
Definition gw_empty : IoSessions.Gateway :=
  {| IoSessions.received := []; IoSessions.queue := []; IoSessions.spawned := [];
     IoSessions.gw_open := true |}.

Definition reconnected : @Proxy RefUuid PgRows :=
  {| px_pool := {| TunnelPool.tunnels := {[uid 1 := {| TunnelPool.request_tx := 2;
                                                        TunnelPool.generation := 2 |}]};
                   TunnelPool.next_generation := 3 |};
     px_mux := {| StreamMux.pending :=
                    {["s-0" := {| StreamMux.response_tx := 0; StreamMux.agent_id := uid 1;
                                  StreamMux.generation := 2 |}]};
                  StreamMux.stream_counter := 1; StreamMux.oneshots := {[0%nat := None]} |};
     px_sessions :=
       {| IoSessions.inner :=
            {["io-0" := {| IoSessions.agent_id := uid 1; IoSessions.server_tx := 7;
                           IoSessions.generation := 1 |};
              "io-1" := {| IoSessions.agent_id := uid 1; IoSessions.server_tx := 8;
                           IoSessions.generation := 2 |}]};
          IoSessions.counter := 2;
          IoSessions.gateways := {[7%nat := gw_empty; 8%nat := gw_empty]} |};
     px_cache := cache1; px_db := Rows rows1; px_tunnels := {[2%nat := ([], true)]};
     px_draining := false |}.

Lemma reconnected_ok : sessions_ok (px_sessions reconnected).
Proof.
  unfold sessions_ok. simpl. apply map_Forall_insert_2; [|apply map_Forall_singleton];
    split; simpl; [lia|done|lia|done].
Qed.

(** The old tunnel ends: its session is told, the newer one's is not touched. *)
Lemma tunnel_cleanup_generation_safe_witness :
  let px' := tunnel_cleanup {| registered := Some (uid 1); my_generation := Some 1%Z |}
               reconnected in
  ∃ gw fs st, IoSessions.gateways (px_sessions px') !! 7%nat = Some gw ∧ fs ≠ [] ∧
    frames gw = fs ∧ Forall (λ f, f = Err st) fs ∧ code st = Unavailable.
Proof.
  intros px'.
  pose proof (tunnel_cleanup_generation_safe reconnected
    {| registered := Some (uid 1); my_generation := Some 1%Z |} (uid 1) 1%Z
    reconnected_ok eq_refl eq_refl) as (_ & _ & _ & Hx & _).
  destruct (Hx "io-0" {| IoSessions.agent_id := uid 1; IoSessions.server_tx := 7;
                         IoSessions.generation := 1 |} gw_empty) as (gw & fs & st & Hy);
    [evaluate|split; reflexivity|evaluate|reflexivity|].
  exists gw, fs, st. exact Hy.
Defined.

Definition teapot : TunnelResponse :=
  {| tr_stream_id := "s-0";
     tr_payload := Some (RHttpResponse {| hr_status_code := 418; hr_headers := ∅;
                                          hr_body := "" |}) |}.

End ProxyExamples.
