(* ===== verification/IoStream.v ===== *)
(** * The OpenIoStream task and the proxy's drain

    [dispatch_io_stream] of crates/proxy/src/grpc.rs, split where another task can run
    between two of its accesses to shared state, the request pump it spawns, and the
    drain supervisor of crates/cli/src/run.rs ([run_proxy]); then the proxy as a system
    of these tasks and the tunnels, driven by a list of events. *)

From S2P Require Import Prelude Contracts UuidRef ControllerCore IoFrames Routing Tunnels ProxyGrpc.

(** What [inbound.message().await] gives. *)
Inductive Inbound := Frame (f : IoClientFrame) | EndOfStream | Broken (e : string).

Section dispatch.
Context `{UuidLib} {R : Type} `{!RoutingStore R}.
Implicit Types (px : Proxy R).

(** The first frame: the start and the sandbox it names, or the status the caller gets. *)
Definition dispatch_first (first : Inbound) : result (IoStart * SandboxId) Status :=
  match first with
  | EndOfStream => Err (status InvalidArgument "OpenIoStream closed before first frame")
  | Broken e => Err (status CodeInternal e)
  | Frame f =>
      match icf_payload f with
      | Some (CStart s) =>
          match parse_str (is_sandbox_id s) with
          | Some sandbox_id => Ok (s, sandbox_id)
          | None => Err (status InvalidArgument "invalid sandbox_id")
          end
      | _ => Err (status InvalidArgument "first frame must be IoStart")
      end
  end.

Definition dispatch_route (sandbox_id : SandboxId) : ST (Proxy R) (result AgentId Status) := λ px,
  match lookup_or_fetch (px_db px) (subdomain sandbox_id) (px_cache px) with
  | (Ok (Some r), cache) => (Ok (cr_agent_id r), with_cache cache px)
  | (Ok None, cache) =>
      (Err (status NotFound ("sandbox " +:+ hyphenated sandbox_id +:+ " not in routing table")),
       with_cache cache px)
  | (Err e, cache) =>
      (Err (status CodeInternal ("routing lookup failed: " +:+ ProxyError_to_string e)),
       with_cache cache px)
  end.

(** The agent's tunnel and a stream id. *)
Definition dispatch_allocate (agent_id : AgentId)
    : ST (Proxy R) (result (nat * Z * string) Status) := λ px,
  match TunnelPool.get_sender_with_generation agent_id (px_pool px) with
  | None => (Err (status Unavailable ("agent " +:+ hyphenated agent_id +:+ " not connected")), px)
  | Some (agent_sender, generation) =>
      let '(stream_id, x) := IoSessions.next_stream_id (px_sessions px) in
      (Ok (agent_sender, generation, stream_id), with_sessions x px)
  end.

Definition dispatch_insert (server_tx : nat) (stream_id : string) (agent_id : AgentId)
    (generation : Z) px : Proxy R :=
  with_sessions (IoSessions.insert stream_id
    {| IoSessions.agent_id := agent_id; IoSessions.server_tx := server_tx;
       IoSessions.generation := generation |} (px_sessions px)) px.

(** [server_tx.send(Err(status)).await]: a send that finds the queue full waits behind
    it, which is what a spawned send does. *)
Definition send_status (server_tx : nat) (st : Status) px : Proxy R :=
  with_sessions (IoSessions.send_or_spawn server_tx (Err st) (px_sessions px)) px.

Definition drop_session (stream_id : string) px : Proxy R :=
  with_sessions (IoSessions.remove stream_id (px_sessions px)).2 px.

(** The second look at the drain flag: false when the task gives up. *)
Definition dispatch_recheck (server_tx : nat) (stream_id : string) : ST (Proxy R) bool := λ px,
  if px_draining px then
    (false, send_status server_tx (status Unavailable "proxy shutting down")
              (drop_session stream_id px))
  else (true, px).

(** A client frame on its way to the agent, under the proxy's stream id. *)
Definition wrap (stream_id : string) (payload : option IoClientPayload) : TunnelRequest :=
  {| tq_stream_id := stream_id;
     tq_payload := Some (QIoClient {| icf_stream_id := stream_id; icf_payload := payload |}) |}.

Definition dispatch_start (server_tx : nat) (stream_id : string) (agent_sender : nat)
    (start : IoStart) : ST (Proxy R) bool := λ px,
  match tunnel_send agent_sender (wrap stream_id (Some (CStart start))) px with
  | (true, px') => (true, px')
  | (false, px') =>
      (false, send_status server_tx (status Unavailable "agent tunnel dropped")
                (drop_session stream_id px'))
  end.

(** ** The pump *)

Record Pump := { pu_agent_id : AgentId; pu_stream_id : string; saw_explicit_close : bool }.

Definition is_full_close (p : option IoClientPayload) : bool :=
  match p with Some (CClose stdin_eof) => negb stdin_eof | _ => false end.

(** One frame of the gateway; [None] when the pump returns. *)
Definition pump_frame (pu : Pump) (f : IoClientFrame) : ST (Proxy R) (option Pump) := λ px,
  let saw := is_full_close (icf_payload f) || saw_explicit_close pu in
  match TunnelPool.get_sender (pu_agent_id pu) (px_pool px) with
  | None => (None, px)
  | Some sender =>
      match tunnel_send sender (wrap (pu_stream_id pu) (icf_payload f)) px with
      | (true, px') => (Some {| pu_agent_id := pu_agent_id pu; pu_stream_id := pu_stream_id pu;
                                saw_explicit_close := saw |}, px')
      | (false, px') => (None, px')
      end
  end.

(** The gateway closed its request stream, or it broke. *)
Definition pump_end (pu : Pump) px : Proxy R :=
  if saw_explicit_close pu then px else
  match TunnelPool.get_sender (pu_agent_id pu) (px_pool px) with
  | Some sender => (tunnel_send sender (wrap (pu_stream_id pu) (Some (CClose false))) px).2
  | None => px
  end.

Fixpoint pump_task (pu : Pump) (fs : list IoClientFrame) px : Proxy R :=
  match fs with
  | [] => pump_end pu px
  | f :: fs' =>
      match pump_frame pu f px with
      | (Some pu', px') => pump_task pu' fs' px'
      | (None, px') => px'
      end
  end.
End dispatch.
Arguments Pump {_}.

(** ** The drain supervisor *)

(** Waiting for the signal; in the drain loop; the loop ended; drain complete. *)
Inductive Supervisor := Waiting | Draining | LoopDone | Complete.
#[global] Instance Supervisor_eq_dec : EqDecision Supervisor.
Proof. solve_decision. Defined.

(** ** The proxy as a system *)

(** Where a [dispatch_io_stream] task is, with the locals it still uses. *)
Inductive Phase `{UuidLib} :=
| Handshake
| Resolving (start : IoStart) (sandbox_id : SandboxId)
| Resolved (start : IoStart) (agent_id : AgentId)
| Allocated (start : IoStart) (agent_id : AgentId) (agent_sender : nat) (generation : Z)
    (stream_id : string)
| Inserted (start : IoStart) (agent_id : AgentId) (agent_sender : nat) (stream_id : string)
| Starting (start : IoStart) (agent_id : AgentId) (agent_sender : nat) (stream_id : string)
| Running (stream_id : string)
| Returned.

Record Sys `{UuidLib} (R : Type) := {
  sy_px : Proxy R;
  (** the stream tasks by their [server_tx], their pumps likewise, the tunnel tasks by
      their request channel *)
  sy_tasks : gmap nat Phase;
  sy_pumps : gmap nat Pump;
  sy_tunnels : gmap nat TunnelLocal;
  sy_sup : Supervisor;
}.
Arguments sy_px {_ _} _.
Arguments sy_tasks {_ _} _.
Arguments sy_pumps {_ _} _.
Arguments sy_tunnels {_ _} _.
Arguments sy_sup {_ _} _.

Inductive Event `{UuidLib} (R : Type) :=
(** OpenTunnel on request channel [tx], a message on it, its end, its receiver gone *)
| EvTunnelOpen (tx : nat) (role : ProxyRole) (auth : option (option string))
| EvTunnelMessage (tx : nat) (msg : TunnelResponse)
| EvTunnelEnd (tx : nat)
| EvTunnelDropped (tx : nat)
(** OpenIoStream with response channel [tx], and the steps of its task *)
| EvOpen (tx : nat) (role : ProxyRole) (auth : option (option string))
| EvFirst (tx : nat) (first : Inbound)
| EvTask (tx : nat)
| EvPump (tx : nat) (i : Inbound)
(** the gateway takes a frame, or drops its receiver *)
| EvReceive (tx : nat)
| EvGatewayGone (tx : nat)
(** the routing store changes, a notification arrives *)
| EvStore (db : R)
| EvNotification (payload : string)
(** the supervisor *)
| EvSigterm
| EvDrainLoopExit (timed_out : bool)
| EvDrainDecide
| EvSecondSigterm.
Arguments EvTunnelOpen {_ _} _ _ _.
Arguments EvTunnelMessage {_ _} _ _.
Arguments EvTunnelEnd {_ _} _.
Arguments EvTunnelDropped {_ _} _.
Arguments EvOpen {_ _} _ _ _.
Arguments EvFirst {_ _} _ _.
Arguments EvTask {_ _} _.
Arguments EvPump {_ _} _ _.
Arguments EvReceive {_ _} _.
Arguments EvGatewayGone {_ _} _.
Arguments EvStore {_ _} _.
Arguments EvNotification {_ _} _.
Arguments EvSigterm {_ _}.
Arguments EvDrainLoopExit {_ _} _.
Arguments EvDrainDecide {_ _}.
Arguments EvSecondSigterm {_ _}.

Section system.
Context `{UuidLib} {R : Type} `{!RoutingStore R}.
Variables (internal_token tunnel_token : option string).
Implicit Types (s : Sys R) (px : Proxy R).

(** One step of a task that is past the handshake. *)
Definition task_step (tx : nat) (ph : Phase) : ST (Proxy R) Phase := λ px,
  match ph with
  | Handshake => (Handshake, px)
  | Resolving start sandbox_id =>
      match dispatch_route sandbox_id px with
      | (Ok agent_id, px') => (Resolved start agent_id, px')
      | (Err st, px') => (Returned, send_status tx st px')
      end
  | Resolved start agent_id =>
      match dispatch_allocate agent_id px with
      | (Ok (sender, g, stream_id), px') => (Allocated start agent_id sender g stream_id, px')
      | (Err st, px') => (Returned, send_status tx st px')
      end
  | Allocated start agent_id sender g stream_id =>
      (Inserted start agent_id sender stream_id, dispatch_insert tx stream_id agent_id g px)
  | Inserted start agent_id sender stream_id =>
      match dispatch_recheck tx stream_id px with
      | (true, px') => (Starting start agent_id sender stream_id, px')
      | (false, px') => (Returned, px')
      end
  | Starting start agent_id sender stream_id =>
      match dispatch_start tx stream_id sender start px with
      | (true, px') => (Running stream_id, px')
      | (false, px') => (Returned, px')
      end
  | Running stream_id =>
      (* [server_tx.closed().await] *)
      match IoSessions.gateways (px_sessions px) !! tx with
      | Some gw => if IoSessions.gw_open gw then (Running stream_id, px)
                   else (Returned, drop_session stream_id px)
      | None => (Returned, drop_session stream_id px)
      end
  | Returned => (Returned, px)
  end.

(** The pump is spawned when the start frame went out. *)
Definition spawn_pump (tx : nat) (ph ph' : Phase) (pumps : gmap nat Pump) : gmap nat Pump :=
  match ph, ph' with
  | Starting _ agent_id _ stream_id, Running _ =>
      <[tx := {| pu_agent_id := agent_id; pu_stream_id := stream_id;
                 saw_explicit_close := false |}]> pumps
  | _, _ => pumps
  end.

Definition upd_px (px : Proxy R) s : Sys R :=
  {| sy_px := px; sy_tasks := sy_tasks s; sy_pumps := sy_pumps s; sy_tunnels := sy_tunnels s;
     sy_sup := sy_sup s |}.
Definition upd_task (tx : nat) (ph : Phase) (px : Proxy R) s : Sys R :=
  {| sy_px := px; sy_tasks := <[tx := ph]> (sy_tasks s); sy_pumps := sy_pumps s;
     sy_tunnels := sy_tunnels s; sy_sup := sy_sup s |}.
Definition upd_pumps (m : gmap nat Pump) (px : Proxy R) s : Sys R :=
  {| sy_px := px; sy_tasks := sy_tasks s; sy_pumps := m; sy_tunnels := sy_tunnels s;
     sy_sup := sy_sup s |}.
Definition upd_tunnels (m : gmap nat TunnelLocal) (px : Proxy R) s : Sys R :=
  {| sy_px := px; sy_tasks := sy_tasks s; sy_pumps := sy_pumps s; sy_tunnels := m;
     sy_sup := sy_sup s |}.
Definition upd_sup (sup : Supervisor) (px : Proxy R) s : Sys R :=
  {| sy_px := px; sy_tasks := sy_tasks s; sy_pumps := sy_pumps s; sy_tunnels := sy_tunnels s;
     sy_sup := sup |}.

Definition tunnel_event (tx : nat) (f : TunnelFlow * Proxy R) s : Sys R :=
  match f with
  | (TContinue l, px) => upd_tunnels (<[tx := l]> (sy_tunnels s)) px s
  | (TBreak l, px) => upd_tunnels (delete tx (sy_tunnels s)) (tunnel_cleanup l px) s
  end.

(** A new response channel. *)
Definition open_gateway (tx : nat) px : Proxy R :=
  with_sessions (IoSessions.with_gateways
    (<[tx := {| IoSessions.received := []; IoSessions.queue := []; IoSessions.spawned := [];
                IoSessions.gw_open := true |}]> (IoSessions.gateways (px_sessions px)))
    (px_sessions px)) px.

Definition fail_all (detail : string) px : Proxy R :=
  with_sessions (IoSessions.fail_all_remaining (status Unavailable detail) (px_sessions px)).2 px.

Definition no_sessions px : bool :=
  Nat.eqb (size (IoSessions.inner (px_sessions px))) 0.

(** An event that is not enabled leaves the state alone. *)
Definition step s (e : Event R) : Sys R :=
  let px := sy_px s in
  match e with
  | EvTunnelOpen tx role auth =>
      match px_tunnels px !! tx, open_tunnel_gate role tunnel_token (px_draining px) auth with
      | None, Ok _ =>
          upd_tunnels (<[tx := {| registered := None; my_generation := None |}]> (sy_tunnels s))
            (with_tunnels (<[tx := ([], true)]> (px_tunnels px)) px) s
      | _, _ => s
      end
  | EvTunnelMessage tx msg =>
      match sy_tunnels s !! tx with
      | Some l => tunnel_event tx (on_tunnel_message tx l msg px) s
      | None => s
      end
  | EvTunnelEnd tx =>
      match sy_tunnels s !! tx with
      | Some l => upd_tunnels (delete tx (sy_tunnels s)) (tunnel_cleanup l px) s
      | None => s
      end
  | EvTunnelDropped tx =>
      upd_px (with_tunnels (alter (λ c, (c.1, false)) tx (px_tunnels px)) px) s
  | EvOpen tx role auth =>
      match IoSessions.gateways (px_sessions px) !! tx,
            open_io_stream_gate role internal_token (px_draining px) auth with
      | None, Ok _ => upd_task tx Handshake (open_gateway tx px) s
      | _, _ => s
      end
  | EvFirst tx first =>
      match sy_tasks s !! tx with
      | Some Handshake =>
          match dispatch_first first with
          | Ok (start, sandbox_id) => upd_task tx (Resolving start sandbox_id) px s
          | Err st => upd_task tx Returned (send_status tx st px) s
          end
      | _ => s
      end
  | EvTask tx =>
      match sy_tasks s !! tx with
      | Some ph =>
          let '(ph', px') := task_step tx ph px in
          let s' := upd_task tx ph' px' s in
          upd_pumps (spawn_pump tx ph ph' (sy_pumps s')) px' s'
      | None => s
      end
  | EvPump tx i =>
      match sy_pumps s !! tx with
      | Some pu =>
          match i with
          | Frame f =>
              match pump_frame pu f px with
              | (Some pu', px') => upd_pumps (<[tx := pu']> (sy_pumps s)) px' s
              | (None, px') => upd_pumps (delete tx (sy_pumps s)) px' s
              end
          | _ => upd_pumps (delete tx (sy_pumps s)) (pump_end pu px) s
          end
      | None => s
      end
  | EvReceive tx => upd_px (with_sessions (IoSessions.receive tx (px_sessions px)) px) s
  | EvGatewayGone tx => upd_px (with_sessions (IoSessions.close_gw tx (px_sessions px)) px) s
  | EvStore db =>
      upd_px {| px_pool := px_pool px; px_mux := px_mux px; px_sessions := px_sessions px;
                px_cache := px_cache px; px_db := db; px_tunnels := px_tunnels px;
                px_draining := px_draining px |} s
  | EvNotification payload => upd_px (with_cache (on_notification payload (px_cache px)) px) s
  | EvSigterm =>
      match sy_sup s with Waiting => upd_sup Draining (set_draining px) s | _ => s end
  | EvDrainLoopExit timed_out =>
      match sy_sup s with
      | Draining => if no_sessions px || timed_out then upd_sup LoopDone px s else s
      | _ => s
      end
  | EvDrainDecide =>
      match sy_sup s with
      | LoopDone => upd_sup Complete
          (if no_sessions px then px else fail_all "proxy shutting down (drain timeout)" px) s
      | _ => s
      end
  | EvSecondSigterm =>
      match sy_sup s with
      | Draining => upd_sup Complete (fail_all "proxy shutting down (escalated)" px) s
      | _ => s
      end
  end.

Definition run (evs : list (Event R)) s : Sys R := foldl step s evs.

Definition boot (db : R) : Sys R :=
  {| sy_px := {| px_pool := TunnelPool.new;
                 px_mux := {| StreamMux.pending := ∅; StreamMux.stream_counter := 0;
                              StreamMux.oneshots := ∅ |};
                 px_sessions := {| IoSessions.inner := ∅; IoSessions.counter := 0;
                                   IoSessions.gateways := ∅ |};
                 px_cache := ∅; px_db := db; px_tunnels := ∅; px_draining := false |};
     sy_tasks := ∅; sy_pumps := ∅; sy_tunnels := ∅; sy_sup := Waiting |}.
End system.

(** ** No silent disconnect *)

Section evolution.
Context `{UuidLib}.
Import IoSessions.
Implicit Types (x : IoSessions.t) (gw : Gateway) (st : Status) (D : string → Prop).

(** The gateway is gone, or a terminal status was sent to it. *)
Definition told gw : Prop := gw_open gw = false ∨ ∃ st, Err st ∈ frames gw.

Definition told_at x (tx : nat) : Prop := ∃ gw, gateways x !! tx = Some gw ∧ told gw.

(** From [x] to [x'] what was told stays told, and a session outside [D] is dropped only
    with a terminal status. *)
Definition evolves D x x' : Prop :=
  sessions_ok x' ∧ counter x' = counter x ∧
  (∀ tx gw, gateways x !! tx = Some gw →
     ∃ gw', gateways x' !! tx = Some gw' ∧ (told gw → told gw')) ∧
  (∀ id r, ¬ D id → inner x !! id = Some r → is_Some (gateways x !! server_tx r) →
     inner x' !! id = Some r ∨ told_at x' (server_tx r)).

Definition nothing : string → Prop := λ _, False.

Lemma evolves_refl x : sessions_ok x → evolves nothing x x.
Proof. intros. split; [done|]. split; [done|]. split; eauto. Qed.

Lemma evolves_told D x x' tx : evolves D x x' → told_at x tx → told_at x' tx.
Proof.
  intros (_ & _ & Hg & _) (gw & Hgw & Ht). destruct (Hg _ _ Hgw) as (gw' & ? & ?).
  exists gw'. auto.
Qed.

Lemma evolves_trans D x x1 x' : evolves D x x1 → evolves D x1 x' → evolves D x x'.
Proof.
  intros (_ & Hc1 & Hg1 & Hi1) Hev. pose proof Hev as (Hok & Hc & Hg & Hi).
  split; [done|]. split; [lia|]. split.
  - intros tx gw Hgw. destruct (Hg1 _ _ Hgw) as (gw1 & Hgw1 & ?).
    destruct (Hg _ _ Hgw1) as (gw' & ? & ?). exists gw'. auto.
  - intros id r HD Hr [gw Hgw]. destruct (Hg1 _ _ Hgw) as (gw1 & Hgw1 & _).
    destruct (Hi1 id r HD Hr) as [Hr1|Ht]; [eauto| |right; by eapply evolves_told].
    apply (Hi id r HD Hr1). eauto.
Qed.

Lemma evolves_weaken D x x' : evolves nothing x x' → evolves D x x'.
Proof.
  intros (? & ? & ? & Hi). split_and!; [done..|]. intros id r _ Hr Hs. apply Hi; [by intros []|done..].
Qed.

Lemma extended_told gw l gw' : extended gw l gw' → told gw → told gw'.
Proof.
  intros (_ & Ho & _ & Hf) [?|[st Hst]]; [left; congruence|right]. exists st. rewrite Hf.
  set_solver.
Qed.

Lemma extended_tells gw l gw' st :
  extended gw l gw' → Forall (λ f, f = Err st) l → (gw_open gw = true → l ≠ []) → told gw'.
Proof.
  intros (_ & Ho & _ & Hf) Hl Hne. destruct (gw_open gw) eqn:E; [right|by left].
  exists st. rewrite Hf. destruct l as [|f l]; [by destruct Hne|].
  inversion Hl. subst. set_solver.
Qed.

Lemma send_status_evolves tx st x :
  sessions_ok x →
  evolves nothing x (send_or_spawn tx (Err st) x) ∧
  (is_Some (gateways x !! tx) → told_at (send_or_spawn tx (Err st) x) tx).
Proof.
  intros Hok. destruct (send_or_spawn_inv tx (Err st) x Hok) as (Hi & Hc & Hok' & Hoth & Htx).
  split.
  - split; [done|]. split; [lia|]. split.
    + intros tx' gw Hgw. destruct (decide (tx' = tx)) as [->|]; [|rewrite Hoth by done; eauto].
      rewrite Hgw in Htx. destruct Htx as (gw' & ? & ?). exists gw'. split; [done|].
      by eapply extended_told.
    + intros id r _ Hr _. left. by rewrite Hi.
  - intros [gw Hgw]. rewrite Hgw in Htx. destruct Htx as (gw' & ? & ?). exists gw'.
    split; [done|]. eapply (extended_tells _ _ _ st); [done| |];
      destruct (gw_open gw); repeat constructor; done.
Qed.

Lemma cancel_evolves agent g x :
  sessions_ok x → evolves nothing x (cancel_agent_streams_at_generation agent g x).
Proof.
  intros Hok. destruct (cancel_inv agent g x Hok) as (ids & _ & Hi & Hc & Hok' & Hgw).
  split; [done|]. split; [lia|]. split.
  - intros tx gw E. destruct (Hgw _ _ E) as (gw' & l & ? & ? & _). exists gw'. split; [done|].
    by eapply extended_told.
  - intros id r _ Hr [gw E]. destruct (decide (id ∈ ids)) as [Hin|Hn].
    + right. destruct (Hgw _ _ E) as (gw' & l & ? & Hx & Hl & Hne & _). exists gw'.
      split; [done|]. eapply extended_tells; [done..|]. intros Ho. apply Hne; eauto.
    + left. rewrite Hi. by apply map_lookup_filter_Some.
Qed.

Lemma fail_all_evolves st x :
  sessions_ok x →
  let x' := (fail_all_remaining st x).2 in
  evolves nothing x x' ∧ inner x' = ∅.
Proof.
  intros Hok. simpl.
  destruct (fail_all_fold (map_to_list (inner x)) st (with_inner ∅ x) Hok)
    as (Hi & Hc & Hok' & Hgw). simpl in *. split; [|done].
  split; [done|]. split; [lia|]. split.
  - intros tx gw E. destruct (Hgw _ _ E) as (gw' & l & ? & ? & _). exists gw'. split; [done|].
    by eapply extended_told.
  - intros id r _ Hr [gw E]. right. destruct (Hgw _ _ E) as (gw' & l & ? & Hx & Hl & Hne).
    exists gw'. split; [done|]. eapply extended_tells; [done..|]. intros Ho. apply Hne; [done|].
    exists (id, r). split; [by apply elem_of_map_to_list|done].
Qed.

(** A change of one gateway that loses no frame and does not reopen it. *)
Lemma alter_evolves (f : Gateway → Gateway) tx x :
  (∀ gw, gw_ok gw → gw_ok (f gw)) → (∀ gw, told gw → told (f gw)) →
  sessions_ok x → evolves nothing x (with_gateways (alter f tx (gateways x)) x).
Proof.
  intros Hf Ht Hok. split.
  { intros tx' gw'. simpl. rewrite lookup_alter. case_decide; [|apply Hok]. subst.
    intros (gw & E & ->)%fmap_Some. by eapply Hf, Hok. }
  split; [done|]. simpl. split; [|auto].
  intros tx' gw E. rewrite lookup_alter. case_decide; [|eauto]. subst. rewrite E. simpl. eauto.
Qed.

Lemma receive_frames gw : frames (receive_gw gw) = frames gw.
Proof.
  unfold receive_gw, frames. destruct (queue gw) as [|f q] eqn:E1; [by rewrite E1|].
  destruct (spawned gw) as [|s ss] eqn:E2; simpl; by rewrite <- !app_assoc.
Qed.

Lemma receive_evolves tx x : sessions_ok x → evolves nothing x (receive tx x).
Proof.
  apply alter_evolves.
  - unfold receive_gw, gw_ok. intros gw [Hl Hs]. destruct (queue gw) as [|f q] eqn:E1.
    { rewrite E1. auto. }
    destruct (spawned gw) as [|s ss] eqn:E2; simpl in *.
    + split; [lia|done].
    + rewrite length_app. simpl. specialize (Hs ltac:(done)). split; [lia|intros _; lia].
  - intros gw [Ho|[st Hst]]; [left|right; exists st; by rewrite receive_frames].
    unfold receive_gw. by destruct (queue gw), (spawned gw).
Qed.

Lemma close_evolves tx x : sessions_ok x → evolves nothing x (close_gw tx x).
Proof. apply alter_evolves; [done|]. by left. Qed.

Lemma deliver_evolves id a frame x :
  sessions_ok x → evolves nothing x (deliver_server_frame id a frame x).2.
Proof.
  intros Hok. unfold deliver_server_frame.
  destruct (match inner x !! id with Some r => _ | None => _ end) as [tx|];
    [|by apply evolves_refl].
  destruct (try_send tx (Ok frame) x) as [t x'] eqn:E. apply try_send_inv in E; [|done].
  destruct t; simpl; [|destruct E as [-> _]; by apply evolves_refl..].
  destruct E as (gw & gw' & Hgw & Ho & Hx & ->). split.
  { apply map_Forall_insert_2; [apply Hx|done]. }
  split; [done|]. simpl. split; [|auto]. intros tx' gw1 E. rewrite lookup_insert. case_decide; [|eauto].
  subst. exists gw'. split; [done|]. assert (gw1 = gw) as -> by congruence. by eapply extended_told.
Qed.

Lemma remove_evolves id x :
  sessions_ok x → evolves (λ j, j = id) x (IoSessions.remove id x).2.
Proof.
  intros Hok. split; [done|]. split; [done|]. split; [eauto|].
  intros j r Hj Hr _. left. simpl. by rewrite lookup_delete_ne.
Qed.

Lemma insert_evolves id r x :
  sessions_ok x → evolves (λ j, j = id) x (IoSessions.insert id r x).
Proof.
  intros Hok. split; [done|]. split; [done|]. split; [eauto|].
  intros j r' Hj Hr _. left. simpl. by rewrite lookup_insert_ne.
Qed.
End evolution.

Section drain_invariant.
Context `{UuidLib}.
Import IoSessions.
Implicit Types (x : IoSessions.t) (tasks : gmap nat Phase) (ph : Phase) (sup : Supervisor).

Definition task_id ph : option string :=
  match ph with
  | Allocated _ _ _ _ id | Inserted _ _ _ id | Starting _ _ _ id | Running id => Some id
  | _ => None
  end.

(** Past the second look at the drain flag. *)
Definition past_check ph : Prop :=
  match ph with Starting _ _ _ _ | Running _ => True | _ => False end.

Definition in_map ph : Prop :=
  match ph with Inserted _ _ _ _ | Starting _ _ _ _ | Running _ => True | _ => False end.

Definition issued x (id : string) : Prop :=
  ∃ k, (0 ≤ k < counter x)%Z ∧ id = stream_id_of k.

Definition task_ok x (tx : nat) ph : Prop :=
  is_Some (gateways x !! tx) ∧
  (∀ id, task_id ph = Some id → issued x id ∧
     (in_map ph → told_at x tx ∨ ∃ r, inner x !! id = Some r ∧ server_tx r = tx)) ∧
  (ph = Returned → told_at x tx).

Record drain_inv (n : Z) sup (draining : bool) x tasks : Prop := {
  di_ok : sessions_ok x;
  di_counter : (0 ≤ counter x ≤ n)%Z;
  di_flag : draining = negb (bool_decide (sup = Waiting));
  di_tasks : map_Forall (task_ok x) tasks;
  di_ids tx tx' ph ph' id :
    tasks !! tx = Some ph → tasks !! tx' = Some ph' →
    task_id ph = Some id → task_id ph' = Some id → tx = tx';
  di_complete tx ph :
    sup = Complete → tasks !! tx = Some ph → past_check ph → told_at x tx;
}.

#[local] Instance stream_id_of_inj : Inj (=) (=) stream_id_of.
Proof. unfold stream_id_of. intros k k' E. apply (inj (String.app "io-")) in E. by apply (inj pretty). Qed.

Lemma task_ok_evolves D x x' tx ph :
  (∀ id, task_id ph = Some id → ¬ D id) → evolves D x x' → task_ok x tx ph → task_ok x' tx ph.
Proof.
  intros HD Hev ([gw Hgw] & Hid & Hret). pose proof Hev as (_ & Hc & Hg & Hi).
  destruct (Hg _ _ Hgw) as (gw' & Hgw' & _). split; [eauto|]. split.
  - intros id Eid. destruct (Hid id Eid) as [(k & Hk & ->) Hm]. split; [exists k; split; [lia|done]|].
    intros Hin. destruct (Hm Hin) as [Ht|(r & Hr & <-)]; [left; by eapply evolves_told|].
    destruct (Hi _ r (HD _ Eid) Hr) as [?|?]; [eauto|right; eauto|by left].
  - intros ->. eapply evolves_told; [done|]. by apply Hret.
Qed.

(** A step that touches no task. *)
Lemma drain_inv_evolves n n' sup dr x x' tasks :
  drain_inv n sup dr x tasks → evolves nothing x x' → (n ≤ n')%Z →
  drain_inv n' sup dr x' tasks.
Proof.
  intros [Hok Hc Hf Ht Hids Hcomp] Hev Hn. pose proof Hev as (_ & Hcc & _).
  split; [apply Hev|lia|done| |done|].
  - intros tx ph Hph. eapply task_ok_evolves; [|done|by apply Ht]. by intros ? _ [].
  - intros tx ph Hs Hph Hp. eapply evolves_told; [done|]. by eapply Hcomp.
Qed.

(** A step of the task of [tx], from [oph] (none for a new task) to [ph']. *)
Lemma drain_inv_task D n n' sup dr x x' tasks tx oph ph' :
  drain_inv n sup dr x tasks → evolves D x x' → tasks !! tx = oph → (n ≤ n')%Z →
  (∀ id, D id → oph ≫= task_id = Some id) →
  task_ok x' tx ph' →
  (task_id ph' = oph ≫= task_id ∨
   ∀ id, task_id ph' = Some id → map_Forall (λ _ ph, task_id ph ≠ Some id) tasks) →
  (sup = Complete → past_check ph' → told_at x' tx) →
  drain_inv n' sup dr x' (<[tx := ph']> tasks).
Proof.
  intros [Hok Hc Hf Ht Hids Hcomp] Hev Hoph Hn HD Hok' Hid Hpast.
  assert (∀ tx' ph id, tx' ≠ tx → tasks !! tx' = Some ph → task_id ph = Some id →
    task_id ph' ≠ Some id ∧ ¬ D id) as Hother.
  { intros tx' ph id Hne Hph Eid.
    assert (oph ≫= task_id ≠ Some id) as Hno.
    { intros Ho. destruct oph as [ph0|]; [|done]. apply Hne. by eapply Hids. }
    split; [|intros HDid; by apply Hno, HD].
    intros Eid'. destruct Hid as [Hid|Hid]; [congruence|]. by apply (Hid id Eid' tx' ph). }
  split; [apply Hev|destruct Hev as (_ & ? & _); lia|done| | |].
  - intros tx' ph [[<- <-]|[Hne Hph]]%lookup_insert_Some; [done|].
    eapply task_ok_evolves; [|done|by apply Ht]. intros id Eid. by eapply (Hother tx').
  - intros t1 t2 p1 p2 id [[<- <-]|[Hne1 Hp1]]%lookup_insert_Some
      [[<- <-]|[Hne2 Hp2]]%lookup_insert_Some E1 E2; [done| | |by eapply Hids].
    + by destruct (Hother t2 p2 id (not_eq_sym Hne2) Hp2 E2).
    + by destruct (Hother t1 p1 id (not_eq_sym Hne1) Hp1 E1).
  - intros t p Hs [[<- <-]|[Hne Hp]]%lookup_insert_Some Hpc; [by apply Hpast|].
    eapply evolves_told; [done|]. by eapply Hcomp.
Qed.

(** The id handed out is one no task holds. *)
Lemma drain_inv_allocate n sup dr x x' tasks id :
  drain_inv n sup dr x tasks → (n + 1 < 2 ^ 64)%Z → next_stream_id x = (id, x') →
  drain_inv (n + 1) sup dr x' tasks ∧ issued x' id ∧
  map_Forall (λ _ ph, task_id ph ≠ Some id) tasks.
Proof.
  intros [Hok Hc Hf Ht Hids Hcomp] Hn. unfold next_stream_id, fetch_add. intros [= <- <-].
  assert (as_u64 (counter x + 1) = counter x + 1)%Z as Hw.
  { unfold as_u64, as_unsigned. rewrite Z.mod_small; lia. }
  split; [split; simpl; rewrite ?Hw; [done|lia|done| |done|done]|split].
  - intros tx ph Hph. destruct (Ht _ _ Hph) as (Hs & Hid & Hr). split; [done|]. split; [|done].
    intros id Eid. destruct (Hid id Eid) as [(k & Hk & ->) Hm]. split; [|done].
    exists k. simpl in *. split; [lia|done].
  - exists (counter x). simpl in *. split; [lia|done].
  - intros tx ph Hph Eid. destruct (Ht _ _ Hph) as (_ & Hi & _).
    destruct (Hi _ Eid) as [(k & Hk & E) _]. apply (inj stream_id_of) in E. lia.
Qed.

(** The task moves on without touching the sessions. *)
Lemma drain_inv_move n n' sup dr x tasks tx ph ph' :
  drain_inv n sup dr x tasks → tasks !! tx = Some ph → (n ≤ n')%Z →
  (∀ id, task_id ph' = Some id → issued x id ∧
     (in_map ph' → told_at x tx ∨ ∃ r, inner x !! id = Some r ∧ server_tx r = tx)) →
  ph' ≠ Returned →
  (task_id ph' = task_id ph ∨
   ∀ id, task_id ph' = Some id → map_Forall (λ _ ph, task_id ph ≠ Some id) tasks) →
  (sup = Complete → past_check ph' → told_at x tx) →
  drain_inv n' sup dr x (<[tx := ph']> tasks).
Proof.
  intros Hinv Hph Hn Hid Hret Hids Hpast. eapply (drain_inv_task nothing); try done.
  - apply evolves_refl, Hinv.
  - destruct (di_tasks _ _ _ _ _ Hinv _ _ Hph) as (Hgw & _). by split.
Qed.

(** The task gives up with a status, after dropping at most its own session. *)
Lemma drain_inv_fail D n n' sup dr x x1 tasks tx ph st :
  drain_inv n sup dr x tasks → tasks !! tx = Some ph → evolves D x x1 → (n ≤ n')%Z →
  (∀ id, D id → task_id ph = Some id) →
  drain_inv n' sup dr (send_or_spawn tx (Err st) x1) (<[tx := Returned]> tasks).
Proof.
  intros Hinv Hph Hev Hn HD. pose proof Hev as (Hok1 & _ & Hg & _).
  destruct (send_status_evolves tx st x1 Hok1) as [Hev' Htold].
  destruct (di_tasks _ _ _ _ _ Hinv _ _ Hph) as ([gw Hgw] & _).
  destruct (Hg _ _ Hgw) as (gw1 & Hgw1 & _).
  assert (told_at (send_or_spawn tx (Err st) x1) tx) as Ht by (apply Htold; eauto).
  eapply (drain_inv_task D); try done.
  - eapply evolves_trans; [done|]. by apply evolves_weaken.
  - destruct Ht as (gw' & Hgw' & Ht). split; [eauto|]. split; [done|]. intros _. by exists gw'.
  - by right.
Qed.
End drain_invariant.

Section drain_steps.
Context `{UuidLib} {R : Type} `{!RoutingStore R}.
Implicit Types (px : Proxy R) (s : Sys R).

(** Nothing the drain looks at changes. *)
Definition same_drain px px' : Prop :=
  px_draining px' = px_draining px ∧ px_sessions px' = px_sessions px.

Lemma tunnel_send_same tx req px : same_drain px (tunnel_send tx req px).2.
Proof. unfold tunnel_send. by destruct (px_tunnels px !! tx) as [[l []]|]. Qed.

Lemma dispatch_route_same sandbox_id px : same_drain px (dispatch_route sandbox_id px).2.
Proof. unfold dispatch_route. by destruct (lookup_or_fetch _ _ _) as [[[]|] ?]. Qed.

Lemma pump_frame_same pu f px : same_drain px (pump_frame pu f px).2.
Proof.
  unfold pump_frame. destruct (TunnelPool.get_sender _ _) as [tx|]; [|done].
  pose proof (tunnel_send_same tx (wrap (pu_stream_id pu) (icf_payload f)) px).
  by destruct (tunnel_send _ _ _) as [[] px'].
Qed.

Lemma pump_end_same pu px : same_drain px (pump_end pu px).
Proof.
  unfold pump_end. destruct (saw_explicit_close pu); [done|].
  destruct (TunnelPool.get_sender _ _); [apply tunnel_send_same|done].
Qed.

Lemma tunnel_cleanup_evolves l px :
  sessions_ok (px_sessions px) →
  px_draining (tunnel_cleanup l px) = px_draining px ∧
  evolves nothing (px_sessions px) (px_sessions (tunnel_cleanup l px)).
Proof.
  intros Hok. unfold tunnel_cleanup.
  destruct (registered l) as [a|], (my_generation l) as [g|];
    [|split; [done|by apply evolves_refl]..].
  destruct (TunnelPool.remove_if_current a g _) as [[] pool]; simpl;
    (split; [done|by apply cancel_evolves]).
Qed.

Lemma on_tunnel_message_evolves tx l msg px :
  sessions_ok (px_sessions px) →
  let px' := (on_tunnel_message tx l msg px).2 in
  px_draining px' = px_draining px ∧ evolves nothing (px_sessions px) (px_sessions px').
Proof.
  intros Hok. pose proof (evolves_refl _ Hok). unfold on_tunnel_message.
  destruct (tr_payload msg) as [[resp|d fin|reason|id|frame]|]; [| | | | |done];
    [by destruct (registered l)|done|by destruct (registered l)|by destruct (parse_str id)|].
  destruct (registered l) as [a|]; [|done]. simpl. split; [done|]. by apply deliver_evolves.
Qed.

Lemma task_step_inv n sup px tasks tx ph ph' px' :
  drain_inv n sup (px_draining px) (px_sessions px) tasks → (n + 1 < 2 ^ 64)%Z →
  tasks !! tx = Some ph → task_step tx ph px = (ph', px') →
  drain_inv (n + 1) sup (px_draining px') (px_sessions px') (<[tx := ph']> tasks).
Proof.
  intros Hinv Hn Hph. pose proof (di_ok _ _ _ _ _ Hinv) as Hok.
  destruct (di_tasks _ _ _ _ _ Hinv _ _ Hph) as (Hgw & Hids & Hret).
  assert (drain_inv (n + 1) sup (px_draining px) (px_sessions px) (<[tx := ph]> tasks)) as Hsame.
  { rewrite insert_id by done. eapply drain_inv_evolves; [done|by apply evolves_refl|lia]. }
  destruct ph as [|start sid|start a|start a sender g id|start a sender id|start a sender id|id|];
    simpl; intros Hstep.
  - by injection Hstep as <- <-.
  - pose proof (dispatch_route_same sid px) as Hs.
    destruct (dispatch_route sid px) as [[a|st] px1]; injection Hstep as <- <-;
      destruct Hs as [Hd Hx]; simpl in *; rewrite ?Hd, Hx.
    + eapply drain_inv_move; try done; [lia|by left].
    + eapply drain_inv_fail; try done; [by apply evolves_refl|lia|done].
  - unfold dispatch_allocate in Hstep.
    destruct (TunnelPool.get_sender_with_generation a (px_pool px)) as [[sender g]|].
    + destruct (IoSessions.next_stream_id (px_sessions px)) as [id x1] eqn:En.
      injection Hstep as <- <-. simpl.
      destruct (drain_inv_allocate _ _ _ _ _ _ _ Hinv Hn En) as (Hinv1 & Hiss & Hfresh).
      eapply drain_inv_move; try done; [by intros ? [= <-]|right; by intros ? [= <-]].
    + injection Hstep as <- <-. eapply drain_inv_fail; try done; [by apply evolves_refl|lia|done].
  - injection Hstep as <- <-. simpl. destruct (Hids id eq_refl) as [Hiss _].
    eapply (drain_inv_task (λ j, j = id)); try done;
      [by apply insert_evolves|lia|by intros ? ->| |by left].
    split; [done|]. split; [|done]. intros ? [= <-]. split; [done|]. intros _. right.
    eexists. simpl. by rewrite lookup_insert_eq.
  - unfold dispatch_recheck in Hstep. destruct (px_draining px) eqn:Ed; injection Hstep as <- <-.
    + simpl. rewrite Ed.
      eapply drain_inv_fail; try done; [by apply remove_evolves|lia|by intros ? ->].
    + rewrite Ed. eapply drain_inv_move; try done; [lia|by left|].
      intros ->. by pose proof (di_flag _ _ _ _ _ Hinv).
  - unfold dispatch_start in Hstep.
    pose proof (tunnel_send_same sender (wrap id (Some (CStart start))) px) as Hs.
    destruct (tunnel_send _ _ px) as [[] px1]; injection Hstep as <- <-;
      destruct Hs as [Hd Hx]; simpl in *; rewrite ?Hd, Hx.
    + eapply drain_inv_move; try done; [lia|by left|].
      intros Hc _. by eapply (di_complete _ _ _ _ _ Hinv).
    + eapply drain_inv_fail; try done; [by apply remove_evolves|lia|by intros ? ->].
  - destruct Hgw as [gw Hgw]. rewrite Hgw in Hstep.
    destruct (IoSessions.gw_open gw) eqn:Eo; injection Hstep as <- <-; [done|]. simpl.
    eapply (drain_inv_task (λ j, j = id)); try done; [by apply remove_evolves|lia|by intros ? ->| |by right].
    split; [by exists gw|]. split; [done|]. intros _. exists gw. split; [done|]. by left.
  - by injection Hstep as <- <-.
Qed.

Lemma open_gateway_evolves tx px :
  sessions_ok (px_sessions px) → IoSessions.gateways (px_sessions px) !! tx = None →
  evolves nothing (px_sessions px) (px_sessions (open_gateway tx px)).
Proof.
  intros Hok Hn. split.
  { apply map_Forall_insert_2; [|done]. split; simpl; [lia|done]. }
  split; [done|]. simpl. split; [|auto]. intros tx' gw E. exists gw. rewrite lookup_insert_ne; [auto|congruence].
Qed.

Definition sys_inv (n : Z) s : Prop :=
  drain_inv n (sy_sup s) (px_draining (sy_px s)) (px_sessions (sy_px s)) (sy_tasks s).

Lemma sys_inv_frame n px' s s' :
  sys_inv n s → sy_px s' = px' → sy_tasks s' = sy_tasks s → sy_sup s' = sy_sup s →
  px_draining px' = px_draining (sy_px s) →
  evolves nothing (px_sessions (sy_px s)) (px_sessions px') → sys_inv (n + 1) s'.
Proof.
  unfold sys_inv. intros Hinv <- -> -> -> Hev. eapply drain_inv_evolves; [done..|lia].
Qed.

Lemma same_evolves px px' :
  sessions_ok (px_sessions px) → same_drain px px' →
  evolves nothing (px_sessions px) (px_sessions px').
Proof. intros Hok [_ ->]. by apply evolves_refl. Qed.

(** The supervisor finishes once every session past the second look was told. *)
Lemma sys_inv_complete n sup dr x x' tasks :
  drain_inv n sup dr x tasks → sup ≠ Waiting → evolves nothing x x' →
  IoSessions.inner x' = ∅ → drain_inv (n + 1) Complete dr x' tasks.
Proof.
  intros Hinv Hw Hev Hempty. destruct (drain_inv_evolves _ (n + 1) _ _ _ _ _ Hinv Hev) as
    [Hok Hc Hf Ht Hids Hcomp]; [lia|]. split; try done.
  - rewrite Hf. by rewrite !bool_decide_eq_false_2.
  - intros tx ph _ Hph Hp. destruct (Ht _ _ Hph) as (_ & Hid & _).
    assert (∃ id, task_id ph = Some id ∧ in_map ph) as (id & Eid & Hin) by (destruct ph; naive_solver).
    destruct (Hid id Eid) as [_ Hm]. destruct (Hm Hin) as [?|(r & Hr & _)]; [done|].
    by rewrite Hempty in Hr.
Qed.

Lemma no_sessions_true px : no_sessions px = true → IoSessions.inner (px_sessions px) = ∅.
Proof. unfold no_sessions. rewrite Nat.eqb_eq. apply map_size_empty_inv. Qed.

Lemma step_inv it tt n s e :
  sys_inv n s → (n + 1 < 2 ^ 64)%Z → sys_inv (n + 1) (step it tt s e).
Proof.
  intros Hinv Hn. pose proof (di_ok _ _ _ _ _ Hinv) as Hok.
  pose proof (evolves_refl _ Hok) as Hrefl.
  assert (sys_inv (n + 1) s) as Hsame by by eapply sys_inv_frame.
  destruct e as [tx role auth|tx msg|tx|tx|tx role auth|tx first|tx|tx i|tx|tx|db|payload| |to| |];
    simpl.
  - destruct (px_tunnels _ !! tx); [done|]. destruct (open_tunnel_gate _ _ _ _); [|done]. by eapply sys_inv_frame.
  - destruct (sy_tunnels s !! tx) as [l|]; [|done].
    destruct (on_tunnel_message_evolves tx l msg _ Hok) as [Hd Hev].
    destruct (on_tunnel_message tx l msg (sy_px s)) as [[l'|l'] px1]; simpl in *.
    + by eapply sys_inv_frame.
    + destruct (tunnel_cleanup_evolves l' px1) as [Hd' Hev']; [apply Hev|].
      eapply sys_inv_frame; try done; simpl; [by rewrite Hd'|by eapply evolves_trans].
  - destruct (sy_tunnels s !! tx) as [l|]; [|done].
    destruct (tunnel_cleanup_evolves l _ Hok) as [Hd Hev]. by eapply sys_inv_frame.
  - by eapply sys_inv_frame.
  - destruct (IoSessions.gateways _ !! tx) eqn:Egw; [done|].
    destruct (open_io_stream_gate _ _ _ _); [|done].
    destruct (sy_tasks s !! tx) as [ph|] eqn:Eph.
    { destruct (di_tasks _ _ _ _ _ Hinv _ _ Eph) as [[gw ?] _]. congruence. }
    eapply (drain_inv_task nothing);
      [exact Hinv|by apply open_gateway_evolves|exact Eph|lia|by intros ? []| |by left|done].
    split; [simpl; rewrite lookup_insert_eq; eauto|]. by split.
  - destruct (sy_tasks s !! tx) as [[]|] eqn:Eph; try done.
    destruct (dispatch_first first) as [[start sid]|st].
    + eapply drain_inv_move; [exact Hinv|exact Eph|lia|done|done|by left|done].
    + by eapply drain_inv_fail; [exact Hinv|exact Eph|exact Hrefl|lia|].
  - destruct (sy_tasks s !! tx) as [ph|] eqn:Eph; [|done].
    destruct (task_step tx ph (sy_px s)) as [ph' px'] eqn:Es. unfold sys_inv. simpl.
    by eapply task_step_inv.
  - destruct (sy_pumps s !! tx) as [pu|]; [|done]. destruct i as [f| |err].
    + pose proof (pump_frame_same pu f (sy_px s)) as Hs.
      destruct (pump_frame pu f (sy_px s)) as [[pu'|] px'];
        (eapply sys_inv_frame; try done; [apply Hs|by apply same_evolves]).
    + pose proof (pump_end_same pu (sy_px s)) as Hs.
      eapply sys_inv_frame; try done; [apply Hs|by apply same_evolves].
    + pose proof (pump_end_same pu (sy_px s)) as Hs.
      eapply sys_inv_frame; try done; [apply Hs|by apply same_evolves].
  - eapply sys_inv_frame; try done. by apply receive_evolves.
  - eapply sys_inv_frame; try done. by apply close_evolves.
  - by eapply sys_inv_frame.
  - by eapply sys_inv_frame.
  - destruct (sy_sup s) eqn:Es; try done. unfold sys_inv in *. simpl. rewrite Es in Hsame.
    by destruct Hsame.
  - destruct (sy_sup s) eqn:Es; try done. destruct (_ || _); [|done].
    unfold sys_inv in *. simpl. rewrite Es in Hsame. by destruct Hsame.
  - destruct (sy_sup s) eqn:Es; try done. unfold sys_inv in *. rewrite Es in Hinv. simpl.
    destruct (no_sessions (sy_px s)) eqn:Ee.
    + eapply sys_inv_complete; try done. by apply no_sessions_true.
    + eapply sys_inv_complete; try done; by apply fail_all_evolves.
  - destruct (sy_sup s) eqn:Es; try done. unfold sys_inv in *. rewrite Es in Hinv. simpl.
    eapply sys_inv_complete; try done; by apply fail_all_evolves.
Qed.

Lemma boot_inv db : sys_inv 0 (boot db).
Proof. split; try done. Qed.

Lemma run_inv it tt db evs :
  (Z.of_nat (length evs) < 2 ^ 64)%Z →
  sys_inv (Z.of_nat (length evs)) (run it tt evs (boot db)).
Proof.
  induction evs as [|e evs IH] using rev_ind; intros Hn; [apply boot_inv|].
  unfold run. rewrite foldl_snoc, length_app. simpl. rewrite length_app in Hn. simpl in Hn.
  rewrite Nat2Z.inj_add. apply step_inv; [apply IH; lia|lia].
Qed.
End drain_steps.

Section drain_theorem.
Context `{UuidLib} {R : Type} `{!RoutingStore R}.
Implicit Types (s : Sys R).

Definition gateway_told s (tx : nat) : Prop := told_at (px_sessions (sy_px s)) tx.

(** C2: the drain never disconnects a stream silently. Take any run of the proxy, with
    its tunnels, stream tasks, gateways, routing changes and signals interleaved in any
    order (fewer than 2^64 events, so that stream ids do not repeat). Then: a stream task
    that returned had its gateway hang up or sent it a terminal status; once the
    supervisor reports the drain complete, so had every task that got past its second
    look at the drain flag, although the session map is empty or its sessions were
    failed; and a task the signal caught between its insert and that second look
    returns at its next step, its session gone and its gateway told. *)
Theorem drain_never_silent internal_token tunnel_token db evs :
  (Z.of_nat (length evs) < 2 ^ 64 - 1)%Z →
  let s := run internal_token tunnel_token evs (boot db) in
  (∀ tx, sy_tasks s !! tx = Some Returned → gateway_told s tx) ∧
  (sy_sup s = Complete → ∀ tx ph,
     sy_tasks s !! tx = Some ph → past_check ph → gateway_told s tx) ∧
  (sy_sup s ≠ Waiting → ∀ tx start a sender id,
     sy_tasks s !! tx = Some (Inserted start a sender id) →
     let s' := step internal_token tunnel_token s (EvTask tx) in
     sy_tasks s' !! tx = Some Returned ∧ gateway_told s' tx ∧
     IoSessions.inner (px_sessions (sy_px s')) !! id = None).
Proof.
  intros Hn s.
  assert (sys_inv (Z.of_nat (length evs)) s) as Hinv by (apply run_inv; lia).
  split; [|split].
  - intros tx Htx. destruct (di_tasks _ _ _ _ _ Hinv _ _ Htx) as (_ & _ & Ht). by apply Ht.
  - intros Hc tx ph Hph Hp. by eapply (di_complete _ _ _ _ _ Hinv).
  - intros Hw tx start a sender id Htx s'.
    assert (sys_inv (Z.of_nat (length evs) + 1) s') as Hinv' by (apply step_inv; [done|lia]).
    assert (px_draining (sy_px s) = true) as Hd.
    { rewrite (di_flag _ _ _ _ _ Hinv). by rewrite bool_decide_eq_false_2. }
    destruct (send_or_spawn_inv tx (Err (status Unavailable "proxy shutting down"))
      (IoSessions.remove id (px_sessions (sy_px s))).2 (di_ok _ _ _ _ _ Hinv)) as (Hi & _).
    assert (sy_tasks s' !! tx = Some Returned ∧
            IoSessions.inner (px_sessions (sy_px s')) !! id = None) as [Hret Hnone].
    { unfold s'. simpl. rewrite Htx. simpl. unfold dispatch_recheck. rewrite Hd. simpl.
      split; [apply lookup_insert_eq|]. simpl in Hi. rewrite Hi. apply lookup_delete_eq. }
    split; [done|]. split; [|done].
    destruct (di_tasks _ _ _ _ _ Hinv' _ _ Hret) as (_ & _ & Ht). by apply Ht.
Qed.
End drain_theorem.

(** ** The pump *)

Section pump_theorem.
Context `{UuidLib} {R : Type} `{!RoutingStore R}.
Implicit Types (px : Proxy R).

Lemma tunnel_send_open tx req px l :
  px_tunnels px !! tx = Some (l, true) →
  tunnel_send tx req px = (true, with_tunnels (<[tx := (l ++ [req], true)]> (px_tunnels px)) px).
Proof. unfold tunnel_send. by intros ->. Qed.

(** What the agent is sent for the gateway's frames [fs]. *)
Definition relayed (pu : Pump) (fs : list IoClientFrame) : list TunnelRequest :=
  ((λ f, wrap (pu_stream_id pu) (icf_payload f)) <$> fs) ++
  (if saw_explicit_close pu || existsb (λ f, is_full_close (icf_payload f)) fs then []
   else [wrap (pu_stream_id pu) (Some (CClose false))]).

Lemma pump_task_relays pu fs px tn l :
  TunnelPool.tunnels (px_pool px) !! pu_agent_id pu = Some tn →
  px_tunnels px !! TunnelPool.request_tx tn = Some (l, true) →
  px_tunnels (pump_task pu fs px) =
    <[TunnelPool.request_tx tn := (l ++ relayed pu fs, true)]> (px_tunnels px).
Proof.
  intros Htn. assert (TunnelPool.get_sender (pu_agent_id pu) (px_pool px) =
    Some (TunnelPool.request_tx tn)) as Hs by (unfold TunnelPool.get_sender; by rewrite Htn).
  unfold relayed. revert pu px l Htn Hs.
  induction fs as [|f fs IH]; intros pu px l Htn Hs Hl; simpl.
  - unfold pump_end. rewrite orb_false_r. destruct (saw_explicit_close pu).
    + by rewrite app_nil_r, insert_id.
    + rewrite Hs. by rewrite (tunnel_send_open _ _ _ _ Hl).
  - unfold pump_frame. rewrite Hs. rewrite (tunnel_send_open _ _ _ _ Hl).
    rewrite (IH _ _ (l ++ [wrap (pu_stream_id pu) (icf_payload f)])); [|done..|apply lookup_insert_eq].
    simpl. rewrite insert_insert_eq. rewrite <- app_assoc. simpl.
    by rewrite orb_assoc, (orb_comm (saw_explicit_close pu)).
Qed.

(** The request pump. While the agent's tunnel is up, every frame of the gateway
    reaches it in order and under the proxy's stream id, whatever id the gateway wrote;
    when the gateway is done without an explicit full close (a half-close of stdin is not
    one) exactly one synthetic close follows, otherwise nothing does; so the agent always
    learns that the session is over. When the agent is no longer in the pool nothing is
    sent. *)
Theorem pump_relays_and_closes pu fs px :
  saw_explicit_close pu = false →
  match TunnelPool.tunnels (px_pool px) !! pu_agent_id pu with
  | None => pump_task pu fs px = px
  | Some tn => ∀ l, px_tunnels px !! TunnelPool.request_tx tn = Some (l, true) →
      ∃ sent, px_tunnels (pump_task pu fs px) !! TunnelPool.request_tx tn = Some (l ++ sent, true) ∧
        (∀ tx, tx ≠ TunnelPool.request_tx tn →
           px_tunnels (pump_task pu fs px) !! tx = px_tunnels px !! tx) ∧
        sent = ((λ f, wrap (pu_stream_id pu) (icf_payload f)) <$> fs) ++
          (if existsb (λ f, is_full_close (icf_payload f)) fs then []
           else [wrap (pu_stream_id pu) (Some (CClose false))]) ∧
        wrap (pu_stream_id pu) (Some (CClose false)) ∈ sent
  end.
Proof.
  intros Hsaw. destruct (TunnelPool.tunnels (px_pool px) !! pu_agent_id pu) as [tn|] eqn:E.
  - intros l Hl. exists (relayed pu fs). rewrite (pump_task_relays _ _ _ _ _ E Hl).
    split; [apply lookup_insert_eq|]. split; [intros; by apply lookup_insert_ne|].
    unfold relayed. rewrite Hsaw. split; [done|]. simpl.
    destruct (existsb _ fs) eqn:Ex; [|set_solver].
    apply existsb_exists in Ex as (f & Hf & Hc). apply elem_of_app. left.
    apply list_elem_of_fmap. exists f. split; [|by apply list_elem_of_In].
    destruct (icf_payload f) as [[| | |[]]|]; by simpl in Hc.
  - assert (TunnelPool.get_sender (pu_agent_id pu) (px_pool px) = None) as Hs
      by (unfold TunnelPool.get_sender; by rewrite E).
    destruct fs as [|f fs]; simpl.
    + unfold pump_end. by rewrite Hsaw, Hs.
    + unfold pump_frame. by rewrite Hs.
Qed.
End pump_theorem.

(** ** Opening a stream *)

Section open_theorem.
Context `{UuidLib} {R : Type} `{!RoutingStore R}.
Implicit Types (px : Proxy R).

(** The steps of the task from the handshake on, with nothing in between. *)
Definition open_stream (tx : nat) (first : Inbound) : ST (Proxy R) Phase := λ px,
  match dispatch_first first with
  | Err st => (Returned, send_status tx st px)
  | Ok (start, sandbox_id) =>
      let '(p1, px) := task_step tx (Resolving start sandbox_id) px in
      let '(p2, px) := task_step tx p1 px in
      let '(p3, px) := task_step tx p2 px in
      let '(p4, px) := task_step tx p3 px in
      task_step tx p4 px
  end.

Lemma send_or_spawn_inner tx f x :
  IoSessions.inner (IoSessions.send_or_spawn tx f x) = IoSessions.inner x.
Proof.
  unfold IoSessions.send_or_spawn, IoSessions.try_send.
  destruct (IoSessions.gateways x !! tx) as [gw|]; [|done].
  destruct (negb _); [done|]. by case_decide.
Qed.

(** The task returned, sent its gateway the code [c] and left the sessions [m]. *)
Definition refused (tx : nat) (c : Code) (m : gmap string IoSessions.IoSessionRecord) px
    (run : Phase * Proxy R) : Prop :=
  run.1 = Returned ∧ px_tunnels run.2 = px_tunnels px ∧
  IoSessions.inner (px_sessions run.2) = m ∧
  ∃ st x, code st = c ∧ IoSessions.gateways x = IoSessions.gateways (px_sessions px) ∧
    px_sessions run.2 = IoSessions.send_or_spawn tx (Err st) x.

Lemma refused_send tx st px px' m :
  IoSessions.inner (px_sessions px') = m → px_tunnels px' = px_tunnels px →
  IoSessions.gateways (px_sessions px') = IoSessions.gateways (px_sessions px) →
  refused tx (code st) m px (Returned, send_status tx st px').
Proof.
  intros Hm Ht Hg. split; [done|]. split; [done|]. simpl. rewrite send_or_spawn_inner.
  split; [done|]. by exists st, (px_sessions px').
Qed.

(** Opening a stream. A first frame that is not a start frame of a well-formed
    sandbox id gets InvalidArgument (Internal when the request stream broke). Otherwise,
    on a proxy that is not draining: when the sandbox is in the routing table and its
    agent has a live tunnel, the task registers exactly one session, under a new id, for
    that agent, that gateway and the tunnel's current generation, and the agent receives
    the start frame, unchanged, under that id; with no route the gateway gets NotFound,
    with the store failing Internal, with no tunnel or a dying one Unavailable, and then
    no session is left behind and nothing reaches a tunnel. *)
Theorem open_stream_behaviour px tx first :
  px_draining px = false →
  let run := open_stream tx first px in
  let x := px_sessions px in
  let id := IoSessions.stream_id_of (IoSessions.counter x) in
  IoSessions.inner x !! id = None →
  match dispatch_first first with
  | Err st => refused tx (code st) (IoSessions.inner x) px run ∧
      code st = (if first is Broken _ then CodeInternal else InvalidArgument)
  | Ok (start, sandbox_id) =>
      match (lookup_or_fetch (px_db px) (subdomain sandbox_id) (px_cache px)).1 with
      | Err e => refused tx CodeInternal (IoSessions.inner x) px run
      | Ok None => refused tx NotFound (IoSessions.inner x) px run
      | Ok (Some r) =>
          match TunnelPool.tunnels (px_pool px) !! cr_agent_id r with
          | None => refused tx Unavailable (IoSessions.inner x) px run
          | Some tn =>
              match px_tunnels px !! TunnelPool.request_tx tn with
              | Some (l, true) =>
                  run.1 = Running id ∧
                  px_tunnels run.2 =
                    <[TunnelPool.request_tx tn := (l ++ [wrap id (Some (CStart start))], true)]>
                      (px_tunnels px) ∧
                  IoSessions.gateways (px_sessions run.2) = IoSessions.gateways x ∧
                  IoSessions.inner (px_sessions run.2) =
                    <[id := {| IoSessions.agent_id := cr_agent_id r; IoSessions.server_tx := tx;
                               IoSessions.generation := TunnelPool.generation tn |}]>
                      (IoSessions.inner x)
              | _ => refused tx Unavailable (IoSessions.inner x) px run
              end
          end
      end
  end.
Proof.
  intros Hd run x id Hfresh. unfold run, open_stream.
  destruct (dispatch_first first) as [[start sandbox_id]|st] eqn:Ef.
  2:{ split; [by apply refused_send|]. unfold dispatch_first in Ef.
      destruct first as [f| |e]; [|by injection Ef as <-..].
      destruct (icf_payload f) as [[s| | |]|]; [|by injection Ef as <-..].
      destruct (parse_str _); [done|by injection Ef as <-]. }
  simpl. unfold dispatch_route.
  destruct (lookup_or_fetch _ _ _) as [[[r|]|e] cache]; simpl.
  2-3: by apply (refused_send tx (status _ _) px (with_cache cache px)).
  unfold dispatch_allocate, TunnelPool.get_sender_with_generation. simpl.
  destruct (TunnelPool.tunnels (px_pool px) !! cr_agent_id r) as [tn|]; simpl.
  2: by apply (refused_send tx (status _ _) px (with_cache cache px)).
  unfold dispatch_recheck. simpl. rewrite Hd. simpl. unfold dispatch_start, tunnel_send. simpl.
  destruct (px_tunnels px !! TunnelPool.request_tx tn) as [[l []]|]; simpl; [done| |];
    (apply (refused_send tx (status _ _)); simpl; [by rewrite delete_insert_id|done..]).
Qed.
End open_theorem.

Module IoStreamExamples.
Import ProxyExamples.

Definition start1 : IoStart :=
  {| is_sandbox_id := hyphenated sb1; is_params := Some (PListDir "/" "") |}.
Definition first1 : Inbound :=
  Frame {| icf_stream_id := ""; icf_payload := Some (CStart start1) |}.

(** Agent 1 connects, one stream is running and another has just been inserted when the
    signal comes; the timeout passes and the supervisor finishes. *)
Definition shutdown : list (Event PgRows) :=
  [EvTunnelOpen 0 Public None;
   EvTunnelMessage 0 {| tr_stream_id := ""; tr_payload := Some (RReady (hyphenated (uid 1))) |};
   EvOpen 7 RoleInternal None; EvFirst 7 first1;
   EvTask 7; EvTask 7; EvTask 7; EvTask 7; EvTask 7;
   EvOpen 8 RoleInternal None; EvFirst 8 first1; EvTask 8; EvTask 8; EvTask 8;
   EvSigterm; EvDrainLoopExit true; EvDrainDecide].

Abbreviation after_shutdown := (run None None shutdown (boot (Rows rows1))).

Lemma drain_never_silent_witness :
  sy_sup after_shutdown = Complete ∧ gateway_told after_shutdown 7 ∧
  gateway_told (step None None after_shutdown (EvTask 8)) 8.
Proof.
  assert (sy_sup after_shutdown = Complete) as Hc by evaluate.
  assert (sy_tasks after_shutdown !! 7%nat = Some (Running "io-0")) as H7 by evaluate.
  assert (sy_tasks after_shutdown !! 8%nat = Some (Inserted start1 (uid 1) 0 "io-1")) as H8
    by evaluate.
  pose proof (drain_never_silent None None (Rows rows1) shutdown ltac:(done)) as (_ & Hx & Hy).
  split; [exact Hc|]. split; [exact (Hx Hc 7%nat _ H7 I)|].
  assert (sy_sup after_shutdown ≠ Waiting) as Hw by (intros E; rewrite Hc in E; discriminate E).
  exact (proj1 (proj2 (Hy Hw 8%nat _ _ _ _ H8))).
Defined.

Definition pump1 : Pump :=
  {| pu_agent_id := uid 1; pu_stream_id := "io-1"; saw_explicit_close := false |}.
Definition typed : list IoClientFrame :=
  [{| icf_stream_id := "mine"; icf_payload := Some (CStdin "ls") |};
   {| icf_stream_id := "mine"; icf_payload := Some (CClose true) |}].

Lemma pump_relays_and_closes_witness :
  ∃ sent, px_tunnels (pump_task pump1 typed reconnected) !! 2%nat = Some (sent, true) ∧
    sent = [wrap "io-1" (Some (CStdin "ls")); wrap "io-1" (Some (CClose true));
            wrap "io-1" (Some (CClose false))].
Proof.
  assert (TunnelPool.tunnels (px_pool reconnected) !! pu_agent_id pump1 =
    Some {| TunnelPool.request_tx := 2; TunnelPool.generation := 2 |}) as E by evaluate.
  pose proof (pump_relays_and_closes pump1 typed reconnected eq_refl) as Hx. rewrite E in Hx.
  destruct (Hx [] ltac:(evaluate)) as (sent & Hs & _ & Hsent & _).
  exists sent. split; [exact Hs|exact Hsent].
Defined.

Lemma open_stream_behaviour_witness :
  (open_stream 9 first1 (with_sessions {| IoSessions.inner := ∅; IoSessions.counter := 2;
     IoSessions.gateways := {[9%nat := gw_empty]} |} reconnected)).1 = Running "io-2".
Proof.
  pose proof (open_stream_behaviour (with_sessions {| IoSessions.inner := ∅;
    IoSessions.counter := 2; IoSessions.gateways := {[9%nat := gw_empty]} |} reconnected) 9 first1
    eq_refl ltac:(evaluate)) as Hx.
  replace (dispatch_first first1) with (@Ok (IoStart * @Uuid RefUuid) Status (start1, sb1)) in Hx
    by evaluate.
  match type of Hx with match ?l with _ => _ end =>
    replace l with (@Ok _ ProxyError (Some {| cr_agent_id := uid 1; cr_route_id := sb1 |})) in Hx
      by evaluate end.
  match type of Hx with match ?l with _ => _ end =>
    replace l with (Some {| TunnelPool.request_tx := 2; TunnelPool.generation := 2 |}) in Hx
      by evaluate end.
  match type of Hx with match ?l with _ => _ end =>
    replace l with (Some (@nil TunnelRequest, true)) in Hx by evaluate end.
  exact (proj1 Hx).
Defined.
(** A tunnel that ends between a stream's look at the pool and its insert: the cleanup
    finds no session to cancel, the request channel still takes the start frame (its
    forwarder has not noticed yet), and the stream is left running on a tunnel that is
    gone, with nothing sent to its gateway. *)
Definition late_insert : list (Event PgRows) :=
  [EvTunnelOpen 0 Public None;
   EvTunnelMessage 0 {| tr_stream_id := ""; tr_payload := Some (RReady (hyphenated (uid 1))) |};
   EvOpen 7 RoleInternal None; EvFirst 7 first1; EvTask 7; EvTask 7;
   EvTunnelEnd 0; EvTask 7; EvTask 7; EvTask 7].

Theorem late_insert_dangles :
  let s := run None None late_insert (boot (Rows rows1)) in
  sy_tasks s !! 7%nat = Some (Running "io-0") ∧
  TunnelPool.tunnels (px_pool (sy_px s)) = ∅ ∧ sy_tunnels s = ∅ ∧
  IoSessions.gateways (px_sessions (sy_px s)) !! 7%nat = Some gw_empty.
Proof. split_and!; evaluate. Qed.
End IoStreamExamples.
