(* ===== verification/Downlink.v ===== *)
(** * From the agent to the gateway: the proxy's bounded channel

    crates/proxy/src/{grpc,io_sessions}.rs: the frames an agent sends for a session arrive on its
    tunnel and are put into the session's channel of [IO_SESSION_BUFFER] frames, from which the
    gateway takes them. A schedule says in which order frames arrive and are taken. A frame
    that finds the channel full is dropped and the session goes on. *)

From S2P Require Import Prelude Contracts UuidRef ControllerCore IoFrames Routing Tunnels ProxyGrpc IoStream.

Inductive DownEvent := Arrives | Taken.

(** The effect of a frame on its channel. *)
Definition offer (f : IoServerFrame) (gw : IoSessions.Gateway) : IoSessions.Gateway :=
  if IoSessions.gw_open gw then
    if decide (length (IoSessions.queue gw) < IoSessions.IO_SESSION_BUFFER)%nat then
      {| IoSessions.received := IoSessions.received gw; IoSessions.queue := IoSessions.queue gw ++ [Ok f];
         IoSessions.spawned := IoSessions.spawned gw; IoSessions.gw_open := true |}
    else gw
  else gw.

Fixpoint down_gw (sched : list DownEvent) (frames : list IoServerFrame) (gw : IoSessions.Gateway)
    : IoSessions.Gateway :=
  match sched with
  | [] => gw
  | Taken :: sched => down_gw sched frames (IoSessions.receive_gw gw)
  | Arrives :: sched =>
      match frames with
      | [] => down_gw sched [] gw
      | f :: frames => down_gw sched frames (offer f gw)
      end
  end.

(** The gateway takes everything, and no frame finds the channel full. *)
Fixpoint keeps_up (waiting coming : nat) (sched : list DownEvent) : bool :=
  match sched with
  | [] => bool_decide (waiting = 0 ∧ coming = 0)%nat
  | Taken :: sched => keeps_up (pred waiting) coming sched
  | Arrives :: sched =>
      match coming with
      | O => keeps_up waiting 0 sched
      | S coming => bool_decide (waiting < IoSessions.IO_SESSION_BUFFER)%nat && keeps_up (S waiting) coming sched
      end
  end.

Definition fresh_gateway : IoSessions.Gateway :=
  {| IoSessions.received := []; IoSessions.queue := []; IoSessions.spawned := []; IoSessions.gw_open := true |}.

Lemma down_gw_keeps_up sched frames gw :
  IoSessions.gw_open gw = true → IoSessions.spawned gw = [] →
  keeps_up (length (IoSessions.queue gw)) (length frames) sched = true →
  IoSessions.received (down_gw sched frames gw) =
    IoSessions.received gw ++ IoSessions.queue gw ++ (Ok <$> frames).
Proof.
  revert frames gw. induction sched as [|[|] sched IH]; intros frames gw Ho Hs; cbn [keeps_up down_gw].
  - intros [Hq Hf]%bool_decide_eq_true. apply length_zero_iff_nil in Hq, Hf. by rewrite Hq, Hf, !app_nil_r.
  - destruct frames as [|f frames]; cbn [length]; [exact (IH [] gw Ho Hs)|].
    intros [Hr%bool_decide_eq_true Hk]%andb_true_iff. unfold offer. rewrite Ho, decide_True by done.
    rewrite IH; [cbn; by rewrite <- app_assoc|done..|]. cbn [IoSessions.queue]. rewrite length_app.
    cbn [length]. by rewrite Nat.add_1_r.
  - intros Hk. destruct gw as [rcv q sp op]. cbn in Ho, Hs, Hk. subst op sp.
    destruct q as [|x q]; cbn [IoSessions.receive_gw IoSessions.queue IoSessions.spawned]; [by apply IH|].
    rewrite IH; [|done..]. cbn. by rewrite <- app_assoc.
Qed.

(** Whatever the order, what has been taken is what was there and then frames in their order,
    with some missing perhaps. *)
Lemma down_gw_keeps_order sched frames gw :
  IoSessions.spawned gw = [] →
  ∃ kept, kept `sublist_of` frames ∧
    IoSessions.received (down_gw sched frames gw) `prefix_of`
      IoSessions.received gw ++ IoSessions.queue gw ++ (Ok <$> kept).
Proof.
  revert frames gw. induction sched as [|[|] sched IH]; intros frames gw Hs; cbn [down_gw].
  - exists []. split; [apply sublist_nil_l|]. by apply prefix_app_r.
  - destruct frames as [|f frames]; [by apply IH|].
    destruct (IH frames (offer f gw)) as (kept & Hk & Hp).
    { unfold offer. by repeat case_match. }
    revert Hp. unfold offer. destruct (IoSessions.gw_open gw); [|intros; exists kept; by split; [constructor|]].
    case_decide; [|intros; exists kept; by split; [constructor|]].
    intros Hp. exists (f :: kept). split; [by constructor|]. cbn in Hp. by rewrite <- app_assoc in Hp.
  - destruct gw as [rcv q sp op]. cbn in Hs. subst sp.
    destruct q as [|x q]; cbn [IoSessions.receive_gw IoSessions.queue IoSessions.spawned]; [by apply IH|].
    match goal with |- context [down_gw sched frames ?gw] =>
      destruct (IH frames gw eq_refl) as (kept & Hk & Hp) end.
    exists kept. split; [done|]. cbn in Hp |- *. by rewrite <- app_assoc in Hp.
Qed.

Section downlink.
Context `{UuidLib} {R : Type} `{!RoutingStore R}.
(** The tunnel's channel and what its task knows, the stream and its gateway's channel. *)
Context (request_tx : nat) (l : TunnelLocal) (stream_id : string) (gtx : nat).

Fixpoint downlink (sched : list DownEvent) (frames : list IoServerFrame) (px : Proxy R) : Proxy R :=
  match sched with
  | [] => px
  | Taken :: sched =>
      downlink sched frames (with_sessions (IoSessions.receive gtx (px_sessions px)) px)
  | Arrives :: sched =>
      match frames with
      | [] => downlink sched [] px
      | f :: frames =>
          downlink sched frames
            (on_tunnel_message request_tx l {| tr_stream_id := stream_id; tr_payload := Some (RIoServer f) |} px).2
      end
  end.

(** What the gateway has got. *)
Definition got (px : Proxy R) : list (result IoServerFrame Status) :=
  from_option IoSessions.received [] (IoSessions.gateways (px_sessions px) !! gtx).

(** The stream is the agent's, and its gateway is there. *)
Record stream_open (agent : AgentId) (px : Proxy R) (gw : IoSessions.Gateway) : Prop := {
  so_registered : registered l = Some agent;
  so_record : ∃ r, IoSessions.inner (px_sessions px) !! stream_id = Some r ∧
    IoSessions.agent_id r = agent ∧ IoSessions.server_tx r = gtx;
  so_gateway : IoSessions.gateways (px_sessions px) !! gtx = Some gw;
}.

Lemma downlink_gateway agent sched frames px gw :
  stream_open agent px gw → stream_open agent (downlink sched frames px) (down_gw sched frames gw).
Proof.
  revert frames px gw. induction sched as [|[|] sched IH]; intros frames px gw Hso; cbn [downlink down_gw]; [done| |].
  - destruct frames as [|f frames]; [by apply IH|]. apply IH. destruct Hso as [Hl (r & Hr & Ha & Ht) Hg].
    unfold on_tunnel_message. cbn [tr_payload]. rewrite Hl. unfold IoSessions.deliver_server_frame.
    cbn [tr_stream_id]. rewrite Hr, decide_True, Ht by done. unfold IoSessions.try_send. rewrite Hg.
    unfold offer. destruct (IoSessions.gw_open gw) eqn:Eo; cbn [negb].
    + case_decide; cbn; (split; [done|by exists r|]); [apply lookup_insert_eq|done].
    + cbn. split; [done|by exists r|done].
  - apply IH. destruct Hso as [Hl Hr Hg]. split; [done|done|]. cbn. by rewrite lookup_alter_eq, Hg.
Qed.

Lemma downlink_got agent sched frames px gw :
  stream_open agent px gw → got (downlink sched frames px) = IoSessions.received (down_gw sched frames gw).
Proof. intros Hso. unfold got. by rewrite (so_gateway _ _ _ (downlink_gateway _ sched frames _ _ Hso)). Qed.

Lemma downlink_kept_up agent sched frames px :
  stream_open agent px fresh_gateway → keeps_up 0 (length frames) sched = true →
  got (downlink sched frames px) = Ok <$> frames.
Proof. intros Hso Hk. rewrite (downlink_got _ _ _ _ _ Hso). by rewrite down_gw_keeps_up. Qed.

(** In any order: some of the frames, in theirs; all of them if the gateway keeps up. *)
Lemma downlink_some agent sched frames px :
  stream_open agent px fresh_gateway →
  ∃ kept, got (downlink sched frames px) = Ok <$> kept ∧ kept `sublist_of` frames ∧
    (keeps_up 0 (length frames) sched = true → kept = frames).
Proof.
  intros Hso. destruct (down_gw_keeps_order sched frames fresh_gateway eq_refl) as (kept & Hk & [rest Hp]).
  cbn in Hp. apply fmap_app_inv in Hp as (k1 & k2 & H1 & H2 & ->).
  pose proof (downlink_kept_up agent sched frames px Hso) as Hall. rewrite (downlink_got _ _ _ _ _ Hso) in *.
  exists k1. split; [done|]. split; [etrans; [by apply sublist_inserts_r|done]|].
  intros Hup. specialize (Hall Hup). rewrite H1 in Hall. by apply (list_fmap_eq_inj Ok) in Hall; [|by intros ?? [=]].
Qed.
End downlink.
