(* ===== verification/HttpServer.v ===== *)
(** * The proxy's HTTP front end (crates/proxy/src/http_server.rs)

    [handle_request] in its two halves: from the request to the frame on the agent's
    tunnel, and from the router's answer to the response; [Router::route_request] joins
    them through the stream multiplexer. *)

From S2P Require Import Prelude Contracts UuidRef ControllerCore IoFrames Routing Tunnels ProxyGrpc.

Definition MAX_REQUEST_BODY_BYTES : Z := 50 * 1024 * 1024.

Definition HOP_BY_HOP_HEADERS : list string :=
  ["connection"; "keep-alive"; "proxy-authenticate"; "proxy-authorization"; "te"; "trailer";
   "transfer-encoding"; "upgrade"].

(** A header value: its text, or [None] when [to_str] fails on it. *)
Abbreviation HeaderValue := (option string) (only parsing).
(** hyper's [HeaderMap] as the list its iterator gives: lowercase names, values of one name
    in order of arrival. *)
Abbreviation HeaderMap := (list (string * HeaderValue)) (only parsing).

(** [headers.get(name)]: the first value. *)
Fixpoint header_get (name : string) (hs : HeaderMap) : option HeaderValue :=
  match hs with
  | [] => None
  | (k, v) :: hs' => if decide (k = name) then Some v else header_get name hs'
  end.

(** [v.split(',')]: never empty. *)
Fixpoint split_comma (s : string) : list string :=
  match s with
  | EmptyString => [""]
  | String a s' =>
      if decide (a = ","%char) then "" :: split_comma s' else
      match split_comma s' with
      | [] => [String a ""]
      | w :: ws => String a w :: ws
      end
  end.

(** [str::trim] on the text of a header, whose only white space is blank and tab. *)
Definition is_blank (a : ascii) : bool := bool_decide (a = " "%char) || bool_decide (a = "009"%char).
Fixpoint trim_start (s : string) : string :=
  match s with String a s' => if is_blank a then trim_start s' else s | EmptyString => s end.
Fixpoint trim_end (s : string) : string :=
  match s with
  | EmptyString => ""
  | String a s' =>
      match trim_end s' with
      | EmptyString => if is_blank a then "" else String a ""
      | t => String a t
      end
  end.
Definition trim (s : string) : string := trim_start (trim_end s).

Definition connection_headers (hs : HeaderMap) : list string :=
  match mjoin (header_get "connection" hs) with
  | Some v => (λ s, to_ascii_lowercase (trim s)) <$> split_comma v
  | None => []
  end.

(** One pass of the loop over the headers. *)
Definition forwards (named : list string) (name : string) : bool :=
  let lower := to_ascii_lowercase name in
  negb (bool_decide (lower ∈ HOP_BY_HOP_HEADERS)) && negb (bool_decide (lower ∈ named)).

Fixpoint forward_loop (named : list string) (hs : HeaderMap) (headers : gmap string string)
    : gmap string string :=
  match hs with
  | [] => headers
  | (name, value) :: hs' =>
      if negb (forwards named name) then forward_loop named hs' headers else
      match value with
      | Some v => forward_loop named hs' (<[name := v]> headers)
      | None => forward_loop named hs' headers
      end
  end.

Definition forwarded_headers (hs : HeaderMap) : gmap string string :=
  forward_loop (connection_headers hs) hs ∅.

Record Request := {
  rq_method : string;
  rq_path_and_query : option string;
  rq_headers : HeaderMap;
  (** the whole body, or [None] when reading it failed *)
  rq_body : option bytes;
}.

Record Response := { rs_status : Z; rs_headers : list (string * string); rs_body : bytes }.

Definition plain (st : Z) : Response := {| rs_status := st; rs_headers := []; rs_body := "" |}.
Definition bad_gateway : Response := plain 502.
Definition not_found : Response := plain 404.
Definition gateway_timeout : Response := plain 504.
Definition payload_too_large : Response := plain 413.

(** [Limited::new(body, MAX).collect()]. *)
Definition collect_body (body : option bytes) : option bytes :=
  b ← body; if decide (Z.of_nat (String.length b) ≤ MAX_REQUEST_BODY_BYTES)%Z then Some b else None.

Definition u16_max : Z := 65535.
(** [StatusCode::from_u16]: 100 to 999. *)
Definition status_code (code : Z) : Z :=
  if decide (0 ≤ code ≤ u16_max ∧ 100 ≤ code < 1000)%Z then code else 500.

Section handler.
Context `{UuidLib} {R : Type} `{!RoutingStore R}.
(** Whether the [http] crate accepts a header name and value. *)
Variable header_valid : string → string → bool.

(** [route_request], up to the wait: what is needed to wait for the reply. *)
Record PendingReply := { wt_slot : nat; wt_agent_id : AgentId; wt_sandbox_id : string; wt_stream : string }.

Definition route_request (slot : nat) (host method uri : string) (headers : gmap string string)
    (body : bytes) : ST (Proxy R) (result PendingReply ProxyError) := λ px,
  match route_request_target (px_db px) host (px_cache px) with
  | (Err e, cache) => (Err e, with_cache cache px)
  | (Ok (agent_id, sandbox_id), cache) =>
      match send_request slot agent_id
              {| hq_method := method; hq_uri := uri; hq_headers := headers; hq_body := body;
                 hq_sandbox_id := sandbox_id |} (with_cache cache px) with
      | (Ok id, px') => (Ok {| wt_slot := slot; wt_agent_id := agent_id;
                               wt_sandbox_id := sandbox_id; wt_stream := id |}, px')
      | (Err e, px') => (Err e, px')
      end
  end.

(** From the router's answer to the response. [None] is the panic of
    [expect("fresh builder")], which the builder's deferred error causes. *)
Definition respond (answer : result HttpResponse ProxyError) : option Response :=
  match answer with
  | Ok resp =>
      let hs := map_to_list (hr_headers resp) in
      if forallb (λ h, header_valid h.1 h.2) hs then
        Some {| rs_status := status_code (hr_status_code resp); rs_headers := hs;
                rs_body := hr_body resp |}
      else None
  | Err (RoutingMiss _) => Some not_found
  | Err (UpstreamTimeout _ _) => Some gateway_timeout
  | Err _ => Some bad_gateway
  end.

(** [handle_request] up to the wait: a reply to wait for, or the response at once. *)
Definition handle_request (slot : nat) (req : Request) : ST (Proxy R) (PendingReply + option Response) :=
  λ px,
  let host := default "" (mjoin (header_get "host" (rq_headers req))) in
  let uri := default "/" (rq_path_and_query req) in
  let headers := forwarded_headers (rq_headers req) in
  match collect_body (rq_body req) with
  | None => (inr (Some payload_too_large), px)
  | Some body =>
      match route_request slot host (rq_method req) uri headers body px with
      | (Ok w, px') => (inl w, px')
      | (Err e, px') => (inr (respond (Err e)), px')
      end
  end.

(** The wait, and the response when it is over. *)
Definition finish_request (w : PendingReply) (timed_out : bool)
    : ST (Proxy R) (option (option Response)) := λ px,
  match await_response (wt_slot w) (wt_agent_id w) (wt_sandbox_id w) (wt_stream w) timed_out px with
  | (Some answer, px') => (Some (respond answer), px')
  | (None, px') => (None, px')
  end.
End handler.
Arguments PendingReply {_}.

(** ** Headers *)

(** The last value of [k] that is text. *)
Definition last_text (k : string) (hs : HeaderMap) : option string :=
  last (omap (λ h, if decide (h.1 = k) then h.2 else None) hs).

Lemma last_text_cons k h hs :
  last_text k (h :: hs) =
    match last_text k hs with
    | Some v => Some v
    | None => if decide (h.1 = k) then h.2 else None
    end.
Proof.
  unfold last_text. simpl. destruct (if decide (h.1 = k) then h.2 else None) as [v|].
  - rewrite last_cons. done.
  - by destruct (last _).
Qed.

Lemma forward_loop_lookup named hs m k :
  forward_loop named hs m !! k =
    match (if forwards named k then last_text k hs else None) with
    | Some v => Some v
    | None => m !! k
    end.
Proof.
  revert m. induction hs as [|[name value] hs IH]; intros m; simpl; [by destruct (forwards _ _)|].
  rewrite last_text_cons. simpl. destruct (decide (name = k)) as [->|Hne].
  - destruct (forwards named k) eqn:Ef; simpl; [|by rewrite IH, ?Ef].
    destruct value as [v|]; rewrite IH; rewrite ?Ef; destruct (last_text k hs); [done| |done|done].
    apply lookup_insert_eq.
  - destruct (negb (forwards named name)); [|destruct value]; rewrite IH;
      destruct (forwards named k), (last_text k hs); try done; by apply lookup_insert_ne.
Qed.

Definition token (t : string) : bool :=
  string_forallb (λ a, negb (is_blank a) && negb (bool_decide (a = ","%char))) t.

Lemma trim_end_token t : token t = true → trim_end t = t.
Proof.
  unfold token. induction t as [|a t IH]; [done|]. simpl.
  rewrite !andb_true_iff, !negb_true_iff. intros [[Hb _] Ht]. rewrite IH by done.
  destruct t; [by rewrite Hb|done].
Qed.

Lemma trim_start_token t : token t = true → trim_start t = t.
Proof.
  unfold token. destruct t as [|a t]; [done|]. simpl.
  rewrite !andb_true_iff, !negb_true_iff. by intros [[-> _] _].
Qed.

Lemma trim_end_blank t : token t = true → t ≠ "" → trim_end (String " " t) = String " " t.
Proof. intros Ht Hne. simpl. rewrite trim_end_token by done. by destruct t. Qed.

Lemma split_comma_token t rest :
  token t = true → split_comma (t +:+ String "," rest) = t :: split_comma rest.
Proof.
  unfold token. induction t as [|a t IH]; [done|]. simpl.
  rewrite !andb_true_iff, !negb_true_iff, !bool_decide_eq_false. intros [[_ Hc] Ht].
  rewrite decide_False by done. by rewrite IH.
Qed.

Lemma split_comma_last t : token t = true → split_comma t = [t].
Proof.
  unfold token. induction t as [|a t IH]; [done|]. simpl.
  rewrite !andb_true_iff, !negb_true_iff, !bool_decide_eq_false. intros [[_ Hc] Ht].
  rewrite decide_False by done. by rewrite IH.
Qed.

(** [tokens.join(", ")]. *)
Fixpoint join_comma (ts : list string) : string :=
  match ts with
  | [] => ""
  | [t] => t
  | t :: ts' => t +:+ ", " +:+ join_comma ts'
  end.

Lemma split_blank s : ∃ w ws, split_comma s = w :: ws ∧ split_comma (String " " s) = String " " w :: ws.
Proof.
  assert (∃ w ws, split_comma s = w :: ws) as (w & ws & E).
  { destruct s as [|a s]; simpl; [eauto|]. case_decide; [eauto|]. destruct (split_comma s); eauto. }
  exists w, ws. split; [done|]. simpl. by rewrite E.
Qed.

Lemma trim_blank s : trim (String " " s) = trim s.
Proof.
  unfold trim. simpl. destruct (trim_end s) as [|a t] eqn:E; [done|]. done.
Qed.

Lemma split_join ts :
  ts ≠ [] → Forall (λ t, token t = true) ts → trim <$> split_comma (join_comma ts) = ts.
Proof.
  intros Hne Ht. induction Ht as [|t ts Htok Hts IH]; [done|]. destruct ts as [|t' ts].
  - simpl. rewrite split_comma_last by done. simpl. unfold trim.
    by rewrite trim_end_token, trim_start_token.
  - change (join_comma (t :: t' :: ts)) with (t +:+ String "," (String " " (join_comma (t' :: ts)))).
    rewrite split_comma_token by done. destruct (split_blank (join_comma (t' :: ts))) as (w & ws & E & ->).
    rewrite E in IH. specialize (IH ltac:(done)). rewrite fmap_cons in IH. rewrite !fmap_cons.
    rewrite trim_blank. f_equal; [|done]. unfold trim. by rewrite trim_end_token, trim_start_token.
Qed.

(** What is forwarded. A header reaches the agent with the value [v] exactly when [v]
    is its last textual value, it is not one of the hop-by-hop headers, and it is not named
    by the first Connection header; and the names a Connection header lists, separated by
    comma and blank and in any case, are all recognised. *)
Theorem forwarded_headers_exact hs :
  (∀ k v, forwarded_headers hs !! k = Some v ↔
     last_text k hs = Some v ∧ ¬ (to_ascii_lowercase k ∈ HOP_BY_HOP_HEADERS) ∧
     ¬ (to_ascii_lowercase k ∈ connection_headers hs)) ∧
  (∀ ts, ts ≠ [] → Forall (λ t, token t = true) ts →
     header_get "connection" hs = Some (Some (join_comma ts)) →
     connection_headers hs = to_ascii_lowercase <$> ts).
Proof.
  split.
  - intros k v. unfold forwarded_headers. rewrite forward_loop_lookup, lookup_empty.
    destruct (forwards (connection_headers hs) k) eqn:E.
    + unfold forwards in E. apply andb_true_iff in E as [E1 E2].
      rewrite negb_true_iff, bool_decide_eq_false in E1, E2. destruct (last_text k hs); naive_solver.
    + split; [done|]. intros (_ & H1 & H2). unfold forwards in E.
      by rewrite !bool_decide_eq_false_2 in E.
  - intros ts Hne Ht Hget. unfold connection_headers. rewrite Hget. simpl.
    rewrite <- (split_join ts) at 2 by done. by rewrite <- list_fmap_compose.
Qed.

(** A name listed only in a second Connection header is forwarded all the same. *)
Theorem second_connection_header_ignored :
  forwarded_headers [("connection", Some "close"); ("connection", Some "x-internal");
                     ("x-internal", Some "secret")] !! "x-internal" = Some "secret".
Proof. reflexivity. Qed.

(** ** Responses *)

(** What the client gets. Every outcome has a response with a status between 100 and
    999: the agent's own status when it is one, 500 otherwise, 404, 504 or 502 by the kind
    of failure; with one exception: the handler panics exactly when the agent's response
    carries a header the http crate does not accept. *)
Theorem responses_by_outcome header_valid answer :
  (respond header_valid answer = None ↔
     ∃ resp k v, answer = Ok resp ∧ hr_headers resp !! k = Some v ∧ header_valid k v = false) ∧
  (∀ r, respond header_valid answer = Some r →
     (100 ≤ rs_status r ≤ 999)%Z ∧
     match answer with
     | Ok resp => rs_body r = hr_body resp ∧ rs_headers r = map_to_list (hr_headers resp) ∧
         rs_status r = (if decide (100 ≤ hr_status_code resp ≤ 999)%Z then hr_status_code resp
                        else 500%Z)
     | Err e => rs_status r = (match e with
         | RoutingMiss _ => 404 | UpstreamTimeout _ _ => 504 | _ => 502 end)%Z
     end).
Proof.
  destruct answer as [resp|[]]; simpl; try (split; [naive_solver|]; intros ? [= <-]; simpl; lia).
  destruct (forallb _ _) eqn:E.
  - rewrite forallb_forall in E. split; [split; [done|]|].
    + intros (? & k & v & [= <-] & Hk & Hv). exfalso.
      specialize (E (k, v)). simpl in E. rewrite Hv in E. discriminate E.
      by apply list_elem_of_In, elem_of_map_to_list.
    + intros ? [= <-]. simpl. unfold status_code, u16_max. repeat case_decide; (split; [lia|]); (split; [done|]); (split; [done|]); lia.
  - split; [|done]. split; [intros _|done]. apply not_true_iff_false in E.
    rewrite forallb_forall in E.
    destruct (decide (map_Forall (λ k v, header_valid k v = true) (hr_headers resp))) as [Ha|Hn].
    + destruct E. intros [k v] Hin%list_elem_of_In%elem_of_map_to_list. by apply (Ha k v).
    + apply map_not_Forall in Hn as (k & v & Hk & Hv); [|apply _].
      exists resp, k, v. split; [done|]. split; [done|]. by apply not_true_iff_false.
Qed.

(** ** A request and its answer *)

Section exchange.
Context `{UuidLib} {R : Type} `{!RoutingStore R}.
Variable header_valid : string → string → bool.
Implicit Types (px : Proxy R).

Lemma route_request_inv slot host method uri headers body px w px' :
  route_request slot host method uri headers body px = (Ok w, px') →
  ∃ tn l, TunnelPool.tunnels (px_pool px) !! wt_agent_id w = Some tn ∧
    (route_request_target (px_db px) host (px_cache px)).1 =
      Ok (wt_agent_id w, wt_sandbox_id w) ∧
    wt_slot w = slot ∧
    px_tunnels px !! TunnelPool.request_tx tn = Some (l, true) ∧
    px_tunnels px' = <[TunnelPool.request_tx tn :=
      (l ++ [{| tq_stream_id := wt_stream w;
                tq_payload := Some (QHttpRequest {| hq_method := method; hq_uri := uri;
                  hq_headers := headers; hq_body := body; hq_sandbox_id := wt_sandbox_id w |}) |}],
       true)]> (px_tunnels px) ∧
    StreamMux.pending (px_mux px') !! wt_stream w =
      Some {| StreamMux.response_tx := slot; StreamMux.agent_id := wt_agent_id w;
              StreamMux.generation := TunnelPool.generation tn |} ∧
    StreamMux.oneshots (px_mux px') !! slot = Some None.
Proof.
  unfold route_request. destruct (route_request_target _ _ _) as [[[a sid]|e] cache]; [|done].
  unfold send_request, TunnelPool.get_sender_with_generation. simpl.
  destruct (TunnelPool.tunnels (px_pool px) !! a) as [tn|] eqn:Etn; [|done]. simpl.
  unfold tunnel_send. simpl.
  destruct (px_tunnels px !! TunnelPool.request_tx tn) as [[l []]|] eqn:El; [|done..].
  intros [= <- <-]. simpl. exists tn, l. split; [done|]. split; [done|]. split; [done|].
  split; [done|]. split; [done|]. split; apply lookup_insert_eq.
Qed.

(** Once the stream is open, each way it can end. *)
Lemma finish_request_cases w px g :
  StreamMux.pending (px_mux px) !! wt_stream w =
    Some {| StreamMux.response_tx := wt_slot w; StreamMux.agent_id := wt_agent_id w;
            StreamMux.generation := g |} →
  StreamMux.oneshots (px_mux px) !! wt_slot w = Some None →
  let finish m b := (finish_request header_valid w b (with_mux m px)).1 in
  let x := px_mux px in
  (∀ resp, finish (StreamMux.deliver_response (wt_stream w) (wt_agent_id w) resp x).2 false =
     Some (respond header_valid (Ok resp))) ∧
  (∀ b reason, finish (StreamMux.fail_stream (wt_stream w) (wt_agent_id w) reason x) b =
     Some (Some bad_gateway)) ∧
  finish (StreamMux.cancel_agent_streams_at_generation (wt_agent_id w) g x) false =
    Some (Some bad_gateway) ∧
  finish x true = Some (Some gateway_timeout) ∧
  finish x false = None ∧
  (∀ b resp, b ≠ wt_agent_id w →
     StreamMux.deliver_response (wt_stream w) b resp x = (false, x)) ∧
  (∀ b resp, (StreamMux.deliver_response (wt_stream w) b resp
     (px_mux (finish_request header_valid w true px).2)).1 = false).
Proof.
  intros Hp Ho. simpl.
  assert (∀ b, StreamMux.take_owned (wt_stream w) b (px_mux px) =
    if decide (wt_agent_id w = b) then
      Some {| StreamMux.response_tx := wt_slot w; StreamMux.agent_id := wt_agent_id w;
              StreamMux.generation := g |} else None) as Htake.
  { intros b. unfold StreamMux.take_owned. by rewrite Hp. }
  unfold finish_request, await_response. split; [|split; [|split; [|split; [|split; [|split]]]]].
  - intros resp. unfold StreamMux.deliver_response, StreamMux.oneshot_send.
    rewrite Htake, decide_True by done. simpl. rewrite Ho. simpl. by rewrite lookup_insert_eq.
  - intros b reason. unfold StreamMux.fail_stream, StreamMux.oneshot_send.
    rewrite Htake, decide_True by done. simpl. rewrite Ho. simpl. by rewrite lookup_insert_eq.
  - simpl. rewrite Ho, (proj2 (map_lookup_filter_None _ _ _)); [done|]. right.
    intros p Hp' Hn. rewrite Hp in Hp'. injection Hp' as <-. by apply Hn.
  - simpl. by rewrite Ho.
  - simpl. by rewrite Ho, Hp.
  - intros b resp Hb. unfold StreamMux.deliver_response. by rewrite Htake, decide_False by congruence.
  - intros b resp. rewrite Ho. unfold StreamMux.deliver_response, StreamMux.take_owned. simpl.
    by rewrite lookup_delete_eq.
Qed.

(** An HTTP request and its answer. When a request is passed on, the tunnel of the agent
    that the host name routes to receives exactly one frame with the request's method, path,
    forwarded headers and body, and a reply is awaited under its stream id. That agent's
    response is then what the client gets; its refusal, or the end of that tunnel, gives
    502; the timeout gives 504, after which a late response goes nowhere; a response from
    any other agent is dropped and changes nothing; and as long as none of these happens the
    request keeps waiting. *)
Theorem http_request_answered slot req px w px' :
  handle_request header_valid slot req px = (inl w, px') →
  let host := default "" (mjoin (header_get "host" (rq_headers req))) in
  (route_request_target (px_db px) host (px_cache px)).1 = Ok (wt_agent_id w, wt_sandbox_id w) ∧
  ∃ tn l body, TunnelPool.tunnels (px_pool px) !! wt_agent_id w = Some tn ∧
  rq_body req = Some body ∧ (Z.of_nat (String.length body) ≤ MAX_REQUEST_BODY_BYTES)%Z ∧
  px_tunnels px !! TunnelPool.request_tx tn = Some (l, true) ∧
  px_tunnels px' = <[TunnelPool.request_tx tn :=
    (l ++ [{| tq_stream_id := wt_stream w;
              tq_payload := Some (QHttpRequest {| hq_method := rq_method req;
                hq_uri := default "/" (rq_path_and_query req);
                hq_headers := forwarded_headers (rq_headers req); hq_body := body;
                hq_sandbox_id := wt_sandbox_id w |}) |}], true)]> (px_tunnels px) ∧
  let finish m b := (finish_request header_valid w b (with_mux m px')).1 in
  let x := px_mux px' in
  (∀ resp, finish (StreamMux.deliver_response (wt_stream w) (wt_agent_id w) resp x).2 false =
     Some (respond header_valid (Ok resp))) ∧
  (∀ b reason, finish (StreamMux.fail_stream (wt_stream w) (wt_agent_id w) reason x) b =
     Some (Some bad_gateway)) ∧
  finish (StreamMux.cancel_agent_streams_at_generation (wt_agent_id w)
            (TunnelPool.generation tn) x) false = Some (Some bad_gateway) ∧
  finish x true = Some (Some gateway_timeout) ∧
  finish x false = None ∧
  (∀ b resp, b ≠ wt_agent_id w →
     StreamMux.deliver_response (wt_stream w) b resp x = (false, x)) ∧
  (∀ b resp, (StreamMux.deliver_response (wt_stream w) b resp
     (px_mux (finish_request header_valid w true px').2)).1 = false).
Proof.
  unfold handle_request. destruct (collect_body (rq_body req)) as [body|] eqn:Eb; [|done].
  destruct (route_request _ _ _ _ _ _ px) as [[w'|e] px1] eqn:Er; [|done]. intros [= -> ->].
  apply route_request_inv in Er as (tn & l & Htn & Htgt & Hslot & Hl & Hsent & Hp & Ho).
  split; [done|]. exists tn, l, body. split; [done|].
  unfold collect_body in Eb. destruct (rq_body req) as [b|]; [|done]. simpl in Eb.
  case_decide; [|done]. injection Eb as ->. do 4 (split; [done|]).
  rewrite <- Hslot in Hp, Ho. by apply finish_request_cases.
Qed.
End exchange.

Module HttpExamples.
Import ProxyExamples.

Definition get_index : Request :=
  {| rq_method := "GET"; rq_path_and_query := Some "/index.html";
     rq_headers := [("host", Some "111111111111.sandbox.test"); ("te", Some "trailers")];
     rq_body := Some "" |}.

Lemma http_request_answered_witness :
  match handle_request (λ _ _, true) 3 get_index reconnected with
  | (inl w, px') => (finish_request (λ _ _, true) w true px').1 = Some (Some gateway_timeout)
  | _ => False
  end.
Proof.
  destruct (handle_request (λ _ _, true) 3 get_index reconnected) as [[w|r] px'] eqn:E.
  - pose proof (http_request_answered (λ _ _, true) 3 get_index reconnected w px' E)
      as (_ & tn & l & body & _ & _ & _ & _ & _ & _ & _ & _ & Ht & _ & _).
    destruct px'. exact Ht.
  - apply (f_equal (λ r, match r with (inl _, _) => true | _ => false end)) in E.
    vm_compute in E. discriminate E.
Defined.
End HttpExamples.
