(* ===== verification/ProxyShutdown.v ===== *)
(** * The proxy's HTTP listener and the end of the process

    crates/proxy/src/http_server.rs [run_with_shutdown], and the end of [run_proxy] in
    crates/cli/src/run.rs: the listeners wait for the drain of the sessions, and the process
    for the first listener that returns. Connections are numbered in the order of their
    acceptance. *)

From S2P Require Import Prelude Contracts.

(** ** http_server.rs: the accept loop and its drain *)

Record Listening := {
  ls_accepting : bool;
  (** how many were accepted, and which are open, served, and cut *)
  ls_accepted : nat;
  ls_open : gset nat;
  ls_served : gset nat;
  ls_cut : gset nat;
  ls_result : option (result () ProxyError);
}.

Definition listening_start : Listening :=
  {| ls_accepting := true; ls_accepted := 0; ls_open := ∅; ls_served := ∅; ls_cut := ∅; ls_result := None |}.

Inductive ListenEvent :=
| LAccepted
| LAcceptFailed (e : string)
| LServed (conn : nat)
| LShutdown
| LTimeout.

(** The function returns; what is still open goes with its [JoinSet]. *)
Definition listen_return (r : result () ProxyError) (s : Listening) : Listening :=
  {| ls_accepting := false; ls_accepted := ls_accepted s; ls_open := ∅; ls_served := ls_served s;
     ls_cut := ls_cut s ∪ ls_open s; ls_result := Some r |}.

(** The drain is over when no connection is open. *)
Definition drained (s : Listening) : Listening :=
  if decide (ls_accepting s = false ∧ ls_open s = ∅) then listen_return (Ok ()) s else s.

(** A zero [drain_timeout] waits forever. *)
Definition listen_step (drain_timeout : Z) (s : Listening) (ev : ListenEvent) : Listening :=
  match ls_result s with
  | Some _ => s
  | None =>
      match ev with
      | LAccepted =>
          if ls_accepting s then
            {| ls_accepting := true; ls_accepted := S (ls_accepted s); ls_open := {[ls_accepted s]} ∪ ls_open s;
               ls_served := ls_served s; ls_cut := ls_cut s; ls_result := None |}
          else s
      | LAcceptFailed e => if ls_accepting s then listen_return (Err (ProxyInternal e)) s else s
      | LServed conn =>
          if decide (conn ∈ ls_open s) then
            drained {| ls_accepting := ls_accepting s; ls_accepted := ls_accepted s;
                       ls_open := ls_open s ∖ {[conn]}; ls_served := {[conn]} ∪ ls_served s;
                       ls_cut := ls_cut s; ls_result := None |}
          else s
      | LShutdown =>
          drained {| ls_accepting := false; ls_accepted := ls_accepted s; ls_open := ls_open s;
                     ls_served := ls_served s; ls_cut := ls_cut s; ls_result := None |}
      | LTimeout =>
          if decide (ls_accepting s = false ∧ drain_timeout ≠ 0%Z) then listen_return (Ok ()) s else s
      end
  end.

Definition run_with_shutdown (drain_timeout : Z) (evs : list ListenEvent) : Listening :=
  foldl (listen_step drain_timeout) listening_start evs.

(** [wait_for_drain]: whether it has resolved, by the value it finds first and the changes it
    sees; [None]: the sender is gone. *)
Fixpoint drain_changes (changes : list (option bool)) : bool :=
  match changes with
  | [] => false
  | None :: _ => true
  | Some done :: changes => if done then true else drain_changes changes
  end.
Definition wait_for_drain (first : bool) (changes : list (option bool)) : bool :=
  if first then true else drain_changes changes.

(** ** The end of the process *)

Record ProxyProcess := {
  pp_http : Listening;
  (** how the process ended *)
  pp_exit : option (result () string);
}.

Inductive ProcessEvent :=
| PHttp (ev : ListenEvent)
(** a gRPC listener returns; [split]: there is an internal one *)
| PPublic (r : result () string)
| PInternal (r : result () string).

(** The process ends with the first listener that returns. *)
Definition process_step (drain_timeout : Z) (split : bool) (p : ProxyProcess) (ev : ProcessEvent) : ProxyProcess :=
  match pp_exit p with
  | Some _ => p
  | None =>
      let ends r := {| pp_http := listen_return (Ok ()) (pp_http p); pp_exit := Some r |} in
      match ev with
      | PHttp ev =>
          let http := listen_step drain_timeout (pp_http p) ev in
          {| pp_http := http; pp_exit := map_err ProxyError_to_string <$> ls_result http |}
      | PPublic r => ends r
      | PInternal r => if split then ends r else p
      end
  end.

Definition proxy_process (drain_timeout : Z) (split : bool) (evs : list ProcessEvent) : ProxyProcess :=
  foldl (process_step drain_timeout split) {| pp_http := listening_start; pp_exit := None |} evs.

(** ** What the drain promises *)

#[local] Arguments set_seq : simpl never.

(** Every connection is open, served or cut; only a return cuts. *)
Record listen_inv (s : Listening) : Prop := {
  li_all : ls_open s ∪ ls_served s ∪ ls_cut s = set_seq 0 (ls_accepted s);
  li_apart : ls_open s ## ls_served s ∧ ls_open s ## ls_cut s ∧ ls_served s ## ls_cut s;
  li_running : ls_result s = None → ls_cut s = ∅;
  li_returned : is_Some (ls_result s) → ls_open s = ∅ ∧ ls_accepting s = false;
}.

Lemma return_inv r s : ls_result s = None → listen_inv s → listen_inv (listen_return r s).
Proof.
  intros Hn [Ha Hd Hr _]. rewrite (Hr Hn) in *. split; cbn; [|set_solver|done|done].
  rewrite <- Ha, (Hr Hn). set_solver.
Qed.

Lemma drained_inv s : ls_result s = None → listen_inv s → listen_inv (drained s).
Proof. intros Hn Hi. unfold drained. case_decide; [by apply return_inv|done]. Qed.

Lemma listen_step_inv t s ev : listen_inv s → listen_inv (listen_step t s ev).
Proof.
  intros Hi. unfold listen_step. destruct (ls_result s) eqn:En; [done|]. pose proof Hi as [Ha Hd Hr Ho].
  specialize (Hr En). destruct ev as [|e|conn| |].
  - destruct (ls_accepting s); [|done]. split; cbn; [| |done|by intros []].
    + rewrite Hr in *. rewrite set_seq_S_end_union_L, <- Ha. set_solver.
    + assert (ls_accepted s ∉ ls_open s ∪ ls_served s ∪ ls_cut s) as Hnew.
      { rewrite Ha. rewrite elem_of_set_seq. lia. }
      set_solver.
  - destruct (ls_accepting s); [by apply return_inv|done].
  - case_decide as Hin; [|done]. apply drained_inv; [done|]. split; cbn; [| |done|by intros []].
    + rewrite <- Ha. apply set_eq. intros x. destruct (decide (x = conn)); set_solver.
    + set_solver.
  - apply drained_inv; [done|]. split; cbn; [done|done|done|by intros []].
  - case_decide; [by apply return_inv|done].
Qed.

Lemma listen_run_inv t evs s : listen_inv s → listen_inv (foldl (listen_step t) s evs).
Proof. revert s. induction evs as [|ev evs IH]; intros s Hs; [done|]. by apply IH, listen_step_inv. Qed.

Lemma start_inv : listen_inv listening_start.
Proof. split; cbn; [done|set_solver|done|by intros []]. Qed.

(** Only a timeout or a failed accept cuts. *)
Definition cuts (t : Z) (ev : ListenEvent) : bool :=
  match ev with LTimeout => negb (bool_decide (t = 0%Z)) | LAcceptFailed _ => true | _ => false end.

Lemma drained_cut s : ls_cut (drained s) = ls_cut s.
Proof.
  unfold drained. case_decide as Hd; [|done]. cbn. destruct Hd as [_ ->]. set_solver.
Qed.

Lemma step_cut t s ev : cuts t ev = false → ls_cut (listen_step t s ev) = ls_cut s.
Proof.
  unfold listen_step. destruct (ls_result s); [done|]. destruct ev as [|e|conn| |]; cbn; intros Hc; try done.
  - by destruct (ls_accepting s).
  - case_decide; [by rewrite drained_cut|done].
  - by rewrite drained_cut.
  - rewrite negb_false_iff, bool_decide_eq_true in Hc. rewrite decide_False; [done|]. tauto.
Qed.

Lemma run_cut t evs s :
  Forall (λ ev, cuts t ev = false) evs → ls_cut (foldl (listen_step t) s evs) = ls_cut s.
Proof.
  intros Hf. revert s. induction Hf as [|ev evs Hev _ IH]; intros s; [done|]. cbn. by rewrite IH, step_cut.
Qed.

(** After the shutdown nothing is accepted. *)
Lemma step_closed t s ev :
  ls_accepting s = false →
  ls_accepting (listen_step t s ev) = false ∧ ls_accepted (listen_step t s ev) = ls_accepted s.
Proof.
  intros Ha. unfold listen_step. destruct (ls_result s); [done|]. destruct ev; rewrite ?Ha; try done.
  - case_decide; [|done]. unfold drained. by case_decide.
  - unfold drained. by case_decide.
  - by case_decide.
Qed.

Lemma run_closed t evs s :
  ls_accepting s = false →
  ls_accepting (foldl (listen_step t) s evs) = false ∧ ls_accepted (foldl (listen_step t) s evs) = ls_accepted s.
Proof.
  revert s. induction evs as [|ev evs IH]; intros s Ha; [done|]. cbn.
  destruct (step_closed t s ev Ha) as [Ha' <-]. by apply IH.
Qed.

Lemma shutdown_closes t s : listen_inv s → ls_accepting (listen_step t s LShutdown) = false.
Proof.
  intros Hi. unfold listen_step. destruct (ls_result s) eqn:E; [by apply (li_returned s Hi)|].
  unfold drained. by case_decide.
Qed.

(** Serving what is open ends the drain. *)
Lemma serving_ends t conns s :
  listen_inv s → ls_accepting s = false → (∀ c, c ∈ ls_open s → c ∈ conns) → ls_open s ≠ ∅ → ls_result s = None →
  let s' := foldl (listen_step t) s (LServed <$> conns) in
  ls_result s' = Some (Ok ()) ∧ ls_cut s' = ls_cut s.
Proof.
  revert s. induction conns as [|c conns IH]; intros s Hi Ha Hin Hne Hn.
  { destruct Hne. apply set_eq. set_solver. }
  cbn [fmap list_fmap foldl]. set (s1 := listen_step t s (LServed c)).
  assert (listen_inv s1) as Hi1 by by apply listen_step_inv.
  assert (ls_accepting s1 = false) as Ha1 by by apply step_closed.
  assert (ls_cut s1 = ls_cut s) as Hc1 by by apply step_cut.
  assert (ls_open s1 = ls_open s ∖ {[c]} ∧ ls_result s1 = if decide (ls_open s ∖ {[c]} = ∅) then Some (Ok ()) else None) as [Ho Hr].
  { unfold s1, listen_step. rewrite Hn. case_decide as Hc.
    - unfold drained. cbn. rewrite Ha. destruct (decide (ls_open s ∖ {[c]} = ∅)) as [E|E].
      + rewrite decide_True by done. by rewrite E.
      + rewrite decide_False by tauto. done.
    - assert (ls_open s ∖ {[c]} = ls_open s) as E by set_solver. rewrite E, decide_False by done. by rewrite Hn. }
  destruct (decide (ls_open s ∖ {[c]} = ∅)) as [E|E].
  - assert (∀ l, foldl (listen_step t) s1 l = s1) as Hstay.
    { induction l as [|ev l IHl]; [done|]. cbn. unfold listen_step at 2. by rewrite Hr. }
    rewrite Hstay. by split.
  - rewrite <- Hc1. apply IH; [done|done| |by rewrite Ho|done].
    intros d. rewrite Ho, elem_of_difference, elem_of_singleton. intros [Hd Hdc].
    destruct (proj1 (elem_of_cons _ _ _) (Hin d Hd)); [done|done].
Qed.

(** C38: The HTTP listener's drain. In every order of connections, ends and signals: each
    accepted connection is exactly one of open, served and cut, and nothing is cut while the
    listener runs. After the shutdown no connection is accepted. A connection is cut only by
    the drain's timeout, if there is one, or by a failed accept. And the drain ends: as soon as
    the open connections are served, with none cut, or by the timeout. *)
Theorem http_drain t evs :
  let s := run_with_shutdown t evs in
  ls_open s ∪ ls_served s ∪ ls_cut s = set_seq 0 (ls_accepted s) ∧
  (ls_open s ## ls_served s ∧ ls_open s ## ls_cut s ∧ ls_served s ## ls_cut s) ∧
  (ls_result s = None → ls_cut s = ∅) ∧
  (Forall (λ ev, cuts t ev = false) evs → ls_cut s = ∅) ∧
  let s1 := listen_step t s LShutdown in
  (∀ evs', ls_accepted (foldl (listen_step t) s1 evs') = ls_accepted s) ∧
  (ls_result s = None →
     (let s2 := foldl (listen_step t) s1 (LServed <$> elements (ls_open s)) in
      ls_result s2 = Some (Ok ()) ∧ ls_cut s2 = ∅) ∧
     (t ≠ 0%Z → ls_result (listen_step t s1 LTimeout) = Some (Ok ()))).
Proof.
  intros s. assert (listen_inv s) as Hi by apply listen_run_inv, start_inv. pose proof Hi as [H1 H2 H3 H4].
  split; [done|]. split; [done|]. split; [done|]. split.
  { intros Hf. exact (run_cut t evs listening_start Hf). }
  intros s1. pose proof (shutdown_closes t s Hi) as Ha1. fold s1 in Ha1.
  assert (listen_inv s1) as Hi1 by by apply listen_step_inv.
  assert (ls_accepted s1 = ls_accepted s) as Hacc.
  { unfold s1, listen_step. destruct (ls_result s); [done|]. unfold drained. by case_decide. }
  split; [intros evs'; by rewrite (proj2 (run_closed t evs' s1 Ha1))|]. intros Hn.
  assert (ls_cut s1 = ∅) as Hc1 by (unfold s1; rewrite step_cut by done; auto).
  assert (ls_open s1 = ls_open s ∧ ls_result s1 = if decide (ls_open s = ∅) then Some (Ok ()) else None) as [Ho Hr].
  { unfold s1, listen_step. rewrite Hn. unfold drained. cbn. destruct (decide (ls_open s = ∅)) as [E|E].
    - rewrite decide_True by done. by rewrite E.
    - rewrite decide_False by tauto. done. }
  assert (∀ l, ls_result s1 = Some (Ok ()) → foldl (listen_step t) s1 l = s1) as Hstay.
  { intros l Hr1. induction l as [|ev l IH]; [done|]. cbn. unfold listen_step at 2. by rewrite Hr1. }
  destruct (decide (ls_open s = ∅)) as [E|E].
  - split; [cbn zeta; by rewrite Hstay|]. intros _. unfold listen_step at 1. by rewrite Hr.
  - split.
    + destruct (serving_ends t (elements (ls_open s)) s1) as [Hx Hy]; [done|done|..|by rewrite Ho|done|].
      * intros c. rewrite Ho. by rewrite elem_of_elements.
      * split; [done|]. by rewrite Hy.
    + intros Ht. unfold listen_step at 1. rewrite Hr. rewrite decide_True by done. done.
Qed.

(** As long as no gRPC listener returns, the process is its HTTP listener. *)
Lemma process_is_http t split evs :
  pp_http (proxy_process t split (PHttp <$> evs)) = run_with_shutdown t evs.
Proof.
  unfold proxy_process, run_with_shutdown.
  assert (∀ s x, (is_Some x → is_Some (ls_result s)) →
    pp_http (foldl (process_step t split) {| pp_http := s; pp_exit := x |} (PHttp <$> evs)) =
    foldl (listen_step t) s evs) as Hg; [|by apply Hg; intros []].
  induction evs as [|ev evs IH]; intros s x Hx; [done|]. cbn [fmap list_fmap foldl].
  unfold process_step at 2. cbn [pp_exit]. destruct x as [r|].
  - destruct Hx as [r' Hr]; [by eexists|]. assert (listen_step t s ev = s) as ->
      by (unfold listen_step; by rewrite Hr). apply IH. intros _. by eexists.
  - cbn [pp_http]. apply IH. intros [r Hr]. by destruct (ls_result (listen_step t s ev)).
Qed.

Module ShutdownExamples.
(** One response is in flight when the drain of the sessions is over. The internal gRPC
    listener, with no session left, returns at once, and with it the process: the response is
    cut, far from the timeout. *)
Example http_response_cut :
  let p := proxy_process 30000 true [PHttp LAccepted; PHttp LShutdown; PInternal (Ok ())] in
  pp_exit p = Some (Ok ()) ∧ ls_cut (pp_http p) = {[0%nat]} ∧
  ls_served (pp_http (proxy_process 30000 true [PHttp LAccepted; PHttp LShutdown; PHttp (LServed 0)])) = {[0%nat]}.
Proof. split; [evaluate|]. split; evaluate. Qed.

(** One failed accept ends the whole process and what it was serving. *)
Example failed_accept_ends_proxy :
  let p := proxy_process 30000 true [PHttp LAccepted; PHttp (LAcceptFailed "too many open files")] in
  pp_exit p = Some (Err "internal error: too many open files") ∧ ls_cut (pp_http p) = {[0%nat]}.
Proof. split; evaluate. Qed.
End ShutdownExamples.
