(* ===== verification/AgentSandbox.v ===== *)
(** * The agent's sandboxes (crates/agent/src/{sandbox,controller_client,reconnect}.rs)

    [SandboxManager] over an abstract container runtime, the reports the agent sends for
    each command, the reconnect backoff, and the commands as concurrent tasks under the
    per-sandbox lock. *)

From S2P Require Import Prelude Contracts UuidRef Store MemStore ControllerCore ControllerGrpc.

(** ** container.rs *)

Abbreviation ContainerId := string (only parsing).

Inductive ContainerState := CRunning | CPaused | CStopped.

Record ContainerConfig `{UuidLib} := {
  cc_sandbox_id : SandboxId;
  cc_image : string;
  cc_cpu_limit_millicores : Z;
  cc_memory_limit_bytes : Z;
  cc_env_vars : gmap string string;
  cc_exposed_port : Z;
  cc_pull_policy : PullPolicy;
}.

Record ContainerInfo `{UuidLib} := {
  ci_id : ContainerId;
  ci_sandbox_id : SandboxId;
  ci_host_port : Z;
  ci_state : ContainerState;
}.

(** The runtime's lifecycle operations on its own state [W]. A create that has not
    finished when its deadline passes answers [None]; its effects stay. *)
Class ContainerRuntime `{UuidLib} (W : Type) := {
  create_and_start : ContainerConfig → ST W (option (result ContainerInfo AgentError));
  stop_and_remove : ContainerId → Z → ST W (result () AgentError);
  pause : ContainerId → ST W (result () AgentError);
  unpause : ContainerId → ST W (result () AgentError);
  list_sandbox_containers : ST W (result (list ContainerInfo) AgentError);
}.

(** ** sandbox.rs *)

Record SandboxEntry := {
  se_container_id : ContainerId;
  se_host_port : Z;
  se_state : SandboxState;
}.

Definition with_state (st : SandboxState) (e : SandboxEntry) : SandboxEntry :=
  {| se_container_id := se_container_id e; se_host_port := se_host_port e; se_state := st |}.

Section manager.
Context `{UuidLib} {W : Type} `{!ContainerRuntime W}.
(** The text of the uuid crate's parse error. *)
Variable uuid_error : string → string.

Record Agent := { ag_runtime : W; ag_sandboxes : gmap SandboxId SandboxEntry }.
Implicit Types (ag : Agent).

Definition with_runtime (w : W) ag : Agent := {| ag_runtime := w; ag_sandboxes := ag_sandboxes ag |}.
Definition with_sandboxes (m : gmap SandboxId SandboxEntry) ag : Agent :=
  {| ag_runtime := ag_runtime ag; ag_sandboxes := m |}.

(** A runtime call from the manager. *)
Definition call {A} (op : ST W A) : ST Agent A := λ ag,
  let '(a, w) := op (ag_runtime ag) in (a, with_runtime w ag).

Definition parse_sandbox_id (raw : string) : result SandboxId AgentError :=
  ok_or (parse_str raw) (AgentInternal (uuid_error raw)).

Definition no_such_sandbox (sandbox_id : SandboxId) : AgentError :=
  AgentSandboxNotFound (hyphenated sandbox_id).

Definition default_config : SandboxConfig :=
  {| cpu_limit_millicores := 0; memory_limit_bytes := 0; env_vars := ∅; exposed_port := 0;
     pull_policy := 0 |}.

Definition container_config (sandbox_id : SandboxId) (image : string)
    (config : option SandboxConfig) : ContainerConfig :=
  let config := default default_config config in
  {| cc_sandbox_id := sandbox_id; cc_image := image;
     cc_cpu_limit_millicores := cpu_limit_millicores config;
     cc_memory_limit_bytes := memory_limit_bytes config;
     cc_env_vars := env_vars config; cc_exposed_port := exposed_port config;
     cc_pull_policy := pull_policy_from_i32 (pull_policy config) |}.

Definition deadline_error (sandbox_id : SandboxId) : AgentError :=
  Runtime ("create_and_start deadline of " +:+ pretty (SANDBOX_CREATE_DEADLINE / 1000)%Z +:+
           "s exceeded for sandbox " +:+ hyphenated sandbox_id).

Definition start_sandbox (raw_id image : string) (config : option SandboxConfig)
    : ST Agent (result SandboxState AgentError) := λ ag,
  match parse_sandbox_id raw_id with
  | Err e => (Err e, ag)
  | Ok sandbox_id =>
      let '(o, ag) := call (create_and_start (container_config sandbox_id image config)) ag in
      let runtime_result := default (Err (deadline_error sandbox_id)) o in
      match runtime_result with
      | Ok info =>
          (Ok Running, with_sandboxes (<[sandbox_id := {| se_container_id := ci_id info;
             se_host_port := ci_host_port info; se_state := Running |}]> (ag_sandboxes ag)) ag)
      | Err e =>
          (Err e, with_sandboxes (<[sandbox_id := {| se_container_id := "";
             se_host_port := 0; se_state := Failed |}]> (ag_sandboxes ag)) ag)
      end
  end.

(** [pause_sandbox] and [unpause_sandbox] with the runtime operation and the state it
    leads to. *)
Definition freeze_sandbox (op : ContainerId → ST W (result () AgentError)) (goal : SandboxState)
    (raw_id : string) : ST Agent (result SandboxState AgentError) := λ ag,
  match parse_sandbox_id raw_id with
  | Err e => (Err e, ag)
  | Ok sandbox_id =>
      match ag_sandboxes ag !! sandbox_id with
      | None => (Err (no_such_sandbox sandbox_id), ag)
      | Some entry =>
          if decide (se_state entry = goal) then (Ok goal, ag) else
          match call (op (se_container_id entry)) ag with
          | (Err e, ag) => (Err e, ag)
          | (Ok _, ag) =>
              (Ok goal, with_sandboxes (alter (with_state goal) sandbox_id (ag_sandboxes ag)) ag)
          end
      end
  end.

Definition pause_sandbox : string → ST Agent (result SandboxState AgentError) :=
  freeze_sandbox pause Paused.
Definition unpause_sandbox : string → ST Agent (result SandboxState AgentError) :=
  freeze_sandbox unpause Running.

Definition stop_sandbox (raw_id : string) (timeout_seconds : Z)
    : ST Agent (result SandboxState AgentError) := λ ag,
  match parse_sandbox_id raw_id with
  | Err e => (Err e, ag)
  | Ok sandbox_id =>
      match ag_sandboxes ag !! sandbox_id with
      | None => (Err (no_such_sandbox sandbox_id), ag)
      | Some entry =>
          match call (stop_and_remove (se_container_id entry) (timeout_seconds * 1000)) ag with
          | (Err e, ag) => (Err e, ag)
          | (Ok _, ag) => (Ok Stopped, with_sandboxes (delete sandbox_id (ag_sandboxes ag)) ag)
          end
      end
  end.

Definition host_port_for (sandbox_id : SandboxId) ag : result Z AgentError :=
  ok_or (se_host_port <$> ag_sandboxes ag !! sandbox_id) (no_such_sandbox sandbox_id).

Definition get_sandbox (sandbox_id : SandboxId) ag : option SandboxEntry := ag_sandboxes ag !! sandbox_id.

Definition container_id_for (sandbox_id : SandboxId) ag : result ContainerId AgentError :=
  ok_or (se_container_id <$> ag_sandboxes ag !! sandbox_id) (no_such_sandbox sandbox_id).

Definition container_for_io (sandbox_id : SandboxId) ag
    : result (ContainerId * SandboxState) AgentError :=
  ok_or ((λ e, (se_container_id e, se_state e)) <$> ag_sandboxes ag !! sandbox_id)
    (no_such_sandbox sandbox_id).

Definition reconciled_entry (info : ContainerInfo) : SandboxEntry :=
  {| se_container_id := ci_id info; se_host_port := ci_host_port info;
     se_state := match ci_state info with
                 | CRunning => Running | CPaused => Paused | CStopped => Stopped end |}.

Definition reconcile : ST Agent (result (list (SandboxId * SandboxEntry)) AgentError) := λ ag,
  match call list_sandbox_containers ag with
  | (Err e, ag) => (Err e, ag)
  | (Ok containers, ag) =>
      (Ok ((λ info, (ci_sandbox_id info, reconciled_entry info)) <$> containers),
       with_sandboxes (foldl (λ m info, <[ci_sandbox_id info := reconciled_entry info]> m)
                         (ag_sandboxes ag) containers) ag)
  end.

(** ** controller_client.rs *)

(** One lifecycle command of the controller, and the status reported for its outcome. *)
Definition execute (cmd : ControllerCommand)
    : ST Agent (option (result SandboxState AgentError)) := λ ag,
  match cmd with
  | StartSandbox id image config => let '(r, ag) := start_sandbox id image config ag in (Some r, ag)
  | StopSandbox id secs => let '(r, ag) := stop_sandbox id secs ag in (Some r, ag)
  | PauseSandbox id => let '(r, ag) := pause_sandbox id ag in (Some r, ag)
  | UnpauseSandbox id => let '(r, ag) := unpause_sandbox id ag in (Some r, ag)
  | _ => (None, ag)
  end.

(** What is reported when the command fails. *)
Definition failure_state (cmd : ControllerCommand) : SandboxState :=
  match cmd with
  | PauseSandbox _ => Running
  | UnpauseSandbox _ => Paused
  | _ => Failed
  end.

Definition command_sandbox (cmd : ControllerCommand) : string :=
  match cmd with
  | StartSandbox id _ _ | StopSandbox id _ | PauseSandbox id | UnpauseSandbox id => id
  | _ => ""
  end.

Definition status_report (cmd : ControllerCommand) (r : result SandboxState AgentError)
    : AgentPayload :=
  match r with
  | Ok s => SandboxStatus (command_sandbox cmd) (SandboxState_as_i32 s) ""
  | Err e => SandboxStatus (command_sandbox cmd) (SandboxState_as_i32 (failure_state cmd))
               (AgentError_to_string e)
  end.

Definition on_command (cmd : ControllerCommand) : ST Agent (option AgentPayload) := λ ag,
  let '(r, ag) := execute cmd ag in (status_report cmd <$> r, ag).

(** The registration handshake on the first message of the controller. *)
Definition handshake (first : option (option ControllerCommand)) : result () AgentError :=
  match first with
  | Some (Some (RegisterResponse accepted reason _)) =>
      if accepted then Ok () else Err (AgentInternal reason)
  | _ => Err ControllerDisconnected
  end.
End manager.
Arguments Agent {_} _.

(** ** Commands as tasks

    Every command runs in a task of its own. It takes the lock of its sandbox, reads the
    entry, calls the runtime and updates the entry; between these other tasks run. *)

Section tasks.
Context `{UuidLib} {W : Type} `{!ContainerRuntime W}.
Variable uuid_error : string → string.

Inductive Pending :=
| PCreate (config : ContainerConfig)
| PStop (id : ContainerId) (timeout : Z)
| PPause (id : ContainerId)
| PUnpause (id : ContainerId).

Inductive Outcome :=
| OCreate (o : option (result ContainerInfo AgentError))
| OUnit (r : result () AgentError).

Definition perform (p : Pending) : ST W Outcome := λ w,
  match p with
  | PCreate config => let '(o, w) := create_and_start config w in (OCreate o, w)
  | PStop id timeout => let '(r, w) := stop_and_remove id timeout w in (OUnit r, w)
  | PPause id => let '(r, w) := pause id w in (OUnit r, w)
  | PUnpause id => let '(r, w) := unpause id w in (OUnit r, w)
  end.

(** Under the lock, before the runtime call: the command's result, or the call. *)
Definition look (cmd : ControllerCommand) (sid : SandboxId) (entry : option SandboxEntry)
    : result SandboxState AgentError + Pending :=
  let freeze goal p :=
    match entry with
    | None => inl (Err (no_such_sandbox sid))
    | Some e => if decide (se_state e = goal) then inl (Ok goal) else inr (p (se_container_id e))
    end in
  match cmd with
  | StartSandbox _ image config => inr (PCreate (container_config sid image config))
  | StopSandbox _ secs =>
      match entry with
      | None => inl (Err (no_such_sandbox sid))
      | Some e => inr (PStop (se_container_id e) (secs * 1000))
      end
  | PauseSandbox _ => freeze Paused PPause
  | _ => freeze Running PUnpause
  end.

(** Under the lock, after the runtime call: the result and the sandbox's new entry. *)
Definition settle (cmd : ControllerCommand) (sid : SandboxId) (o : Outcome)
    (entry : option SandboxEntry) : result SandboxState AgentError * option SandboxEntry :=
  let freeze goal r :=
    match r with Err e => (Err e, entry) | Ok _ => (Ok goal, with_state goal <$> entry) end in
  match cmd, o with
  | StartSandbox _ _ _, OCreate o =>
      match default (Err (deadline_error sid)) o with
      | Ok info => (Ok Running, Some {| se_container_id := ci_id info;
                      se_host_port := ci_host_port info; se_state := Running |})
      | Err e => (Err e, Some {| se_container_id := ""; se_host_port := 0; se_state := Failed |})
      end
  | StopSandbox _ _, OUnit r => match r with Err e => (Err e, entry) | Ok _ => (Ok Stopped, None) end
  | PauseSandbox _, OUnit r => freeze Paused r
  | _, OUnit r => freeze Running r
  | _, OCreate _ => (Ok Unspecified, entry)
  end.

Definition is_lifecycle (cmd : ControllerCommand) : bool :=
  match cmd with
  | StartSandbox _ _ _ | StopSandbox _ _ | PauseSandbox _ | UnpauseSandbox _ => true
  | _ => false
  end.

Inductive TaskPhase :=
| Queued
| Holding
| Calling (p : Pending)
| Called (o : Outcome)
| Done (r : result SandboxState AgentError).

Record Tasks := {
  tk_runtime : W;
  tk_entries : gmap SandboxId SandboxEntry;
  (** the command locks that are held, by the task that holds them *)
  tk_locks : gmap SandboxId nat;
  tk_tasks : gmap nat (ControllerCommand * TaskPhase);
}.
Implicit Types (s : Tasks).

Definition set_phase (i : nat) (cmd : ControllerCommand) (ph : TaskPhase) s : Tasks :=
  {| tk_runtime := tk_runtime s; tk_entries := tk_entries s; tk_locks := tk_locks s;
     tk_tasks := <[i := (cmd, ph)]> (tk_tasks s) |}.
Definition set_locks (m : gmap SandboxId nat) s : Tasks :=
  {| tk_runtime := tk_runtime s; tk_entries := tk_entries s; tk_locks := m;
     tk_tasks := tk_tasks s |}.
Definition set_runtime (w : W) s : Tasks :=
  {| tk_runtime := w; tk_entries := tk_entries s; tk_locks := tk_locks s;
     tk_tasks := tk_tasks s |}.
Definition set_entry (sid : SandboxId) (e : option SandboxEntry) s : Tasks :=
  {| tk_runtime := tk_runtime s; tk_entries := partial_alter (λ _, e) sid (tk_entries s);
     tk_locks := tk_locks s; tk_tasks := tk_tasks s |}.

(** One step of task [i]; a task that waits for its lock does not move. *)
Definition task_turn s (i : nat) : Tasks :=
  match tk_tasks s !! i with
  | None => s
  | Some (cmd, ph) =>
      match parse_str (command_sandbox cmd) with
      | None =>
          match ph with
          | Queued => set_phase i cmd (Done (Err (AgentInternal (uuid_error (command_sandbox cmd))))) s
          | _ => s
          end
      | Some sid =>
          match ph with
          | Queued =>
              match tk_locks s !! sid with
              | Some _ => s
              | None => set_phase i cmd Holding (set_locks (<[sid := i]> (tk_locks s)) s)
              end
          | Holding =>
              match look cmd sid (tk_entries s !! sid) with
              | inl r => set_phase i cmd (Done r) (set_locks (delete sid (tk_locks s)) s)
              | inr p => set_phase i cmd (Calling p) s
              end
          | Calling p =>
              let '(o, w) := perform p (tk_runtime s) in set_phase i cmd (Called o) (set_runtime w s)
          | Called o =>
              let '(r, e) := settle cmd sid o (tk_entries s !! sid) in
              set_phase i cmd (Done r)
                (set_entry sid e (set_locks (delete sid (tk_locks s)) s))
          | Done _ => s
          end
      end
  end.

Definition schedule (turns : list nat) s : Tasks := foldl task_turn s turns.

Definition queue_up (cmds : gmap nat ControllerCommand) (ag : Agent W) : Tasks :=
  {| tk_runtime := ag_runtime ag; tk_entries := ag_sandboxes ag; tk_locks := ∅;
     tk_tasks := (λ c, (c, Queued)) <$> cmds |}.

(** The same commands one after the other, with their results. *)
Definition one_by_one (cmds : gmap nat ControllerCommand) (order : list nat) (ag : Agent W)
    : gmap nat (result SandboxState AgentError) * Agent W :=
  foldl (λ acc i,
    match (λ c, execute uuid_error c acc.2) <$> cmds !! i with
    | Some (Some r, ag') => (<[i := r]> acc.1, ag')
    | Some (None, ag') => (acc.1, ag')
    | None => acc
    end) (∅, ag) order.

Lemma alter_as_partial_alter {A} (f : A → A) (m : gmap SandboxId A) k a :
  m !! k = Some a → alter f k m = partial_alter (λ _, Some (f a)) k m.
Proof.
  intros E. apply map_eq. intros j. rewrite lookup_alter, lookup_partial_alter.
  case_decide; [subst; by rewrite E|done].
Qed.

(** A command in one piece is a look, the call and the settling. *)
Lemma execute_split cmd sid ag :
  is_lifecycle cmd = true → parse_str (command_sandbox cmd) = Some sid →
  execute uuid_error cmd ag =
    match look cmd sid (ag_sandboxes ag !! sid) with
    | inl r => (Some r, ag)
    | inr p =>
        let '(o, w) := perform p (ag_runtime ag) in
        let '(r, e) := settle cmd sid o (ag_sandboxes ag !! sid) in
        (Some r, {| ag_runtime := w;
                    ag_sandboxes := partial_alter (λ _, e) sid (ag_sandboxes ag) |})
    end.
Proof.
  intros Hl Hp. destruct cmd; try done; simpl in *;
    unfold start_sandbox, stop_sandbox, pause_sandbox, unpause_sandbox, freeze_sandbox,
      parse_sandbox_id; rewrite Hp; simpl; unfold call.
  - destruct (create_and_start _ _) as [o w]. by destruct (default _ o).
  - destruct (ag_sandboxes ag !! sid) as [e|] eqn:E; [|done]. simpl.
    destruct (stop_and_remove _ _ _) as [[] w]; simpl; [done|].
    by rewrite <- E, partial_alter_self.
  - destruct (ag_sandboxes ag !! sid) as [e|] eqn:E; [|done]. case_decide; [done|]. simpl.
    destruct (pause _ _) as [[] w]; simpl.
    + unfold with_sandboxes. simpl. do 3 f_equal. by apply alter_as_partial_alter.
    + by rewrite <- E, partial_alter_self.
  - destruct (ag_sandboxes ag !! sid) as [e|] eqn:E; [|done]. case_decide; [done|]. simpl.
    destruct (unpause _ _) as [[] w]; simpl.
    + unfold with_sandboxes. simpl. do 3 f_equal. by apply alter_as_partial_alter.
    + by rewrite <- E, partial_alter_self.
Qed.

Lemma execute_no_id cmd ag :
  is_lifecycle cmd = true → parse_str (command_sandbox cmd) = None →
  execute uuid_error cmd ag =
    (Some (Err (AgentInternal (uuid_error (command_sandbox cmd)))), ag).
Proof.
  intros Hl Hp. destruct cmd; try done; simpl in *;
    unfold start_sandbox, stop_sandbox, pause_sandbox, unpause_sandbox, freeze_sandbox,
      parse_sandbox_id; by rewrite Hp.
Qed.

Lemma one_by_one_snoc cmds order ag i cmd r ag' :
  cmds !! i = Some cmd → execute uuid_error cmd (one_by_one cmds order ag).2 = (Some r, ag') →
  one_by_one cmds (order ++ [i]) ag = (<[i := r]> (one_by_one cmds order ag).1, ag').
Proof. intros Hc He. unfold one_by_one in *. rewrite foldl_snoc, Hc. simpl. by rewrite He. Qed.

(** The command has taken effect, or its task is under the lock. *)
Definition decided (ph : TaskPhase) : Prop :=
  match ph with Called _ | Done _ => True | _ => False end.
Definition critical (ph : TaskPhase) : Prop :=
  match ph with Holding | Calling _ | Called _ => True | _ => False end.

Definition cmd_sid (cmd : ControllerCommand) : option SandboxId := parse_str (command_sandbox cmd).

(** [order] explains [s]: running its commands one by one gives the runtime state, the
    results so far, and the entries up to the updates that are still to be written. *)
Record explains (cmds : gmap nat ControllerCommand) (ag : Agent W) s (order : list nat) : Prop := {
  ex_cmds i cmd ph : tk_tasks s !! i = Some (cmd, ph) → cmds !! i = Some cmd;
  ex_order i : i ∈ order ↔ ∃ cmd ph, tk_tasks s !! i = Some (cmd, ph) ∧ decided ph;
  ex_nodup : NoDup order;
  ex_runtime : ag_runtime (one_by_one cmds order ag).2 = tk_runtime s;
  ex_done i cmd r :
    tk_tasks s !! i = Some (cmd, Done r) → (one_by_one cmds order ag).1 !! i = Some r;
  ex_locks sid i : tk_locks s !! sid = Some i ↔
    ∃ cmd ph, tk_tasks s !! i = Some (cmd, ph) ∧ critical ph ∧ cmd_sid cmd = Some sid;
  ex_calling i cmd p sid :
    tk_tasks s !! i = Some (cmd, Calling p) → cmd_sid cmd = Some sid →
    look cmd sid (tk_entries s !! sid) = inr p;
  ex_called i cmd o sid :
    tk_tasks s !! i = Some (cmd, Called o) → cmd_sid cmd = Some sid →
    (one_by_one cmds order ag).1 !! i = Some (settle cmd sid o (tk_entries s !! sid)).1 ∧
    ag_sandboxes (one_by_one cmds order ag).2 !! sid = (settle cmd sid o (tk_entries s !! sid)).2;
  ex_free sid :
    (∀ i cmd o, tk_tasks s !! i = Some (cmd, Called o) → cmd_sid cmd ≠ Some sid) →
    ag_sandboxes (one_by_one cmds order ag).2 !! sid = tk_entries s !! sid;
}.

(** Two tasks under the lock of one sandbox are the same. *)
Lemma explains_exclusive cmds ag s order i j cmd cmd' ph ph' sid :
  explains cmds ag s order →
  tk_tasks s !! i = Some (cmd, ph) → critical ph → cmd_sid cmd = Some sid →
  tk_tasks s !! j = Some (cmd', ph') → critical ph' → cmd_sid cmd' = Some sid → i = j.
Proof.
  intros Hex Hi Hci Hsi Hj Hcj Hsj.
  assert (tk_locks s !! sid = Some i) by (apply (ex_locks _ _ _ _ Hex); eauto).
  assert (tk_locks s !! sid = Some j) by (apply (ex_locks _ _ _ _ Hex); eauto).
  congruence.
Qed.

Lemma explains_start cmds ag : explains cmds ag (queue_up cmds ag) [].
Proof.
  assert (∀ i cmd ph, tk_tasks (queue_up cmds ag) !! i = Some (cmd, ph) →
            cmds !! i = Some cmd ∧ ph = Queued) as Hq.
  { intros i cmd ph. simpl. rewrite lookup_fmap_Some. by intros (c & [= -> ->] & ?). }
  split; try done.
  - intros i cmd ph ?%Hq. naive_solver.
  - intros i. split; [by intros ?%not_elem_of_nil|]. intros (cmd & ph & [_ ->]%Hq & []).
  - constructor.
  - by intros i cmd r [_ ?]%Hq.
  - intros sid i. split; [done|]. intros (cmd & ph & [_ ->]%Hq & [] & _).
  - by intros i cmd p sid [_ ?]%Hq.
  - by intros i cmd p sid [_ ?]%Hq.
Qed.

(** A hypothesis about the task map after task [i] moved: it is [i], or another task. *)
Ltac task_cases Hx :=
  apply lookup_insert_Some in Hx; destruct Hx as [[? ?]|[? Hx]]; simplify_eq.

(** The task moves without taking effect: it takes the lock or starts the call. *)
Lemma explains_silent cmds ag s order i cmd ph ph' locks :
  explains cmds ag s order → tk_tasks s !! i = Some (cmd, ph) →
  ¬ decided ph → ¬ decided ph' → critical ph' →
  (∀ sid j, locks !! sid = Some j ↔
     tk_locks s !! sid = Some j ∧ j ≠ i ∨ j = i ∧ cmd_sid cmd = Some sid) →
  (∀ p sid, ph' = Calling p → cmd_sid cmd = Some sid → look cmd sid (tk_entries s !! sid) = inr p) →
  explains cmds ag (set_phase i cmd ph' (set_locks locks s)) order.
Proof.
  intros Hex Hi Hnd Hnd' Hcr Hlocks Hcall. split; simpl.
  - intros j c p Hj. task_cases Hj; by eapply ex_cmds.
  - intros j. rewrite (ex_order _ _ _ _ Hex). split.
    + intros (c & p & Hj & Hd). exists c, p. split; [|done].
      rewrite lookup_insert_ne; [done|]. intros <-. by simplify_eq.
    + intros (c & p & Hj & Hd). task_cases Hj; [done|eauto].
  - apply Hex.
  - apply Hex.
  - intros j c r Hj. task_cases Hj; [by destruct Hnd'|]. by eapply ex_done.
  - intros sid j. rewrite Hlocks, (ex_locks _ _ _ _ Hex). split.
    + intros [[(c & p & Hj & Hrest) Hne]|[-> Hs]].
      * exists c, p. by rewrite lookup_insert_ne.
      * exists cmd, ph'. by rewrite lookup_insert_eq.
    + intros (c & p & Hj & Hc & Hs). task_cases Hj; [by right|]. left. eauto 10.
  - intros j c p sid Hj Hs. task_cases Hj; [by eapply Hcall|]. by eapply ex_calling.
  - intros j c o sid Hj Hs. task_cases Hj; [by destruct Hnd'|]. by eapply ex_called.
  - intros sid Hno. apply (ex_free _ _ _ _ Hex). intros j c o Hj.
    apply (Hno j c o). rewrite lookup_insert_ne; [done|]. intros <-. by simplify_eq.
Qed.

(** The task takes effect: its command is next in the order. Either it is done, with the
    entries as they were, or its entry's update is still to be written. *)
Lemma explains_effect cmds ag s order i cmd ph ph' locks r ag' :
  explains cmds ag s order → tk_tasks s !! i = Some (cmd, ph) → ¬ decided ph →
  execute uuid_error cmd (one_by_one cmds order ag).2 = (Some r, ag') →
  (∀ sid j, locks !! sid = Some j ↔
     tk_locks s !! sid = Some j ∧ j ≠ i ∨ j = i ∧ critical ph' ∧ cmd_sid cmd = Some sid) →
  (ph' = Done r ∧ ag_sandboxes ag' = ag_sandboxes (one_by_one cmds order ag).2 ∨
   ∃ o sid, ph' = Called o ∧ cmd_sid cmd = Some sid ∧ critical ph ∧
     settle cmd sid o (tk_entries s !! sid) = (r, ag_sandboxes ag' !! sid) ∧
     ∀ sid', sid' ≠ sid →
       ag_sandboxes ag' !! sid' = ag_sandboxes (one_by_one cmds order ag).2 !! sid') →
  explains cmds ag (set_phase i cmd ph' (set_runtime (ag_runtime ag') (set_locks locks s)))
    (order ++ [i]).
Proof.
  intros Hex Hi Hnd He Hlocks Hph'.
  assert (decided ph') as Hd' by (destruct Hph' as [[-> _]|(o & sid & -> & _)]; done).
  pose proof (ex_cmds _ _ _ _ Hex _ _ _ Hi) as Hci.
  pose proof (one_by_one_snoc _ _ _ _ _ _ _ Hci He) as Hsnoc.
  assert (∀ j, j ∈ order → j ≠ i) as Hni.
  { intros j (c & p & Hj & Hd)%(ex_order _ _ _ _ Hex) ->. by simplify_eq. }
  assert (∀ j c o sid, j ≠ i → tk_tasks s !! j = Some (c, Called o) → cmd_sid c = Some sid →
    ag_sandboxes ag' !! sid = ag_sandboxes (one_by_one cmds order ag).2 !! sid) as Hother.
  { intros j c o sid Hne Hj Hs. destruct Hph' as [[_ ->]|(o' & sid' & _ & Hs' & Hcr & _ & Ho)];
      [done|]. apply Ho. intros ->. destruct Hne.
    by eapply explains_exclusive. }
  split; rewrite ?Hsnoc; simpl.
  - intros j c p Hj. task_cases Hj; [done|]. by eapply ex_cmds.
  - intros j. rewrite elem_of_app, list_elem_of_singleton, (ex_order _ _ _ _ Hex). split.
    + intros [(c & p & Hj & Hd)| ->].
      * exists c, p. rewrite lookup_insert_ne; [done|]. intros <-. by simplify_eq.
      * exists cmd, ph'. by rewrite lookup_insert_eq.
    + intros (c & p & Hj & Hd). task_cases Hj; [by right|left; eauto].
  - apply NoDup_app. split; [apply Hex|]. split; [|apply NoDup_singleton].
    intros j Hj ->%list_elem_of_singleton. by apply (Hni i).
  - done.
  - intros j c r' Hj. task_cases Hj.
    + destruct Hph' as [[? _]|(o & sid & ? & _)]; simplify_eq. apply lookup_insert_eq.
    + rewrite lookup_insert_ne by done. by eapply ex_done.
  - intros sid j. rewrite Hlocks, (ex_locks _ _ _ _ Hex). split.
    + intros [[(c & p & Hj & Hrest) Hne]|(-> & Hcr & Hs)].
      * exists c, p. by rewrite lookup_insert_ne.
      * exists cmd, ph'. by rewrite lookup_insert_eq.
    + intros (c & p & Hj & Hc & Hs). task_cases Hj; [by right|]. left. eauto 10.
  - intros j c p sid Hj Hs. task_cases Hj; [by destruct Hph' as [[? _]|(? & ? & ? & _)]|].
    by eapply ex_calling.
  - intros j c o sid Hj Hs. task_cases Hj.
    + destruct Hph' as [[? _]|(o' & sid' & ? & Hs' & _ & Hset & _)]; simplify_eq.
      rewrite Hset, lookup_insert_eq. done.
    + rewrite lookup_insert_ne by done. rewrite (Hother j c o sid) by done. by eapply ex_called.
  - intros sid Hno. rewrite <- (ex_free _ _ _ _ Hex sid).
    + destruct Hph' as [[_ ->]|(o & sid' & -> & Hs' & _ & _ & Ho)]; [done|]. apply Ho. intros ->.
      eapply (Hno i cmd o); [apply lookup_insert_eq|done].
    + intros j c o Hj. apply (Hno j c o). rewrite lookup_insert_ne; [done|]. intros <-.
      by simplify_eq.
Qed.

(** The update is written and the lock released. *)
Lemma explains_settled cmds ag s order i cmd o sid :
  explains cmds ag s order → tk_tasks s !! i = Some (cmd, Called o) → cmd_sid cmd = Some sid →
  let '(r, e) := settle cmd sid o (tk_entries s !! sid) in
  explains cmds ag (set_phase i cmd (Done r) (set_entry sid e
    (set_locks (delete sid (tk_locks s)) s))) order.
Proof.
  intros Hex Hi Hs. destruct (settle cmd sid o (tk_entries s !! sid)) as [r e] eqn:Eset.
  destruct (ex_called _ _ _ _ Hex _ _ _ _ Hi Hs) as [Hr He]. rewrite Eset in Hr, He. simpl in *.
  assert (∀ j c p, j ≠ i → tk_tasks s !! j = Some (c, p) → critical p → cmd_sid c ≠ Some sid) as Hex'.
  { intros j c p Hne Hj Hc Hsj. apply Hne. by eapply explains_exclusive. }
  split; simpl.
  - intros j c p Hj. task_cases Hj; by eapply ex_cmds.
  - intros j. rewrite (ex_order _ _ _ _ Hex). split.
    + intros (c & p & Hj & Hd). destruct (decide (i = j)) as [<-|]; [|exists c, p; by rewrite lookup_insert_ne].
      exists cmd, (Done r). by rewrite lookup_insert_eq.
    + intros (c & p & Hj & Hd). task_cases Hj; [|eauto]. by eexists _, (Called o).
  - apply Hex.
  - apply Hex.
  - intros j c r' Hj. task_cases Hj; [done|]. by eapply ex_done.
  - intros sid' j. rewrite lookup_delete_Some, (ex_locks _ _ _ _ Hex). split.
    + intros [Hne (c & p & Hj & Hc & Hsj)]. exists c, p. rewrite lookup_insert_ne; [done|].
      intros <-. by simplify_eq.
    + intros (c & p & Hj & Hc & Hsj). task_cases Hj; [done|]. split; [|eauto].
      intros <-. by eapply (Hex' j).
  - intros j c p sid' Hj Hsj. task_cases Hj. rewrite lookup_partial_alter_ne.
    + by eapply ex_calling.
    + intros <-. by eapply (Hex' j).
  - intros j c o' sid' Hj Hsj. task_cases Hj. rewrite lookup_partial_alter_ne.
    + by eapply ex_called.
    + intros <-. by eapply (Hex' j).
  - intros sid' Hno. destruct (decide (sid = sid')) as [<-|Hne].
    + by rewrite lookup_partial_alter_eq.
    + rewrite lookup_partial_alter_ne by done. apply (ex_free _ _ _ _ Hex). intros j c o' Hj.
      destruct (decide (i = j)) as [<-|]; [simplify_eq; congruence|].
      apply (Hno j c o'). by rewrite lookup_insert_ne.
Qed.

(** What task [i], in phase [ph] with the sandbox [sid], knows of the locks. *)
Lemma lock_not_held cmds ag s order i cmd ph sid :
  explains cmds ag s order → tk_tasks s !! i = Some (cmd, ph) → ¬ critical ph →
  tk_locks s !! sid ≠ Some i.
Proof. intros Hex Hi Hnc (c & p & Hi' & Hc & _)%(ex_locks _ _ _ _ Hex). by simplify_eq. Qed.

Lemma lock_held cmds ag s order i cmd ph sid :
  explains cmds ag s order → tk_tasks s !! i = Some (cmd, ph) → critical ph →
  tk_locks s !! sid = Some i ↔ cmd_sid cmd = Some sid.
Proof.
  intros Hex Hi Hc. rewrite (ex_locks _ _ _ _ Hex). split; [|by eauto].
  intros (c & p & Hi' & _ & ?). by simplify_eq.
Qed.

(** Under the lock and before the call, the entry is the one of the order so far. *)
Lemma entry_agrees cmds ag s order i cmd ph sid :
  explains cmds ag s order → tk_tasks s !! i = Some (cmd, ph) → critical ph → ¬ decided ph →
  cmd_sid cmd = Some sid →
  ag_sandboxes (one_by_one cmds order ag).2 !! sid = tk_entries s !! sid.
Proof.
  intros Hex Hi Hc Hnd Hs. apply (ex_free _ _ _ _ Hex). intros j c o Hj Hsj.
  assert (i = j) as -> by by eapply (explains_exclusive _ _ _ _ i j). simplify_eq. by destruct Hnd.
Qed.

Lemma turn_without_id cmds ag s order i cmd :
  explains cmds ag s order → tk_tasks s !! i = Some (cmd, Queued) → is_lifecycle cmd = true →
  cmd_sid cmd = None →
  explains cmds ag
    (set_phase i cmd (Done (Err (AgentInternal (uuid_error (command_sandbox cmd))))) s)
    (order ++ [i]).
Proof.
  intros Hex Hi Hlc Hp.
  change (set_phase i cmd ?p s) with
    (set_phase i cmd p (set_runtime (tk_runtime s) (set_locks (tk_locks s) s))).
  rewrite <- (ex_runtime _ _ _ _ Hex). eapply explains_effect; try done.
  - by intros [].
  - by apply execute_no_id.
  - intros sid j. split; [|naive_solver]. intros Hl. left. split; [done|]. intros ->.
    by eapply (lock_not_held _ _ _ _ i _ Queued sid); [..|intros []|].
  - by left.
Qed.

Lemma turn_queued cmds ag s order i cmd sid :
  explains cmds ag s order → tk_tasks s !! i = Some (cmd, Queued) → cmd_sid cmd = Some sid →
  tk_locks s !! sid = None →
  explains cmds ag (set_phase i cmd Holding (set_locks (<[sid := i]> (tk_locks s)) s)) order.
Proof.
  intros Hex Hi Hs El. eapply explains_silent; try done; [by intros []..|].
  intros sid' j. rewrite lookup_insert_Some. split.
  - intros [[<- <-]|[Hne Hl]]; [by right|]. left. split; [done|]. intros ->.
    by eapply (lock_not_held _ _ _ _ i _ Queued sid'); [..|intros []|].
  - intros [[Hl Hne]|[-> Hs']]; [|left; split; [congruence|done]]. right. split; [|done].
    intros <-. congruence.
Qed.

Lemma turn_holding cmds ag s order i cmd sid :
  explains cmds ag s order → tk_tasks s !! i = Some (cmd, Holding) → is_lifecycle cmd = true →
  cmd_sid cmd = Some sid →
  match look cmd sid (tk_entries s !! sid) with
  | inl r => explains cmds ag
      (set_phase i cmd (Done r) (set_locks (delete sid (tk_locks s)) s)) (order ++ [i])
  | inr p => explains cmds ag (set_phase i cmd (Calling p) s) order
  end.
Proof.
  intros Hex Hi Hlc Hs.
  assert (∀ sid, tk_locks s !! sid = Some i ↔ cmd_sid cmd = Some sid) as Hlock
    by by intros; eapply lock_held.
  destruct (look cmd sid (tk_entries s !! sid)) as [r|p] eqn:El.
  - change (set_phase i cmd ?p (set_locks ?l s)) with
      (set_phase i cmd p (set_runtime (tk_runtime s) (set_locks l s))).
    rewrite <- (ex_runtime _ _ _ _ Hex).
    eapply explains_effect; try done; [by intros []| | |by left].
    + rewrite (execute_split cmd sid) by done.
      rewrite (entry_agrees _ _ _ _ i cmd Holding sid) by (done || by intros []). by rewrite El.
    + intros sid' j. rewrite lookup_delete_Some. split.
      * intros [Hne Hl]. left. split; [done|]. intros ->. apply Hlock in Hl. congruence.
      * intros [[Hl Hne]|(_ & [] & _)]. split; [|done]. intros <-. apply Hlock in Hs. congruence.
  - change (set_phase i cmd ?p s) with (set_phase i cmd p (set_locks (tk_locks s) s)).
    eapply explains_silent; try done; [by intros []..| |].
    + intros sid' j. split; [|intros [[? _]|[-> ?]]; [done|by apply Hlock]].
      intros Hl. destruct (decide (j = i)) as [->|]; [right|by left].
      split; [done|]. by apply Hlock.
    + intros p' sid' [= <-] Hs'. by simplify_eq.
Qed.

Lemma turn_calling cmds ag s order i cmd sid p :
  explains cmds ag s order → tk_tasks s !! i = Some (cmd, Calling p) → is_lifecycle cmd = true →
  cmd_sid cmd = Some sid →
  let '(o, w) := perform p (tk_runtime s) in
  explains cmds ag (set_phase i cmd (Called o) (set_runtime w s)) (order ++ [i]).
Proof.
  intros Hex Hi Hlc Hs. destruct (perform p (tk_runtime s)) as [o w] eqn:Epf.
  assert (∀ sid, tk_locks s !! sid = Some i ↔ cmd_sid cmd = Some sid) as Hlock
    by by intros; eapply lock_held.
  destruct (settle cmd sid o (tk_entries s !! sid)) as [r e] eqn:Eset.
  change (set_phase i cmd ?q (set_runtime w s)) with
    (set_phase i cmd q (set_runtime w (set_locks (tk_locks s) s))).
  set (ag' := {| ag_runtime := w; ag_sandboxes := partial_alter (λ _, e) sid
                   (ag_sandboxes (one_by_one cmds order ag).2) |}).
  change w with (ag_runtime ag'). eapply explains_effect; try done; [by intros []| | |].
  - rewrite (execute_split cmd sid) by done.
    rewrite (entry_agrees _ _ _ _ i cmd (Calling p) sid) by (done || by intros []).
    rewrite (ex_calling _ _ _ _ Hex _ _ _ _ Hi Hs), (ex_runtime _ _ _ _ Hex), Epf. by rewrite Eset.
  - intros sid' j. split; [|by intros [[? _]|(-> & _ & ?)]; [|apply Hlock]].
    intros Hl. destruct (decide (j = i)) as [->|]; [right|by left].
    split; [done|]. split; [done|]. by apply Hlock.
  - right. exists o, sid. split; [done|]. split; [done|]. split; [done|]. simpl.
    rewrite lookup_partial_alter_eq. split; [done|]. intros sid' Hne.
    by rewrite lookup_partial_alter_ne.
Qed.

Lemma explains_turn cmds ag s order i :
  map_Forall (λ _ c, is_lifecycle c = true) cmds →
  explains cmds ag s order → ∃ order', explains cmds ag (task_turn s i) order'.
Proof.
  intros Hlc Hex. unfold task_turn.
  destruct (tk_tasks s !! i) as [[cmd ph]|] eqn:Hi; [|by exists order].
  pose proof (ex_cmds _ _ _ _ Hex _ _ _ Hi) as Hci. specialize (Hlc _ _ Hci). simpl in Hlc.
  destruct (parse_str (command_sandbox cmd)) as [sid|] eqn:Hp; fold (cmd_sid cmd) in Hp.
  2:{ destruct ph; try by exists order. eexists. by apply turn_without_id. }
  destruct ph as [| |p|o|r]; [| | | |by exists order].
  - destruct (tk_locks s !! sid) eqn:El; [by exists order|]. eexists. by apply turn_queued.
  - pose proof (turn_holding _ _ _ _ _ _ _ Hex Hi Hlc Hp) as Hx.
    destruct (look _ _ _); by eexists.
  - pose proof (turn_calling _ _ _ _ _ _ _ _ Hex Hi Hlc Hp) as Hx.
    destruct (perform _ _). by eexists.
  - pose proof (explains_settled _ _ _ _ _ _ _ _ Hex Hi Hp) as Hx.
    destruct (settle _ _ _ _). by exists order.
Qed.

Lemma explains_schedule cmds ag turns :
  map_Forall (λ _ c, is_lifecycle c = true) cmds →
  ∃ order, explains cmds ag (schedule turns (queue_up cmds ag)) order.
Proof.
  intros Hlc. induction turns as [|i turns [order IH]] using rev_ind.
  - exists []. apply explains_start.
  - unfold schedule. rewrite foldl_snoc. by eapply explains_turn.
Qed.
End tasks.

(** ** reconnect.rs and the reconnect loops of run_agent *)

Module Backoff.
Record t := { base : Z; max : Z; current : Z }.

Definition new : t :=
  {| base := RECONNECT_BASE_DELAY; max := RECONNECT_MAX_DELAY; current := RECONNECT_BASE_DELAY |}.

Definition next_delay : ST t Z := λ b,
  (current b, {| base := base b; max := max b; current := Z.min (current b * 2) (max b) |}).

Definition reset (b : t) : t := {| base := base b; max := max b; current := base b |}.

(** The loop: after every connection, however it ended, the next delay. *)
Fixpoint reconnect_delays (outcomes : list (result () AgentError)) (b : t) : list Z :=
  match outcomes with
  | [] => []
  | _ :: rest => let '(d, b') := next_delay b in d :: reconnect_delays rest b'
  end.
End Backoff.

(** ** Theorems *)

Section agent_theorems.
Context `{UuidLib} {W : Type} `{!ContainerRuntime W}.
Variable uuid_error : string → string.
Implicit Types (ag : Agent W).

(** C14: commands are linearizable. However the tasks of a set of lifecycle commands are
    interleaved, no two of them are under the lock of one sandbox at once, and there is an
    order of the commands that have taken effect, each once, such that running them one
    after the other gives the container runtime's state, the result of every finished
    command, and the entry of every sandbox whose lock is free. *)
Theorem commands_linearizable cmds ag turns :
  map_Forall (λ _ c, is_lifecycle c = true) cmds →
  let s := schedule uuid_error turns (queue_up cmds ag) in
  (∀ i j cmd cmd' ph ph' sid,
     tk_tasks s !! i = Some (cmd, ph) → critical ph → cmd_sid cmd = Some sid →
     tk_tasks s !! j = Some (cmd', ph') → critical ph' → cmd_sid cmd' = Some sid → i = j) ∧
  ∃ order, NoDup order ∧
    (∀ i, i ∈ order → is_Some (cmds !! i)) ∧
    (∀ i cmd r, tk_tasks s !! i = Some (cmd, Done r) →
       i ∈ order ∧ (one_by_one uuid_error cmds order ag).1 !! i = Some r) ∧
    ag_runtime (one_by_one uuid_error cmds order ag).2 = tk_runtime s ∧
    (∀ sid, tk_locks s !! sid = None →
       ag_sandboxes (one_by_one uuid_error cmds order ag).2 !! sid = tk_entries s !! sid).
Proof.
  intros Hlc s. destruct (explains_schedule uuid_error cmds ag turns Hlc) as [order Hex].
  fold s in Hex. split; [intros; by eapply explains_exclusive|].
  exists order. split; [apply Hex|]. split.
  { intros i (cmd & ph & Hi & _)%(ex_order _ _ _ _ _ Hex). exists cmd. by eapply ex_cmds. }
  split.
  { intros i cmd r Hi. split; [|by eapply ex_done].
    apply (ex_order _ _ _ _ _ Hex). by exists cmd, (Done r). }
  split; [apply Hex|]. intros sid Hfree. apply (ex_free _ _ _ _ _ Hex). intros i cmd o Hi Hs.
  assert (tk_locks s !! sid = Some i) by (apply (ex_locks _ _ _ _ _ Hex); by exists cmd, (Called o)). congruence.
Qed.

(** The state an entry records; a sandbox without entry is stopped. *)
Definition recorded (entry : option SandboxEntry) : SandboxState :=
  match entry with Some e => se_state e | None => Stopped end.

Definition reported (cmd : ControllerCommand) (r : result SandboxState AgentError) : SandboxState :=
  match r with Ok st => st | Err _ => failure_state cmd end.

(** When the report of a command is about the state the manager records: always for a
    start; for a stop when it succeeded; for pause and unpause when it succeeded or the
    sandbox was in the state they start from. *)
Definition report_covers (cmd : ControllerCommand) (before : SandboxState)
    (r : result SandboxState AgentError) : Prop :=
  match cmd, r with
  | StartSandbox _ _ _, _ => True
  | PauseSandbox _, Err _ => before = Running
  | UnpauseSandbox _, Err _ => before = Paused
  | _, Err _ => False
  | _, Ok _ => True
  end.

Lemma look_truthful cmd sid entry r :
  is_lifecycle cmd = true → look cmd sid entry = inl r →
  report_covers cmd (recorded entry) r → reported cmd r = recorded entry.
Proof.
  intros Hlc El Hc. destruct cmd; try done; simpl in *; destruct entry as [e|]; try done;
    try (case_decide; [|done]); by simplify_eq.
Qed.

Lemma settle_truthful cmd sid entry p w o w' r e :
  is_lifecycle cmd = true → look cmd sid entry = inr p → perform p w = (o, w') →
  settle cmd sid o entry = (r, e) →
  report_covers cmd (recorded entry) r → reported cmd r = recorded e.
Proof.
  intros Hlc El Hp Hs Hc. destruct cmd as [| | | | | |]; try done; simpl in El.
  - injection El as <-. simpl in Hp. destruct (create_and_start _ w) as [o' w0]. simplify_eq.
    simpl in Hs. by destruct (default _ o'); simplify_eq.
  - destruct entry; [|done]. injection El as <-. simpl in Hp.
    destruct (stop_and_remove _ _ w) as [[] w0]; simplify_eq; simpl in *; by simplify_eq.
  - destruct entry; [|done]. case_decide; [done|]. injection El as <-. simpl in Hp.
    destruct (pause _ w) as [[] w0]; simplify_eq; simpl in *; by simplify_eq.
  - destruct entry; [|done]. case_decide; [done|]. injection El as <-. simpl in Hp.
    destruct (unpause _ w) as [[] w0]; simplify_eq; simpl in *; by simplify_eq.
Qed.

(** Reports are truthful. The status the agent reports for a command carries the state
    it records for that sandbox afterwards, for every start, every success, and every pause
    or unpause that failed on a running or paused sandbox; no other sandbox's entry
    changes. *)
Theorem reports_truthful cmd sid ag r ag' :
  is_lifecycle cmd = true → parse_str (command_sandbox cmd) = Some sid →
  execute uuid_error cmd ag = (Some r, ag') →
  let before := recorded (ag_sandboxes ag !! sid) in
  let after := recorded (ag_sandboxes ag' !! sid) in
  on_command uuid_error cmd ag = (Some (status_report cmd r), ag') ∧
  (report_covers cmd before r → ∃ msg,
     status_report cmd r = SandboxStatus (command_sandbox cmd) (SandboxState_as_i32 after) msg) ∧
  (∀ sid', sid' ≠ sid → ag_sandboxes ag' !! sid' = ag_sandboxes ag !! sid').
Proof.
  intros Hlc Hp He before after. split; [unfold on_command; by rewrite He|].
  rewrite (execute_split uuid_error cmd sid) in He by done.
  assert (report_covers cmd before r → reported cmd r = after) as Hr.
  { intros Hc. destruct (look cmd sid (ag_sandboxes ag !! sid)) as [r0|p] eqn:El.
    - simplify_eq. by eapply look_truthful.
    - destruct (perform p (ag_runtime ag)) as [o w] eqn:Ep.
      destruct (settle cmd sid o (ag_sandboxes ag !! sid)) as [r0 e] eqn:Es. simplify_eq.
      unfold after. simpl. rewrite lookup_partial_alter_eq. by eapply settle_truthful. }
  split.
  - intros Hc. rewrite <- (Hr Hc). unfold status_report, reported. destruct r; eauto.
  - destruct (look _ _ _) as [r0|p]; [by simplify_eq|]. destruct (perform _ _) as [o w].
    destruct (settle _ _ _ _) as [r0 e]. simplify_eq. intros. by apply lookup_partial_alter_ne.
Qed.

(** A pause of a sandbox the agent does not know is reported as running, and a stop that
    fails as failed although the entry stays as it was. *)
Theorem pause_of_unknown_reported_running id sid ag :
  parse_str id = Some sid → ag_sandboxes ag !! sid = None →
  on_command uuid_error (PauseSandbox id) ag =
    (Some (SandboxStatus id (SandboxState_as_i32 Running)
             (AgentError_to_string (no_such_sandbox sid))), ag).
Proof.
  intros Hp Hn. unfold on_command. rewrite (execute_split uuid_error _ sid) by done.
  by rewrite Hn.
Qed.
End agent_theorems.

Lemma backoff_state n outcomes b :
  Backoff.max b = RECONNECT_MAX_DELAY →
  Backoff.current b = Z.min (RECONNECT_BASE_DELAY * 2 ^ Z.of_nat n) RECONNECT_MAX_DELAY →
  ∀ k d, Backoff.reconnect_delays outcomes b !! k = Some d →
    d = Z.min (RECONNECT_BASE_DELAY * 2 ^ Z.of_nat (n + k)) RECONNECT_MAX_DELAY.
Proof.
  revert n b. induction outcomes as [|o outcomes IH]; intros n b Hm Hc k d; [done|]. simpl.
  destruct k as [|k]; simpl.
  - intros [= <-]. by rewrite Hc, Nat.add_0_r.
  - intros Hk. rewrite Nat.add_succ_r, <- Nat.add_succ_l.
    refine (IH (S n) _ _ _ k d Hk); simpl; [exact Hm|]. rewrite Hc, Hm, Nat2Z.inj_succ, Z.pow_succ_r by lia.
    unfold RECONNECT_BASE_DELAY, RECONNECT_MAX_DELAY. lia.
Qed.

(** The reconnect delays. The k-th reconnect of a link waits one second doubled k
    times, capped at thirty; so every delay is between one and thirty seconds, and from the
    sixth reconnect of the process on each is thirty, however the connections in between
    ended: the loops never reset their backoff. *)
Theorem reconnect_schedule outcomes :
  length (Backoff.reconnect_delays outcomes Backoff.new) = length outcomes ∧
  ∀ k d, Backoff.reconnect_delays outcomes Backoff.new !! k = Some d →
    d = Z.min (1000 * 2 ^ Z.of_nat k) 30000 ∧ (1000 ≤ d ≤ 30000)%Z ∧
    ((5 ≤ k)%nat → d = 30000%Z).
Proof.
  split.
  - generalize Backoff.new. induction outcomes as [|o outcomes IH]; intros b; simpl; [done|].
    by rewrite IH.
  - intros k d Hk. eapply (backoff_state 0) in Hk as ->; [|done..]. simpl.
    unfold RECONNECT_BASE_DELAY, RECONNECT_MAX_DELAY.
    assert (0 < 2 ^ Z.of_nat k)%Z by (apply Z.pow_pos_nonneg; lia).
    split; [done|]. split; [lia|]. intros Hk.
    assert (2 ^ 5 ≤ 2 ^ Z.of_nat k)%Z by (apply Z.pow_le_mono_r; lia). lia.
Qed.

Module AgentExamples.
(** A runtime that names a container after its sandbox and always succeeds. *)
#[local] Instance SmallRuntime : ContainerRuntime (gmap string ContainerState) := {
  create_and_start cfg w :=
    let id := hyphenated (cc_sandbox_id cfg) in
    (Some (Ok {| ci_id := id; ci_sandbox_id := cc_sandbox_id cfg; ci_host_port := 40000;
                 ci_state := CRunning |}), <[id := CRunning]> w);
  stop_and_remove id _ w := (Ok (), delete id w);
  pause id w := (Ok (), alter (λ _, CPaused) id w);
  unpause id w := (Ok (), alter (λ _, CRunning) id w);
  list_sandbox_containers w := (Ok [], w);
}.

Definition box : SandboxId := uid 0x11111111111111111111111111111111.
Definition idle : Agent (gmap string ContainerState) :=
  {| ag_runtime := ∅; ag_sandboxes := ∅ |}.

(** A start and a pause of one sandbox, their turns interleaved. *)
Definition two_commands : gmap nat ControllerCommand :=
  {[0%nat := StartSandbox (hyphenated box) "nginx" None;
    1%nat := PauseSandbox (hyphenated box)]}.
Definition turns : list nat := [0; 1; 0; 1; 0; 1; 0; 1; 1; 1; 1]%nat.

Lemma commands_linearizable_witness :
  let s := schedule (λ e, e) turns (queue_up two_commands idle) in
  ∃ order, NoDup order ∧
    ag_runtime (one_by_one (λ e, e) two_commands order idle).2 = tk_runtime s ∧
    tk_runtime s !! hyphenated box = Some CPaused.
Proof.
  assert (map_Forall (λ _ c, is_lifecycle c = true) two_commands) as Hl.
  { apply map_Forall_insert_2; [reflexivity|]. apply map_Forall_singleton. reflexivity. }
  pose proof (commands_linearizable (λ e, e) two_commands idle turns Hl)
    as (_ & order & Hnd & _ & _ & Hrt & _).
  exists order. split; [exact Hnd|]. split; [exact Hrt|]. evaluate.
Defined.

Lemma reports_truthful_witness :
  ∃ r ag', execute (λ e, e) (StartSandbox (hyphenated box) "nginx" None) idle = (Some r, ag') ∧
    ∃ msg, status_report (StartSandbox (hyphenated box) "nginx" None) r =
      SandboxStatus (hyphenated box)
        (SandboxState_as_i32 (recorded (ag_sandboxes ag' !! box))) msg.
Proof.
  destruct (execute (λ e, e) (StartSandbox (hyphenated box) "nginx" None) idle)
    as [[r|] ag'] eqn:E.
  - exists r, ag'. split; [reflexivity|].
    pose proof (reports_truthful (λ e, e) (StartSandbox (hyphenated box) "nginx" None) box idle r
      ag' eq_refl ltac:(evaluate) E) as (_ & Hx & _).
    apply Hx. exact I.
  - apply (f_equal (λ x, match x with (Some _, _) => true | _ => false end)) in E.
    vm_compute in E. discriminate E.
Defined.
End AgentExamples.
