(* ===== verification/AgentConnect.v ===== *)
(** * An agent's connection to the controller

    crates/agent/src/controller_client.rs [run] up to its command loop: the registration, the
    heartbeats and the end of the connection, together with the controller that handles the
    messages (ControllerSystem.v). The commands themselves are AgentSandbox.v's. Time passes
    explicitly; a bound on how long a message is under way is a parameter. *)

From S2P Require Import Prelude Contracts UuidRef Store MemStore ControllerCore Capacity ControllerGrpc Management ControllerSystem AgentSandbox.

(** ** controller_client.rs *)

Record ControllerConnection `{UuidLib} := {
  cc_agent_id : AgentId;
  cc_join_token : JoinToken;
  cc_resources : AgentResources;
}.

Section client.
Context `{UuidLib}.
Implicit Types (k : ControllerConnection).

Definition register_msg k : AgentMessage :=
  Some (Register (hyphenated (cc_agent_id k)) (jt_token (cc_join_token k)) (Some (cc_resources k))).
Definition heartbeat_msg k : AgentMessage := Some (Heartbeat (hyphenated (cc_agent_id k))).
End client.

(** Where [run] is: waiting for the answer to its registration, in the loop with the next
    heartbeat due at a time, or returned. *)
Inductive AgentConn := Registering | Serving (heartbeat_at : Z) | Over (e : AgentError).

(** An item of the controller's stream; [None]: the stream has ended. *)
Definition on_item (now : Z) (item : option (result ControllerCommand Status)) (conn : AgentConn) : AgentConn :=
  match conn with
  | Registering =>
      match handshake (match item with Some (Ok cmd) => Some (Some cmd) | _ => None end) with
      | Ok _ => Serving (now + HEARTBEAT_INTERVAL)
      | Err e => Over e
      end
  | Serving _ => match item with Some (Ok _) => conn | _ => Over ControllerDisconnected end
  | Over _ => conn
  end.

(** ** Time *)

Definition later `{UuidLib} (d : Z) (v : AbsStore) : AbsStore :=
  {| as_agents := as_agents v; as_routes := as_routes v; as_resv := as_resv v; as_states := as_states v;
     as_hb := as_hb v; as_now := as_now v + d |}.

(** The database's clock. *)
Class StoreClock `{UuidLib} (W : Type) `{!ControllerStore W, !StoreSpec W} := {
  tick : Z → W → W;
  tick_spec : ∀ d w, store_wf w → store_wf (tick d w) ∧ view (tick d w) = later d (view w);
}.

(** ** The handling of a registration

    crates/controller/src/grpc.rs, the Register arm of [agent_stream]. The task waits for the
    database twice, and other tasks run between its turns: [Adding], after the record is
    saved; [Recording], after the connection is in the table; [Answering], with what the
    channel will be sent. *)

Inductive Stage `{UuidLib} :=
| Idle
| Adding (agent_id : AgentId)
| Recording (agent_id : AgentId)
| Answering (registered : option AgentId) (answer : result ControllerCommand Status).

Section turns.
Context `{UuidLib} {W : Type} `{!ControllerStore W} (validate : string → bool) (cid : nat).
Context (registered : option AgentId) (agent_id join_token : string) (resources : option AgentResources).

Definition register_turn (st : Stage) : ST (Ctl W) (Stage + Flow) :=
  match st with
  | Idle =>
      match parse_str agent_id with
      | None => st_ret (inl (Answering registered (Err (status InvalidArgument "invalid agent_id UUID"))))
      | Some a =>
          let! result := lift (register validate a join_token (capacity_of resources)) in
          st_ret (inl (match result with
            | Ok Accepted => Adding a
            | Ok (Rejected reason) => Answering registered (Ok (RegisterResponse false reason ""))
            | Err e => Answering registered (Ok (RegisterResponse false (ControllerError_to_string e) ""))
            end))
      end
  | Adding a => let! _ := connections_add a cid in st_ret (inl (Recording a))
  | Recording a =>
      let! _ := lift (record_heartbeat a) in
      st_ret (inl (Answering (Some a) (Ok (RegisterResponse true "" ""))))
  | Answering reg answer =>
      let! r := chan_send cid answer in
      st_ret (inr (match answer with Ok _ => after_send reg r | Err _ => Break reg end))
  end.

(** The turns without anyone else between them; four are enough. *)
Fixpoint register_turns (n : nat) (st : Stage) : ST (Ctl W) (option Flow) :=
  match n with
  | O => st_ret None
  | S n => let! x := register_turn st in
           match x with inl st' => register_turns n st' | inr flow => st_ret (Some flow) end
  end.

Lemma on_register_turns c :
  register_turns 4 Idle c =
  (let! flow := on_register validate cid registered agent_id join_token resources in st_ret (Some flow)) c.
Proof.
  unfold on_register. cbn. unfold st_bind, st_ret. destruct (parse_str agent_id) as [a|]; cbn.
  - fold (capacity_of resources). destruct (lift _ c) as [[[|]|] c1]; cbn.
    + unfold st_bind, st_ret. destruct (lift (record_heartbeat a) _) as [r2 c2]. cbn. unfold st_bind.
      by destruct (chan_send _ _ c2).
    + unfold st_bind. by destruct (chan_send _ _ c1).
    + unfold st_bind. by destruct (chan_send _ _ c1).
  - unfold st_bind. by destruct (chan_send _ _ c).
Qed.
End turns.

(** ** The connection and the controller together *)

Record Link `{UuidLib} (W : Type) := {
  lk_sys : Sys W;
  (** how far the stream's task is with the message it has read *)
  lk_stage : Stage;
  lk_conn : AgentConn;
  (** what the agent sent and the stream's task has not read, with the time of sending *)
  lk_up : list (Z * AgentMessage);
  (** how many items of its channel the agent has read, and since when there is one *)
  lk_read : nat;
  lk_answered : option Z;
}.
Arguments lk_sys {_ _} _.
Arguments lk_stage {_ _} _.
Arguments lk_conn {_ _} _.
Arguments lk_up {_ _} _.
Arguments lk_read {_ _} _.
Arguments lk_answered {_ _} _.

Section link.
Context `{UuidLib} {W : Type} `{!ControllerStore W, !StoreSpec W, !StoreClock W, !StoreReliable W}.
Context (validate : string → bool).
Context (k : ControllerConnection) (cid : nat) (up down : Z).
Implicit Types (l : Link W) (s : Sys W).

Definition store_of s : W := c_store (sys_ctl s).
Definition sys_now s : Z := as_now (view (store_of s)).

(** What came through the channel. *)
Definition channel s : list (result ControllerCommand Status) :=
  from_option ch_sent [] (c_chans (sys_ctl s) !! cid).

(** No message is handled later than [up] after it was sent, and the answer to the
    registration takes no longer than [down]; a heartbeat is sent when it is due. *)
Definition timely (t : Z) l : Prop :=
  Forall (λ m, t ≤ m.1 + up)%Z (lk_up l) ∧
  match lk_conn l with
  | Registering => ∀ t0, lk_answered l = Some t0 → (t ≤ t0 + down)%Z
  | Serving heartbeat_at => (t ≤ heartbeat_at)%Z
  | Over _ => True
  end.

Definition pass (d : Z) s : Sys W :=
  {| sys_ctl := {| c_store := tick d (store_of s); c_conns := c_conns (sys_ctl s);
                   c_chans := c_chans (sys_ctl s); c_clock := c_clock (sys_ctl s) + d |};
     sys_streams := sys_streams s |}.

Definition with_sys s l : Link W :=
  {| lk_sys := s; lk_stage := lk_stage l; lk_conn := lk_conn l; lk_up := lk_up l; lk_read := lk_read l;
     lk_answered := lk_answered l |}.

Definition with_ctl (c : Ctl W) s : Sys W := {| sys_ctl := c; sys_streams := sys_streams s |}.

(** The task has taken a turn, and waits. *)
Definition waiting (st : Stage) (c : Ctl W) l : Link W :=
  {| lk_sys := with_ctl c (lk_sys l); lk_stage := st; lk_conn := lk_conn l; lk_up := lk_up l; lk_read := lk_read l;
     lk_answered := lk_answered l |}.

(** The task goes on to the next message, or leaves its loop. *)
Definition after_message (flow : Flow) (c : Ctl W) s : Sys W :=
  match flow with
  | Continue registered => {| sys_ctl := c; sys_streams := <[cid := registered]> (sys_streams s) |}
  | Break registered => finish_stream cid registered c s
  end.

Definition send (msg : AgentMessage) (conn : AgentConn) l : Link W :=
  {| lk_sys := lk_sys l; lk_stage := lk_stage l; lk_conn := conn; lk_up := lk_up l ++ [(sys_now (lk_sys l), msg)];
     lk_read := lk_read l; lk_answered := lk_answered l |}.

Definition read (item : result ControllerCommand Status) l : Link W :=
  {| lk_sys := lk_sys l; lk_stage := lk_stage l; lk_conn := on_item (sys_now (lk_sys l)) (Some item) (lk_conn l); lk_up := lk_up l;
     lk_read := S (lk_read l); lk_answered := lk_answered l |}.

Definition handled (s : Sys W) (rest : list (Z * AgentMessage)) l : Link W :=
  {| lk_sys := s; lk_stage := Idle; lk_conn := lk_conn l; lk_up := rest; lk_read := lk_read l;
     lk_answered := match lk_answered l with
                    | Some t => Some t
                    | None => match channel s with [] => None | _ => Some (sys_now s) end
                    end |}.

(** What other streams, RPCs and sweeps do. An id is drawn for every agent process, so no
    other one registers with it. *)
Definition other_event (e : Event) : Prop :=
  match e with
  | EvOpen c | EvInboundEnd c | EvReceiverGone c => c ≠ cid
  | EvMessage c msg =>
      c ≠ cid ∧ ∀ id token res, msg = Some (Register id token res) → parse_str id ≠ Some (cc_agent_id k)
  | _ => True
  end.

Inductive link_step : Link W → Link W → Prop :=
| lk_pass d l : (0 ≤ d)%Z → timely (sys_now (lk_sys l) + d) l → link_step l (with_sys (pass d (lk_sys l)) l)
| lk_heartbeat t l : lk_conn l = Serving t → (t ≤ sys_now (lk_sys l))%Z →
    link_step l (send (heartbeat_msg k) (Serving (sys_now (lk_sys l) + HEARTBEAT_INTERVAL)) l)
| lk_report t cmd r l : lk_conn l = Serving t → Ok cmd ∈ take (lk_read l) (channel (lk_sys l)) →
    is_lifecycle cmd = true → link_step l (send (Some (status_report cmd r)) (lk_conn l) l)
| lk_reads item l : channel (lk_sys l) !! lk_read l = Some item → link_step l (read item l)
| lk_turn t id token res rest reg st c l : lk_up l = (t, Some (Register id token res)) :: rest →
    reliable (store_of (lk_sys l)) → register_ok res → sys_streams (lk_sys l) !! cid = Some reg →
    register_turn validate cid reg id token res (lk_stage l) (sys_ctl (lk_sys l)) = (inl st, c) →
    link_step l (waiting st c l)
| lk_registers t id token res rest reg flow c l : lk_up l = (t, Some (Register id token res)) :: rest →
    sys_streams (lk_sys l) !! cid = Some reg →
    register_turn validate cid reg id token res (lk_stage l) (sys_ctl (lk_sys l)) = (inr flow, c) →
    link_step l (handled (after_message flow c (lk_sys l)) rest l)
| lk_handles t msg rest l : lk_up l = (t, msg) :: rest → reliable (store_of (lk_sys l)) →
    (∀ id token res, msg ≠ Some (Register id token res)) →
    link_step l (handled (step validate (EvMessage cid msg) (lk_sys l)) rest l)
| lk_other e l : other_event e → event_ok e (lk_sys l) →
    link_step l (with_sys (step validate e (lk_sys l)) l).

(** The connection is made: the stream is open, and the registration is under way. *)
Record connecting l : Prop := {
  cn_store : balanced (λ _, True) (store_of (lk_sys l));
  (** new to the controller, or heard of not too long ago *)
  cn_recent : ∀ t, as_hb (view (store_of (lk_sys l))) !! cc_agent_id k = Some t →
    (sys_now (lk_sys l) + up - t ≤ DEAD_AGENT_TIMEOUT)%Z;
  cn_stage : lk_stage l = Idle;
  cn_stream : sys_streams (lk_sys l) !! cid = Some None;
  cn_channel : c_chans (sys_ctl (lk_sys l)) !! cid = Some {| ch_sent := []; ch_open := true |};
  cn_unused : ∀ b, c_conns (sys_ctl (lk_sys l)) !! b ≠ Some cid;
  cn_id : ∀ c, c ≠ cid → sys_streams (lk_sys l) !! c ≠ Some (Some (cc_agent_id k));
  cn_up : lk_up l = [(sys_now (lk_sys l), register_msg k)];
  cn_conn : lk_conn l = Registering;
  cn_read : lk_read l = 0%nat;
  cn_answered : lk_answered l = None;
}.
End link.

Arguments sys_now : simpl never.
Arguments pass : simpl never.

(** ** Facts about the store that the handlers keep *)

Section stable.
Context `{UuidLib} (V : AbsStore → Prop).

Class Stable := {
  stable_assign b i cpu mem v v' : V v → eff_assign b i cpu mem v v' → V v';
  stable_release i rs v v' : V v → eff_release i rs v v' → V v';
  stable_state i st err v v' : V v → eff_sandbox_state i st err v v' → V v';
  stable_heartbeat b v v' : V v → eff_heartbeat b v v' → V v';
}.

Context {W : Type} `{!ControllerStore W, !StoreSpec W, !Stable}.

Definition holds (w : W) : Prop := balanced (λ _, True) w ∧ V (view w).

Lemma holds_writes {A} (r : result A ControllerError) x eff w w' :
  holds w → balanced (λ _, True) w' → writes r x eff (view w) (view w') →
  (V (view w) → eff (view w) (view w') → V (view w')) → holds w'.
Proof. intros [_ Hs] Hb Hw Heff. split; [done|]. destruct Hw as [[_ ?]|(d & _ & [->|?])]; auto. Qed.

Lemma holds_reads {A} (r : result A ControllerError) P w w' :
  holds w → balanced (λ _, True) w' → reads r P (view w) (view w') → holds w'.
Proof. intros [_ Hs] Hb [Hv _]. split; [done|]. by rewrite Hv. Qed.

Lemma holds_release i w r w' : holds w → release_sandbox i w = (r, w') → holds w'.
Proof.
  intros Ha E. pose proof Ha as [Hb Hs]. pose proof (balanced_release_sandbox _ i w r w' Hb E) as Hb'.
  apply release_spec in E as [_ Hr]; [|apply Hb].
  destruct (as_resv (view w) !! i) as [rs|] eqn:Ei.
  - eapply holds_writes; [done..|]. intros. by eapply stable_release.
  - split; [done|]. destruct Hr as [_ ->]. done.
Qed.

Lemma holds_save_state i b st err w r w' : holds w → save_sandbox_state i b st err w = (r, w') → holds w'.
Proof.
  intros Ha E. pose proof (balanced_save_sandbox_state _ _ _ _ _ _ _ _ (proj1 Ha) E) as Hb'.
  apply save_sandbox_state_spec in E as [_ Hw]; [|apply Ha]. eapply holds_writes; [done..|].
  intros. by eapply stable_state.
Qed.

Lemma holds_record_heartbeat b w r w' : holds w → record_heartbeat b w = (r, w') → holds w'.
Proof.
  intros Ha E. pose proof (balanced_record_heartbeat _ _ _ _ _ (proj1 Ha) E) as Hb'.
  apply record_heartbeat_spec in E as [_ Hw]; [|apply Ha]. eapply holds_writes; [done..|].
  intros. by eapply stable_heartbeat.
Qed.

Lemma holds_mark_dead b w r w' :
  (∀ v v', V v → eff_mark_dead b v v' → V v') → holds w → mark_agent_dead b w = (r, w') → holds w'.
Proof.
  intros Hb Ha E. pose proof (balanced_mark_agent_dead _ _ _ _ _ (proj1 Ha) E) as Hb'.
  apply mark_agent_dead_spec in E as [_ [(_ & Hv & _)|Hw]]; [..|apply Ha].
  - split; [done|]. rewrite Hv. apply Ha.
  - eapply holds_writes; [done..|]. eauto.
Qed.

#[global] Instance holds_handled : Handled (keeps holds).
Proof.
  assert (∀ A (m : ST W (result A ControllerError)) P,
    (∀ w r w', balanced (λ _, True) w → m w = (r, w') → balanced (λ _, True) w') →
    (∀ w r w', store_wf w → m w = (r, w') → store_wf w' ∧ reads r (P w) (view w) (view w')) →
    moves (keeps holds) (lift m)) as Hread.
  { intros A m P Hb Hs. apply keeps_lift. intros w r w' Ha E. apply Hb in E as Hb'; [|apply Ha].
    apply Hs in E as [_ E]; [|apply Ha]. by eapply holds_reads. }
  split; [apply _|..].
  - intros i. eapply Hread; [apply balanced_find_routing_entry|apply find_routing_entry_spec].
  - intros i. eapply Hread; [apply balanced_get_sandbox_state|apply get_sandbox_state_spec].
  - eapply Hread; [apply balanced_list_routing_entries|apply list_routing_entries_spec].
  - intros i b st err. apply keeps_lift. apply holds_save_state.
  - intros i. apply keeps_lift. apply holds_release.
  - intros b. eapply Hread; [apply balanced_get_agent|apply get_agent_spec].
  - intros b. apply keeps_lift. apply holds_record_heartbeat.
  - eapply Hread; [apply balanced_dead_agents|apply dead_agents_spec].
  - intros b cmd. apply keeps_send_command.
Qed.

Lemma holds_create i req c r c' :
  holds (c_store c) → create_ok i req (c_store c) → mgmt_create_sandbox i req c = (r, c') → holds (c_store c').
Proof.
  intros Ha Hok E. pose proof (mgmt_create_balanced _ i req c r c' (proj1 Ha) Hok E) as Hb'. revert E.
  destruct Hok as (Hcpu & Hmem & Hr & Hs). unfold mgmt_create_sandbox.
  destruct (from_wire_i32_strict _) as [pp|]; [|by intros [= <- <-]].
  ctl_step r1 c1 E. apply or_status_inv in E as (r0 & E & ->).
  assert (create_pre (internal_request i req pp) c) as Hpre.
  { constructor; simpl; [apply Ha| | |done|done]; unfold default_if_zero; by case_decide. }
  assert (holds (c_store c1)) as Ha1.
  { pose proof (create_sandbox_balanced _ _ _ _ _ Hpre (proj1 Ha) E) as Hb1. split; [done|].
    apply create_sandbox_inv in E as (_ & _ & E); [|done].
    destruct r0 as [asg|e]; [destruct E as (_ & _ & E); eapply stable_assign, E; apply Ha|].
    destruct E as [_ [->|[(d & b & _ & E)|(b & w1 & rr & Hass & Hwf1 & E)]]]; [apply Ha|eapply stable_assign, E; apply Ha|].
    assert (holds w1) as Ha1; [|by eapply holds_release].
    split; [|eapply stable_assign, Hass; apply Ha]. pose proof Hpre as [? Hc Hm ? ?]. unfold in_u32, in_u64 in *.
    eapply balanced_assigned; [apply Ha|..|exact Hass]; [lia|lia|done|done]. }
  destruct r0 as [asg|e]; simpl; [|by intros [= <- <-]].
  ctl_step r2 c2 E2. apply lift_inv in E2 as (w2 & E2 & ->). intros [= <- <-]. by eapply holds_save_state.
Qed.

Lemma holds_register (validate : string → bool) b token cap w r w' :
  in_u32 (cpu_cores cap) → in_u64 (memory_bytes cap) →
  (∀ v v', V v → eff_save_agent (registration_record b cap) v v' → V v') →
  register validate b token cap w = (r, w') → holds w → holds w'.
Proof.
  intros Hc Hm Hv E Ha.
  assert (balanced (λ _, True) w') as Hb'.
  { eapply balanced_weaken; [|eapply register_balanced; [apply Ha|..|exact E]; done]. done. }
  revert E. unfold register. destruct (negb _); [by intros [= <- <-]|]. unfold st_bind_ok, st_bind.
  destruct (save_agent _ _) as [r1 w1] eqn:E. intros Hr.
  assert (w1 = w') as -> by (by destruct r1; injection Hr). apply save_agent_spec in E as [_ Hw]; [|apply Ha|].
  - eapply holds_writes; eauto.
  - by apply registration_in_range.
Qed.
End stable.

(** ** The clock and the agent's record *)

Section alive.
Context `{UuidLib} (a : AgentId) (now since : Z).

(** At time [now] the agent has no heartbeat older than [since]. *)
Definition fresh (v : AbsStore) : Prop :=
  as_now v = now ∧ ∀ t, as_hb v !! a = Some t → (since ≤ t)%Z.

(** And it is active. *)
Definition seen (v : AbsStore) : Prop := fresh v ∧ is_active (as_agents v !! a).

Lemma fresh_same v v' : fresh v → as_now v' = as_now v → as_hb v' !! a = as_hb v !! a → fresh v'.
Proof. intros [Hn Hh] Hn' Hh'. split; [congruence|]. by rewrite Hh'. Qed.

Lemma active_available b av rec (m : gmap AgentId AgentRecord) :
  m !! b = Some rec → is_active (m !! a) → is_active (<[b := set_available av rec]> m !! a).
Proof.
  intros Hb (rec' & Ha & Hs). destruct (decide (a = b)) as [->|Hne].
  - rewrite lookup_insert_eq. exists (set_available av rec). split; [done|]. by simplify_eq.
  - rewrite lookup_insert_ne by done. by exists rec'.
Qed.

Lemma fresh_stable : (since ≤ now)%Z → Stable fresh.
Proof.
  intros Hle. split.
  - intros b i cpu mem v v' Hv (rec & _ & _ & _ & _ & _ & _ & _ & Hh & Hn).
    eapply fresh_same; [done|done|by rewrite Hh].
  - intros i rs v v' Hv (_ & _ & _ & _ & _ & Hh & Hn). eapply fresh_same; [done|done|by rewrite Hh].
  - intros i st err v v' Hv (_ & _ & _ & _ & Hh & Hn). eapply fresh_same; [done|done|by rewrite Hh].
  - intros b v v' Hv (_ & _ & _ & _ & Hn & Hother & Hb & _). destruct (decide (a = b)) as [<-|Hne].
    + destruct Hb as [Hb|Hb]; [by eapply fresh_same|]. destruct Hv as [Hnow _]. split; [congruence|].
      intros t. rewrite Hb. intros [= <-]. lia.
    + eapply fresh_same; [done|done|by apply Hother].
Qed.

Lemma seen_stable : (since ≤ now)%Z → Stable seen.
Proof.
  intros Hle. destruct (fresh_stable Hle) as [Hf1 Hf2 Hf3 Hf4]. split.
  - intros b i cpu mem v v' [Hv Ha] E. split; [by eapply Hf1|].
    destruct E as (rec & Hrec & _ & _ & (n & -> & _) & _). by apply active_available.
  - intros i rs v v' [Hv Ha] E. split; [by eapply Hf2|]. destruct E as (Hsome & Hnone & _).
    destruct (as_agents v !! rs_agent_id rs) as [rec|] eqn:Hrec; [|by rewrite Hnone].
    destruct (Hsome rec eq_refl) as (cpu & mem & n & -> & _). by apply active_available.
  - intros i st err v v' [Hv Ha] E. split; [by eapply Hf3|]. by destruct E as (_ & -> & _).
  - intros b v v' [Hv Ha] E. split; [by eapply Hf4|]. by destruct E as (-> & _).
Qed.

Lemma fresh_mark_dead b v v' : fresh v → eff_mark_dead b v v' → fresh v'.
Proof. intros Hv (_ & _ & _ & _ & Hh & Hn). eapply fresh_same; [done|done|by rewrite Hh]. Qed.

Lemma fresh_save_agent rec v v' : (since ≤ now)%Z → fresh v → eff_save_agent rec v v' → fresh v'.
Proof.
  intros Hle Hv (_ & _ & _ & _ & Hn & Hother & Hh). destruct (decide (a = ar_agent_id rec)) as [Heq|Hne].
  - rewrite <- Heq in Hh. destruct Hh as [Hh|[_ Hh]]; [by eapply fresh_same|]. destruct Hv as [Hnow _]. split; [congruence|].
    intros t. rewrite Hh. intros [= <-]. lia.
  - eapply fresh_same; [done|done|by apply Hother].
Qed.

Lemma seen_mark_dead b v v' : b ≠ a → seen v → eff_mark_dead b v v' → seen v'.
Proof.
  intros Hne [Hv Ha] E. split; [by eapply fresh_mark_dead|]. destruct E as ((rec & Hrec & ->) & _).
  by rewrite lookup_insert_ne.
Qed.

Lemma seen_save_agent rec v v' :
  (since ≤ now)%Z → ar_agent_id rec ≠ a → seen v → eff_save_agent rec v v' → seen v'.
Proof.
  intros Hle Hne [Hv Ha] E. split; [by eapply fresh_save_agent|]. destruct E as (-> & _).
  by rewrite lookup_insert_ne.
Qed.

(** While the heartbeat is recent, no sweep finds the agent. *)
Lemma seen_not_dead {W : Type} `{!ControllerStore W, !StoreSpec W} (c : Ctl W) l c' :
  (now - since ≤ DEAD_AGENT_TIMEOUT)%Z → holds seen (c_store c) → lift dead_agents c = (Ok l, c') →
  Forall (λ b, b ≠ a) l.
Proof.
  intros Hle [Hb [[Hn Hs] _]] (w' & E & ->)%lift_inv. apply Forall_forall. intros b Hin ->.
  apply dead_agents_spec in E as (_ & _ & [(l' & [= <-] & Hl)|(d & ?)]); [|done|apply Hb].
  apply Hl in Hin as [_ (t' & Ht' & Hlt)]. apply Hs in Ht'. lia.
Qed.
End alive.

(** ** What the others do *)

Section others.
Context `{UuidLib} {W : Type} `{!ControllerStore W} (validate : string → bool).
Context (k : ControllerConnection) (cid : nat).
Implicit Types (R : relation (Ctl W)) (s : Sys W).
#[local] Abbreviation a := (cc_agent_id k).

(** The calls by which other streams touch channels and the table of connections. *)
Class Distant R := {
  distant_handled :: Handled R;
  distant_send c x : c ≠ cid → moves R (chan_send c x);
  distant_add b c : b ≠ a → c ≠ cid → moves R (connections_add b c);
  distant_remove b : b ≠ a → moves R (connections_remove b);
  distant_channel f d c : d ≠ cid → R c (with_chans (partial_alter f d (c_chans c)) c);
}.

Definition id_free s : Prop := ∀ c, c ≠ cid → sys_streams s !! c ≠ Some (Some a).

(** The calls that need more than that, of one event. *)
Definition event_moves R e s : Prop :=
  match e with
  | EvMessage c (Some (Register id token res)) => ∀ b r c', parse_str id = Some b →
      lift (register validate b token (capacity_of res)) (sys_ctl s) = (r, c') → R (sys_ctl s) c'
  | EvCreate i req => ∀ r c', mgmt_create_sandbox i req (sys_ctl s) = (r, c') → R (sys_ctl s) c'
  | EvSweep => ∀ r c', sweep_dead_agents (sys_ctl s) = (r, c') → R (sys_ctl s) c'
  | _ => True
  end.

Lemma on_message_registered c reg msg (x x' : Ctl W) f :
  on_message validate c reg msg x = (f, x') →
  let reg' := match f with Continue r | Break r => r end in
  reg' = reg ∨ ∃ id token res, msg = Some (Register id token res) ∧ parse_str id = reg'.
Proof.
  destruct msg as [[id token res|id|id st err|]|]; simpl; [..|by intros [= <- <-]; left|by intros [= <- <-]; left].
  - unfold on_register. destruct (parse_str id) as [b|] eqn:Ep.
    2:{ ctl_step r1 c1 E. intros [= <- <-]. by left. }
    ctl_step r1 c1 E. destruct r1 as [[|reason]|e].
    + ctl_step r2 c2 E2. ctl_step r3 c3 E3. ctl_step r4 c4 E4. intros [= <- <-].
      right. exists id, token, res. by destruct r4.
    + ctl_step r2 c2 E2. intros [= <- <-]. left. by destruct r2.
    + ctl_step r2 c2 E2. intros [= <- <-]. left. by destruct r2.
  - unfold on_heartbeat. destruct (parse_str id); [|by intros [= <- <-]; left]. case_decide; [|by intros [= <- <-]; left].
    ctl_step r1 c1 E. destruct r1 as [|e].
    + ctl_step r2 c2 E2. ctl_step r3 c3 E3. intros [= <- <-]. left. by destruct r3.
    + ctl_step r2 c2 E2. intros [= <- <-]. by left.
  - unfold on_sandbox_status. destruct reg as [b|]; [|by intros [= <- <-]; left].
    destruct (parse_str id); [|by intros [= <- <-]; left]. ctl_step r1 c1 E. case_match.
    + ctl_step r2 c2 E2. intros [= <- <-]. by left.
    + intros [= <- <-]. by left.
Qed.

Lemma on_message_moves R `{!Distant R} c reg msg s f c' :
  c ≠ cid → event_moves R (EvMessage c msg) s →
  (∀ id token res, msg = Some (Register id token res) → parse_str id ≠ Some a) →
  on_message validate c reg msg (sys_ctl s) = (f, c') → R (sys_ctl s) c'.
Proof.
  intros Hc He Hid. destruct msg as [[id token res|id|id st err|]|]; simpl.
  2: by apply on_heartbeat_moves; [apply _|intros; by apply distant_send].
  2: by apply on_sandbox_status_moves, _.
  2,3: by intros [= <- <-].
  unfold on_register. destruct (parse_str id) as [b|] eqn:Ep.
  2:{ ctl_step r1 c1 E. intros [= <- <-]. by apply (distant_send c) in E. }
  assert (b ≠ a) as Hb by (intros ->; by apply (Hid id token res)).
  ctl_step r1 c1 E. cbn in He. apply (He b) in E; [|done]. intros Hr. etrans; [exact E|]. revert Hr.
  pose proof (λ x, distant_send c x Hc) as Hsend. pose proof (distant_add b c Hb Hc) as Hadd.
  pose proof (handled_heartbeat (R := R) b) as Hhb.
  match goal with |- ?m _ = _ → _ => assert (moves R m) as Hm by (destruct r1 as [[|]|]; walk); apply Hm end.
Qed.

Lemma other_step R `{!Distant R} e s :
  id_free s → other_event k cid e → event_moves R e s → R (sys_ctl s) (sys_ctl (step validate e s)).
Proof.
  assert (∀ A (m : ST (Ctl W) A), moves R m → R (sys_ctl s) (sys_ctl (on_ctl m s))) as Hctl.
  { intros A m Hm. unfold on_ctl. simpl. destruct (m (sys_ctl s)) eqn:E. by eapply Hm. }
  assert (∀ reg, reg ≠ Some a → moves R (stream_end (W := W) reg)) as Hend.
  { intros [b|] Hb; simpl; [|walk]. apply distant_remove. congruence. }
  intros Hfree Ho He. destruct e as [c|c msg|c|c|i req|id|id|id|id| |]; simpl in *.
  - apply (distant_channel (λ _, Some {| ch_sent := []; ch_open := true |})); done.
  - destruct (sys_streams s !! c) as [reg|] eqn:Es; [|done]. destruct Ho as [Hc Hid].
    destruct (on_message validate c reg msg (sys_ctl s)) as [f c'] eqn:E.
    pose proof (on_message_registered _ _ _ _ _ _ E) as Hreg.
    apply (on_message_moves R) in E; [|done..].
    destruct f as [reg'|reg']; simpl; [done|]. destruct (stream_end reg' c') as [u c2] eqn:Ee. etrans; [exact E|].
    eapply Hend; [|exact Ee]. destruct Hreg as [->|(id & token & res & Hm & <-)]; [|by eapply Hid].
    intros ->. by apply (Hfree c).
  - destruct (sys_streams s !! c) as [reg|] eqn:Es; [|done]. simpl.
    destruct (stream_end reg (sys_ctl s)) as [u c2] eqn:Ee. eapply Hend; [|exact Ee]. intros ->. by apply (Hfree c).
  - by apply distant_channel.
  - destruct (mgmt_create_sandbox i req (sys_ctl s)) as [r c'] eqn:E. by eapply He.
  - apply Hctl, mgmt_get_moves, _.
  - apply Hctl, mgmt_delete_moves, _.
  - apply Hctl, guarded_transition_moves, _.
  - apply Hctl, guarded_transition_moves, _.
  - apply Hctl, mgmt_list_moves, _.
  - destruct (sweep_dead_agents (sys_ctl s)) as [r c'] eqn:E. by eapply He.
Qed.

(** Another event leaves the stream's task alone, and the id unused. *)
Lemma other_streams e s :
  id_free s → other_event k cid e →
  sys_streams (step validate e s) !! cid = sys_streams s !! cid ∧ id_free (step validate e s).
Proof.
  intros Hfree Ho. destruct e as [c|c msg|c|c|i req|id|id|id|id| |]; simpl in *; try done.
  - split; [by rewrite lookup_insert_ne|]. intros d Hd. simpl. destruct (decide (c = d)) as [->|Hne].
    + by rewrite lookup_insert_eq.
    + rewrite lookup_insert_ne by done. by apply Hfree.
  - destruct (sys_streams s !! c) as [reg|] eqn:Es; [|done]. destruct Ho as [Hc Hid].
    destruct (on_message validate c reg msg (sys_ctl s)) as [f c'] eqn:E.
    pose proof (on_message_registered _ _ _ _ _ _ E) as Hreg. destruct f as [reg'|reg']; simpl.
    + split; [by rewrite lookup_insert_ne|]. intros d Hd. simpl. destruct (decide (c = d)) as [->|Hne].
      * rewrite lookup_insert_eq. intros [= ->]. destruct Hreg as [<-|(id & token & res & Hm & Hp)]; [|by eapply Hid].
        by apply (Hfree d).
      * rewrite lookup_insert_ne by done. by apply Hfree.
    + split; [by rewrite lookup_delete_ne|]. intros d Hd. simpl. rewrite lookup_delete_Some. intros [_ Hx].
      by apply (Hfree d).
  - destruct (sys_streams s !! c) as [reg|] eqn:Es; [|done]. simpl. split; [by rewrite lookup_delete_ne|].
    intros d Hd. simpl. rewrite lookup_delete_Some. intros [_ Hx]. by apply (Hfree d).
Qed.
End others.

(** ** The connection's channel *)

Section channel.
Context `{UuidLib} {W : Type} `{!ControllerStore W} (k : ControllerConnection) (cid : nat).
#[local] Abbreviation a := (cc_agent_id k).

(** Before the registration nothing goes through the channel. *)
Definition vacant : relation (Ctl W) := λ c c',
  (∀ b, c_conns c !! b ≠ Some cid) →
  (∀ b, c_conns c' !! b ≠ Some cid) ∧ c_chans c' !! cid = c_chans c !! cid.

(** Afterwards the agent stays connected through it, and only commands are added. *)
Definition linked : relation (Ctl W) := λ c c', ∀ l,
  c_conns c !! a = Some cid → c_chans c !! cid = Some {| ch_sent := l; ch_open := true |} →
  c_conns c' !! a = Some cid ∧
  ∃ cmds, c_chans c' !! cid = Some {| ch_sent := l ++ (Ok <$> cmds); ch_open := true |}.

Definition untouched : relation (Ctl W) := λ c c',
  c_conns c' = c_conns c ∧ c_chans c' !! cid = c_chans c !! cid.

#[global] Instance vacant_preorder : PreOrder vacant.
Proof.
  split; [done|]. intros c1 c2 c3 H12 H23 Hc. destruct (H12 Hc) as [H2 E2]. destruct (H23 H2) as [H3 E3].
  split; [done|congruence].
Qed.
#[global] Instance linked_preorder : PreOrder linked.
Proof.
  split; [intros c l Hc Hl; split; [done|]; exists []; by rewrite app_nil_r|].
  intros c1 c2 c3 H12 H23 l Hc Hl. destruct (H12 l Hc Hl) as (Hc2 & cmds & Hl2).
  destruct (H23 _ Hc2 Hl2) as (Hc3 & cmds' & Hl3). split; [done|]. exists (cmds ++ cmds').
  by rewrite fmap_app, (assoc_L (++)).
Qed.

Lemma untouched_vacant c c' : untouched c c' → vacant c c'.
Proof. intros [Hc Hch] Hv. by rewrite Hc. Qed.
Lemma untouched_linked c c' : untouched c c' → linked c c'.
Proof. intros [Hc Hch] l Ha Hl. rewrite Hc, Hch. split; [done|]. exists []. by rewrite app_nil_r. Qed.

Lemma untouched_lift {A} (m : ST W A) : moves untouched (lift m).
Proof. by intros c r c' (w' & _ & ->)%lift_inv. Qed.
Lemma untouched_send d x : d ≠ cid → moves untouched (chan_send d x).
Proof.
  intros Hd c r c' [(l & _ & _ & ->)|(_ & _ & ->)]%chan_send_inv; [|done]. split; [done|]. cbn.
  by rewrite lookup_insert_ne.
Qed.
Lemma untouched_channel f d (c : Ctl W) : d ≠ cid → untouched c (with_chans (partial_alter f d (c_chans c)) c).
Proof. intros Hd. split; [done|]. cbn. by rewrite lookup_partial_alter_ne. Qed.

Lemma vacant_remove b : moves vacant (connections_remove b).
Proof.
  intros c r c' [= <- <-] Hc. split; [|done]. intros b'. cbn. rewrite lookup_delete_Some.
  intros [_ Hb]. by apply (Hc b').
Qed.

#[global] Instance vacant_distant : Distant k cid vacant.
Proof.
  split; [split; [apply _|..]|..].
  1-8: intros; intros c r c' E; eapply untouched_vacant, untouched_lift, E.
  - intros b cmd c r c' [(d & l & Hb & _ & _ & ->)|[-> _]]%send_command_inv Hc; [|done]. split; [done|]. cbn.
    rewrite lookup_insert_ne; [done|]. intros ->. by apply (Hc b).
  - intros d x Hd c r c' E. by eapply untouched_vacant, untouched_send.
  - intros b d _ Hd c r c' [= <- <-] Hc. split; [|done]. intros b'. cbn. destruct (decide (b = b')) as [->|Hne].
    + rewrite lookup_insert_eq. congruence.
    + by rewrite lookup_insert_ne.
  - intros b _. apply vacant_remove.
  - intros f d c Hd. by apply untouched_vacant, untouched_channel.
Qed.

#[global] Instance linked_distant : Distant k cid linked.
Proof.
  split; [split; [apply _|..]|..].
  1-8: intros; intros c r c' E; eapply untouched_linked, untouched_lift, E.
  - intros b cmd c r c' [(d & l & Hb & Hd & _ & ->)|[-> _]]%send_command_inv l' Ha Hl.
    2: { split; [done|]. exists []. by rewrite app_nil_r. }
    split; [done|]. cbn. destruct (decide (d = cid)) as [->|Hne].
    + exists [cmd]. rewrite Hl in Hd. simplify_eq. apply lookup_insert_eq.
    + exists []. by rewrite app_nil_r, lookup_insert_ne.
  - intros d x Hd c r c' E. by eapply untouched_linked, untouched_send.
  - intros b d Hb Hd c r c' [= <- <-] l Ha Hl. cbn. rewrite lookup_insert_ne by done. split; [done|]. exists [].
    by rewrite app_nil_r.
  - intros b Hb c r c' [= <- <-] l Ha Hl. cbn. rewrite lookup_delete_ne by done. split; [done|]. exists [].
    by rewrite app_nil_r.
  - intros f d c Hd. by apply untouched_linked, untouched_channel.
Qed.

#[global] Instance holds_distant `{!StoreSpec W} V `{!Stable V} : Distant k cid (keeps (W := W) (holds V)).
Proof.
  split; [apply _|..]; intros;
    [apply keeps_chan_send|apply keeps_conns_add|apply keeps_conns_remove|by intros Hc].
Qed.

Lemma untouched_create i req c r c' :
  mgmt_create_sandbox (W := W) i req c = (r, c') → vacant c c' ∧ linked c c'.
Proof.
  assert (∀ R, Handled R → (∀ A (m : ST W A), moves R (lift m)) → moves R (mgmt_create_sandbox (W := W) i req)) as Hm.
  { intros R HR Hl. unfold mgmt_create_sandbox, create_sandbox. walk; try apply Hl. }
  intros E. split; eapply Hm; try exact E; try apply _; intros A m c0 r0 c0' E0.
  - eapply untouched_vacant, untouched_lift, E0.
  - eapply untouched_linked, untouched_lift, E0.
Qed.
End channel.

(** ** One step of the others *)

Section other_steps.
Context `{UuidLib} {W : Type} `{!ControllerStore W, !StoreSpec W} (validate : string → bool).
Context (k : ControllerConnection) (cid : nat) (s : Sys W) (e : Event).
#[local] Abbreviation a := (cc_agent_id k).
Hypothesis (Hfree : id_free k cid s) (Hother : other_event k cid e) (Hok : event_ok e s).

Lemma other_holds V `{!Stable V} (Q : AgentId → Prop) :
  (∀ b v v', Q b → V v → eff_mark_dead b v v' → V v') →
  (∀ rec v v', ar_agent_id rec ≠ a → V v → eff_save_agent rec v v' → V v') →
  (∀ (c : Ctl W) l c', holds V (c_store c) → lift dead_agents c = (Ok l, c') → Forall Q l) →
  holds V (store_of s) → holds V (store_of (step validate e s)).
Proof.
  intros Hdead Hsave HQ Hs. refine (other_step validate k cid (keeps (holds V)) e s Hfree Hother _ Hs).
  destruct e as [|c [[id token res| | |]|]| | |i req| | | | | |]; try done; cbn in *.
  - intros b r c' Hp (w' & Hr & ->)%lift_inv. destruct Hok as [Hc Hm].
    refine (holds_register V validate b token _ _ r w' Hc Hm _ Hr).
    intros v v'. apply Hsave. cbn. intros ->. by eapply (proj2 Hother).
  - intros r c' Hr Ha. by eapply holds_create.
  - intros r c' Hr Ha. eapply (sweep_moves (keeps (holds V)) (λ c, holds V (c_store c)) Q); [|done|done|done|done].
    intros b Hb. split; [|apply keeps_conns_remove]. apply keeps_lift. intros w r' w'. apply holds_mark_dead. eauto.
Qed.

Lemma other_fresh n t :
  (t ≤ n)%Z → holds (fresh a n t) (store_of s) → holds (fresh a n t) (store_of (step validate e s)).
Proof.
  intros Hle. pose proof (fresh_stable a n t Hle). apply (other_holds (fresh a n t) (λ _, True)).
  - intros. by eapply fresh_mark_dead.
  - intros. by eapply fresh_save_agent.
  - intros. by apply Forall_true.
Qed.

Lemma other_seen n t :
  (t ≤ n)%Z → (n - t ≤ DEAD_AGENT_TIMEOUT)%Z →
  holds (seen a n t) (store_of s) → holds (seen a n t) (store_of (step validate e s)).
Proof.
  intros Hle Hrec. pose proof (seen_stable a n t Hle). apply (other_holds (seen a n t) (λ b, b ≠ a)).
  - intros. by eapply seen_mark_dead.
  - intros. by eapply seen_save_agent.
  - intros c l c'. by apply seen_not_dead.
Qed.

Lemma other_vacant : vacant cid (sys_ctl s) (sys_ctl (step validate e s)).
Proof.
  apply (other_step validate k cid (vacant cid)); [done..|].
  destruct e as [|c [[id token res| | |]|]| | |i req| | | | | |]; try done; cbn in *.
  - intros b r c' _ Hr. eapply untouched_vacant, untouched_lift, Hr.
  - intros r c' Hr. by apply (untouched_create k cid) in Hr as [? _].
  - intros r c'. pose proof (vacant_distant k cid).
    apply (sweep_moves (vacant cid) (λ _, True) (λ _, True)); [|intros; by apply Forall_true|done].
    intros b _. split; [|apply vacant_remove]. intros c0 r0 c0' E0. eapply untouched_vacant, untouched_lift, E0.
Qed.

Lemma other_linked n t :
  (n - t ≤ DEAD_AGENT_TIMEOUT)%Z → holds (seen a n t) (store_of s) →
  linked k cid (sys_ctl s) (sys_ctl (step validate e s)).
Proof.
  intros Hrec Hs. apply (other_step validate k cid (linked k cid)); [done..|].
  destruct e as [|c [[id token res| | |]|]| | |i req| | | | | |]; try done; cbn in *.
  - intros b r c' _ Hr. eapply untouched_linked, untouched_lift, Hr.
  - intros r c' Hr. by apply (untouched_create k cid) in Hr as [_ ?].
  - intros r c'. apply (sweep_moves (linked k cid) (λ c, holds (seen a n t) (c_store c)) (λ b, b ≠ a)); [| |done].
    + intros b Hb. split; [|exact (distant_remove k cid b Hb)].
      intros c0 r0 c0' E0. eapply untouched_linked, untouched_lift, E0.
    + intros c0 l c0'. by apply seen_not_dead.
Qed.
End other_steps.

(** ** The agent's own messages *)

Section own.
Context `{UuidLaws} {W : Type} `{!ControllerStore W, !StoreSpec W, !StoreReliable W} (validate : string → bool).
Context (k : ControllerConnection) (cid : nat) (s : Sys W) (n : Z).
#[local] Abbreviation a := (cc_agent_id k).

(** The stream's task and its channel after a message. *)
Record handled_by (msg : AgentMessage) (t : Z) (sent : list (result ControllerCommand Status)) (s' : Sys W) : Prop := {
  hd_step : s' = step validate (EvMessage cid msg) s;
  hd_seen : holds (seen a n t) (store_of s');
  hd_streams : sys_streams s' = <[cid := Some a]> (sys_streams s);
  hd_conns : c_conns (sys_ctl s') !! a = Some cid;
  hd_chan : c_chans (sys_ctl s') !! cid = Some {| ch_sent := sent; ch_open := true |};
}.

Lemma record_heartbeat_now w r w' :
  reliable w → store_wf w → is_Some (as_agents (view w) !! a) → record_heartbeat a w = (r, w') →
  eff_heartbeat a (view w) (view w').
Proof.
  intros Hr Hwf Ha E. pose proof (record_heartbeat_answers a w r w' Hr E) as [_ Hd].
  apply record_heartbeat_spec in E as [_ [[_ He]|(d & -> & _)]]; [done| |done]. by destruct (Hd d).
Qed.

(** The turns of the registration. *)
Lemma turn_save t c r :
  (t ≤ n)%Z → holds (fresh a n t) (store_of s) → reliable (store_of s) →
  register_ok (Some (cc_resources k)) → validate (jt_token (cc_join_token k)) = true →
  register_turn validate cid None (hyphenated a) (jt_token (cc_join_token k)) (Some (cc_resources k)) Idle
    (sys_ctl s) = (r, c) →
  r = inl (Adding a) ∧ holds (seen a n t) (c_store c) ∧ c_conns c = c_conns (sys_ctl s) ∧
  c_chans c = c_chans (sys_ctl s).
Proof.
  intros Hle Hf Hrel [Hc Hm] Hv. cbn [register_turn]. rewrite parse_hyphenated.
  ctl_step r1 c1 E. apply lift_inv in E as (w1 & E & ->). intros [= <- <-].
  pose proof (holds_register (fresh a n t) validate _ _ _ _ _ _ Hc Hm (λ v v', fresh_save_agent a n t _ v v' Hle)
    E Hf) as [Hb Hf1].
  revert E. unfold register. rewrite Hv. cbn [negb]. unfold st_bind_ok, st_bind.
  destruct (save_agent _ _) as [r2 w2] eqn:E2. pose proof (save_agent_answers _ _ _ _ Hrel E2) as [_ Hd].
  apply save_agent_spec in E2 as [_ Hw]; [|apply Hf|by apply registration_in_range].
  destruct Hw as [[-> (Hag & _)]|(d & -> & _)]; [|by destruct (Hd d)]. cbn [st_ret]. intros [= <- ->].
  split; [done|]. split; [|done]. split; [exact Hb|]. split; [exact Hf1|].
  cbn [c_store with_store]. rewrite Hag. cbn. rewrite lookup_insert_eq. by eexists.
Qed.

Lemma record_now t w r w' :
  (t ≤ n)%Z → holds (seen a n t) w → reliable w → record_heartbeat a w = (r, w') → holds (seen a n n) w'.
Proof.
  intros Hle Hse Hrel E. pose proof (seen_stable a n t Hle).
  pose proof (holds_record_heartbeat (seen a n t) _ _ _ _ Hse E) as [Hb [[Hn _] Ha]].
  destruct Hse as [[Hwf _] [_ (rec & Hrec & _)]].
  apply record_heartbeat_now in E as (_ & _ & _ & _ & Hn1 & _ & _ & Hhb); [|done..|by eexists].
  split; [done|]. split; [|done]. split; [done|].
  intros t'. rewrite Hhb by (by eexists). intros [= <-]. rewrite <- Hn1. by rewrite Hn.
Qed.

Lemma handle_heartbeat t l :
  (t ≤ n)%Z → holds (seen a n t) (store_of s) → reliable (store_of s) → sys_streams s !! cid = Some (Some a) →
  c_conns (sys_ctl s) !! a = Some cid → c_chans (sys_ctl s) !! cid = Some {| ch_sent := l; ch_open := true |} →
  handled_by (heartbeat_msg k) n (l ++ [Ok (HeartbeatAck (c_clock (sys_ctl s)))])
    (step validate (EvMessage cid (heartbeat_msg k)) s).
Proof.
  intros Hle Hse Hrel Hs Hc Hch. pose proof Hse as [Hb [_ (rec & Ha & _)]].
  set (s' := step validate _ s). assert (s' = step validate (EvMessage cid (heartbeat_msg k)) s) as Hs' by done.
  revert Hs'. cbn [step heartbeat_msg on_message]. rewrite Hs. unfold on_heartbeat. rewrite parse_hyphenated.
  rewrite decide_True by done. unfold st_bind at 1, lift at 1, registry_heartbeat, st_bind_ok, st_bind at 1.
  destruct (get_agent _ _) as [o w1] eqn:E1. pose proof (get_agent_answers _ _ _ _ Hrel E1) as [Hrel1 Hd].
  pose proof (balanced_get_agent _ _ _ _ _ Hb E1) as Hb1.
  apply get_agent_spec in E1 as (Hwf1 & Hv1 & [(o' & -> & ->)|(d & ->)]); [|by destruct (Hd d)|apply Hb].
  unfold store_of in Ha. rewrite Ha. cbn [st_ret]. unfold st_bind at 1, lift. cbn [c_store with_store].
  destruct (record_heartbeat _ w1) as [r2 w2] eqn:E2.
  apply (record_now t) in E2; [|done|split; [done|]; rewrite Hv1; apply Hse|done].
  unfold st_bind, chan_send. cbn [c_chans c_clock with_conns with_store]. rewrite Hch. cbn [after_send st_ret]. intros Hs'.
  split; [done|..]; rewrite Hs'; cbn; rewrite ?lookup_insert_eq; done.
Qed.

Lemma handle_status t l id st err :
  (t ≤ n)%Z → holds (seen a n t) (store_of s) → sys_streams s !! cid = Some (Some a) →
  c_conns (sys_ctl s) !! a = Some cid → c_chans (sys_ctl s) !! cid = Some {| ch_sent := l; ch_open := true |} →
  ∃ cmds, handled_by (Some (SandboxStatus id st err)) t (l ++ (Ok <$> cmds))
    (step validate (EvMessage cid (Some (SandboxStatus id st err))) s).
Proof.
  intros Hle Ha Hs Hc Hch. set (s' := step validate _ s).
  assert (s' = step validate (EvMessage cid (Some (SandboxStatus id st err))) s) as Hs' by done.
  revert Hs'. cbn [step on_message]. rewrite Hs.
  destruct (on_sandbox_status (Some a) id st err (sys_ctl s)) as [f c'] eqn:E.
  assert (f = Continue (Some a)) as ->.
  { revert E. unfold on_sandbox_status. destruct (parse_str id); [|by intros [= <- <-]].
    ctl_step r1 c1 E. case_match; [ctl_step r2 c2 E2|]; by intros [= <- <-]. }
  pose proof (seen_stable a n t Hle).
  pose proof (on_sandbox_status_moves (keeps (holds (seen a n t))) _ _ _ _ _ _ _ E Ha) as Ha'.
  pose proof (on_sandbox_status_moves (linked k cid) _ _ _ _ _ _ _ E l Hc Hch) as (Hc' & cmds & Hch').
  intros Hs'. exists cmds. split; [done|..]; by rewrite Hs'.
Qed.
End own.

(** ** The invariant of the connection *)

#[local] Arguments step : simpl never.

Section invariant.
Context `{UuidLaws} {W : Type}.
Context `{!ControllerStore W, !StoreSpec W, !StoreClock W, !StoreReliable W} (validate : string → bool).
Context (k : ControllerConnection) (cid : nat) (up down t0 : Z).
Implicit Types (l : Link W) (s : Sys W).
#[local] Abbreviation a := (cc_agent_id k).
#[local] Abbreviation answer := (RegisterResponse true "" "").

Hypothesis (Hup : (0 ≤ up)%Z) (Hdown : (0 ≤ down)%Z).
Hypothesis (Hbound : (up + down + HEARTBEAT_INTERVAL + up ≤ DEAD_AGENT_TIMEOUT)%Z).
Hypothesis (Htoken : validate (jt_token (cc_join_token k)) = true).

(** The times of the heartbeats under way. *)
Definition heartbeats (q : list (Z * AgentMessage)) : list Z :=
  omap (λ m, match m.2 with Some (Heartbeat _) => Some m.1 | _ => None end) q.

(** After [t] no two heartbeats, and the next one, are further apart than [gap]. *)
Fixpoint spaced (gap t : Z) (hs : list Z) (next : Z) : Prop :=
  match hs with [] => (next ≤ t + gap)%Z | h :: hs => (h ≤ t + gap)%Z ∧ spaced gap h hs next end.

Definition own (m : Z * AgentMessage) : Prop :=
  m.2 = heartbeat_msg k ∨ ∃ id st err, m.2 = Some (SandboxStatus id st err).

(** A heartbeat from then on is not stale while the registration is handled in time. *)
Definition since0 : Z := t0 + up - DEAD_AGENT_TIMEOUT.

(** The registration is under way. *)
Record pending l : Prop := {
  pn_fresh : holds (fresh a (sys_now (lk_sys l)) since0) (store_of (lk_sys l));
  pn_stage : lk_stage l = Idle;
  pn_time : (t0 ≤ sys_now (lk_sys l) ≤ t0 + up)%Z;
  pn_stream : sys_streams (lk_sys l) !! cid = Some None;
  pn_channel : c_chans (sys_ctl (lk_sys l)) !! cid = Some {| ch_sent := []; ch_open := true |};
  pn_unused : ∀ b, c_conns (sys_ctl (lk_sys l)) !! b ≠ Some cid;
  pn_id : id_free k cid (lk_sys l);
  pn_up : lk_up l = [(t0, register_msg k)];
  pn_conn : lk_conn l = Registering;
  pn_read : lk_read l = 0%nat;
  pn_answered : lk_answered l = None;
}.

(** The registration is being handled, and nothing has got into the channel. *)
Record window l (t : Z) : Prop := {
  wd_seen : holds (seen a (sys_now (lk_sys l)) t) (store_of (lk_sys l));
  wd_since : (t ≤ sys_now (lk_sys l))%Z;
  wd_recent : (t0 + up - t ≤ DEAD_AGENT_TIMEOUT)%Z;
  wd_stage : match lk_stage l with
    | Idle => False
    | Adding b => b = a ∧ ∀ b, c_conns (sys_ctl (lk_sys l)) !! b ≠ Some cid
    | Recording b => b = a ∧ c_conns (sys_ctl (lk_sys l)) !! a = Some cid
    | Answering reg x => reg = Some a ∧ x = Ok answer ∧ c_conns (sys_ctl (lk_sys l)) !! a = Some cid ∧ (t0 ≤ t)%Z
    end;
  wd_time : (t0 ≤ sys_now (lk_sys l) ≤ t0 + up)%Z;
  wd_stream : sys_streams (lk_sys l) !! cid = Some None;
  wd_channel : c_chans (sys_ctl (lk_sys l)) !! cid = Some {| ch_sent := []; ch_open := true |};
  wd_id : id_free k cid (lk_sys l);
  wd_up : lk_up l = [(t0, register_msg k)];
  wd_conn : lk_conn l = Registering;
  wd_read : lk_read l = 0%nat;
  wd_answered : lk_answered l = None;
}.

(** Something got into the channel before the answer. *)
Definition overtaken l : Prop := lk_stage l ≠ Idle ∧ channel cid (lk_sys l) ≠ [].

(** How far the agent is, by the time of its last heartbeat. *)
Definition phase (t : Z) l : Prop :=
  match lk_conn l with
  | Registering => lk_up l = [] ∧ lk_read l = 0%nat ∧ ∃ t', lk_answered l = Some t' ∧ (t' ≤ t + up)%Z
  | Serving next => lk_read l ≠ 0%nat ∧ spaced (up + down + HEARTBEAT_INTERVAL) t (heartbeats (lk_up l)) next
  | Over _ => False
  end.

(** The agent is registered and connected. *)
Record registered l (t : Z) : Prop := {
  rg_seen : holds (seen a (sys_now (lk_sys l)) t) (store_of (lk_sys l));
  rg_stage : lk_stage l = Idle;
  rg_since : (t ≤ sys_now (lk_sys l))%Z;
  rg_stream : sys_streams (lk_sys l) !! cid = Some (Some a);
  rg_conn : c_conns (sys_ctl (lk_sys l)) !! a = Some cid;
  rg_channel : ∃ cmds, c_chans (sys_ctl (lk_sys l)) !! cid =
    Some {| ch_sent := Ok answer :: (Ok <$> cmds); ch_open := true |};
  rg_id : id_free k cid (lk_sys l);
  rg_own : Forall own (lk_up l);
  rg_sent : Forall (λ m, m.1 ≤ sys_now (lk_sys l))%Z (lk_up l);
  rg_timely : timely up down (sys_now (lk_sys l)) l;
  rg_phase : phase t l;
}.

Lemma spaced_snoc gap t hs n h n' :
  spaced gap t hs n → (h ≤ n)%Z → (n' ≤ h + gap)%Z → spaced gap t (hs ++ [h]) n'.
Proof. revert t. induction hs as [|h' hs IH]; intros t; cbn; [lia|]. intros [Hh Hs] Hn Hn'. split; [done|]. by apply IH. Qed.

(** The last heartbeat is recent. *)
Lemma registered_recent l t : registered l t → (sys_now (lk_sys l) - t ≤ DEAD_AGENT_TIMEOUT)%Z.
Proof.
  intros [_ _ _ _ _ _ _ _ _ [Hq Hc] Hp]. unfold phase in Hp. unfold HEARTBEAT_INTERVAL in *. destruct (lk_conn l) as [|next|e]; [..|done].
  - destruct Hp as (_ & _ & t' & Ht' & Hle). specialize (Hc t' Ht'). lia.
  - destruct Hp as [_ Hs]. destruct (heartbeats (lk_up l)) as [|h hs] eqn:E; cbn in Hs; [lia|].
    assert (h ∈ heartbeats (lk_up l)) as ([t' m] & Hm & Hin)%list_elem_of_omap by (rewrite E; left).
    assert (t' = h) as -> by (cbn in Hm; repeat case_match; by simplify_eq).
    pose proof (proj1 (Forall_forall _ _) Hq _ Hm) as Hq'. cbn in Hq'. lia.
Qed.

Lemma registered_channel l t item :
  registered l t → channel cid (lk_sys l) !! lk_read l = Some item →
  ∃ cmd, item = Ok cmd ∧ (lk_read l = 0%nat → cmd = answer).
Proof.
  intros [_ _ _ _ _ [cmds Hch] _ _ _ _ _]. unfold channel. rewrite Hch. cbn. destruct (lk_read l) as [|i]; cbn.
  - intros [= <-]. by exists answer.
  - intros (cmd & -> & _)%list_lookup_fmap_Some. by exists cmd.
Qed.

Lemma since0_before : (since0 ≤ t0)%Z.
Proof. unfold since0, HEARTBEAT_INTERVAL in *. lia. Qed.

Lemma connecting_pending l : connecting k cid up l → sys_now (lk_sys l) = t0 → pending l.
Proof.
  intros [Hb Hrec] Ht. split; try done; [|lia|by rewrite <- Ht].
  split; [done|]. split; [done|]. intros t Hh. apply Hrec in Hh. unfold since0. lia.
Qed.

(** Time passes. *)
Lemma pass_now d s : store_wf (store_of s) → sys_now (pass d s) = (sys_now s + d)%Z.
Proof. intros Hwf. unfold sys_now, pass, store_of. cbn. by rewrite (proj2 (tick_spec d _ Hwf)). Qed.

Lemma pass_holds d s V V' :
  (∀ v, V v → V' (later d v)) → holds V (store_of s) → holds V' (store_of (pass d s)).
Proof.
  intros HV [[Hwf [Hr Ha]] Hv]. unfold pass, store_of in *. cbn. destruct (tick_spec d _ Hwf) as [Hwf' Hv'].
  split; [|rewrite Hv'; by apply HV]. split; [done|]. rewrite Hv'. by split.
Qed.

Lemma pass_fresh d s t :
  holds (fresh a (sys_now s) t) (store_of s) → holds (fresh a (sys_now s + d) t) (store_of (pass d s)).
Proof. apply pass_holds. intros v [Hn Hh]. split; [cbn; congruence|done]. Qed.

Lemma pass_seen d s t :
  holds (seen a (sys_now s) t) (store_of s) → holds (seen a (sys_now s + d) t) (store_of (pass d s)).
Proof. apply pass_holds. intros v [[Hn Hh] Ha]. split; [|done]. split; [cbn; congruence|done]. Qed.

Lemma pending_pass d l :
  (0 ≤ d)%Z → timely up down (sys_now (lk_sys l) + d) l → pending l → pending (with_sys (pass d (lk_sys l)) l).
Proof.
  intros Hd [Hq _] [Hcl Hst Ht Hs Hch Hun Hid Hu Hc Hr Ha]. pose proof (pass_now d _ (proj1 (proj1 Hcl))) as Hn.
  rewrite Hu in Hq. apply Forall_cons in Hq as [Hq _]. cbn in Hq.
  split; cbn; rewrite ?Hn; try done; [by apply pass_fresh|lia].
Qed.

Lemma window_pass d l t :
  (0 ≤ d)%Z → timely up down (sys_now (lk_sys l) + d) l → window l t → window (with_sys (pass d (lk_sys l)) l) t.
Proof.
  intros Hd [Hq _] [Hse Hle Hrec Hst Ht Hs Hch Hid Hu Hc Hr Ha]. pose proof (pass_now d _ (proj1 (proj1 Hse))) as Hn.
  rewrite Hu in Hq. apply Forall_cons in Hq as [Hq _]. cbn in Hq.
  split; cbn; rewrite ?Hn; try done; [by apply pass_seen|lia|lia].
Qed.

Lemma registered_pass d l t :
  (0 ≤ d)%Z → timely up down (sys_now (lk_sys l) + d) l → registered l t →
  registered (with_sys (pass d (lk_sys l)) l) t.
Proof.
  intros Hd Htm [Hse Hstg Ht Hs Hc Hch Hid Ho Hsent _ Hp]. pose proof (pass_now d _ (proj1 (proj1 Hse))) as Hn.
  split; cbn; try done; rewrite ?Hn; [by apply pass_seen|lia| |done].
  eapply Forall_impl; [exact Hsent|]. intros m. cbn. lia.
Qed.

(** The agent sends. *)
Lemma registered_heartbeat l t next :
  lk_conn l = Serving next → (next ≤ sys_now (lk_sys l))%Z → registered l t →
  registered (send (heartbeat_msg k) (Serving (sys_now (lk_sys l) + HEARTBEAT_INTERVAL)) l) t.
Proof.
  intros Hco Hle [Hse Hstg Ht Hs Hc Hch Hid Ho Hsent [Hq Hnext] Hp]. unfold phase in Hp. rewrite Hco in Hp, Hnext.
  split; cbn; try done.
  - apply Forall_app_2; [done|]. constructor; [by left|done].
  - apply Forall_app_2; [done|]. by constructor.
  - split; [|cbn; unfold HEARTBEAT_INTERVAL; lia]. apply Forall_app_2; [done|]. constructor; [cbn; lia|done].
  - split; [apply Hp|]. unfold heartbeats. rewrite omap_app. cbn.
    eapply spaced_snoc; [apply Hp|done|lia].
Qed.

Lemma registered_report l t next cmd r :
  lk_conn l = Serving next → registered l t → registered (send (Some (status_report cmd r)) (lk_conn l) l) t.
Proof.
  intros Hco [Hse Hstg Ht Hs Hc Hch Hid Ho Hsent [Hq Hnext] Hp].
  split; cbn; try done.
  - apply Forall_app_2; [done|]. constructor; [|done]. right. unfold own, status_report. cbn. destruct r; eauto.
  - apply Forall_app_2; [done|]. by constructor.
  - split; [|done]. apply Forall_app_2; [done|]. constructor; [cbn; lia|done].
  - unfold phase in *. cbn. rewrite Hco in *. unfold heartbeats in *. rewrite omap_app. cbn.
    destruct r; cbn; by rewrite app_nil_r.
Qed.

(** The agent reads. *)
Lemma registered_reads l t item :
  channel cid (lk_sys l) !! lk_read l = Some item → registered l t → registered (read item l) t.
Proof.
  intros Hi Hr. destruct (registered_channel l t item Hr Hi) as (cmd & -> & Hans).
  destruct Hr as [Hse Hstg Ht Hs Hc Hch Hid Ho Hsent [Hq Hnext] Hp]. unfold phase in Hp.
  split; cbn; try done; unfold timely, phase; cbn; destruct (lk_conn l) as [|next|e]; try done.
  - destruct Hp as (_ & Hrd & _). rewrite (Hans Hrd). split; [done|]. cbn. unfold HEARTBEAT_INTERVAL. lia.
  - destruct Hp as (Hu & Hrd & t' & Ha & Hle). rewrite (Hans Hrd), Hu. split; [done|]. cbn.
    specialize (Hnext t' Ha). lia.
  - by destruct Hp.
Qed.

(** The stream's task reads. *)
Lemma handled_now l msg t sent :
  handled_by validate k cid (lk_sys l) (sys_now (lk_sys l)) msg t sent (step validate (EvMessage cid msg) (lk_sys l)) →
  sys_now (step validate (EvMessage cid msg) (lk_sys l)) = sys_now (lk_sys l).
Proof. intros [_ [_ [[Hn _] _]] _ _ _]. exact Hn. Qed.

Lemma id_free_insert s s' : sys_streams s' = <[cid := Some a]> (sys_streams s) → id_free k cid s → id_free k cid s'.
Proof. intros Hs Hf c Hc. rewrite Hs, lookup_insert_ne by done. by apply Hf. Qed.

(** The turns of the registration. *)
Lemma pending_turn reg st c l :
  reliable (store_of (lk_sys l)) → register_ok (Some (cc_resources k)) → pending l →
  sys_streams (lk_sys l) !! cid = Some reg →
  register_turn validate cid reg (hyphenated a) (jt_token (cc_join_token k)) (Some (cc_resources k)) (lk_stage l)
    (sys_ctl (lk_sys l)) = (st, c) →
  ∃ st', st = inl st' ∧ window (waiting st' c l) since0.
Proof.
  intros Hrel Hok [Hcl Hst Ht Hs Hch Hun Hid Hu Hc Hr Ha] Hs'. rewrite Hst. rewrite Hs in Hs'. injection Hs' as <-.
  pose proof since0_before. intros Hturn.
  apply (turn_save validate k cid _ (sys_now (lk_sys l)) since0) in Hturn as (-> & Hse & Hco & Hch'); [|lia|done..].
  exists (Adding a). split; [done|].
  assert (sys_now (with_ctl c (lk_sys l)) = sys_now (lk_sys l)) as Hn by apply Hse.
  split; cbn; rewrite ?Hn, ?Hco, ?Hch'; try done; [lia|unfold since0; lia].
Qed.

Lemma window_turn reg st c l t :
  reliable (store_of (lk_sys l)) → window l t → sys_streams (lk_sys l) !! cid = Some reg →
  register_turn validate cid reg (hyphenated a) (jt_token (cc_join_token k)) (Some (cc_resources k)) (lk_stage l)
    (sys_ctl (lk_sys l)) = (inl st, c) →
  ∃ t', window (waiting st c l) t'.
Proof.
  intros Hrel [Hse Hle Hrec Hst Ht Hs Hch Hid Hu Hc Hr Ha] Hs'. destruct (lk_stage l) as [|b|b|reg' x] eqn:El; [done|..].
  - destruct Hst as [-> Hun]. intros [= <- <-]. exists t. split; cbn; try done. by rewrite lookup_insert_eq.
  - destruct Hst as [-> Hco]. cbn. ctl_step r1 c1 E. intros [= <- <-]. exists (sys_now (lk_sys l)).
    apply lift_inv in E as (w1 & E & ->). apply (record_now k (sys_now (lk_sys l)) t) in E; [|done..].
    assert (sys_now (with_ctl (with_store w1 (sys_ctl (lk_sys l))) (lk_sys l)) = sys_now (lk_sys l)) as Hn by apply E.
    split; cbn; rewrite ?Hn; try done; [unfold HEARTBEAT_INTERVAL in *; lia|]. by split_and!; [..|lia].
  - cbn. ctl_step r1 c1 E. done.
Qed.

Lemma window_registers reg flow c rest l t :
  window l t → lk_up l = (t0, register_msg k) :: rest → sys_streams (lk_sys l) !! cid = Some reg →
  register_turn validate cid reg (hyphenated a) (jt_token (cc_join_token k)) (Some (cc_resources k)) (lk_stage l)
    (sys_ctl (lk_sys l)) = (inr flow, c) →
  registered (handled cid (after_message cid flow c (lk_sys l)) rest l) t.
Proof.
  intros [Hse Hle Hrec Hst Ht Hs Hch Hid Hu Hc Hr Ha] Hu' Hs'. rewrite Hu in Hu'. injection Hu' as <-.
  destruct (lk_stage l) as [|b|b|reg' x] eqn:El; [done|by intros|cbn; by ctl_step r1 c1 E|].
  destruct Hst as (-> & -> & Hco & Hle'). cbn. unfold st_bind, chan_send. rewrite Hch. intros [= <- <-].
  match goal with |- registered (handled _ ?s _ _) _ => set (s' := s) end.
  assert (sys_now s' = sys_now (lk_sys l)) as Hn by done.
  assert (channel cid s' = [Ok answer]) as Hch' by (unfold channel, s'; cbn; by rewrite lookup_insert_eq).
  split; cbn [handled lk_sys lk_stage lk_up]; rewrite ?Hn; try done.
  - subst s'. cbn. by rewrite lookup_insert_eq.
  - exists []. subst s'. cbn. by rewrite lookup_insert_eq.
  - by eapply id_free_insert.
  - split; [done|]. cbn [handled lk_conn lk_answered]. rewrite Hc, Ha, Hch', Hn. intros t' [= <-]. lia.
  - unfold phase. cbn [handled lk_conn lk_answered lk_read lk_up]. rewrite Hc, Ha, Hr, Hch', Hn. split; [done|]. split; [done|]. eexists. split; [done|]. lia.
Qed.

Lemma registered_after t1 msg rest l t t' sent :
  registered l t → lk_up l = (t1, msg) :: rest →
  handled_by validate k cid (lk_sys l) (sys_now (lk_sys l)) msg t' (Ok answer :: (Ok <$> sent))
    (step validate (EvMessage cid msg) (lk_sys l)) →
  (t' ≤ sys_now (lk_sys l))%Z →
  (∀ next, spaced (up + down + HEARTBEAT_INTERVAL) t (heartbeats (lk_up l)) next →
     spaced (up + down + HEARTBEAT_INTERVAL) t' (heartbeats rest) next) →
  registered (handled cid (step validate (EvMessage cid msg) (lk_sys l)) rest l) t'.
Proof.
  intros Hr Hu Hd Ht' Hsp. pose proof (handled_now l _ _ _ Hd) as Hn. destruct Hd as [_ Hse Hst Hco Hch'].
  destruct Hr as [_ Hstg Ht Hs Hc Hch Hid Ho Hsent [Hq Hnext] Hp]. rewrite Hu in Ho, Hsent, Hq.
  apply Forall_cons in Ho as [_ Ho]. apply Forall_cons in Hsent as [_ Hsent]. apply Forall_cons in Hq as [_ Hq].
  unfold phase in Hp. destruct (lk_conn l) as [|next|e] eqn:Ec; [by destruct Hp; rewrite Hu in *|..|done].
  split; cbn [handled lk_sys lk_up]; rewrite ?Hn; try done.
  - by rewrite Hst, lookup_insert_eq.
  - by exists sent.
  - by eapply id_free_insert.
  - split; [done|]. cbn. by rewrite Ec.
  - unfold phase. cbn. rewrite Ec. split; [apply Hp|]. apply Hsp, Hp.
Qed.

Lemma registered_handles t1 msg rest l t :
  lk_up l = (t1, msg) :: rest → reliable (store_of (lk_sys l)) → registered l t →
  ∃ t', registered (handled cid (step validate (EvMessage cid msg) (lk_sys l)) rest l) t'.
Proof.
  intros Hu Hrel Hr. pose proof Hr as [Hse Hstg Ht Hs Hc [cmds Hch] _ Ho Hsent _ _].
  rewrite Hu in Ho, Hsent. apply Forall_cons in Ho as [[Hm|(id & st & err & Hm)] _]; cbn in Hm; subst msg;
    apply Forall_cons in Hsent as [Ht1 _]; cbn in Ht1.
  - pose proof (handle_heartbeat validate k cid (lk_sys l) _ t _ Ht Hse Hrel Hs Hc Hch) as Hd. exists (sys_now (lk_sys l)).
    eapply (registered_after t1 _ rest l t _ (cmds ++ [HeartbeatAck (c_clock (sys_ctl (lk_sys l)))])); [done|done| |lia|].
    + by rewrite fmap_app.
    + intros next. rewrite Hu. intros [_ Hsp]. change (spaced (up + down + HEARTBEAT_INTERVAL) t1 (heartbeats rest) next) in Hsp.
      destruct (heartbeats rest) as [|h hs]; cbn [spaced] in Hsp |- *; [lia|]. split; [lia|apply Hsp].
  - destruct (handle_status validate k cid (lk_sys l) _ t _ id st err Ht Hse Hs Hc Hch) as (cmds' & Hd). exists t.
    eapply (registered_after t1 _ rest l t _ (cmds ++ cmds')); [done|done| |done|].
    + by rewrite fmap_app.
    + intros next. rewrite Hu. done.
Qed.

(** The others. *)
Lemma pending_other e l :
  other_event k cid e → event_ok e (lk_sys l) → pending l → pending (with_sys (step validate e (lk_sys l)) l).
Proof.
  intros Ho Hok [Hcl Hst' Ht Hs Hch Hun Hid Hu Hc Hr Ha]. 
  assert (since0 ≤ sys_now (lk_sys l))%Z as Hle by (pose proof since0_before; lia).
  pose proof (other_fresh validate k cid (lk_sys l) e Hid Ho Hok _ _ Hle Hcl) as Hcl'.
  assert (sys_now (step validate e (lk_sys l)) = sys_now (lk_sys l)) as Hn by apply Hcl'.
  destruct (other_streams validate k cid e (lk_sys l) Hid Ho) as [Hst Hid'].
  destruct (other_vacant validate k cid (lk_sys l) e Hid Ho Hok Hun) as [Hun' Hch'].
  split; cbn; rewrite ?Hn, ?Hst, ?Hch'; done.
Qed.

Lemma window_other e l t :
  other_event k cid e → event_ok e (lk_sys l) → window l t →
  let l' := with_sys (step validate e (lk_sys l)) l in window l' t ∨ overtaken l'.
Proof.
  intros Ho Hok [Hse Hle Hrec Hst Ht Hs Hch Hid Hu Hc Hr Ha] l'.
  assert (sys_now (lk_sys l) - t ≤ DEAD_AGENT_TIMEOUT)%Z as Hrec' by lia.
  pose proof (other_seen validate k cid (lk_sys l) e Hid Ho Hok _ _ Hle Hrec' Hse) as Hse'.
  assert (sys_now (step validate e (lk_sys l)) = sys_now (lk_sys l)) as Hn by apply Hse'.
  destruct (other_streams validate k cid e (lk_sys l) Hid Ho) as [Hst' Hid'].
  destruct (lk_stage l) as [|b|b|reg x] eqn:El; [done|..].
  - destruct Hst as [-> Hun]. left.
    destruct (other_vacant validate k cid (lk_sys l) e Hid Ho Hok Hun) as [Hun' Hch'].
    split; cbn; rewrite ?Hn, ?Hst', ?Hch', ?El; done.
  - destruct Hst as [-> Hco].
    destruct (other_linked validate k cid (lk_sys l) e Hid Ho Hok _ _ Hrec' Hse _ Hco Hch) as [Hco' [[|cmd cmds] Hch']].
    + left. split; cbn; rewrite ?Hn, ?Hst', ?Hch', ?El; done.
    + right. split; cbn; [by rewrite El|]. unfold channel. by rewrite Hch'.
  - destruct Hst as (-> & -> & Hco & Hle').
    destruct (other_linked validate k cid (lk_sys l) e Hid Ho Hok _ _ Hrec' Hse _ Hco Hch) as [Hco' [[|cmd cmds] Hch']].
    + left. split; cbn; rewrite ?Hn, ?Hst', ?Hch', ?El; done.
    + right. split; cbn; [by rewrite El|]. unfold channel. by rewrite Hch'.
Qed.

Lemma registered_other e l t :
  other_event k cid e → event_ok e (lk_sys l) → registered l t →
  registered (with_sys (step validate e (lk_sys l)) l) t.
Proof.
  intros Ho Hok Hr. pose proof (registered_recent l t Hr) as Hrec.
  destruct Hr as [Hse Hstg Ht Hs Hc [cmds Hch] Hid Hown Hsent Htm Hp].
  pose proof (other_seen validate k cid (lk_sys l) e Hid Ho Hok _ _ Ht Hrec Hse) as Hse'.
  assert (sys_now (step validate e (lk_sys l)) = sys_now (lk_sys l)) as Hn by apply Hse'.
  destruct (other_streams validate k cid e (lk_sys l) Hid Ho) as [Hst Hid'].
  destruct (other_linked validate k cid (lk_sys l) e Hid Ho Hok _ _ Hrec Hse _ Hc Hch) as [Hc' [cmds' Hch']].
  split; cbn; rewrite ?Hn, ?Hst; try done. exists (cmds ++ cmds'). by rewrite Hch', fmap_app.
Qed.

Definition kept l : Prop := pending l ∨ (∃ t, window l t) ∨ ∃ t, registered l t.

Lemma pending_step l l' : link_step validate k cid up down l l' → pending l → kept l'.
Proof.
  intros Hstep Hp. pose proof Hp as [_ Hst _ _ Hch _ _ Hu Hc Hrd _].
  destruct Hstep as [d l Hd Htm|t l Hco|t cmd r l Hco|item l Hi|t id token res rest reg st c l Hu' Hrel Hok Hs E
    |t id token res rest reg flow c l Hu' Hs E|t msg rest l Hu' Hrel Hn|e l Ho Hok].
  - left. by apply pending_pass.
  - congruence.
  - congruence.
  - unfold channel in Hi. rewrite Hch, Hrd in Hi. discriminate Hi.
  - rewrite Hu in Hu'. injection Hu' as _ <- <- <- _.
    right; left. apply pending_turn in E as (st' & [= <-] & Hw); [|done..]. by exists since0.
  - rewrite Hu in Hu'. injection Hu' as _ <- <- <- _.
    rewrite Hst in E. cbn in E. rewrite parse_hyphenated in E. revert E. by ctl_step r1 c1 E1.
  - rewrite Hu in Hu'. injection Hu' as _ <- _. by destruct (Hn _ _ _ eq_refl).
  - left. by apply pending_other.
Qed.

Lemma window_step l l' t :
  link_step validate k cid up down l l' → window l t → kept l' ∨ overtaken l'.
Proof.
  intros Hstep Hp. pose proof Hp as [_ _ _ _ _ _ Hch _ Hu Hc Hrd _].
  destruct Hstep as [d l Hd Htm|t1 l Hco|t1 cmd r l Hco|item l Hi|t1 id token res rest reg st c l Hu' Hrel Hok Hs E
    |t1 id token res rest reg flow c l Hu' Hs E|t1 msg rest l Hu' Hrel Hn|e l Ho Hok].
  - left; right; left. exists t. by apply window_pass.
  - congruence.
  - congruence.
  - unfold channel in Hi. rewrite Hch, Hrd in Hi. discriminate Hi.
  - rewrite Hu in Hu'. injection Hu' as _ <- <- <- _.
    left; right; left. by eapply window_turn in E.
  - pose proof Hu' as Hu2. rewrite Hu in Hu2. injection Hu2 as <- <- <- <- _. left; right; right. exists t. by eapply window_registers.
  - rewrite Hu in Hu'. injection Hu' as _ <- _. by destruct (Hn _ _ _ eq_refl).
  - destruct (window_other e l t Ho Hok Hp); [|by right]. left; right; left. by exists t.
Qed.

Lemma registered_step l l' t :
  link_step validate k cid up down l l' → registered l t → ∃ t', registered l' t'.
Proof.
  intros Hstep Hr. pose proof Hr as [_ _ _ _ _ _ _ Hown _ _ _].
  destruct Hstep as [d l Hd Htm|next l Hco Hle|next cmd r l Hco|item l Hi|t1 id token res rest reg st c l Hu' Hrel Hok Hs E
    |t1 id token res rest reg flow c l Hu' Hs E|t1 msg rest l Hu Hrel Hn|e l Ho Hok].
  - exists t. by apply registered_pass.
  - exists t. by eapply registered_heartbeat.
  - exists t. by eapply registered_report.
  - exists t. by apply registered_reads.
  - rewrite Hu' in Hown. apply Forall_cons in Hown as [[?|(? & ? & ? & ?)] _]; discriminate.
  - rewrite Hu' in Hown. apply Forall_cons in Hown as [[?|(? & ? & ? & ?)] _]; discriminate.
  - by eapply registered_handles.
  - exists t. by apply registered_other.
Qed.

(** The connection is kept, or something overtook the answer at some point. *)
Lemma link_kept l0 l :
  kept l0 → rtc (link_step validate k cid up down) l0 l →
  kept l ∨ ∃ l1, rtc (link_step validate k cid up down) l0 l1 ∧ overtaken l1 ∧
    rtc (link_step validate k cid up down) l1 l.
Proof.
  intros H0. revert l. refine (rtc_ind_r _ _ _ _); [by left|]. intros l1 l2 Hrun Hstep IH.
  destruct IH as [[Hp|[[t Hw]|[t Hr]]]|(l' & H1 & Ho & H2)].
  - left. by eapply pending_step.
  - destruct (window_step _ _ _ Hstep Hw) as [?|Ho]; [by left|]. right. exists l2.
    split; [by eapply rtc_r|]. split; [done|]. apply rtc_refl.
  - left; right; right. by eapply registered_step.
  - right. exists l'. split; [done|]. split; [done|]. by eapply rtc_r.
Qed.
End invariant.

(** ** Live agents are not buried *)

Section accuracy.
Context `{UuidLaws} {W : Type}.
Context `{!ControllerStore W, !StoreSpec W, !StoreClock W, !StoreReliable W} (validate : string → bool).
Implicit Types (l : Link W).

End accuracy.

(** ** The in-memory store's clock *)

#[export] Instance mem_clock `{UuidLaws} : StoreClock MemStore.
Proof.
  refine {| tick d m := {| m_agents := m_agents m; m_routing := m_routing m; m_sandbox_states := m_sandbox_states m;
    m_reservations := m_reservations m; m_heartbeats := m_heartbeats m; m_now := m_now m + d |} |}.
  intros d m []. split; [by split|done].
Defined.

Module ConnectExamples.
Definition agent1 : ControllerConnection :=
  {| cc_agent_id := uid 1; cc_join_token := {| jt_token := "token" |};
     cc_resources := {| res_cpu_cores := 4; res_memory_bytes := 8000 |} |}.
Definition check (token : string) : bool := bool_decide (token = "token").
Definition dialled : Link MemStore :=
  {| lk_sys := ControllerSystem.step check (EvOpen 1) boot; lk_stage := Idle; lk_conn := Registering;
     lk_up := [(0%Z, register_msg agent1)]; lk_read := 0; lk_answered := None |}.

(** One turn of the task. *)
Definition turn (l : Link MemStore) : Link MemStore :=
  match register_turn check 1 None (hyphenated (uid 1)) "token" (Some (cc_resources agent1)) (lk_stage l)
          (sys_ctl (lk_sys l)) with
  | (inl st, c) => waiting st c l
  | (inr flow, c) => handled 1 (after_message 1 flow c (lk_sys l)) [] l
  end.

(** The registration and its answer, with a sweep in the middle; a heartbeat that takes two
    seconds, and another sweep. *)
Definition swept_early : Link MemStore :=
  let l := turn dialled in with_sys (ControllerSystem.step check EvSweep (lk_sys l)) l.
Definition joined : Link MemStore := turn (turn (turn swept_early)).
Definition serving : Link MemStore := read (Ok (RegisterResponse true "" "")) joined.
Definition idle5 : Link MemStore := with_sys (pass 5000 (lk_sys serving)) serving.
Definition beat : Link MemStore := 
  send (heartbeat_msg agent1) (Serving (sys_now (lk_sys idle5) + HEARTBEAT_INTERVAL)) idle5.
Definition idle7 : Link MemStore := with_sys (pass 2000 (lk_sys beat)) beat.
Definition swept : Link MemStore := with_sys (ControllerSystem.step check EvSweep (lk_sys idle7)) idle7.

(** A command can get into the channel before the answer to the registration; the agent then
    gives up its connection, and the sandbox is reserved for nothing. *)
Definition raced : Link MemStore :=
  let l := turn (turn dialled) in
  let l := with_sys (ControllerSystem.step check (EvCreate (uid 50) big_sandbox) (lk_sys l)) l in
  turn (turn l).
Definition first_item (l : Link MemStore) : option (result ControllerCommand Status) := channel 1 (lk_sys l) !! 0.

Example command_before_answer :
  (on_item 0 (first_item raced) Registering = Over ControllerDisconnected) ∧
  is_Some (as_resv (view (store_of (lk_sys raced))) !! uid 50).
Proof.
  split; [evaluate|].
  assert (bool_decide (is_Some (as_resv (view (store_of (lk_sys raced))) !! uid 50)) = true) as Hx by evaluate.
  by apply bool_decide_eq_true in Hx.
Qed.

(** An agent that comes back after its heartbeat has become stale: saving its record does not
    renew the heartbeat, so a sweep before the next turn takes it for dead, and it stays dead
    though it is registered, connected and answered. *)
Definition stale_store : MemStore :=
  {| m_agents := ∅; m_routing := []; m_sandbox_states := ∅; m_reservations := ∅;
     m_heartbeats := {[uid 1 := 0%Z]}; m_now := 60000 |}.
Definition returning : Link MemStore :=
  with_sys (with_ctl (with_store stale_store (sys_ctl (lk_sys dialled))) (lk_sys dialled)) dialled.
Definition buried_early : Link MemStore :=
  let l := turn returning in
  turn (turn (turn (with_sys (ControllerSystem.step check EvSweep (lk_sys l)) l))).

Example sweep_before_heartbeat :
  first_item buried_early = Some (Ok (RegisterResponse true "" "")) ∧
  ar_state <$> (as_agents (view (store_of (lk_sys buried_early))) !! uid 1) = Some Dead.
Proof. split; evaluate. Qed.

Lemma dialled_connecting : connecting agent1 1 2000 dialled.
Proof.
  split; try reflexivity; [exact (boot_balanced _)|..].
  - intros t Ht. discriminate Ht.
  - intros b Hb. discriminate Hb.
  - intros c Hc Hs. unfold dialled, ControllerSystem.step in Hs. cbn in Hs. rewrite lookup_insert_ne in Hs by done. discriminate Hs.
Qed.

(** A turn that waits again is a step. *)
Lemma turn_step l st :
  (register_turn check 1 None (hyphenated (uid 1)) "token" (Some (cc_resources agent1)) (lk_stage l)
     (sys_ctl (lk_sys l))).1 = inl st →
  lk_up l = [(0%Z, register_msg agent1)] → sys_streams (lk_sys l) !! 1 = Some None →
  link_step check agent1 1 2000 2000 l (turn l).
Proof.
  intros Hst Hu Hs. unfold turn. destruct (register_turn _ _ _ _ _ _ _ _) as [x c] eqn:E. cbn in Hst. subst x.
  by eapply lk_turn.
Qed.

End ConnectExamples.
