(* ===== verification/AgentIo.v ===== *)
(** * The agent's one-shot IO sessions (crates/agent/src/io_stream.rs)

    [drive_io_session]'s dispatch and the sessions that make one runtime call: read, write,
    upload, list, delete and the port probe. A session reads client frames and sends
    server frames; its gateway may stop listening at any point. *)

From S2P Require Import Prelude Contracts UuidRef ControllerCore IoFrames ControllerGrpc AgentSandbox.

Inductive EntryType := EFile | EDir | ESymlink | EOther.

Record DirEntry := {
  de_name : string; de_entry_type : EntryType; de_size : Z; de_revision : string;
  de_mode : string; de_target : string;
}.

Record DirListing := {
  dl_path : string; dl_entries : list DirEntry; dl_truncated : bool; dl_total_entries : Z;
}.

Record FileRevision := { fr_revision : string; fr_size : Z }.

(** The runtime's file operations; the probe also says how long it took, in ms. *)
Class ContainerFiles (W : Type) := {
  read_file : ContainerId → string → option string → ST W (result bytes AgentError);
  write_file : ContainerId → string → option string → bytes → ST W (result () AgentError);
  write_files_targz : ContainerId → option string → bytes → ST W (result () AgentError);
  list_dir : ContainerId → string → option string → ST W (result DirListing AgentError);
  stat_revision : ContainerId → string → option string → ST W (result FileRevision AgentError);
  delete_file : ContainerId → string → option string → bool → ST W (result () AgentError);
  wait_port_listening : ContainerId → Z → Z → ST W (result bool AgentError * Z);
}.

Definition READ_FILE_CHUNK_BYTES : nat := 64 * 1024.
#[global] Arguments READ_FILE_CHUNK_BYTES : simpl never.
Definition MAX_WRITE_BYTES : Z := 256 * 1024 * 1024.

(** The runtime, the frames sent so far, how many more the other side will take before it
    goes away ([None]: it stays), and whether the driver is past its work and only reads its
    client's frames until they end. *)
Record Sess (W : Type) := {
  ss_runtime : W; ss_sent : list IoServerFrame; ss_room : option nat; ss_draining : bool;
}.
Arguments ss_runtime {_} _.
Arguments ss_sent {_} _.
Arguments ss_room {_} _.
Arguments ss_draining {_} _.

(** What [client_frames.next().await] gives before it ends. *)
Abbreviation ClientFrames := (list (result IoClientFrame AgentError)) (only parsing).

Section sessions.
Context {W : Type} `{!ContainerFiles W}.

(** [server_tx.send(frame).await]: false when the receiver is gone. *)
Definition send (frame : IoServerFrame) : ST (Sess W) bool := λ s,
  match ss_room s with
  | Some O => (false, s)
  | room => (true, {| ss_runtime := ss_runtime s; ss_sent := ss_sent s ++ [frame];
                      ss_room := pred <$> room; ss_draining := ss_draining s |})
  end.

Definition rt {A} (op : ST W A) : ST (Sess W) A := λ s,
  let '(a, w) := op (ss_runtime s) in
  (a, {| ss_runtime := w; ss_sent := ss_sent s; ss_room := ss_room s;
         ss_draining := ss_draining s |}).

Definition frame (stream_id : string) (p : IoServerPayload) : IoServerFrame :=
  {| isf_stream_id := stream_id; isf_payload := Some p |}.

Definition send_error (stream_id code detail : string) (s : Sess W) : Sess W :=
  (send (frame stream_id (SError code detail)) s).2.

Definition send_exited (stream_id : string) (s : Sess W) : Sess W :=
  (send (frame stream_id (SExited 0 false)) s).2.

Definition cwd_opt (cwd : string) : option string := if decide (cwd = "") then None else Some cwd.

(** [bytes.chunks(n)], with the number of bytes as fuel. *)
Fixpoint chunks_go (fuel : nat) (n : nat) (b : bytes) : list bytes :=
  match fuel, b with
  | O, _ | _, EmptyString => []
  | S fuel, b => substring 0 n b :: chunks_go fuel n (substring n (String.length b - n) b)
  end.
Definition chunks (n : nat) (b : bytes) : list bytes := chunks_go (String.length b) n b.

(** The loop over the chunks: false when a send failed. *)
Fixpoint send_chunks (stream_id : string) (cs : list bytes) : ST (Sess W) bool := λ s,
  match cs with
  | [] => (true, s)
  | c :: cs' =>
      match send (frame stream_id (SStdout c)) s with
      | (true, s') => send_chunks stream_id cs' s'
      | (false, s') => (false, s')
      end
  end.

(** The sidecar frame with the file's revision, when the runtime can stat it: false when
    the send failed. *)
Definition send_file_meta (stream_id : string) (id : ContainerId) (path : string)
    (cwd : option string) : ST (Sess W) bool := λ s,
  match rt (stat_revision id path cwd) s with
  | (Ok rev, s) => send (frame stream_id (SFileMeta (fr_revision rev) (fr_size rev))) s
  | (Err _, s) => (true, s)
  end.

Definition drive_read_file (stream_id : string) (id : ContainerId) (path cwd : string)
    (s : Sess W) : Sess W :=
  let cwd := cwd_opt cwd in
  match rt (read_file id path cwd) s with
  | (Ok bytes, s) =>
      match send_file_meta stream_id id path cwd s with
      | (false, s) => s
      | (true, s) =>
          match send_chunks stream_id (chunks READ_FILE_CHUNK_BYTES bytes) s with
          | (false, s) => s
          | (true, s) => send_exited stream_id s
          end
      end
  | (Err e, s) =>
      let code := match e with
        | Runtime detail => if contains detail "No such file" then "FILE_NOT_FOUND" else "READ_FAILED"
        | _ => "READ_FAILED"
        end in
      send_error stream_id code (AgentError_to_string e) s
  end.

Definition dir_entry_to_proto (e : DirEntry) : ListDirEntry :=
  {| lde_name := de_name e;
     lde_type := match de_entry_type e with
                 | EFile => TyFile | EDir => TyDir | ESymlink => TySymlink | EOther => TyOther end;
     lde_size := de_size e; lde_revision := de_revision e; lde_mode := de_mode e;
     lde_target := de_target e |}.

Definition drive_list_dir (stream_id : string) (id : ContainerId) (path cwd : string)
    (s : Sess W) : Sess W :=
  match rt (list_dir id path (cwd_opt cwd)) s with
  | (Ok listing, s) =>
      match send (frame stream_id (SListDirResult (dl_path listing)
              (dir_entry_to_proto <$> dl_entries listing) (dl_truncated listing)
              (dl_total_entries listing))) s with
      | (false, s) => s
      | (true, s) => send_exited stream_id s
      end
  | (Err e, s) =>
      let code := match e with
        | Runtime detail =>
            if starts_with detail "list_dir not yet implemented" then "NOT_IMPLEMENTED"
            else if contains detail "No such file" then "FILE_NOT_FOUND" else "LIST_DIR_FAILED"
        | _ => "LIST_DIR_FAILED"
        end in
      send_error stream_id code (AgentError_to_string e) s
  end.

Definition drive_delete_file (stream_id : string) (id : ContainerId) (path cwd : string)
    (recursive : bool) (s : Sess W) : Sess W :=
  match rt (delete_file id path (cwd_opt cwd) recursive) s with
  | (Ok _, s) => send_exited stream_id s
  | (Err e, s) =>
      let detail := AgentError_to_string e in
      let code := if contains detail "is a directory" || contains detail "Directory not empty"
                  then "DIRECTORY_NOT_EMPTY" else "DELETE_FAILED" in
      send_error stream_id code detail s
  end.

Definition drive_wait_port_listening (stream_id : string) (id : ContainerId) (port timeout_ms : Z)
    (s : Sess W) : Sess W :=
  let timeout_ms := Z.min timeout_ms WAIT_PORT_LISTENING_MAX_TIMEOUT_MS in
  let '((ready_res, elapsed), s) := rt (wait_port_listening id port timeout_ms) s in
  match ready_res with
  | Ok ready =>
      let raw_elapsed := if decide (elapsed ≤ u32_max)%Z then elapsed else u32_max in
      let elapsed_ms := if ready : bool then raw_elapsed else Z.min raw_elapsed timeout_ms in
      match send (frame stream_id (SWaitPortListeningResult ready elapsed_ms)) s with
      | (false, s) => s
      | (true, s) => send_exited stream_id s
      end
  | Err (Runtime detail as e) =>
      if starts_with detail "wait_port_listening not yet implemented" then
        send_error stream_id "NOT_IMPLEMENTED"
          "wait_port_listening not yet implemented for this backend" s
      else send_error stream_id "WAIT_PORT_LISTENING_FAILED" (AgentError_to_string e) s
  | Err e => send_error stream_id "WAIT_PORT_LISTENING_FAILED" (AgentError_to_string e) s
  end.

(** The loops that collect an upload: the bytes, or the code and detail of the error. *)
Fixpoint collect_upload (mode : string) (content : bytes) (fs : ClientFrames)
    : result bytes (string * string) :=
  match fs with
  | [] => Ok content
  | Err _ :: _ => Ok content
  | Ok f :: fs' =>
      match icf_payload f with
      | None => Ok content
      | Some (CStdin bs) =>
          if decide (Z.min (Z.of_nat (String.length content) + Z.of_nat (String.length bs)) u64_max
                     > MAX_WRITE_BYTES)%Z
          then Err ("PAYLOAD_TOO_LARGE",
                    mode +:+ " body exceeds " +:+ pretty MAX_WRITE_BYTES +:+ "-byte cap")
          else collect_upload mode (content +:+ bs) fs'
      | Some (CClose _) => Ok content
      | Some (CSignal _) | Some (CStart _) =>
          Err ("INVALID_REQUEST", "only Stdin and Close frames are valid in " +:+ mode +:+ " mode")
      end
  end.

(** The precondition of a write: the code and detail of the refusal, if it is refused. *)
Definition check_revision (id : ContainerId) (path : string) (cwd : option string)
    (expected_revision : string) (force : bool) : ST (Sess W) (option (string * string)) := λ s,
  if decide (expected_revision ≠ "" ∧ force = false) then
    match rt (stat_revision id path cwd) s with
    | (Ok rev, s) =>
        (if decide (fr_revision rev = expected_revision) then None
         else Some ("REVISION_MISMATCH", fr_revision rev), s)
    | (Err (Runtime detail as e), s) =>
        (if starts_with detail "stat_revision not yet implemented" then
           Some ("NOT_IMPLEMENTED",
             "write_file expected_revision precondition requires a runtime that supports stat_revision; not yet implemented for this backend. Pass force=true to bypass.")
         else if contains detail "No such file" then Some ("REVISION_MISMATCH", "")
         else Some ("WRITE_FAILED", AgentError_to_string e), s)
    | (Err e, s) => (Some ("WRITE_FAILED", AgentError_to_string e), s)
    end
  else (None, s).

(** [while client_frames.next().await.is_some() {}]: what still comes is read and thrown
    away, and the driver returns when the client's frames end, not before. *)
Definition drain_remaining_client_frames (s : Sess W) : Sess W :=
  {| ss_runtime := ss_runtime s; ss_sent := ss_sent s; ss_room := ss_room s;
     ss_draining := true |}.

Definition drive_write_file (stream_id : string) (id : ContainerId)
    (path cwd expected_revision : string) (force : bool) (fs : ClientFrames) (s : Sess W) : Sess W :=
  let cwd := cwd_opt cwd in
  match check_revision id path cwd expected_revision force s with
  | (Some (code, detail), s) => drain_remaining_client_frames (send_error stream_id code detail s)
  | (None, s) =>
      match collect_upload "write_file" "" fs with
      | Err (code, detail) => drain_remaining_client_frames (send_error stream_id code detail s)
      | Ok content =>
          match rt (write_file id path cwd content) s with
          | (Ok _, s) =>
              match send_file_meta stream_id id path cwd s with
              | (false, s) => s
              | (true, s) => send_exited stream_id s
              end
          | (Err e, s) => send_error stream_id "WRITE_FAILED" (AgentError_to_string e) s
          end
      end
  end.

Definition drive_write_files_targz (stream_id : string) (id : ContainerId) (cwd : string)
    (fs : ClientFrames) (s : Sess W) : Sess W :=
  match collect_upload "write_files_targz" "" fs with
  | Err (code, detail) => drain_remaining_client_frames (send_error stream_id code detail s)
  | Ok tarball =>
      match rt (write_files_targz id (cwd_opt cwd) tarball) s with
      | (Ok _, s) => send_exited stream_id s
      | (Err e, s) => send_error stream_id "WRITE_FAILED" (AgentError_to_string e) s
      end
  end.

(** [drive_io_session]: the sessions above run to the end of their work ([ss_draining] says
    whether the driver then waits for the end of the client's frames); an exec goes on as
    the system of AgentExec.v. *)
Inductive Driven := Ended (s : Sess W) | ExecSession (p : ExecParams) (s : Sess W).

Definition drive_io_session (stream_id : string) (id : ContainerId) (fs : ClientFrames)
    (s : Sess W) : Driven :=
  match fs with
  | [] => Ended s
  | Err e :: _ => Ended (send_error stream_id "IO_STREAM_FAILED" (AgentError_to_string e) s)
  | Ok f :: fs' =>
      match icf_payload f with
      | Some (CStart start) =>
          match is_params start with
          | Some (PExec p) => ExecSession p s
          | Some (PReadFile path cwd) => Ended (drive_read_file stream_id id path cwd s)
          | Some (PWriteFile path cwd rev force) =>
              Ended (drive_write_file stream_id id path cwd rev force fs' s)
          | Some (PWriteFilesTargz cwd) => Ended (drive_write_files_targz stream_id id cwd fs' s)
          | Some (PListDir path cwd) => Ended (drive_list_dir stream_id id path cwd s)
          | Some (PWaitPortListening port ms) =>
              Ended (drive_wait_port_listening stream_id id port ms s)
          | Some (PDeleteFile path cwd recursive) =>
              Ended (drive_delete_file stream_id id path cwd recursive s)
          | None => Ended (send_error stream_id "INVALID_REQUEST" "IoStart.params must be set" s)
          end
      | _ => Ended (send_error stream_id "INVALID_REQUEST" "first frame must be IoStart" s)
      end
  end.
End sessions.

(** ** What a session sends *)

Section output.
Context {W : Type} `{!ContainerFiles W}.
Implicit Types (s : Sess W) (fs : list IoServerFrame).

Definition is_terminal_frame (f : IoServerFrame) : bool :=
  match isf_payload f with Some p => is_terminal_payload p | None => false end.

(** [s'] is [s] after the frames [fs]. *)
Definition emits s s' fs : Prop :=
  ss_sent s' = ss_sent s ++ fs ∧ ss_room s' = (λ n, n - length fs) <$> ss_room s ∧
  match ss_room s with Some n => length fs ≤ n | None => True end.

(** The frames of a session: they carry its id, and one terminal frame ends them, unless
    the receiver went away before. *)
Definition session_output (stream_id : string) (room : option nat) fs : Prop :=
  Forall (λ f, isf_stream_id f = stream_id) fs ∧
  ((∃ pre t, fs = pre ++ [t] ∧ Forall (λ f, is_terminal_frame f = false) pre ∧
             is_terminal_frame t = true) ∨
   Forall (λ f, is_terminal_frame f = false) fs ∧ room = Some (length fs)).

Definition ends_well (stream_id : string) s s' : Prop :=
  ∃ fs, emits s s' fs ∧ session_output stream_id (ss_room s) fs.

(** Frames that do not end the session, all of them sent. *)
Definition preamble (stream_id : string) fs : Prop :=
  Forall (λ f, isf_stream_id f = stream_id ∧ is_terminal_frame f = false) fs.

Lemma emits_refl s : emits s s [].
Proof.
  split; [by rewrite app_nil_r|]. split; destruct (ss_room s); simpl; try done.
  - by rewrite Nat.sub_0_r.
  - lia.
Qed.

Lemma emits_trans s s1 s' fs fs' : emits s s1 fs → emits s1 s' fs' → emits s s' (fs ++ fs').
Proof.
  intros (H1 & R1 & L1) (H2 & R2 & L2). split; [by rewrite H2, H1, app_assoc|].
  rewrite R2, R1, length_app. rewrite R1 in L2. destruct (ss_room s); simpl in *; [|done].
  split; [f_equal; lia|lia].
Qed.

Lemma send_inv f s b s' :
  send f s = (b, s') → ss_runtime s' = ss_runtime s ∧
  if b then emits s s' [f] else s' = s ∧ ss_room s = Some 0.
Proof.
  unfold send, emits. destruct (ss_room s) as [[|n]|] eqn:E; intros [= <- <-]; simpl; [done| |].
  - split; [done|]. split; [done|]. split; [f_equal; lia|lia].
  - done.
Qed.

Lemma rt_inv {A} (op : ST W A) s a s' : rt op s = (a, s') → emits s s' [].
Proof.
  unfold rt. destruct (op _) as [a' w]. intros [= <- <-]. unfold emits. simpl.
  split; [by rewrite app_nil_r|]. destruct (ss_room s); simpl; [|done].
  split; [f_equal; lia|lia].
Qed.

(** A last frame after a preamble ends the session, and so does a send that failed. *)
Lemma ends_with stream_id s s1 pre p :
  emits s s1 pre → preamble stream_id pre → is_terminal_payload p = true →
  ends_well stream_id s (send (frame stream_id p) s1).2.
Proof.
  intros He Hp Ht. destruct (send _ s1) as [b s'] eqn:E. apply send_inv in E as [_ E]. simpl.
  assert (Forall (λ f, isf_stream_id f = stream_id) pre ∧
          Forall (λ f, is_terminal_frame f = false) pre) as [Hid Hnt] by by apply Forall_and.
  destruct b.
  - exists (pre ++ [frame stream_id p]). split; [by eapply emits_trans|]. split.
    + apply Forall_app. split; [done|]. by constructor.
    + left. exists pre, (frame stream_id p). done.
  - destruct E as [-> E]. exists pre. split; [done|]. split; [done|]. right. split; [done|].
    destruct He as (_ & R & L). rewrite R in E. destruct (ss_room s); [|done]. simpl in E.
    injection E as E. f_equal. lia.
Qed.

Lemma cut_short stream_id s s1 pre :
  emits s s1 pre → preamble stream_id pre → ss_room s1 = Some 0 → ends_well stream_id s s1.
Proof.
  intros He Hp Hz. assert (Forall (λ f, isf_stream_id f = stream_id) pre ∧
    Forall (λ f, is_terminal_frame f = false) pre) as [Hid Hnt] by by apply Forall_and.
  exists pre. split; [done|]. split; [done|]. right. split; [done|].
  destruct He as (_ & R & L). rewrite R in Hz. destruct (ss_room s); [|done]. simpl in Hz.
  injection Hz as Hz. f_equal. lia.
Qed.

Lemma send_chunks_inv stream_id cs s b s' :
  send_chunks stream_id cs s = (b, s') → ss_runtime s' = ss_runtime s ∧
  ∃ cs', cs' `prefix_of` cs ∧ emits s s' ((λ c, frame stream_id (SStdout c)) <$> cs') ∧
    if b then cs' = cs else ss_room s' = Some 0.
Proof.
  revert s. induction cs as [|c cs IH]; intros s; simpl.
  - intros [= <- <-]. split; [done|]. exists []. split; [done|]. split; [apply emits_refl|done].
  - destruct (send _ s) as [[] s1] eqn:E; apply send_inv in E as [Hr E].
    + intros Hc. apply IH in Hc as (Hr' & cs' & Hpre & He & Hb). split; [congruence|].
      exists (c :: cs'). split; [by apply prefix_cons|]. split; [|destruct b; congruence].
      rewrite fmap_cons. change (?x :: ?l) with ([x] ++ l). by eapply emits_trans.
    + intros [= <- <-]. destruct E as [-> E]. split; [done|]. exists [].
      split; [apply prefix_nil|]. split; [apply emits_refl|done].
Qed.

Lemma preamble_stdout stream_id cs : preamble stream_id ((λ c, frame stream_id (SStdout c)) <$> cs).
Proof. unfold preamble. apply Forall_fmap, Forall_true. done. Qed.

Lemma send_file_meta_inv stream_id id path cwd s b s' :
  send_file_meta stream_id id path cwd s = (b, s') →
  ∃ fs, emits s s' fs ∧ preamble stream_id fs ∧ (b = false → ss_room s' = Some 0).
Proof.
  unfold send_file_meta. destruct (rt _ s) as [[rev|e] s1] eqn:E; apply rt_inv in E.
  - intros Hs. apply send_inv in Hs as [_ Hs]. destruct b.
    + exists ([] ++ [frame stream_id (SFileMeta (fr_revision rev) (fr_size rev))]).
      split; [by eapply emits_trans|]. split; [by repeat constructor|done].
    + destruct Hs as [-> Hz]. exists []. split; [done|]. split; [constructor|done].
  - intros [= <- <-]. exists []. split; [done|]. split; [constructor|done].
Qed.
End output.

Section one_shot.
Context {W : Type} `{!ContainerFiles W}.
Implicit Types (s : Sess W).

Lemma send_error_ends stream_id code detail s s1 :
  emits s s1 [] → ends_well stream_id s (send_error stream_id code detail s1).
Proof. intros He. by apply (ends_with _ _ _ []); [|constructor|]. Qed.

Lemma send_exited_ends stream_id s s1 pre :
  emits s s1 pre → preamble stream_id pre → ends_well stream_id s (send_exited stream_id s1).
Proof. intros He Hp. by apply (ends_with _ _ _ pre). Qed.

(** One more frame, then the end. *)
Lemma result_then_exited stream_id s s1 p :
  emits s s1 [] → is_terminal_payload p = false →
  ends_well stream_id s
    (match send (frame stream_id p) s1 with
     | (false, s2) => s2
     | (true, s2) => send_exited stream_id s2
     end).
Proof.
  intros He Hp. destruct (send _ s1) as [[] s2] eqn:E; apply send_inv in E as [_ E].
  - apply (send_exited_ends _ _ _ ([] ++ [frame stream_id p])); [by eapply emits_trans|].
    by repeat constructor.
  - destruct E as [-> Hz]. by eapply cut_short; [|constructor|].
Qed.

Lemma drive_read_file_ends stream_id id path cwd s :
  ends_well stream_id s (drive_read_file stream_id id path cwd s).
Proof.
  unfold drive_read_file. destruct (rt _ s) as [[bs|e] s1] eqn:E; apply rt_inv in E;
    [|by apply send_error_ends].
  destruct (send_file_meta _ _ _ _ s1) as [b s2] eqn:Em.
  apply send_file_meta_inv in Em as (fs & He & Hp & Hb).
  pose proof (emits_trans _ _ _ _ _ E He) as He2. simpl in He2.
  destruct b; [|by eapply cut_short; [..|apply Hb]].
  destruct (send_chunks _ _ s2) as [b s3] eqn:Ec.
  apply send_chunks_inv in Ec as (_ & cs' & _ & He3 & Hb3).
  pose proof (emits_trans _ _ _ _ _ He2 He3) as He4.
  assert (preamble stream_id (fs ++ ((λ c, frame stream_id (SStdout c)) <$> cs')))
    by (apply Forall_app; split; [done|apply preamble_stdout]).
  destruct b; [by eapply send_exited_ends|by eapply cut_short].
Qed.

Lemma drive_list_dir_ends stream_id id path cwd s :
  ends_well stream_id s (drive_list_dir stream_id id path cwd s).
Proof.
  unfold drive_list_dir. destruct (rt _ s) as [[l|e] s1] eqn:E; apply rt_inv in E;
    [by apply result_then_exited|by apply send_error_ends].
Qed.

Lemma drive_delete_file_ends stream_id id path cwd recursive s :
  ends_well stream_id s (drive_delete_file stream_id id path cwd recursive s).
Proof.
  unfold drive_delete_file. destruct (rt _ s) as [[l|e] s1] eqn:E; apply rt_inv in E;
    [by eapply send_exited_ends; [|constructor]|by apply send_error_ends].
Qed.

Lemma drive_wait_port_listening_ends stream_id id port ms s :
  ends_well stream_id s (drive_wait_port_listening stream_id id port ms s).
Proof.
  unfold drive_wait_port_listening. destruct (rt _ s) as [[[b|e] el] s1] eqn:E; apply rt_inv in E;
    [by apply result_then_exited|].
  destruct e; try (destruct (starts_with _ _)); by apply send_error_ends.
Qed.

Lemma check_revision_inv id path cwd rev force s r s' :
  check_revision id path cwd rev force s = (r, s') → emits s s' [].
Proof.
  unfold check_revision. case_decide; [|intros [= <- <-]; apply emits_refl].
  destruct (rt _ s) as [[fr|e] s1] eqn:E; apply rt_inv in E; [by intros [= <- <-]|].
  by destruct e; intros [= <- <-].
Qed.

Lemma drive_write_file_ends stream_id id path cwd rev force fs s :
  ends_well stream_id s (drive_write_file stream_id id path cwd rev force fs s).
Proof.
  unfold drive_write_file. destruct (check_revision _ _ _ _ _ s) as [r s1] eqn:Ec.
  apply check_revision_inv in Ec. destruct r as [[code detail]|]; [by apply send_error_ends|].
  destruct (collect_upload _ _ _) as [content|[code detail]]; [|by apply send_error_ends].
  destruct (rt _ s1) as [[[]|e] s2] eqn:E; apply rt_inv in E;
    pose proof (emits_trans _ _ _ _ _ Ec E) as E2; [|by apply send_error_ends].
  destruct (send_file_meta _ _ _ _ s2) as [b s3] eqn:Em.
  apply send_file_meta_inv in Em as (l & He & Hp & Hb).
  pose proof (emits_trans _ _ _ _ _ E2 He) as He2. simpl in He2.
  destruct b; [by eapply send_exited_ends|by eapply cut_short; [..|apply Hb]].
Qed.

Lemma drive_write_files_targz_ends stream_id id cwd fs s :
  ends_well stream_id s (drive_write_files_targz stream_id id cwd fs s).
Proof.
  unfold drive_write_files_targz.
  destruct (collect_upload _ _ _) as [content|[code detail]]; [|apply send_error_ends, emits_refl].
  destruct (rt _ s) as [[[]|e] s2] eqn:E; apply rt_inv in E;
    [by eapply send_exited_ends; [|constructor]|by apply send_error_ends].
Qed.

(** Sending and calling the runtime do not make the driver drain. *)
Lemma send_draining f s b s' : send f s = (b, s') → ss_draining s' = ss_draining s.
Proof. unfold send. by destruct (ss_room s) as [[]|]; intros [= <- <-]. Qed.
Lemma rt_draining {A} (op : ST W A) s a s' : rt op s = (a, s') → ss_draining s' = ss_draining s.
Proof. unfold rt. destruct (op _) as [a' w]. by intros [= <- <-]. Qed.
Lemma send_error_draining stream_id code detail s :
  ss_draining (send_error stream_id code detail s) = ss_draining s.
Proof. unfold send_error. destruct (send _ s) eqn:E. by apply send_draining in E. Qed.
Lemma send_exited_draining stream_id s : ss_draining (send_exited stream_id s) = ss_draining s.
Proof. unfold send_exited. destruct (send _ s) eqn:E. by apply send_draining in E. Qed.
Lemma send_chunks_draining stream_id cs s b s' :
  send_chunks stream_id cs s = (b, s') → ss_draining s' = ss_draining s.
Proof.
  revert s. induction cs as [|c cs IH]; intros s; simpl; [by intros [= <- <-]|].
  destruct (send _ s) as [[] s1] eqn:E; apply send_draining in E; [|by intros [= <- <-]].
  intros H. apply IH in H. congruence.
Qed.
Lemma send_file_meta_draining stream_id id path cwd s b s' :
  send_file_meta stream_id id path cwd s = (b, s') → ss_draining s' = ss_draining s.
Proof.
  unfold send_file_meta. destruct (rt _ s) as [[rev|e] s1] eqn:E; apply rt_draining in E.
  - intros H. apply send_draining in H. congruence.
  - by intros [= <- <-].
Qed.
Lemma check_revision_draining id path cwd rev force s r s' :
  check_revision id path cwd rev force s = (r, s') → ss_draining s' = ss_draining s.
Proof.
  unfold check_revision. case_decide; [|by intros [= <- <-]].
  destruct (rt _ s) as [[fr|e] s1] eqn:E; apply rt_draining in E; [by intros [= <- <-]|].
  by destruct e; intros [= <- <-].
Qed.

Ltac draining :=
  repeat case_match; rewrite ?send_error_draining, ?send_exited_draining;
  repeat match goal with
  | E : send _ _ = _ |- _ => apply send_draining in E
  | E : rt _ _ = _ |- _ => apply rt_draining in E
  | E : send_chunks _ _ _ = _ |- _ => apply send_chunks_draining in E
  | E : send_file_meta _ _ _ _ _ = _ |- _ => apply send_file_meta_draining in E
  end; simplify_eq; congruence.

Lemma drive_read_file_draining stream_id id path cwd s :
  ss_draining (drive_read_file stream_id id path cwd s) = ss_draining s.
Proof. unfold drive_read_file. draining. Qed.
Lemma drive_list_dir_draining stream_id id path cwd s :
  ss_draining (drive_list_dir stream_id id path cwd s) = ss_draining s.
Proof. unfold drive_list_dir. draining. Qed.
Lemma drive_delete_file_draining stream_id id path cwd recursive s :
  ss_draining (drive_delete_file stream_id id path cwd recursive s) = ss_draining s.
Proof. unfold drive_delete_file. draining. Qed.
Lemma drive_wait_port_listening_draining stream_id id port ms s :
  ss_draining (drive_wait_port_listening stream_id id port ms s) = ss_draining s.
Proof. unfold drive_wait_port_listening. draining. Qed.

(** The client ended its upload: some frame is not one more piece of it. *)
Definition upload_over (fs : ClientFrames) : bool :=
  existsb (λ r, match r with
    | Ok {| icf_payload := Some (CStdin _) |} => false
    | _ => true
    end) fs.

(** The first frame starts a session that takes an upload. *)
Definition uploads (first : result IoClientFrame AgentError) : bool :=
  match first with
  | Ok {| icf_payload := Some (CStart {| is_params := Some (PWriteFile _ _ _ _ | PWriteFilesTargz _) |}) |} => true
  | _ => false
  end.

(** What comes after the end of an upload, or after its refusal, is not looked at. *)
Lemma collect_upload_more mode c fs more :
  (upload_over fs = true ∨ ∃ e, collect_upload mode c fs = Err e) →
  collect_upload mode c (fs ++ more) = collect_upload mode c fs.
Proof.
  revert c. induction fs as [|[f|e] fs IH]; intros c H; simpl in *; [naive_solver| |done].
  destruct f as [sid [[]|]]; simpl in *; try done. case_decide; [done|]. by apply IH.
Qed.

(** Whether a driver drains, and that what it does is then settled. *)
Definition settles stream_id (more : ClientFrames) (fs : ClientFrames)
    (drive : ClientFrames → Sess W → Sess W) s : Prop :=
  let s' := drive fs s in
  (upload_over fs = true ∨ ss_draining s' = true → drive (fs ++ more) s = s') ∧
  (ss_draining s' = true → ∃ code detail sent,
     ss_sent s' = ss_sent s ++ sent ∧ sent `prefix_of` [frame stream_id (SError code detail)]).

(** A refusal: the error frame, if it still gets out, and the drain. *)
Lemma refusal_sent stream_id code detail s s1 :
  emits s s1 [] → ∃ code' detail' sent,
    ss_sent (drain_remaining_client_frames (send_error stream_id code detail s1)) =
      ss_sent s ++ sent ∧ sent `prefix_of` [frame stream_id (SError code' detail')].
Proof.
  intros (H & _). rewrite app_nil_r in H. exists code, detail.
  unfold send_error. destruct (send _ s1) as [b s2] eqn:E. apply send_inv in E as [_ E].
  cbn [ss_sent drain_remaining_client_frames]. simpl. destruct b.
  - destruct E as (-> & _). rewrite H. by eexists.
  - destruct E as [-> _]. exists []. rewrite H, app_nil_r. split; [done|apply prefix_nil].
Qed.

Lemma drive_write_file_settles stream_id id path cwd rev force more fs s :
  ss_draining s = false →
  settles stream_id more fs (drive_write_file stream_id id path cwd rev force) s.
Proof.
  intros Hd. unfold settles, drive_write_file.
  destruct (check_revision _ _ _ _ _ s) as [r s1] eqn:Ec.
  pose proof (check_revision_draining _ _ _ _ _ _ _ _ Ec) as Hd1. apply check_revision_inv in Ec.
  destruct r as [[code detail]|]; [split; [done|]; intros _; by apply refusal_sent|].
  destruct (collect_upload "write_file" "" fs) as [content|[code detail]] eqn:Eu.
  - match goal with |- (_ ∨ ss_draining ?x = true → _) ∧ _ => assert (ss_draining x = false) as -> end.
    { rewrite <- Hd, <- Hd1. draining. }
    split; [|done]. intros [Ho|?]; [|done]. by rewrite collect_upload_more, Eu by eauto.
  - split; [|intros _; by apply refusal_sent]. intros _. by rewrite collect_upload_more, Eu by eauto.
Qed.

Lemma drive_write_files_targz_settles stream_id id cwd more fs s :
  ss_draining s = false →
  settles stream_id more fs (drive_write_files_targz stream_id id cwd) s.
Proof.
  intros Hd. unfold settles, drive_write_files_targz.
  destruct (collect_upload "write_files_targz" "" fs) as [content|[code detail]] eqn:Eu.
  - match goal with |- (_ ∨ ss_draining ?x = true → _) ∧ _ => assert (ss_draining x = false) as -> end.
    { rewrite <- Hd. draining. }
    split; [|done]. intros [Ho|?]; [|done]. by rewrite collect_upload_more, Eu by eauto.
  - split; [|intros _; apply refusal_sent, emits_refl]. intros _. by rewrite collect_upload_more, Eu by eauto.
Qed.

(** The rest of a session that is not an upload. *)
Lemma ends_returning stream_id s s' :
  ss_draining s' = false → ends_well stream_id s s' →
  ∃ sent, ss_sent s' = ss_sent s ++ sent ∧ session_output stream_id (ss_room s) sent ∧
    (ss_draining s' = true → ∃ code detail, sent `prefix_of` [frame stream_id (SError code detail)]).
Proof. intros Hd (sent & (? & _) & ?). exists sent. split; [done|]. split; [done|congruence]. Qed.

Lemma ends_settled stream_id more fs drive s :
  settles stream_id more fs drive s → ends_well stream_id s (drive fs s) →
  ∃ sent, ss_sent (drive fs s) = ss_sent s ++ sent ∧ session_output stream_id (ss_room s) sent ∧
    (ss_draining (drive fs s) = true →
       ∃ code detail, sent `prefix_of` [frame stream_id (SError code detail)]).
Proof.
  intros [_ Hx] (sent & (Hs & _) & Ho). exists sent. split; [done|]. split; [done|].
  intros Hd. destruct (Hx Hd) as (code & detail & sent' & Hs' & Hp). exists code, detail.
  rewrite Hs in Hs'. by apply (inj _) in Hs' as ->.
Qed.

(** C33: what one-shot sessions send, and when their drivers return. Once its first frame has
    arrived, every session that is not an exec, whatever the runtime answers and whatever the
    client sends, emits only frames of its own stream, ends them with exactly one terminal
    frame (Exited or Error) after which it sends nothing, and is cut short only when the
    receiver is gone. All it does is settled by the frames it has: what the client sends
    later changes nothing, except that a write or upload waits for the frame that ends its
    content. Its driver then returns, whether or not the client's frames ever end, unless
    it drains, which only a refused write or upload does, whose one frame is that Error: its
    driver goes on reading and discarding until the client's frames end. *)
Theorem one_shot_sessions_end stream_id id first fs more s :
  ss_draining s = false →
  match drive_io_session stream_id id (first :: fs) s with
  | Ended s' =>
      (∃ sent, ss_sent s' = ss_sent s ++ sent ∧
        (Forall (λ f, isf_stream_id f = stream_id) sent ∧
         ((∃ pre t, sent = pre ++ [t] ∧ Forall (λ f, is_terminal_frame f = false) pre ∧
                    is_terminal_frame t = true) ∨
          Forall (λ f, is_terminal_frame f = false) sent ∧ ss_room s = Some (length sent))) ∧
        (ss_draining s' = true →
           ∃ code detail, sent `prefix_of` [frame stream_id (SError code detail)])) ∧
      (uploads first = false ∨ upload_over fs = true ∨ ss_draining s' = true →
         drive_io_session stream_id id (first :: fs ++ more) s = Ended s') ∧
      (ss_draining s' = true → uploads first = true)
  | ExecSession p s' => s' = s ∧ ∃ f start, first = Ok f ∧ icf_payload f = Some (CStart start) ∧
      is_params start = Some (PExec p)
  end.
Proof.
  intros Hd.
  assert (∀ code detail, ends_well stream_id s (send_error stream_id code detail s) ∧
    ss_draining (send_error stream_id code detail s) = false) as Herr.
  { intros. rewrite send_error_draining. split; [apply send_error_ends, emits_refl|done]. }
  assert (∀ s', ends_well stream_id s s' ∧ ss_draining s' = false → ∀ P,
    (∃ sent, ss_sent s' = ss_sent s ++ sent ∧ session_output stream_id (ss_room s) sent ∧
      (ss_draining s' = true → ∃ code detail, sent `prefix_of` [frame stream_id (SError code detail)])) ∧
    (P → Ended s' = Ended s') ∧ (ss_draining s' = true → uploads first = true)) as Hret.
  { intros s' [Hw Hs'] P. split; [by apply ends_returning|]. split; [done|congruence]. }
  destruct first as [[sid [[[sb [[p|path cwd|path cwd rev force|cwd|path cwd|port ms|path cwd rec]|]]| | |]|]]|e];
    cbn [drive_io_session icf_payload is_params app]; try (apply Hret, Herr).
  - split; [done|]. eauto.
  - apply Hret. rewrite drive_read_file_draining. split; [apply drive_read_file_ends|done].
  - pose proof (drive_write_file_settles stream_id id path cwd rev force more fs s Hd) as Hs.
    split; [exact (ends_settled _ _ _ _ _ Hs (drive_write_file_ends _ _ _ _ _ _ _ _))|].
    split; [|done]. intros [?|H]; [done|]. f_equal. by apply Hs.
  - pose proof (drive_write_files_targz_settles stream_id id cwd more fs s Hd) as Hs.
    split; [exact (ends_settled _ _ _ _ _ Hs (drive_write_files_targz_ends _ _ _ _ _))|].
    split; [|done]. intros [?|H]; [done|]. f_equal. by apply Hs.
  - apply Hret. rewrite drive_list_dir_draining. split; [apply drive_list_dir_ends|done].
  - apply Hret. rewrite drive_wait_port_listening_draining.
    split; [apply drive_wait_port_listening_ends|done].
  - apply Hret. rewrite drive_delete_file_draining. split; [apply drive_delete_file_ends|done].
Qed.
End one_shot.

(** ** Reading a file *)

Definition flatten (bs : list bytes) : bytes := foldr String.append "" bs.

Lemma substring_split n b :
  substring 0 n b +:+ substring n (String.length b - n) b = b ∧
  String.length (substring 0 n b) = Nat.min n (String.length b) ∧
  String.length (substring n (String.length b - n) b) = String.length b - n.
Proof.
  revert n. induction b as [|a b IH]; intros n; [by destruct n|]. destruct n as [|n]; simpl.
  - destruct (IH 0) as (H1 & _ & H3). rewrite Nat.sub_0_r in H1, H3.
    assert (substring 0 (String.length b) b = b) as H0 by by destruct b.
    by rewrite !H0.
  - destruct (IH n) as (H1 & H2 & H3). split; [exact (f_equal (String a) H1)|].
    by rewrite H2, H3.
Qed.

Lemma chunks_go_spec fuel n b :
  (0 < n)%nat → (String.length b ≤ fuel)%nat →
  flatten (chunks_go fuel n b) = b ∧
  Forall (λ c, (1 ≤ String.length c ≤ n)%nat) (chunks_go fuel n b).
Proof.
  intros Hn. revert b. induction fuel as [|fuel IH]; intros b Hf.
  - destruct b; [by split|]. simpl in Hf. lia.
  - destruct b as [|a b]; [by split|]. set (b0 := String a b) in *.
    assert (0 < String.length b0)%nat as Hlen by (simpl; lia).
    destruct (substring_split n b0) as (H1 & H2 & H3).
    destruct (IH (substring n (String.length b0 - n) b0)) as [Hc Hl]; [lia|].
    assert (chunks_go (S fuel) n b0 =
      substring 0 n b0 :: chunks_go fuel n (substring n (String.length b0 - n) b0)) as ->
      by done.
    split; [|constructor; [lia|done]].
    change (substring 0 n b0 +:+ flatten (chunks_go fuel n (substring n (String.length b0 - n) b0)) = b0).
    by rewrite Hc.
Qed.

Lemma chunks_spec n b :
  (0 < n)%nat →
  flatten (chunks n b) = b ∧ Forall (λ c, (1 ≤ String.length c ≤ n)%nat) (chunks n b).
Proof. intros. by apply chunks_go_spec. Qed.

Definition stdout_of (f : IoServerFrame) : option bytes :=
  match isf_payload f with Some (SStdout b) => Some b | _ => None end.

Section file_theorems.
Context {W : Type} `{!ContainerFiles W}.
Implicit Types (s : Sess W).

Lemma emits_all s s' fs : ss_room s = None → emits s s' fs → ss_room s' = None.
Proof. intros Hr (_ & -> & _). by rewrite Hr. Qed.

Lemma send_open f s :
  ss_room s = None → ∃ s', send f s = (true, s') ∧ ss_runtime s' = ss_runtime s ∧
    ss_room s' = None ∧ ss_sent s' = ss_sent s ++ [f].
Proof. intros Hr. unfold send. rewrite Hr. by eexists. Qed.

Lemma send_chunks_open stream_id cs s :
  ss_room s = None → ∃ s', send_chunks stream_id cs s = (true, s') ∧ ss_room s' = None ∧
    ss_sent s' = ss_sent s ++ ((λ c, frame stream_id (SStdout c)) <$> cs).
Proof.
  revert s. induction cs as [|c cs IH]; intros s Hr; simpl.
  - exists s. by rewrite app_nil_r.
  - destruct (send_open (frame stream_id (SStdout c)) s Hr) as (s1 & -> & _ & Hr1 & Hs1).
    destruct (IH s1 Hr1) as (s' & -> & Hr' & Hs'). exists s'. split; [done|]. split; [done|].
    by rewrite Hs', Hs1, <- app_assoc.
Qed.

Lemma rt_open {A} (op : ST W A) s a w :
  op (ss_runtime s) = (a, w) →
  rt op s = (a, {| ss_runtime := w; ss_sent := ss_sent s; ss_room := ss_room s;
                   ss_draining := ss_draining s |}).
Proof. unfold rt. by intros ->. Qed.

(** The frames the sidecar adds. *)
Definition meta_frames (stream_id : string) (stat : result FileRevision AgentError)
    : list IoServerFrame :=
  match stat with
  | Ok rev => [frame stream_id (SFileMeta (fr_revision rev) (fr_size rev))]
  | Err _ => []
  end.

Lemma send_file_meta_open stream_id id path cwd s :
  ss_room s = None → ∃ s', send_file_meta stream_id id path cwd s = (true, s') ∧
    ss_room s' = None ∧ ss_runtime s' = (stat_revision id path cwd (ss_runtime s)).2 ∧
    ss_sent s' = ss_sent s ++ meta_frames stream_id (stat_revision id path cwd (ss_runtime s)).1.
Proof.
  intros Hr. unfold send_file_meta, rt.
  destruct (stat_revision id path cwd (ss_runtime s)) as [[rev|e] w']; simpl.
  - match goal with |- context [send ?f ?s0] =>
      destruct (send_open f s0 Hr) as (s1 & E & Hw & Hr1 & Hs1) end. rewrite E. eauto.
  - eexists. split; [reflexivity|]. by rewrite app_nil_r.
Qed.

Lemma send_exited_open stream_id s :
  ss_room s = None →
  ss_sent (send_exited stream_id s) = ss_sent s ++ [frame stream_id (SExited 0 false)] ∧
  ss_runtime (send_exited stream_id s) = ss_runtime s.
Proof.
  intros Hr. unfold send_exited.
  by destruct (send_open (frame stream_id (SExited 0 false)) s Hr) as (s' & -> & ? & _ & ?).
Qed.

Lemma send_error_open stream_id code detail s :
  ss_room s = None →
  ss_sent (send_error stream_id code detail s) = ss_sent s ++ [frame stream_id (SError code detail)].
Proof. intros Hr. unfold send_error, send. by rewrite Hr. Qed.

(** All that a read sends while the gateway listens. *)
Lemma drive_read_file_sent stream_id id path cwd s r w :
  ss_room s = None → read_file id path (cwd_opt cwd) (ss_runtime s) = (r, w) →
  ss_sent (drive_read_file stream_id id path cwd s) = ss_sent s ++
    match r with
    | Ok content =>
        meta_frames stream_id (stat_revision id path (cwd_opt cwd) w).1 ++
        ((λ c, frame stream_id (SStdout c)) <$> chunks READ_FILE_CHUNK_BYTES content) ++
        [frame stream_id (SExited 0 false)]
    | Err e =>
        [frame stream_id (SError match e with
             | Runtime detail =>
                 if contains detail "No such file" then "FILE_NOT_FOUND" else "READ_FAILED"
             | _ => "READ_FAILED"
             end (AgentError_to_string e))]
    end.
Proof.
  intros Hr Hread. unfold drive_read_file. rewrite (rt_open _ _ _ _ Hread).
  destruct r as [content|e]; [|by rewrite send_error_open].
  match goal with |- context [send_file_meta _ _ _ _ ?s0] =>
    destruct (send_file_meta_open stream_id id path (cwd_opt cwd) s0 Hr)
      as (s1 & -> & Hr1 & _ & Hs1) end.
  destruct (send_chunks_open stream_id (chunks READ_FILE_CHUNK_BYTES content) s1 Hr1)
    as (s2 & -> & Hr2 & Hs2).
  destruct (send_exited_open stream_id s2 Hr2) as [-> _]. rewrite Hs2, Hs1. by rewrite <- !app_assoc.
Qed.

(** Reading a file. While the gateway listens, a read that the runtime answers with
    [content] sends at most one FileMeta frame first (with the revision and size the runtime
    reports, when it can), then the content in order in stdout frames of one byte to 64 KiB
    each, which together are exactly [content], then Exited 0; a runtime failure is one
    Error frame, FILE_NOT_FOUND when its text says so. *)
Theorem read_file_roundtrip stream_id id path cwd s r w :
  ss_room s = None → read_file id path (cwd_opt cwd) (ss_runtime s) = (r, w) →
  let s' := drive_read_file stream_id id path cwd s in
  match r with
  | Ok content =>
      ∃ cs, ss_sent s' = ss_sent s ++
          (match stat_revision id path (cwd_opt cwd) w with
           | (Ok rev, _) => [frame stream_id (SFileMeta (fr_revision rev) (fr_size rev))]
           | (Err _, _) => []
           end) ++ ((λ c, frame stream_id (SStdout c)) <$> cs) ++
          [frame stream_id (SExited 0 false)] ∧
        flatten cs = content ∧ Forall (λ c, (1 ≤ String.length c ≤ READ_FILE_CHUNK_BYTES)%nat) cs
  | Err e => ∃ code, ss_sent s' = ss_sent s ++
        [frame stream_id (SError code (AgentError_to_string e))] ∧
      code = match e with
             | Runtime detail =>
                 if contains detail "No such file" then "FILE_NOT_FOUND" else "READ_FAILED"
             | _ => "READ_FAILED"
             end
  end.
Proof.
  intros Hr Hread s'. pose proof (drive_read_file_sent stream_id id path cwd s r w Hr Hread) as Hs.
  fold s' in Hs. destruct r as [content|e]; [|by eexists].
  destruct (chunks_spec READ_FILE_CHUNK_BYTES content) as [Hcat Hlen];
    [unfold READ_FILE_CHUNK_BYTES; lia|].
  exists (chunks READ_FILE_CHUNK_BYTES content). split; [|split; [done|exact Hlen]].
  rewrite Hs. by destruct (stat_revision id path (cwd_opt cwd) w) as [[rev|e] w'].
Qed.

(** The stdin payloads before the first other frame, and whether that is one a write does
    not take. *)
Fixpoint uploaded (fs : ClientFrames) : list bytes :=
  match fs with
  | Ok f :: fs' =>
      match icf_payload f with Some (CStdin b) => b :: uploaded fs' | _ => [] end
  | _ => []
  end.
Fixpoint misused (fs : ClientFrames) : bool :=
  match fs with
  | Ok f :: fs' =>
      match icf_payload f with
      | Some (CStdin _) => misused fs'
      | Some (CSignal _) | Some (CStart _) => true
      | _ => false
      end
  | _ => false
  end.

Definition size (b : bytes) : Z := Z.of_nat (String.length b).

Lemma size_app b b' : size (b +:+ b') = (size b + size b')%Z.
Proof.
  unfold size. induction b as [|a b IH]; [done|].
  change (Z.of_nat (S (String.length (b +:+ b'))) =
    (Z.of_nat (S (String.length b)) + Z.of_nat (String.length b'))%Z). lia.
Qed.

Lemma append_assoc (a b c : string) : (a +:+ b) +:+ c = a +:+ b +:+ c.
Proof. induction a as [|x a IH]; [done|]. exact (f_equal (String x) IH). Qed.
Lemma append_nil (a : string) : a +:+ "" = a.
Proof. induction a as [|x a IH]; [done|]. exact (f_equal (String x) IH). Qed.

Lemma collect_upload_spec mode c fs :
  (size c ≤ MAX_WRITE_BYTES)%Z →
  let total := c +:+ flatten (uploaded fs) in
  match collect_upload mode c fs with
  | Ok r => r = total ∧ (size total ≤ MAX_WRITE_BYTES)%Z ∧ misused fs = false
  | Err (code, _) =>
      code = "PAYLOAD_TOO_LARGE" ∧ (size total > MAX_WRITE_BYTES)%Z ∨
      code = "INVALID_REQUEST" ∧ misused fs = true
  end.
Proof.
  revert c. induction fs as [|[f|e] fs IH]; intros c Hc; simpl; [by rewrite append_nil| |by rewrite append_nil].
  destruct (icf_payload f) as [[start|bs|sig|eof]|]; simpl; [by right| |by right|by rewrite append_nil..].
  assert (0 ≤ size (flatten (uploaded fs)))%Z by (unfold size; lia).
  change (Z.of_nat (String.length c)) with (size c).
  change (Z.of_nat (String.length bs)) with (size bs).
  case_decide.
  - left. split; [done|]. rewrite !size_app. lia.
  - specialize (IH (c +:+ bs)). simpl in IH. rewrite append_assoc in IH. apply IH. rewrite size_app. unfold u64_max, MAX_WRITE_BYTES in *. lia.
Qed.

(** Whether the precondition is checked, whether the write may go on, and the runtime
    after the check. *)
Definition precondition_checked (rev : string) (force : bool) : bool :=
  bool_decide (rev ≠ "") && negb force.

Lemma check_revision_exact id path cwd rev force s :
  let stat := stat_revision id path cwd (ss_runtime s) in
  let '(r, s1) := check_revision id path cwd rev force s in
  ss_sent s1 = ss_sent s ∧ ss_room s1 = ss_room s ∧
  if precondition_checked rev force then
    ss_runtime s1 = stat.2 ∧
    match stat.1 with
    | Ok fr => r = if decide (fr_revision fr = rev) then None
                   else Some ("REVISION_MISMATCH", fr_revision fr)
    | Err _ => is_Some r
    end
  else ss_runtime s1 = ss_runtime s ∧ r = None.
Proof.
  unfold check_revision, precondition_checked, rt. destruct (decide _) as [[Hr ->]|Hn].
  - rewrite bool_decide_eq_true_2 by done. simpl.
    destruct (stat_revision _ _ _ _) as [[fr|e] w]; [done|].
    destruct e; simpl; repeat case_match; eauto.
  - assert (bool_decide (rev ≠ "") && negb force = false) as -> by
      (apply andb_false_iff; rewrite bool_decide_eq_false, negb_false_iff;
       destruct force; [by right|]; left; tauto).
    done.
Qed.

Lemma send_error_runtime stream_id code detail s :
  ss_runtime (send_error stream_id code detail s) = ss_runtime s.
Proof. unfold send_error. destruct (send _ s) as [b s2] eqn:E. by apply send_inv in E as [E _]. Qed.

Lemma send_file_meta_runtime stream_id id path cwd s :
  ss_runtime (send_file_meta stream_id id path cwd s).2 =
    (stat_revision id path cwd (ss_runtime s)).2.
Proof.
  unfold send_file_meta, rt. destruct (stat_revision _ _ _ _) as [[rev|e] w]; [|done].
  destruct (send _ _) as [b s2] eqn:E. by apply send_inv in E as [E _].
Qed.

(** Past the check. *)
Lemma write_after_check stream_id id path cwd fs s1 :
  let content := flatten (uploaded fs) in
  let s' := match collect_upload "write_file" "" fs with
    | Err (code, detail) => drain_remaining_client_frames (send_error stream_id code detail s1)
    | Ok content =>
        match rt (write_file id path cwd content) s1 with
        | (Ok _, s) =>
            match send_file_meta stream_id id path cwd s with
            | (false, s) => s
            | (true, s) => send_exited stream_id s
            end
        | (Err e, s) => send_error stream_id "WRITE_FAILED" (AgentError_to_string e) s
        end
    end in
  if decide (size content ≤ MAX_WRITE_BYTES ∧ misused fs = false)%Z then
    match write_file id path cwd content (ss_runtime s1) with
    | (Ok _, w2) => ss_runtime s' = (stat_revision id path cwd w2).2
    | (Err _, w2) => ss_runtime s' = w2
    end
  else ss_runtime s' = ss_runtime s1.
Proof.
  intros content s'. unfold s'. clear s'.
  pose proof (collect_upload_spec "write_file" "" fs ltac:(done)) as Hcol. simpl in Hcol.
  change ("" +:+ flatten (uploaded fs)) with content in Hcol.
  destruct (collect_upload _ _ _) as [c|[code d]].
  - destruct Hcol as (-> & Hsz & Hmis). rewrite decide_True by done. unfold rt.
    destruct (write_file id path cwd content (ss_runtime s1)) as [[[]|e] w2];
      [|by rewrite send_error_runtime].
    match goal with |- context [send_file_meta _ _ _ _ ?s0] =>
      pose proof (send_file_meta_runtime stream_id id path cwd s0) as Hm;
      destruct (send_file_meta _ _ _ _ s0) as [[] s3] end; simpl in Hm; [|done].
    unfold send_exited. destruct (send _ s3) as [b s4] eqn:E. apply send_inv in E as [E _].
    simpl. congruence.
  - cbn [ss_runtime drain_remaining_client_frames]. rewrite send_error_runtime, decide_False; [done|]. intros [Hsz Hmis].
    destruct Hcol as [[_ ?]|[_ ?]]; [lia|congruence].
Qed.

(** C19: writing a file is guarded. The file is written exactly when the precondition holds
    (no expected revision, or force, or the runtime reports just that revision), the client
    sent no frame but stdin before its close or end, and the upload is at most 256 MiB; what
    is written is then exactly the stdin bytes in order. In every other case the runtime is
    at most asked for the revision, and the file is not touched; with a stale revision the
    client gets REVISION_MISMATCH with the current one. *)
Theorem write_file_guarded stream_id id path cwd rev force fs s :
  let cwd' := cwd_opt cwd in
  let stat := stat_revision id path cwd' (ss_runtime s) in
  let checked := precondition_checked rev force in
  let allowed := if checked then match stat.1 with Ok fr => fr_revision fr = rev | Err _ => False end
                 else True in
  let w1 := if checked then stat.2 else ss_runtime s in
  let content := flatten (uploaded fs) in
  let s' := drive_write_file stream_id id path cwd rev force fs s in
  (allowed ∧ (size content ≤ MAX_WRITE_BYTES)%Z ∧ misused fs = false →
     match write_file id path cwd' content w1 with
     | (Ok _, w2) => ss_runtime s' = (stat_revision id path cwd' w2).2
     | (Err _, w2) => ss_runtime s' = w2
     end) ∧
  (¬ (allowed ∧ (size content ≤ MAX_WRITE_BYTES)%Z ∧ misused fs = false) →
     ss_runtime s' = w1) ∧
  (∀ fr, checked = true → stat.1 = Ok fr → fr_revision fr ≠ rev → ss_room s = None →
     ss_sent s' = ss_sent s ++ [frame stream_id (SError "REVISION_MISMATCH" (fr_revision fr))]).
Proof.
  intros cwd' stat checked allowed w1 content s'. unfold s', drive_write_file. fold cwd'.
  pose proof (check_revision_exact id path cwd' rev force s) as Hchk.
  destruct (check_revision id path cwd' rev force s) as [r s1].
  destruct Hchk as (Hsent & Hroom & Hrest). fold checked stat in Hrest.
  assert (ss_runtime s1 = w1) as Hw1 by (unfold w1; destruct checked; apply Hrest).
  assert (r = None ↔ allowed) as Hr.
  { unfold allowed. destruct checked; [|naive_solver]. destruct Hrest as [_ Hrest].
    destruct stat.1; [|destruct Hrest; naive_solver]. case_decide; naive_solver. }
  destruct r as [[code detail]|].
  - cbn [ss_runtime ss_sent drain_remaining_client_frames]. rewrite send_error_runtime. split; [intros [Ha _]; by apply Hr in Ha|]. split; [done|].
    intros fr Hc Hst Hne Ho. rewrite Hc, Hst, decide_False in Hrest by done.
    destruct Hrest as [_ [= -> ->]]. unfold send_error, send. rewrite Hroom, Ho. simpl.
    by rewrite Hsent.
  - pose proof (write_after_check stream_id id path cwd' fs s1) as Hw. simpl in Hw.
    fold content in Hw. rewrite Hw1 in Hw. split; [|split].
    + intros [_ Hx]. by rewrite decide_True in Hw by done.
    + intros Hn. rewrite decide_False in Hw; [done|]. intros Hx. apply Hn. by rewrite <- Hr.
    + intros fr Hc Hst Hne _. rewrite Hc, Hst, decide_False in Hrest by done. naive_solver.
Qed.

(** All that a write does and sends while the gateway listens, for an upload it can take. *)
Lemma drive_write_file_open stream_id id path cwd rev force fs s content :
  ss_room s = None → flatten (uploaded fs) = content → (size content ≤ MAX_WRITE_BYTES)%Z →
  misused fs = false →
  let cwd' := cwd_opt cwd in
  let stat := stat_revision id path cwd' (ss_runtime s) in
  let s' := drive_write_file stream_id id path cwd rev force fs s in
  (∀ fr, precondition_checked rev force = true → stat.1 = Ok fr → fr_revision fr ≠ rev →
     ss_sent s' = ss_sent s ++ [frame stream_id (SError "REVISION_MISMATCH" (fr_revision fr))] ∧
     ss_runtime s' = stat.2) ∧
  (∀ w1 r w2,
     (if precondition_checked rev force then ∃ fr, stat = (Ok fr, w1) ∧ fr_revision fr = rev
      else w1 = ss_runtime s) →
     write_file id path cwd' content w1 = (r, w2) →
     match r with
     | Ok _ => ss_sent s' = ss_sent s ++ meta_frames stream_id (stat_revision id path cwd' w2).1 ++
                 [frame stream_id (SExited 0 false)] ∧
               ss_runtime s' = (stat_revision id path cwd' w2).2
     | Err e => ss_sent s' = ss_sent s ++
                  [frame stream_id (SError "WRITE_FAILED" (AgentError_to_string e))] ∧
                ss_runtime s' = w2
     end).
Proof.
  intros Hr Hup Hsz Hmis cwd' stat s'. unfold s', drive_write_file. fold cwd'. clear s'.
  pose proof (check_revision_exact id path cwd' rev force s) as Hchk. fold stat in Hchk.
  destruct (check_revision id path cwd' rev force s) as [r1 s1].
  destruct Hchk as (Hsent & Hroom & Hrest). rewrite Hr in Hroom. split.
  - intros fr Hc Hst Hne. rewrite Hc, Hst, decide_False in Hrest by done.
    destruct Hrest as [Hw ->]. cbn [ss_runtime ss_sent drain_remaining_client_frames].
    rewrite send_error_open, send_error_runtime by done. by rewrite Hsent.
  - intros w1 r w2 Hpre Hwr.
    assert (r1 = None ∧ ss_runtime s1 = w1) as [-> Hw1].
    { destruct (precondition_checked rev force); [|naive_solver].
      destruct Hpre as (fr & E & <-). rewrite E in Hrest. cbn in Hrest.
      rewrite decide_True in Hrest by done. by destruct Hrest. }
    pose proof (collect_upload_spec "write_file" "" fs ltac:(done)) as Hcol. simpl in Hcol.
    change ("" +:+ flatten (uploaded fs)) with (flatten (uploaded fs)) in Hcol. rewrite Hup in Hcol.
    destruct (collect_upload _ _ _) as [c|[code d]]; [|destruct Hcol as [[_ ?]|[_ ?]]; [lia|congruence]].
    destruct Hcol as [-> _]. rewrite <- Hw1 in Hwr. rewrite (rt_open _ _ _ _ Hwr).
    destruct r as [[]|e].
    + match goal with |- context [send_file_meta _ _ _ _ ?s0] =>
        destruct (send_file_meta_open stream_id id path cwd' s0 Hroom) as (s2 & -> & Hr2 & Hw2 & Hs2)
      end.
      destruct (send_exited_open stream_id s2 Hr2) as [-> ->]. rewrite Hs2, Hw2.
      cbn [ss_sent ss_runtime]. by rewrite Hsent, <- app_assoc.
    + rewrite send_error_open, send_error_runtime by done. cbn. by rewrite Hsent.
Qed.
End file_theorems.

Module AgentIoExamples.
(** Files by path, the revision of a file being its content. *)
#[local] Instance SmallFiles : ContainerFiles (gmap string bytes) := {
  read_file _ path _ w :=
    (match w !! path with Some b => Ok b | None => Err (Runtime "No such file") end, w);
  write_file _ path _ b w := (Ok (), <[path := b]> w);
  write_files_targz _ _ _ w := (Ok (), w);
  list_dir _ path _ w := (Ok {| dl_path := path; dl_entries := []; dl_truncated := false;
                               dl_total_entries := 0 |}, w);
  stat_revision _ path _ w :=
    (match w !! path with
     | Some b => Ok {| fr_revision := b; fr_size := size b |}
     | None => Err (Runtime "No such file")
     end, w);
  delete_file _ path _ _ w := (Ok (), delete path w);
  wait_port_listening _ _ _ w := ((Ok true, 3%Z), w);
}.

Definition fresh : Sess (gmap string bytes) :=
  {| ss_runtime := {["/motd" := "hello"]}; ss_sent := []; ss_room := None;
     ss_draining := false |}.

Lemma read_file_roundtrip_witness :
  ∃ cs, ss_sent (drive_read_file "io-0" "c" "/motd" "" fresh) =
      [frame "io-0" (SFileMeta "hello" 5)] ++ ((λ c, frame "io-0" (SStdout c)) <$> cs) ++
      [frame "io-0" (SExited 0 false)] ∧ flatten cs = "hello".
Proof.
  pose proof (read_file_roundtrip "io-0" "c" "/motd" "" fresh (Ok "hello") {["/motd" := "hello"]}
    eq_refl eq_refl) as (cs & Hs & Hc & _).
  exists cs. split; [exact Hs|exact Hc].
Defined.

(** A write with a stale revision: one error, and the driver goes on reading. *)
Lemma one_shot_sessions_end_witness :
  let first := Ok {| icf_stream_id := "io-0"; icf_payload := Some (CStart
    {| is_sandbox_id := "s"; is_params := Some (PWriteFile "/motd" "" "old" false) |}) |} in
  ∃ s', drive_io_session "io-0" "c" [first] fresh = Ended s' ∧ ss_draining s' = true ∧
    drive_io_session "io-0" "c" (first :: [Err (Runtime "gone")]) fresh = Ended s' ∧
    ∃ sent, ss_sent s' = sent ∧ ∃ code detail, sent `prefix_of` [frame "io-0" (SError code detail)].
Proof.
  intros first. pose proof (one_shot_sessions_end "io-0" "c" first [] [Err (Runtime "gone")] fresh
    eq_refl) as H.
  destruct (drive_io_session "io-0" "c" [first] fresh) as [s'|p s'] eqn:E; [|done].
  assert (ss_draining s' = true) as Hd by (injection E as <-; reflexivity).
  destruct H as ((sent & Hs & _ & Hp) & Hm & _). exists s'. split; [done|]. split; [done|].
  split; [apply Hm; by right; right|]. exists sent. split; [exact Hs|by apply Hp].
Defined.

(** An upload whose client vanished after the first chunk replaces the file by it. *)
Example broken_upload_is_written :
  ss_runtime (drive_write_file "io-0" "c" "/motd" "" "" false
    [Ok {| icf_stream_id := "io-0"; icf_payload := Some (CStdin "he") |}] fresh) !! "/motd" =
    Some "he".
Proof. reflexivity. Qed.
End AgentIoExamples.
