(* ===== verification/AgentExec.v ===== *)
(** * The agent's exec sessions (crates/agent/src/{io_stream,exec_registry}.rs)

    [ExecRegistry] and its close hook, and an exec session as the system of its tasks: the
    demultiplexer of client frames, the two output pumps and the control loop, with the
    process, the client and the gateway as the environment. *)

From S2P Require Import Prelude Contracts UuidRef ControllerCore IoFrames AgentIo.

(** ** exec_registry.rs *)

Record ExecRecord `{UuidLib} := {
  er_sandbox_id : SandboxId;
  er_container_id : string;
  er_exec_id : string;
  er_in_container_pid : Z;
}.

Abbreviation ExecRegistry := (gmap string ExecRecord) (only parsing).

Definition SIGTERM : Z := 15.
Definition SIGKILL : Z := 9.

Section registry.
Context `{UuidLib}.

Definition registry_insert (stream_id : string) (r : ExecRecord) (reg : ExecRegistry)
    : ExecRegistry := <[stream_id := r]> reg.
Definition registry_remove (stream_id : string) : ST ExecRegistry (option ExecRecord) := λ reg,
  (reg !! stream_id, delete stream_id reg).
Definition list_for_sandbox (id : SandboxId) (reg : ExecRegistry) : list (string * ExecRecord) :=
  filter (λ e, er_sandbox_id e.2 = id) (map_to_list reg).

(** [on_stream_closed]: the signals it delivers, in order, with the container and pid each
    goes to; what [signal_exec] answers is ignored. *)
Definition on_stream_closed (stream_id : string)
    : ST ExecRegistry (list (string * Z * Z)) := λ reg,
  match registry_remove stream_id reg with
  | (None, reg) => ([], reg)
  | (Some rec, reg) =>
      ([(er_container_id rec, er_in_container_pid rec, SIGTERM);
        (er_container_id rec, er_in_container_pid rec, SIGKILL)], reg)
  end.
End registry.

(** ** io_stream.rs: an exec session *)

Record ExecExitInfo := { xi_exit_code : Z; xi_command_not_found : bool }.

Inductive OutputKind := KStdout | KStderr.
#[global] Instance OutputKind_eq_dec : EqDecision OutputKind.
Proof. solve_decision. Defined.

(** A spawned task: [abort()] only asks it to stop, so it may go on until it yields. *)
Inductive TaskState := TRunning | TAborting | TEnded.
#[global] Instance TaskState_eq_dec : EqDecision TaskState.
Proof. solve_decision. Defined.

Definition abort (t : TaskState) : TaskState := match t with TRunning => TAborting | t => t end.

(** An output stream of the process: every chunk it ever produced, whether it is closed,
    how many chunks the pump has passed on, and the pump. *)
Record Output := {
  op_produced : list bytes;
  op_closed : bool;
  op_taken : nat;
  op_pump : TaskState;
}.

(** Where the control loop is: selecting; waiting for the pumps after a natural exit; about
    to send the terminal error; in the close hook before SIGTERM, and before SIGKILL with the
    container and pid of the record it removed; done, naturally or by the hook. *)
Inductive Control :=
| Looping
| Draining (info : ExecExitInfo)
| Failing (code detail : string)
| Cleaning
| Grace (container_id : string) (in_container_pid : Z)
| Finished (natural : bool).

Record Exec `{UuidLib} := {
  x_registry : ExecRegistry;
  (** the container and pid the session was started with *)
  x_target : string * Z;
  (** the calls of [runtime.signal_exec]: container, pid and signal *)
  x_calls : list (string * Z * Z);
  x_out : list IoServerFrame;
  (** whether the receiver of the server frames is there *)
  x_listening : bool;
  x_demux : TaskState;
  x_stdin_open : bool;
  x_stdin : list bytes;
  (** whether the process still reads its stdin *)
  x_stdin_read : bool;
  x_signal_queue : list Z;
  x_close_queue : bool;
  x_stdout : Output;
  x_stderr : Output;
  (** the exit notification: pending, sent, or dropped without being sent *)
  x_exit : option (option ExecExitInfo);
  x_control : Control;
}.

Definition SIGNAL_QUEUE : nat := 4.

(** The signals delivered, to whatever process. *)
Definition x_signals `{UuidLib} (x : Exec) : list Z := (x_calls x).*2.

(** [EvClient]: the demultiplexer takes the next item of the client; it does not happen while it
    waits (what it has not taken is AgentInput's). *)
Inductive ExecEvent :=
| EvClient (f : option (result IoClientFrame AgentError))
| EvProcessStdinGone
| EvProduce (k : OutputKind) (b : bytes)
| EvOutputClosed (k : OutputKind)
| EvPump (k : OutputKind)
| EvAborted (k : option OutputKind)
| EvExit (info : option ExecExitInfo)
| EvSelectExit
| EvSelectSignal
| EvSelectClose
| EvControl
| EvGatewayGone.

Section exec.
Context `{UuidLib}.
Variables (stream_id : string).
Implicit Types (x : Exec).

Definition upd_out (out : list IoServerFrame) x : Exec :=
  {| x_registry := x_registry x; x_target := x_target x; x_calls := x_calls x; x_out := out;
     x_listening := x_listening x; x_demux := x_demux x; x_stdin_open := x_stdin_open x;
     x_stdin := x_stdin x; x_stdin_read := x_stdin_read x; x_signal_queue := x_signal_queue x;
     x_close_queue := x_close_queue x; x_stdout := x_stdout x; x_stderr := x_stderr x;
     x_exit := x_exit x; x_control := x_control x |}.
Definition upd_registry (reg : ExecRegistry) (calls : list (string * Z * Z)) x : Exec :=
  {| x_registry := reg; x_target := x_target x; x_calls := calls; x_out := x_out x;
     x_listening := x_listening x; x_demux := x_demux x; x_stdin_open := x_stdin_open x;
     x_stdin := x_stdin x; x_stdin_read := x_stdin_read x; x_signal_queue := x_signal_queue x;
     x_close_queue := x_close_queue x; x_stdout := x_stdout x; x_stderr := x_stderr x;
     x_exit := x_exit x; x_control := x_control x |}.
Definition upd_demux (d : TaskState) (open : bool) (stdin : list bytes) (sigs : list Z)
    (close : bool) x : Exec :=
  {| x_registry := x_registry x; x_target := x_target x; x_calls := x_calls x; x_out := x_out x;
     x_listening := x_listening x; x_demux := d; x_stdin_open := open;
     x_stdin := stdin; x_stdin_read := x_stdin_read x; x_signal_queue := sigs;
     x_close_queue := close; x_stdout := x_stdout x; x_stderr := x_stderr x;
     x_exit := x_exit x; x_control := x_control x |}.
Definition upd_env (listening stdin_read : bool) (exit : option (option ExecExitInfo)) x : Exec :=
  {| x_registry := x_registry x; x_target := x_target x; x_calls := x_calls x; x_out := x_out x;
     x_listening := listening; x_demux := x_demux x; x_stdin_open := x_stdin_open x;
     x_stdin := x_stdin x; x_stdin_read := stdin_read; x_signal_queue := x_signal_queue x;
     x_close_queue := x_close_queue x; x_stdout := x_stdout x; x_stderr := x_stderr x;
     x_exit := exit; x_control := x_control x |}.
Definition output_of (k : OutputKind) x : Output :=
  match k with KStdout => x_stdout x | KStderr => x_stderr x end.
Definition upd_output (k : OutputKind) (o : Output) x : Exec :=
  {| x_registry := x_registry x; x_target := x_target x; x_calls := x_calls x; x_out := x_out x;
     x_listening := x_listening x; x_demux := x_demux x; x_stdin_open := x_stdin_open x;
     x_stdin := x_stdin x; x_stdin_read := x_stdin_read x; x_signal_queue := x_signal_queue x;
     x_close_queue := x_close_queue x;
     x_stdout := match k with KStdout => o | KStderr => x_stdout x end;
     x_stderr := match k with KStdout => x_stderr x | KStderr => o end;
     x_exit := x_exit x; x_control := x_control x |}.
Definition upd_control (c : Control) x : Exec :=
  {| x_registry := x_registry x; x_target := x_target x; x_calls := x_calls x; x_out := x_out x;
     x_listening := x_listening x; x_demux := x_demux x; x_stdin_open := x_stdin_open x;
     x_stdin := x_stdin x; x_stdin_read := x_stdin_read x; x_signal_queue := x_signal_queue x;
     x_close_queue := x_close_queue x; x_stdout := x_stdout x; x_stderr := x_stderr x;
     x_exit := x_exit x; x_control := c |}.

Definition with_pump (t : TaskState) (o : Output) : Output :=
  {| op_produced := op_produced o; op_closed := op_closed o; op_taken := op_taken o; op_pump := t |}.

(** [server_tx.send(frame).await]. *)
Definition xsend (p : IoServerPayload) x : Exec :=
  if x_listening x then upd_out (x_out x ++ [frame stream_id p]) x else x.

(** [drive_exec] after [start_exec] answered: register, announce, and go on, or clean up at
    once when nobody listens. *)
Definition no_output (pump : TaskState) : Output :=
  {| op_produced := []; op_closed := false; op_taken := 0; op_pump := pump |}.

Definition drive_exec (started : result (string * Z) AgentError) (sandbox_id : SandboxId)
    (container_id : string) (listening : bool) (reg : ExecRegistry) : Exec :=
  let x reg control tasks := {| x_registry := reg; x_target := (container_id, match started with Ok (_, pid) => pid | Err _ => 0%Z end);
    x_calls := []; x_out := [];
    x_listening := listening; x_demux := tasks; x_stdin_open := true; x_stdin := [];
    x_stdin_read := true; x_signal_queue := []; x_close_queue := false;
    x_stdout := no_output tasks; x_stderr := no_output tasks; x_exit := None; x_control := control |} in
  match started with
  | Err e => xsend (SError "RUNTIME_ERROR" (AgentError_to_string e)) (x reg (Finished true) TEnded)
  | Ok (exec_id, pid) =>
      let reg := registry_insert stream_id {| er_sandbox_id := sandbox_id;
        er_container_id := container_id; er_exec_id := exec_id; er_in_container_pid := pid |} reg in
      if listening then xsend (SStarted exec_id pid) (x reg Looping TRunning)
      else x reg Cleaning TEnded
  end.

(** [signal_tx.send(s).await] on a full channel: the demultiplexer waits with the item. *)
Definition waits (f : option (result IoClientFrame AgentError)) x : bool :=
  match f with
  | Some (Ok f) =>
      match icf_payload f with
      | Some (CSignal _) => bool_decide (SIGNAL_QUEUE ≤ length (x_signal_queue x))%nat
      | _ => false
      end
  | _ => false
  end.

(** [client_frames_demux] on one item, when it need not wait. *)
Definition demux_item (f : option (result IoClientFrame AgentError)) x : Exec :=
  let close x := upd_demux TEnded false (x_stdin x) (x_signal_queue x) true x in
  match f with
  | None | Some (Err _) => close x
  | Some (Ok f) =>
      match icf_payload f with
      | None => close x
      | Some (CStdin b) =>
          if negb (x_stdin_open x) then x
          else if x_stdin_read x then
            upd_demux (x_demux x) true (x_stdin x ++ [b]) (x_signal_queue x) (x_close_queue x) x
          else close x
      | Some (CSignal s) =>
          upd_demux (x_demux x) (x_stdin_open x) (x_stdin x) (x_signal_queue x ++ [s])
            (x_close_queue x) x
      | Some (CClose true) =>
          upd_demux (x_demux x) false (x_stdin x) (x_signal_queue x) (x_close_queue x) x
      | Some (CClose false) | Some (CStart _) => close x
      end
  end.

Definition output_payload (k : OutputKind) (b : bytes) : IoServerPayload :=
  match k with KStdout => SStdout b | KStderr => SStderr b end.

(** [output_pump]: pass the next chunk on, or end when the stream is closed and empty or
    nobody listens. *)
Definition pump_step (k : OutputKind) x : Exec :=
  let o := output_of k x in
  if decide (op_pump o = TEnded) then x else
  match op_produced o !! op_taken o with
  | Some b =>
      if x_listening x then
        upd_output k {| op_produced := op_produced o; op_closed := op_closed o;
                        op_taken := S (op_taken o); op_pump := op_pump o |}
          (xsend (output_payload k b) x)
      else upd_output k (with_pump TEnded o) x
  | None => if op_closed o then upd_output k (with_pump TEnded o) x else x
  end.

(** [demux_handle.abort()] when the loop is left, and the pumps' too on the error paths. *)
Definition leave_loop (c : Control) (stop_pumps : bool) x : Exec :=
  let x := upd_demux (abort (x_demux x)) (x_stdin_open x) (x_stdin x) (x_signal_queue x)
             (x_close_queue x) x in
  let x := if stop_pumps then
             upd_output KStdout (with_pump (abort (op_pump (x_stdout x))) (x_stdout x))
               (upd_output KStderr (with_pump (abort (op_pump (x_stderr x))) (x_stderr x)) x)
           else x in
  upd_control c x.

Definition select_exit x : Exec :=
  match x_exit x with
  | Some (Some info) => leave_loop (Draining info) false x
  | Some None =>
      leave_loop (Failing "RUNTIME_ERROR" "runtime exited without sending exit info") true x
  | None => x
  end.

Definition select_signal x : Exec :=
  match x_signal_queue x with
  | [] => x
  | sig :: rest =>
      let x := upd_demux (x_demux x) (x_stdin_open x) (x_stdin x) rest (x_close_queue x) x in
      match Signum.try_from sig with
      | Err _ => x
      | Ok s => upd_registry (x_registry x) (x_calls x ++ [(x_target x, Signum.as_i32 s)]) x
      end
  end.

Definition select_close x : Exec :=
  if x_close_queue x then
    leave_loop (Failing "CANCELLED" "client-initiated close") true
      (upd_demux (x_demux x) (x_stdin_open x) (x_stdin x) (x_signal_queue x) false x)
  else x.

(** The control task after the loop, one await at a time. *)
Definition control_step x : Exec :=
  match x_control x with
  | Draining info =>
      if decide (op_pump (x_stdout x) = TEnded ∧ op_pump (x_stderr x) = TEnded) then
        let x := xsend (SExited (xi_exit_code info) (xi_command_not_found info)) x in
        upd_control (Finished true)
          (upd_registry (registry_remove stream_id (x_registry x)).2 (x_calls x) x)
      else x
  | Failing code detail => upd_control Cleaning (xsend (SError code detail) x)
  | Cleaning =>
      match registry_remove stream_id (x_registry x) with
      | (None, reg) => upd_control (Finished false) (upd_registry reg (x_calls x) x)
      | (Some rec, reg) =>
          upd_control (Grace (er_container_id rec) (er_in_container_pid rec))
            (upd_registry reg (x_calls x ++ [(er_container_id rec, er_in_container_pid rec, SIGTERM)]) x)
      end
  | Grace container_id pid =>
      upd_control (Finished false) (upd_registry (x_registry x) (x_calls x ++ [(container_id, pid, SIGKILL)]) x)
  | _ => x
  end.

Definition exec_step x (e : ExecEvent) : Exec :=
  match e with
  | EvClient f => if decide (x_demux x = TEnded ∨ waits f x = true) then x else demux_item f x
  | EvProcessStdinGone => upd_env (x_listening x) false (x_exit x) x
  | EvProduce k b =>
      let o := output_of k x in
      if op_closed o then x else
      upd_output k {| op_produced := op_produced o ++ [b]; op_closed := false;
                      op_taken := op_taken o; op_pump := op_pump o |} x
  | EvOutputClosed k =>
      let o := output_of k x in
      upd_output k {| op_produced := op_produced o; op_closed := true;
                      op_taken := op_taken o; op_pump := op_pump o |} x
  | EvPump k => pump_step k x
  | EvAborted None =>
      if decide (x_demux x = TAborting) then
        upd_demux TEnded false (x_stdin x) (x_signal_queue x) (x_close_queue x) x
      else x
  | EvAborted (Some k) =>
      if decide (op_pump (output_of k x) = TAborting) then
        upd_output k (with_pump TEnded (output_of k x)) x
      else x
  | EvExit info =>
      match x_exit x with None => upd_env (x_listening x) (x_stdin_read x) (Some info) x | _ => x end
  | EvSelectExit => match x_control x with Looping => select_exit x | _ => x end
  | EvSelectSignal => match x_control x with Looping => select_signal x | _ => x end
  | EvSelectClose => match x_control x with Looping => select_close x | _ => x end
  | EvControl => control_step x
  | EvGatewayGone => upd_env false (x_stdin_read x) (x_exit x) x
  end.

Definition exec_run (evs : list ExecEvent) x : Exec := foldl exec_step x evs.
End exec.

(** ** What a session guarantees *)

Section exec_inv.
Context `{UuidLib}.
Variables (stream_id : string) (record : ExecRecord) (others : ExecRegistry).
Implicit Types (x : Exec) (k : OutputKind).

(** The terminal payloads among the frames, and the chunks of one stream. *)
Definition terminals (out : list IoServerFrame) : list IoServerPayload :=
  omap (λ f, p ← isf_payload f; if is_terminal_payload p then Some p else None) out.
Definition chunks_of k (out : list IoServerFrame) : list bytes :=
  omap (λ f, match k, isf_payload f with
             | KStdout, Some (SStdout b) | KStderr, Some (SStderr b) => Some b
             | _, _ => None
             end) out.

Definition valid_signal (s : Z) : Prop := (1 ≤ s ≤ 31 ∨ 34 ≤ s ≤ 64)%Z.

(** The registry entry is there until the session cleans up. *)
Definition registered_in (c : Control) : bool :=
  match c with Looping | Draining _ | Failing _ _ | Cleaning => true | _ => false end.

(** The pumps are stopped only on the error paths. *)
Definition pumps_untouched (c : Control) : bool :=
  match c with Looping | Draining _ | Finished true => true | _ => false end.

(** The process of the session. *)
Definition target : string * Z := (er_container_id record, er_in_container_pid record).

(** The signals of the close hook. *)
Definition hook_signals (c : Control) : list Z :=
  match c with Grace _ _ => [SIGTERM] | Finished false => [SIGTERM; SIGKILL] | _ => [] end.

Record exec_inv x : Prop := {
  xi_ids : Forall (λ f, isf_stream_id f = stream_id) (x_out x);
  xi_chunks k : op_taken (output_of k x) ≤ length (op_produced (output_of k x)) ∧
    chunks_of k (x_out x) = take (op_taken (output_of k x)) (op_produced (output_of k x));
  xi_pumps k : pumps_untouched (x_control x) = true →
    op_pump (output_of k x) ≠ TAborting ∧
    (op_pump (output_of k x) = TEnded → x_listening x = false ∨
       op_closed (output_of k x) = true ∧
       op_taken (output_of k x) = length (op_produced (output_of k x)));
  xi_terminal : match x_control x with
    | Looping | Draining _ | Failing _ _ => terminals (x_out x) = []
    | Finished true =>
        (∀ k, op_pump (output_of k x) = TEnded) ∧
        ((∃ pre info, x_out x = pre ++ [frame stream_id (SExited (xi_exit_code info)
                        (xi_command_not_found info))] ∧ terminals pre = []) ∨
         terminals (x_out x) = [] ∧ x_listening x = false)
    | _ => (∃ code detail, terminals (x_out x) = [SError code detail]) ∨
           terminals (x_out x) = [] ∧ x_listening x = false
    end;
  xi_registry id : x_registry x !! id =
    if decide (id = stream_id)
    then (if registered_in (x_control x) then Some record else None) else others !! id;
  xi_target : x_target x = target ∧ match x_control x with Grace c p => (c, p) = target | _ => True end;
  xi_signals : ∃ sigs, Forall valid_signal sigs ∧
    x_calls x = (target,.) <$> sigs ++ hook_signals (x_control x);
}.

Lemma terminals_app out out' : terminals (out ++ out') = terminals out ++ terminals out'.
Proof. apply omap_app. Qed.
Lemma chunks_of_app k out out' : chunks_of k (out ++ out') = chunks_of k out ++ chunks_of k out'.
Proof. apply omap_app. Qed.

(** A step that touches none of what the invariant speaks of, but for the gateway leaving
    and streams being produced or closed. *)
Definition same_core x x' : Prop :=
  x_out x' = x_out x ∧ x_control x' = x_control x ∧ x_registry x' = x_registry x ∧
  x_target x' = x_target x ∧ x_calls x' = x_calls x ∧ (x_listening x' = true → x_listening x = true) ∧
  ∀ k, op_taken (output_of k x') = op_taken (output_of k x) ∧
       op_pump (output_of k x') = op_pump (output_of k x) ∧
       (op_closed (output_of k x) = true → op_closed (output_of k x') = true ∧
          op_produced (output_of k x') = op_produced (output_of k x)) ∧
       op_produced (output_of k x) `prefix_of` op_produced (output_of k x').

Lemma same_core_inv x x' : same_core x x' → exec_inv x → exec_inv x'.
Proof.
  intros (Ho & Hc & Hr & Htg & Hs & Hl & Hk) [H1 H2 H3 H4 H5 H7 H6].
  split; rewrite ?Ho, ?Hc, ?Hr, ?Htg, ?Hs; try done.
  - intros k. destruct (Hk k) as (-> & _ & _ & [l Hl']). destruct (H2 k) as [Hle Hch].
    rewrite Hl', length_app. split; [lia|]. by rewrite Hch, take_app_le.
  - intros k Hu. destruct (Hk k) as (-> & -> & Hcl & _). destruct (H3 k Hu) as [Ha He].
    split; [done|]. intros Hend. destruct (He Hend) as [Hn|[Hclo Ht]].
    + left. destruct (x_listening x') eqn:E; [|done]. rewrite Hl in Hn by done. done.
    + right. by destruct (Hcl Hclo) as [-> ->].
  - assert (x_listening x = false → x_listening x' = false) as Hl'.
    { intros Hf. destruct (x_listening x'); [|done]. rewrite Hl in Hf by done. done. }
    destruct (x_control x) as [| | | | |[]]; try done; [naive_solver..| |naive_solver].
    destruct H4 as [Hp Hrest]. split; [|naive_solver].
    intros k. destruct (Hk k) as (_ & -> & _). done.
Qed.

Lemma same_core_refl x : same_core x x.
Proof. do 6 (split; [done|]). done. Qed.

Lemma upd_env_core l sr ex x :
  (l = true → x_listening x = true) → same_core x (upd_env l sr ex x).
Proof. intros. do 6 (split; [done|]). by intros []. Qed.

Lemma upd_demux_core d op si q c x : same_core x (upd_demux d op si q c x).
Proof. do 6 (split; [done|]). by intros []. Qed.

Lemma demux_item_core f x : same_core x (demux_item f x).
Proof.
  unfold demux_item. pose proof (same_core_refl x).
  destruct f as [[f|e]|]; [|done..]. destruct (icf_payload f) as [[start|b|sig|[]]|]; try done.
  - destruct (negb _); [done|]. by destruct (x_stdin_read x).
Qed.

(** A change of one output stream. *)
Lemma upd_output_core k o x :
  op_taken o = op_taken (output_of k x) → op_pump o = op_pump (output_of k x) →
  (op_closed (output_of k x) = true → op_closed o = true ∧
     op_produced o = op_produced (output_of k x)) →
  op_produced (output_of k x) `prefix_of` op_produced o →
  same_core x (upd_output k o x).
Proof.
  intros. do 6 (split; [done|]). intros k'. destruct k, k'; simpl in *; try done; by split_and!.
Qed.

Lemma output_of_upd k k' o x :
  output_of k' (upd_output k o x) = if decide (k' = k) then o else output_of k' x.
Proof. by destruct k, k'. Qed.

Lemma output_of_upd_out k out x : output_of k (upd_out out x) = output_of k x.
Proof. by destruct k. Qed.

(** A pump ends: it was being stopped, nobody listens, or its stream is finished. *)
Lemma pump_end_inv k x :
  exec_inv x →
  (pumps_untouched (x_control x) = true → x_listening x = false ∨
     op_closed (output_of k x) = true ∧
     op_taken (output_of k x) = length (op_produced (output_of k x))) →
  exec_inv (upd_output k (with_pump TEnded (output_of k x)) x).
Proof.
  intros [H1 H2 H3 H4 H5 Ht H6] Hwhy. split; try done; simpl.
  - intros k'. rewrite output_of_upd. case_decide; subst; apply H2.
  - intros k' Hu. rewrite output_of_upd. case_decide; [subst|by apply H3]. split; [done|]. auto.
  - destruct (x_control x) as [| | | | |[]]; try done. destruct H4 as [Hall Hrest].
    split; [|done]. intros k'. rewrite output_of_upd. by case_decide; subst.
Qed.

Lemma chunks_of_payload k k' b :
  chunks_of k' [frame stream_id (output_payload k b)] = if decide (k' = k) then [b] else [].
Proof. by destruct k, k'. Qed.

(** A pump passes a chunk on. *)
Lemma pump_emit_inv k x b :
  exec_inv x → op_pump (output_of k x) ≠ TEnded →
  op_produced (output_of k x) !! op_taken (output_of k x) = Some b →
  exec_inv (upd_output k {| op_produced := op_produced (output_of k x);
                            op_closed := op_closed (output_of k x);
                            op_taken := S (op_taken (output_of k x));
                            op_pump := op_pump (output_of k x) |}
              (upd_out (x_out x ++ [frame stream_id (output_payload k b)]) x)).
Proof.
  intros [H1 H2 H3 H4 H5 Ht H6] Hp Hb. pose proof (lookup_lt_Some _ _ _ Hb) as Hlt.
  split; simpl; try done.
  - apply Forall_app. split; [done|]. by constructor.
  - intros k'. rewrite chunks_of_app, chunks_of_payload, output_of_upd, output_of_upd_out.
    destruct (H2 k') as [Hle Hch]. case_decide; simpl; [subst|by rewrite app_nil_r].
    split; [lia|]. rewrite Hch. symmetry. by apply take_S_r.
  - intros k' Hu. rewrite output_of_upd, output_of_upd_out. destruct (H3 k' Hu) as [Ha He].
    case_decide; simpl; [subst|done]. done.
  - rewrite terminals_app. assert (terminals [frame stream_id (output_payload k b)] = []) as ->
      by by destruct k. rewrite app_nil_r.
    destruct (x_control x) as [| | | | |[]]; try done. destruct H4 as [Hall _]. by destruct Hp.
Qed.

Lemma pump_step_inv k x : exec_inv x → exec_inv (pump_step stream_id k x).
Proof.
  intros Hinv. unfold pump_step. case_decide as Hp; [done|].
  destruct (op_produced (output_of k x) !! op_taken (output_of k x)) as [b|] eqn:Eb.
  - destruct (x_listening x) eqn:El; [|by apply pump_end_inv; auto].
    unfold xsend. rewrite El. by apply pump_emit_inv.
  - destruct (op_closed (output_of k x)) eqn:Ec; [|done]. apply pump_end_inv; [done|].
    intros _. right. split; [done|]. apply lookup_ge_None in Eb.
    destruct (xi_chunks _ Hinv k) as [? _]. lia.
Qed.

Lemma leave_loop_inv c stop x :
  exec_inv x → x_control x = Looping →
  match c with Draining _ => stop = false | Failing _ _ => stop = true | _ => False end →
  exec_inv (leave_loop c stop x).
Proof.
  intros [H1 H2 H3 H4 H5 Ht H6] Hc Hcs. rewrite Hc in *.
  assert (∀ k, op_produced (output_of k (leave_loop c stop x)) = op_produced (output_of k x) ∧
    op_taken (output_of k (leave_loop c stop x)) = op_taken (output_of k x)) as Hop
    by by intros []; destruct stop.
  assert (x_out (leave_loop c stop x) = x_out x) as Ho by by destruct stop.
  assert (x_registry (leave_loop c stop x) = x_registry x) as Hr by by destruct stop.
  assert (x_calls (leave_loop c stop x) = x_calls x) as Hs by by destruct stop.
  assert (x_target (leave_loop c stop x) = x_target x) as Htg by by destruct stop.
  split; rewrite ?Ho, ?Hr, ?Hs, ?Htg; try done.
  - intros k. destruct (Hop k) as [-> ->]. apply H2.
  - intros k Hu. destruct c; try done. subst stop. specialize (H3 k eq_refl). by destruct k.
  - by destruct c.
  - intros id. rewrite H5. by destruct c.
  - split; [apply Ht|]. by destruct c.
  - destruct c; done.
Qed.

Lemma signum_valid z s : Signum.try_from z = Ok s → valid_signal (Signum.as_i32 s).
Proof.
  unfold Signum.try_from, valid_signal, Signum.as_i32. destruct (_ || _) eqn:E; [|done].
  intros [= <-]. simpl. apply orb_true_iff in E. rewrite !bool_decide_eq_true in E.
  unfold as_u8, as_unsigned. rewrite Z.mod_small; lia.
Qed.

Lemma select_signal_inv x :
  exec_inv x → x_control x = Looping → exec_inv (select_signal x).
Proof.
  intros Hinv Hc. pose proof Hinv as [H1 H2 H3 H4 H5 Ht H6]. unfold select_signal.
  destruct (x_signal_queue x) as [|sig rest]; [done|].
  destruct (Signum.try_from sig) as [s|e] eqn:Es; [|by apply (same_core_inv x)].
  rewrite Hc in *. split; try done; simpl; rewrite ?Hc; try done.
  destruct H6 as (sigs & Hv & Hsig). exists (sigs ++ [Signum.as_i32 s]).
  split; [|by rewrite Hsig, (proj1 Ht), !app_nil_r, fmap_app]. apply Forall_app. split; [done|].
  constructor; [by eapply signum_valid|done].
Qed.

Lemma xsend_cases p x :
  x_listening x = true ∧ xsend stream_id p x = upd_out (x_out x ++ [frame stream_id p]) x ∨
  x_listening x = false ∧ xsend stream_id p x = x.
Proof. unfold xsend. destruct (x_listening x); auto. Qed.

(** The control task sends a terminal frame. *)
Lemma send_terminal_ids p x :
  exec_inv x → Forall (λ f, isf_stream_id f = stream_id) (x_out (xsend stream_id p x)).
Proof.
  intros Hinv. pose proof (xi_ids _ Hinv). destruct (xsend_cases p x) as [[_ ->]|[_ ->]]; [|done].
  simpl. apply Forall_app. split; [done|]. by constructor.
Qed.

Lemma send_terminal_chunks p k x :
  is_terminal_payload p = true → chunks_of k (x_out (xsend stream_id p x)) = chunks_of k (x_out x) ∧
  output_of k (xsend stream_id p x) = output_of k x ∧ x_control (xsend stream_id p x) = x_control x ∧
  x_registry (xsend stream_id p x) = x_registry x ∧ x_target (xsend stream_id p x) = x_target x ∧
  x_calls (xsend stream_id p x) = x_calls x ∧
  x_listening (xsend stream_id p x) = x_listening x.
Proof.
  intros Hp. destruct (xsend_cases p x) as [[_ ->]|[_ ->]]; [|done]. simpl. rewrite chunks_of_app.
  assert (chunks_of k [frame stream_id p] = []) as -> by by destruct p, k.
  rewrite app_nil_r. by destruct k.
Qed.

Lemma control_draining info x :
  exec_inv x → x_control x = Draining info →
  op_pump (x_stdout x) = TEnded → op_pump (x_stderr x) = TEnded →
  let x1 := xsend stream_id (SExited (xi_exit_code info) (xi_command_not_found info)) x in
  exec_inv (upd_control (Finished true)
    (upd_registry (registry_remove stream_id (x_registry x1)).2 (x_calls x1) x1)).
Proof.
  intros Hinv Hc Hp1 Hp2 x1. pose proof Hinv as [H1 H2 H3 H4 H5 Ht H6]. rewrite Hc in *.
  assert (∀ k, chunks_of k (x_out x1) = chunks_of k (x_out x) ∧ output_of k x1 = output_of k x ∧
    x_control x1 = x_control x ∧ x_registry x1 = x_registry x ∧ x_target x1 = x_target x ∧ x_calls x1 = x_calls x ∧
    x_listening x1 = x_listening x) as Hs by by intros k; apply send_terminal_chunks.
  assert (∀ k, output_of k (upd_control (Finished true) (upd_registry
    (registry_remove stream_id (x_registry x1)).2 (x_calls x1) x1)) = output_of k x) as Ho.
  { intros k. destruct (Hs k) as (_ & <- & _). by destruct k. }
  destruct (Hs KStdout) as (_ & _ & _ & Hr & Htg & Hsig & Hl).
  split; try setoid_rewrite Ho; simpl.
  - by apply send_terminal_ids.
  - intros k. destruct (Hs k) as (-> & _). apply H2.
  - intros k _. rewrite Hl. by apply H3.
  - split; [intros k; rewrite ?Ho; by destruct k|]. rewrite Hl.
    destruct (xsend_cases (SExited (xi_exit_code info) (xi_command_not_found info)) x)
      as [[_ E]|[Hn E]]; fold x1 in E; rewrite E; simpl; [left|by right].
    exists (x_out x), info. done.
  - intros id. rewrite Hr. rewrite lookup_delete. case_decide; [by rewrite decide_True|].
    rewrite H5, !decide_False by congruence. done.
  - by rewrite Htg.
  - by rewrite Hsig.
Qed.

Lemma control_failing code detail x :
  exec_inv x → x_control x = Failing code detail →
  exec_inv (upd_control Cleaning (xsend stream_id (SError code detail) x)).
Proof.
  intros Hinv Hc. pose proof Hinv as [H1 H2 H3 H4 H5 Ht H6]. rewrite Hc in *.
  assert (∀ k, chunks_of k (x_out (xsend stream_id (SError code detail) x)) = chunks_of k (x_out x) ∧
    output_of k (xsend stream_id (SError code detail) x) = output_of k x ∧
    x_control (xsend stream_id (SError code detail) x) = x_control x ∧
    x_registry (xsend stream_id (SError code detail) x) = x_registry x ∧
    x_target (xsend stream_id (SError code detail) x) = x_target x ∧
    x_calls (xsend stream_id (SError code detail) x) = x_calls x ∧
    x_listening (xsend stream_id (SError code detail) x) = x_listening x) as Hs
    by by intros k; apply send_terminal_chunks.
  assert (∀ k, output_of k (upd_control Cleaning (xsend stream_id (SError code detail) x)) =
    output_of k x) as Ho.
  { intros k. destruct (Hs k) as (_ & <- & _). by destruct k. }
  destruct (Hs KStdout) as (_ & _ & _ & Hr & Htg & Hsig & Hl).
  split; try setoid_rewrite Ho; simpl; try done.
  - by apply send_terminal_ids.
  - intros k. destruct (Hs k) as (-> & _). apply H2.
  - rewrite Hl. destruct (xsend_cases (SError code detail) x) as [[_ E]|[Hn E]]; rewrite E; simpl.
    + left. exists code, detail. by rewrite terminals_app, H4.
    + by right.
  - intros id. by rewrite Hr, H5.
  - by rewrite Htg.
  - by rewrite Hsig.
Qed.

Lemma control_step_inv x : exec_inv x → exec_inv (control_step stream_id x).
Proof.
  intros Hinv. pose proof Hinv as [H1 H2 H3 H4 H5 Ht H6]. unfold control_step.
  destruct (x_control x) as [|info|code detail| |gc gp|nat] eqn:Hc; try done.
  - case_decide as Hp; [|done]. destruct Hp. by apply control_draining.
  - by apply control_failing.
  - unfold registry_remove. rewrite H5, decide_True by done. simpl.
    split; try done; simpl.
    + intros id. rewrite lookup_delete. case_decide; [by rewrite decide_True|].
      by rewrite H5, !decide_False by congruence.
    + split; [apply Ht|done].
    + destruct H6 as (sigs & Hv & Hsig). exists sigs. split; [done|]. by rewrite Hsig, app_nil_r, fmap_app.
  - destruct Ht as [Ht Hg]. split; try done; simpl. destruct H6 as (sigs & Hv & Hsig). exists sigs. split; [done|].
    rewrite Hsig, Hg, !fmap_app. by rewrite <- app_assoc.
Qed.

Lemma exec_step_inv x e : exec_inv x → exec_inv (exec_step stream_id x e).
Proof.
  intros Hinv. destruct e as [f| |k b|k|k|[k|]|info| | | | |]; simpl.
  - case_decide; [done|]. by eapply same_core_inv; [apply demux_item_core|].
  - by eapply same_core_inv; [by apply (upd_env_core _ _ _ x)|].
  - destruct (op_closed _) eqn:E; [done|]. eapply same_core_inv; [|done].
    apply upd_output_core; simpl; try done; [congruence|by apply prefix_app_r].
  - eapply same_core_inv; [|done]. by apply upd_output_core.
  - by apply pump_step_inv.
  - case_decide as Ha; [|done]. apply pump_end_inv; [done|]. intros Hu.
    by destruct (xi_pumps _ Hinv k Hu).
  - case_decide; [|done]. by eapply same_core_inv; [apply upd_demux_core|].
  - destruct (x_exit x); [done|]. by eapply same_core_inv; [by apply (upd_env_core _ _ _ x)|].
  - destruct (x_control x) eqn:Hc; try done. unfold select_exit.
    destruct (x_exit x) as [[info|]|]; [by apply leave_loop_inv..|done].
  - destruct (x_control x) eqn:Hc; try done. by apply select_signal_inv.
  - destruct (x_control x) eqn:Hc; try done. unfold select_close. destruct (x_close_queue x); [|done].
    apply leave_loop_inv; [|done..]. by eapply same_core_inv; [apply upd_demux_core|].
  - by apply control_step_inv.
  - by eapply same_core_inv; [by apply (upd_env_core _ _ _ x)|].
Qed.
End exec_inv.

Section exec_theorems.
Context `{UuidLib}.
Implicit Types (x : Exec).

Lemma exec_run_inv stream_id record others evs x :
  exec_inv stream_id record others x → exec_inv stream_id record others (exec_run stream_id evs x).
Proof. revert x. induction evs as [|e evs IH]; intros x Hx; simpl; [done|]. by apply IH, exec_step_inv. Qed.

Lemma xsend_prefix stream_id p x : x_out x `prefix_of` x_out (xsend stream_id p x).
Proof. unfold xsend. destruct (x_listening x); [by apply prefix_app_r|done]. Qed.

(** Frames are only ever added. *)
Lemma exec_step_prefix stream_id x e : x_out x `prefix_of` x_out (exec_step stream_id x e).
Proof.
  destruct e as [f| |k b|k|k|[k|]|info| | | | |]; simpl; try done.
  - case_decide; [done|]. by destruct (demux_item_core f x) as (-> & _).
  - by destruct (op_closed _).
  - unfold pump_step. case_decide; [done|]. destruct (_ !! _) as [b|]; [|by destruct (op_closed _)].
    destruct (x_listening x); [|done]. apply xsend_prefix.
  - by case_decide.
  - by case_decide.
  - by destruct (x_exit x).
  - destruct (x_control x); try done. unfold select_exit. by destruct (x_exit x) as [[]|].
  - destruct (x_control x); try done. unfold select_signal. destruct (x_signal_queue x); [done|].
    by destruct (Signum.try_from _).
  - destruct (x_control x); try done. unfold select_close. by destruct (x_close_queue x).
  - unfold control_step, registry_remove. destruct (x_control x); try done.
    + case_decide; [|done]. apply xsend_prefix.
    + apply xsend_prefix.
    + by destruct (x_registry x !! stream_id).
Qed.

Lemma exec_run_prefix stream_id evs x : x_out x `prefix_of` x_out (exec_run stream_id evs x).
Proof.
  revert x. induction evs as [|e evs IH]; intros x; simpl; [done|].
  etrans; [apply exec_step_prefix|apply IH].
Qed.

Lemma drive_exec_inv stream_id sandbox_id container_id exec_id pid reg :
  exec_inv stream_id {| er_sandbox_id := sandbox_id; er_container_id := container_id;
                        er_exec_id := exec_id; er_in_container_pid := pid |} reg
    (drive_exec stream_id (Ok (exec_id, pid)) sandbox_id container_id true reg).
Proof.
  split; simpl; try done.
  - by constructor.
  - by intros [].
  - by intros [].
  - intros id. unfold registry_insert. rewrite lookup_insert. repeat case_decide; congruence.
  - by exists [].
Qed.

(** The frames say what happened: Started carries the ids the process was started with, Exited
    what the process's exit was, and nothing but output and a terminal frame follows. *)
Definition honest_payload (exec_id : string) (pid : Z) (exit : option (option ExecExitInfo))
    (p : IoServerPayload) : Prop :=
  match p with
  | SStarted i n => i = exec_id ∧ n = pid
  | SStdout _ | SStderr _ | SError _ _ => True
  | SExited code cnf => exit = Some (Some {| xi_exit_code := code; xi_command_not_found := cnf |})
  | _ => False
  end.
Record honest (exec_id : string) (pid : Z) x : Prop := {
  ho_out : Forall (λ f, ∃ p, isf_payload f = Some p ∧ honest_payload exec_id pid (x_exit x) p) (x_out x);
  ho_draining info : x_control x = Draining info → x_exit x = Some (Some info);
}.

Lemma honest_same exec_id pid x x' :
  x_out x' = x_out x → x_exit x' = x_exit x → (∀ info, x_control x' = Draining info → x_control x = Draining info) →
  honest exec_id pid x → honest exec_id pid x'.
Proof. intros Ho He Hc [H1 H2]. split; [by rewrite Ho, He|]. intros info Hi. rewrite He. by apply H2, Hc. Qed.

Lemma honest_send stream_id exec_id pid p x :
  honest_payload exec_id pid (x_exit x) p → honest exec_id pid x → honest exec_id pid (xsend stream_id p x).
Proof.
  intros Hp [H1 H2]. unfold xsend. destruct (x_listening x); [|done]. split; cbn; [|done].
  apply Forall_app_2; [done|]. constructor; [by exists p|done].
Qed.

Lemma honest_leave exec_id pid c b x :
  (∀ info, c = Draining info → x_exit x = Some (Some info)) →
  honest exec_id pid x → honest exec_id pid (leave_loop c b x).
Proof. intros Hc [H1 H2]. destruct b; (split; cbn; [done|]); intros info ->; by apply Hc. Qed.

Lemma exec_step_honest stream_id exec_id pid x e :
  honest exec_id pid x → honest exec_id pid (exec_step stream_id x e).
Proof.
  intros Hh. assert (∀ k o, honest exec_id pid (upd_output k o x)) as Hout by (intros; by apply (honest_same _ _ x)).
  destruct e as [f| |k b|k|k|[k|]|info| | | | |]; cbn [exec_step].
  - case_decide; [done|]. destruct (demux_item_core f x) as (Ho & Hc & _). apply (honest_same _ _ x); [exact Ho| |by rewrite Hc|done].
    unfold demux_item. destruct f as [[f|]|]; [|done..]. destruct (icf_payload f) as [[| | |[]]|]; try done.
    by destruct (negb _), (x_stdin_read x).
  - by apply (honest_same _ _ x).
  - by destruct (op_closed _).
  - apply Hout.
  - unfold pump_step. case_decide; [done|]. destruct (_ !! _) as [b|]; [|by destruct (op_closed _)].
    destruct (x_listening x); [|apply Hout].
    eapply (honest_same _ _ (xsend stream_id (output_payload k b) x)); [done..|].
    apply honest_send; [by destruct k|done].
  - by case_decide.
  - case_decide; [|done]. by apply (honest_same _ _ x).
  - destruct (x_exit x) eqn:E; [done|]. destruct Hh as [H1 H2]. split; cbn.
    + eapply Forall_impl; [exact H1|]. intros f (p & Hp & Hhp). exists p. split; [done|].
      rewrite E in Hhp. by destruct p.
    + intros i Hi. apply H2 in Hi. congruence.
  - destruct (x_control x) eqn:Hc; try done. unfold select_exit. destruct (x_exit x) as [[info|]|] eqn:E; [..|done].
    + apply honest_leave; [|done]. by intros ? [= <-].
    + by apply honest_leave.
  - destruct (x_control x) eqn:Hc; try done. unfold select_signal. destruct (x_signal_queue x); [done|].
    destruct (Signum.try_from _); by apply (honest_same _ _ x).
  - destruct (x_control x) eqn:Hc; try done. unfold select_close. destruct (x_close_queue x); [|done].
    apply honest_leave; [done|]. by apply (honest_same _ _ x).
  - unfold control_step. destruct (x_control x) eqn:Hc; try done.
    + case_decide; [|done]. eapply (honest_same _ _ (xsend stream_id _ x)); [done|done|done|].
      apply honest_send; [|done]. cbn. rewrite (ho_draining _ _ _ Hh _ Hc). by destruct info.
    + eapply (honest_same _ _ (xsend stream_id _ x)); [done|done|done|]. by apply honest_send.
    + unfold registry_remove. destruct (x_registry x !! stream_id); by apply (honest_same _ _ x).
    + by apply (honest_same _ _ x).
  - by apply (honest_same _ _ x).
Qed.

Lemma exec_run_honest stream_id sandbox_id container_id exec_id pid reg evs :
  honest exec_id pid (exec_run stream_id evs
    (drive_exec stream_id (Ok (exec_id, pid)) sandbox_id container_id true reg)).
Proof.
  assert (∀ x, honest exec_id pid x → honest exec_id pid (exec_run stream_id evs x)) as Hrun.
  { induction evs as [|e evs IH]; intros x Hx; [done|]. by apply IH, exec_step_honest. }
  apply Hrun. split; [|done]. repeat constructor. by eexists.
Qed.

(** A session that ended by itself. *)
Lemma natural_end stream_id sandbox_id container_id exec_id pid reg evs :
  let x := exec_run stream_id evs
             (drive_exec stream_id (Ok (exec_id, pid)) sandbox_id container_id true reg) in
  x_control x = Finished true → x_listening x = true →
  ∃ pre info, x_exit x = Some (Some info) ∧
    x_out x = pre ++ [frame stream_id (SExited (xi_exit_code info) (xi_command_not_found info))] ∧
    terminals pre = [] ∧ ∀ k, chunks_of k pre = op_produced (output_of k x).
Proof.
  intros x Hc Hl. pose proof (exec_run_inv stream_id _ _ evs _
    (drive_exec_inv stream_id sandbox_id container_id exec_id pid reg)) as Hinv. fold x in Hinv.
  pose proof (exec_run_honest stream_id sandbox_id container_id exec_id pid reg evs) as [Ho _]. fold x in Ho.
  destruct Hinv as [H1 H2 H3 H4 H5 _ H6]. rewrite Hc in *.
  destruct H4 as [Hall [(pre & info & Hx & Ht)|[_ Hn]]]; [|congruence].
  exists pre, info. split.
  - rewrite Hx in Ho. apply Forall_app in Ho as [_ Ho]. apply Forall_cons in Ho as [(p & [= <-] & Hp) _].
    cbn in Hp. rewrite Hp. by destruct info.
  - split; [done|]. split; [done|]. intros k. destruct (H2 k) as [_ Hch]. destruct (H3 k eq_refl) as [_ He].
    destruct (He (Hall k)) as [?|[_ Htk]]; [congruence|].
    rewrite Hx, chunks_of_app, Htk, firstn_all in Hch. destruct k; by rewrite app_nil_r in Hch.
Qed.

(** ** The client's signals *)

Definition signal_of (s : Z) : option Z := Signum.as_i32 <$> result_ok (Signum.try_from s).

(** The signals in the items the client sent, without the ones that are no signal. *)
Definition client_signal (e : ExecEvent) : option Z :=
  match e with
  | EvClient (Some (Ok f)) => match icf_payload f with Some (CSignal s) => signal_of s | _ => None end
  | _ => None
  end.
Definition client_signals (evs : list ExecEvent) : list Z := omap client_signal evs.

(** Signals that wait for the control loop. *)
Definition pending x : list Z := omap signal_of (x_signal_queue x).

(** What the process got and what waits is from the client, in the order it was sent. *)
Definition fed (sent : list Z) x : Prop :=
  ∃ sigs, x_signals x = sigs ++ hook_signals (x_control x) ∧ sigs ++ pending x `sublist_of` sent.

Lemma fed_same sent sent' x x' :
  x_calls x' = x_calls x → x_signal_queue x' = x_signal_queue x →
  hook_signals (x_control x') = hook_signals (x_control x) → sent `sublist_of` sent' → fed sent x → fed sent' x'.
Proof.
  intros Hc Hq Hk Hs (sigs & E & Hp). exists sigs. unfold x_signals, pending in *. rewrite Hc, Hq, Hk.
  split; [done|]. by etrans.
Qed.

Lemma fed_control stream_id record others sent x :
  exec_inv stream_id record others x → fed sent x → fed sent (control_step stream_id x).
Proof.
  intros Hinv Hf. unfold control_step. destruct (x_control x) as [|info|code detail| |gc gp|nat] eqn:Hc; try done.
  - case_decide; [|done]. apply (fed_same sent sent x); try done; cbn; rewrite ?Hc; try done;
      unfold xsend; by destruct (x_listening x).
  - apply (fed_same sent sent x); try done; cbn; rewrite ?Hc; try done; unfold xsend; by destruct (x_listening x).
  - unfold registry_remove. rewrite (xi_registry _ _ _ _ Hinv), decide_True, Hc by done. cbn.
    destruct Hf as (sigs & E & Hp). exists sigs. split; [|done]. unfold x_signals in *. cbn.
    by rewrite fmap_app, E, Hc, app_nil_r.
  - destruct Hf as (sigs & E & Hp). exists sigs. split; [|done]. unfold x_signals in *. cbn.
    by rewrite fmap_app, E, Hc, <- app_assoc.
Qed.

Lemma fed_signal sent x : x_control x = Looping → fed sent x → fed sent (select_signal x).
Proof.
  intros Hc (sigs & E & Hp). unfold select_signal. destruct (x_signal_queue x) as [|sig q] eqn:Eq; [by exists sigs|].
  rewrite Hc, app_nil_r in E. exists (sigs ++ option_list (signal_of sig)).
  assert (sigs ++ option_list (signal_of sig) ++ omap signal_of q `sublist_of` sent) as Hp'.
  { revert Hp. unfold pending. rewrite Eq. cbn. by destruct (signal_of sig). }
  assert (signal_of sig = match Signum.try_from sig with Ok g => Some (Signum.as_i32 g) | Err _ => None end) as Hsg
    by (unfold signal_of; by destruct (Signum.try_from sig)).
  unfold x_signals, pending in *. rewrite (assoc_L (++)), Hsg in Hp'. rewrite Hsg.
  destruct (Signum.try_from sig); cbn in *; rewrite Hc, ?fmap_app, ?E, ?app_nil_r in *; done.
Qed.

Lemma fed_step stream_id record others sent x e :
  exec_inv stream_id record others x → fed sent x →
  fed (sent ++ option_list (client_signal e)) (exec_step stream_id x e).
Proof.
  intros Hinv Hf. assert (sent `sublist_of` sent ++ option_list (client_signal e)) as Hs by by apply sublist_inserts_r.
  assert (fed (sent ++ option_list (client_signal e)) x) as Hf' by by apply (fed_same sent _ x).
  destruct e as [f| |k b|k|k|[k|]|info| | | | |]; cbn [exec_step].
  - case_decide; [done|]. destruct f as [[f|]|]; cbn [demux_item]; try (by apply (fed_same sent _ x)).
    cbn in Hf', Hs |- *. destruct (icf_payload f) as [[start|b|sig|[]]|] eqn:Ef; try (by apply (fed_same sent _ x)).
    + destruct (negb _); [done|]. destruct (x_stdin_read x); by apply (fed_same sent _ x).
    + destruct Hf as (sigs & E & Hp). exists sigs. split; [done|]. unfold pending. cbn.
      rewrite omap_app, (assoc_L (++)). apply sublist_app; [done|]. cbn. by destruct (signal_of sig).
  - by apply (fed_same sent _ x).
  - destruct (op_closed _); [done|]. by apply (fed_same sent _ x).
  - by apply (fed_same sent _ x).
  - unfold pump_step, xsend. case_decide; [done|]. destruct (op_produced _ !! _);
      [destruct (x_listening x)|destruct (op_closed _)]; by apply (fed_same sent _ x).
  - case_decide; [|done]. by apply (fed_same sent _ x).
  - case_decide; [|done]. by apply (fed_same sent _ x).
  - destruct (x_exit x); [done|]. by apply (fed_same sent _ x).
  - destruct (x_control x) eqn:Hc; try done. unfold select_exit.
    destruct (x_exit x) as [[info|]|]; try done; apply (fed_same sent _ x); by rewrite ?Hc.
  - destruct (x_control x) eqn:Hc; try done. by apply fed_signal.
  - destruct (x_control x) eqn:Hc; try done. unfold select_close.
    destruct (x_close_queue x); [|done]. apply (fed_same sent _ x); by rewrite ?Hc.
  - by eapply fed_control.
  - by apply (fed_same sent _ x).
Qed.

Lemma fed_run stream_id record others sent evs x :
  exec_inv stream_id record others x → fed sent x →
  fed (sent ++ client_signals evs) (exec_run stream_id evs x).
Proof.
  revert sent x. induction evs as [|e evs IH]; intros sent x Hinv Hf; [by rewrite app_nil_r|].
  assert (client_signals (e :: evs) = option_list (client_signal e) ++ client_signals evs) as ->
    by (cbn; by destruct (client_signal e)).
  rewrite (assoc_L (++)). apply IH; [by apply exec_step_inv|by eapply fed_step].
Qed.

(** C8: an exec session. Whatever the process, the client and the gateway do, in whatever
    order the session's tasks run: every frame carries the session's id, Started is the
    first, and there is at most one terminal frame. Every signal goes to the process the
    session started, in its container; they are signals the client sent, in range, in the
    order it sent them and each at most once, followed by those of the close hook, of which
    there are none as long as the session runs and none at all when the process exited by
    itself. When the session is over its registry entry is gone and no other entry was
    touched. When the process exited by itself, a gateway that listens is sent everything the
    process wrote, in order on each stream, and then, last, Exited with the process's exit.
    Otherwise the process was sent SIGTERM and then SIGKILL, and a gateway that listens got one
    Error frame. *)
Theorem exec_session_contract stream_id sandbox_id container_id exec_id pid reg evs :
  let x := exec_run stream_id evs
             (drive_exec stream_id (Ok (exec_id, pid)) sandbox_id container_id true reg) in
  (∃ rest, x_out x = frame stream_id (SStarted exec_id pid) :: rest) ∧
  Forall (λ f, isf_stream_id f = stream_id) (x_out x) ∧
  (length (terminals (x_out x)) ≤ 1)%nat ∧
  (∃ sigs, sigs `sublist_of` client_signals evs ∧ Forall valid_signal sigs ∧
     x_calls x = ((container_id, pid),.) <$> sigs ++
       match x_control x with Grace _ _ => [SIGTERM] | Finished false => [SIGTERM; SIGKILL] | _ => [] end) ∧
  (∀ natural, x_control x = Finished natural → x_registry x = delete stream_id reg) ∧
  (x_control x = Finished true → x_listening x = true →
     ∃ pre info, x_exit x = Some (Some info) ∧
        x_out x = pre ++ [frame stream_id (SExited (xi_exit_code info) (xi_command_not_found info))] ∧
        chunks_of KStdout pre = op_produced (x_stdout x) ∧
        chunks_of KStderr pre = op_produced (x_stderr x)) ∧
  (x_control x = Finished false → x_listening x = true →
     ∃ code detail, terminals (x_out x) = [SError code detail]).
Proof.
  intros x. pose proof (drive_exec_inv stream_id sandbox_id container_id exec_id pid reg) as Hinv0.
  pose proof (exec_run_inv stream_id _ _ evs _ Hinv0) as Hinv. fold x in Hinv.
  pose proof (fed_run stream_id _ _ [] evs _ Hinv0 ltac:(by exists [])) as (sigs' & Hs' & Hsub). fold x in Hs', Hsub.
  pose proof Hinv as [H1 H2 H3 H4 H5 Ht H6]. split_and!.
  - destruct (exec_run_prefix stream_id evs (drive_exec stream_id (Ok (exec_id, pid)) sandbox_id
      container_id true reg)) as [rest Hrest]. by exists rest.
  - done.
  - destruct (x_control x) as [| | | | |[]]; try (rewrite H4; simpl; lia).
    1,2,4: by destruct H4 as [(? & ? & ->)|[-> _]]; simpl; lia.
    destruct H4 as [_ [(pre & info & -> & Hpre)|[-> _]]]; [|simpl; lia].
    rewrite terminals_app, Hpre. simpl. lia.
  - destruct H6 as (sigs & Hv & Hc). exists sigs. split; [|by split].
    assert (sigs = sigs') as ->; [|etrans; [|exact Hsub]; by apply sublist_inserts_r].
    apply (app_inv_tail (hook_signals (x_control x))). rewrite <- Hs'. unfold x_signals. rewrite Hc.
    rewrite <- list_fmap_compose. symmetry. apply list_fmap_id.
  - intros natural Hc. apply map_eq. intros id. rewrite H5, Hc, lookup_delete. simpl.
    repeat case_decide; congruence.
  - intros Hc Hl. destruct (natural_end stream_id sandbox_id container_id exec_id pid reg evs Hc Hl)
      as (pre & info & He & Ho & _ & Hk). exists pre, info. split; [done|]. split; [done|].
    split; [apply (Hk KStdout)|apply (Hk KStderr)].
  - intros Hc Hl. rewrite Hc in *. destruct H4 as [?|[_ Hn]]; [done|congruence].
Qed.

(** ** Sessions end *)

(** The steps of the session's own tasks. *)
Definition own_step (e : ExecEvent) : bool :=
  match e with
  | EvPump _ | EvAborted _ | EvSelectExit | EvSelectSignal | EvSelectClose | EvControl => true
  | _ => false
  end.

(** What is left to do. *)
Definition pump_work (o : Output) : nat :=
  if decide (op_pump o = TEnded) then 0 else S (length (op_produced o) - op_taken o).
Definition control_work (c : Control) : nat :=
  match c with
  | Looping => 5 | Failing _ _ => 3 | Cleaning => 2 | Draining _ | Grace _ _ => 1 | Finished _ => 0
  end.
Definition session_work x : nat :=
  control_work (x_control x) + length (x_signal_queue x) + (if decide (x_demux x = TEnded) then 0 else 1) +
  pump_work (x_stdout x) + pump_work (x_stderr x).

(** What a session that cannot go on by itself waits for: while it loops, the process to exit or
    the client to end it; after the exit, a stream of output to be closed. *)
Definition waits_for_others x : Prop :=
  match x_control x with
  | Looping => x_exit x = None ∧ x_close_queue x = false
  | Draining _ => ∃ k, op_pump (output_of k x) ≠ TEnded ∧ op_closed (output_of k x) = false
  | _ => False
  end.

Lemma upd_output_work k o x :
  (pump_work o < pump_work (output_of k x))%nat → (session_work (upd_output k o x) < session_work x)%nat.
Proof. unfold session_work. destruct k; cbn; lia. Qed.

Lemma pump_end_work k x :
  op_pump (output_of k x) ≠ TEnded →
  (session_work (upd_output k (with_pump TEnded (output_of k x)) x) < session_work x)%nat.
Proof.
  intros Hp. apply upd_output_work. replace (pump_work (with_pump TEnded (output_of k x))) with 0 by done.
  unfold pump_work. rewrite decide_False by done. lia.
Qed.

Lemma pump_step_work stream_id k x :
  pump_step stream_id k x = x ∨ (session_work (pump_step stream_id k x) < session_work x)%nat.
Proof.
  unfold pump_step. case_decide as Hp; [by left|].
  pose proof (pump_end_work k x Hp) as Hend.
  destruct (op_produced (output_of k x) !! op_taken (output_of k x)) as [b|] eqn:Eb.
  - right. apply lookup_lt_Some in Eb. destruct (x_listening x) eqn:El.
    + unfold xsend. rewrite El. assert (session_work (upd_out (x_out x ++ [frame stream_id (output_payload k b)]) x) =
        session_work x) as <- by done. apply upd_output_work. rewrite output_of_upd_out.
      unfold pump_work. cbn. rewrite !decide_False by done. lia.
    + done.
  - destruct (op_closed _); [by right|by left].
Qed.

Lemma leave_loop_work c b x :
  x_control x = Looping → (control_work c < 5)%nat → (session_work (leave_loop c b x) < session_work x)%nat.
Proof.
  intros Hc Hw. assert (∀ o, pump_work (with_pump (abort (op_pump o)) o) = pump_work o) as Ha.
  { intros o. unfold pump_work, with_pump. cbn. by destruct (op_pump o). }
  unfold session_work, leave_loop. rewrite Hc.
  destruct b; cbn [x_control x_signal_queue x_demux x_stdout x_stderr upd_control upd_output upd_demux]; rewrite ?Ha;
    destruct (x_demux x); cbn [abort control_work]; repeat case_decide; try done; lia.
Qed.

Lemma xsend_work stream_id p x : session_work (xsend stream_id p x) = session_work x.
Proof. unfold xsend. by destruct (x_listening x). Qed.

Lemma upd_control_work c calls reg x :
  (control_work c < control_work (x_control x))%nat →
  (session_work (upd_control c (upd_registry reg calls x)) < session_work x)%nat.
Proof. unfold session_work. cbn. lia. Qed.

Lemma own_step_work stream_id x e :
  own_step e = true → exec_step stream_id x e = x ∨ (session_work (exec_step stream_id x e) < session_work x)%nat.
Proof.
  intros He. destruct e as [f| |k b|k|k|[k|]|info| | | | |]; try done; cbn [exec_step].
  - apply pump_step_work.
  - case_decide as Ha; [right|by left]. apply pump_end_work. by rewrite Ha.
  - case_decide as Ha; [right|by left]. unfold session_work. cbn [x_control x_signal_queue x_demux x_stdout x_stderr upd_demux].
    rewrite Ha, (decide_True (P := TEnded = TEnded)), (decide_False (P := TAborting = TEnded)) by done. lia.
  - destruct (x_control x) eqn:Hc; try (by left). unfold select_exit.
    destruct (x_exit x) as [[info|]|]; [right; apply leave_loop_work; cbn; lia || done..|by left].
  - destruct (x_control x) eqn:Hc; try (by left). unfold select_signal.
    destruct (x_signal_queue x) as [|sig q] eqn:Eq; [by left|right]. unfold session_work.
    destruct (Signum.try_from sig); cbn; rewrite Eq; cbn; lia.
  - destruct (x_control x) eqn:Hc; try (by left). unfold select_close.
    destruct (x_close_queue x); [right|by left].
    eapply Nat.lt_le_trans; [by apply leave_loop_work; cbn; [|lia]|]. done.
  - unfold control_step. destruct (x_control x) as [|info|code detail| |gc gp|nat] eqn:Hc; try (by left).
    + case_decide; [right|by left].
      rewrite <- (xsend_work stream_id (SExited (xi_exit_code info) (xi_command_not_found info)) x).
      apply upd_control_work. unfold xsend. destruct (x_listening x); cbn; rewrite Hc; cbn; lia.
    + right. rewrite <- (xsend_work stream_id (SError code detail) x). unfold session_work. cbn.
      unfold xsend. destruct (x_listening x); cbn; rewrite Hc; cbn; lia.
    + right. unfold registry_remove. destruct (x_registry x !! stream_id); apply upd_control_work; rewrite Hc; cbn; lia.
    + right. apply upd_control_work. rewrite Hc. cbn. lia.
Qed.

(** A session none of whose tasks can do anything. *)
Lemma stuck_waits stream_id x :
  (∀ e, own_step e = true → exec_step stream_id x e = x) →
  (∃ natural, x_control x = Finished natural) ∨ waits_for_others x.
Proof.
  intros Hst. unfold waits_for_others. destruct (x_control x) as [|info|code detail| |gc gp|nat] eqn:Hc.
  - right. pose proof (f_equal x_control (Hst EvSelectExit eq_refl)) as He.
    pose proof (f_equal x_control (Hst EvSelectClose eq_refl)) as Hcl. cbn in He, Hcl. rewrite Hc in He, Hcl.
    unfold select_exit, select_close in *. split.
    + destruct (x_exit x) as [[info|]|]; [discriminate He..|done].
    + by destruct (x_close_queue x).
  - right. pose proof (f_equal x_control (Hst EvControl eq_refl)) as He. cbn in He. unfold control_step in He.
    rewrite Hc in He. case_decide as Hp; [discriminate He|].
    assert (∀ k, op_pump (output_of k x) ≠ TEnded → op_closed (output_of k x) = false) as Hk.
    { intros k Hk. pose proof (Hst (EvPump k) eq_refl) as Hs. cbn in Hs. unfold pump_step in Hs.
      rewrite decide_False in Hs by done. destruct (_ !! _) as [b|].
      - destruct (x_listening x).
        + apply (f_equal (λ y, op_taken (output_of k y))) in Hs. rewrite output_of_upd, decide_True in Hs by done.
          cbn in Hs. lia.
        + apply (f_equal (λ y, op_pump (output_of k y))) in Hs. rewrite output_of_upd, decide_True in Hs by done.
          cbn in Hs. congruence.
      - destruct (op_closed (output_of k x)) eqn:Ec; [|done].
        apply (f_equal (λ y, op_pump (output_of k y))) in Hs. rewrite output_of_upd, decide_True in Hs by done.
        cbn in Hs. congruence. }
    destruct (decide (op_pump (x_stdout x) = TEnded)) as [H1|H1]; [|exists KStdout; split; [done|by apply Hk]].
    exists KStderr. assert (op_pump (x_stderr x) ≠ TEnded) by naive_solver. split; [done|by apply Hk].
  - exfalso. pose proof (f_equal x_control (Hst EvControl eq_refl)) as He. cbn in He. unfold control_step in He.
    rewrite Hc in He. discriminate He.
  - exfalso. pose proof (f_equal x_control (Hst EvControl eq_refl)) as He. cbn in He. unfold control_step in He.
    rewrite Hc in He. destruct (registry_remove _ _) as [[]]; discriminate He.
  - exfalso. pose proof (f_equal x_control (Hst EvControl eq_refl)) as He. cbn in He. unfold control_step in He.
    rewrite Hc in He. discriminate He.
  - left. eauto.
Qed.

(** Once it is over and its tasks have ended, nothing more happens. *)
Lemma finished_stuck stream_id x natural :
  x_control x = Finished natural → x_demux x = TEnded → (∀ k, op_pump (output_of k x) = TEnded) →
  ∀ e, own_step e = true → exec_step stream_id x e = x.
Proof.
  intros Hc Hd Hp e He. destruct e as [f| |k b|k|k|[k|]|info| | | | |]; try done; cbn [exec_step].
  - unfold pump_step. by rewrite decide_True.
  - by rewrite decide_False by (by rewrite Hp).
  - by rewrite decide_False by (by rewrite Hd).
  - by rewrite Hc.
  - by rewrite Hc.
  - by rewrite Hc.
  - unfold control_step. by rewrite Hc.
Qed.

(** Steps of the session each of which does something. *)
Fixpoint busy (stream_id : string) (evs : list ExecEvent) x : Prop :=
  match evs with
  | [] => True
  | e :: evs => own_step e = true ∧ exec_step stream_id x e ≠ x ∧ busy stream_id evs (exec_step stream_id x e)
  end.

Lemma busy_bounded stream_id evs x :
  busy stream_id evs x → (length evs + session_work (exec_run stream_id evs x) ≤ session_work x)%nat.
Proof.
  revert x. induction evs as [|e evs IH]; intros x; [done|]. intros (Ho & Hne & Hb). apply IH in Hb.
  change (exec_run stream_id (e :: evs) x) with (exec_run stream_id evs (exec_step stream_id x e)). cbn [length].
  destruct (own_step_work stream_id x e Ho); [done|lia].
Qed.

End exec_theorems.

Module AgentExecExamples.
Definition sandbox : SandboxId := uid 0x11111111111111111111111111111111.
Definition started : Exec := drive_exec "io-0" (Ok ("e1", 42%Z)) sandbox "c1" true ∅.

(** The process writes a line and exits. *)
Definition finishing : list ExecEvent :=
  [EvProduce KStdout "hi"; EvExit (Some {| xi_exit_code := 3; xi_command_not_found := false |}); EvSelectExit;
   EvPump KStdout; EvOutputClosed KStdout; EvOutputClosed KStderr; EvPump KStdout; EvPump KStderr; EvControl].

(** After the client has vanished. *)
Definition closing : list ExecEvent :=
  [EvSelectClose; EvControl; EvControl; EvControl; EvAborted (Some KStdout); EvAborted (Some KStderr)].


(** A process that exits while its client is still sending stdin may be reported as
    cancelled: the failed send asks for the end of the session, and the loop may take that
    before the exit it already has. *)
Example exit_reported_as_cancelled :
  terminals (x_out (exec_run "io-0"
    [EvExit (Some {| xi_exit_code := 0; xi_command_not_found := false |}); EvProcessStdinGone;
     EvClient (Some (Ok {| icf_stream_id := "io-0"; icf_payload := Some (CStdin "y") |}));
     EvSelectClose; EvControl] started)) = [SError "CANCELLED" "client-initiated close"].
Proof. reflexivity. Qed.
End AgentExecExamples.
