(* ===== verification/DockerRuntime.v ===== *)
(** * The Docker backend: containers (crates/agent-docker/src/lib.rs)

    [DockerRuntime]'s lifecycle operations over the Docker daemon, which is not part of the
    repository: the class [Docker] is what the code calls of it through bollard, [DockerSpec]
    what the daemon's documentation promises. The backend is an instance of the agent's
    [ContainerRuntime]. *)

From S2P Require Import Prelude Contracts UuidRef AgentSandbox.

Inductive DockerError :=
| ServerError (status_code : Z) (message : string)
| OtherError (text : string).

(** The container configuration the code fills in. *)
Record DockerConfig := {
  dk_image : string;
  dk_cmd : list string;
  dk_labels : gmap string string;
  dk_exposed_ports : option string;
  (** port key, host ip, host port *)
  dk_port_bindings : option (string * (string * string));
  dk_memory : Z;
  dk_nano_cpus : Z;
  dk_env : list string;
}.

Record ContainerSummary := {
  cs_id : option string;
  cs_labels : option (gmap string string);
  cs_state : option string;
  (** [public_port] of each port *)
  cs_ports : option (list (option Z));
}.

(** The daemon, the kernel's choice of a free port, and the clock. *)
Class Docker (W : Type) := {
  create_image : string → ST W (result () DockerError);
  inspect_image : string → ST W (result () DockerError);
  create_container : string → DockerConfig → ST W (result string DockerError);
  start_container : string → ST W (result () DockerError);
  remove_container : string → ST W (result () DockerError);
  pause_container : string → ST W (result () DockerError);
  unpause_container : string → ST W (result () DockerError);
  stop_container : string → Z → ST W (result () DockerError);
  list_containers : string → ST W (result (list ContainerSummary) DockerError);
  (** the outer error is of the bind, the inner one of reading the address *)
  bind_port : ST W (result (result Z string) string);
  docker_sleep : Z → ST W ();
  docker_display : DockerError → string;
}.

Definition LABEL_MANAGED_BY : string := "open-sandbox.managed-by".
Definition LABEL_MANAGED_BY_VALUE : string := "open-sandbox-agent".
Definition LABEL_SANDBOX_ID : string := "open-sandbox.sandbox-id".
Definition NANOCPUS_PER_MILLICPU : Z := 1000000.
Definition MAX_PULL_ATTEMPTS : Z := 4.
Definition PULL_BASE_DELAY_MS : Z := 500.
Definition MAX_PORT_RETRY_ATTEMPTS : Z := 3.
Definition DEFAULT_SANDBOX_ENTRYPOINT : list string :=
  ["sh"; "-c"; "mkdir -p /workspace 2>/dev/null; exec sleep infinity"].

Inductive Presence := Present | Absent | Unknown.

Definition is_not_found (e : DockerError) : bool :=
  match e with ServerError 404 _ => true | _ => false end.

Definition is_name_conflict_409 (e : DockerError) : bool :=
  match e with
  | ServerError 409 message => contains (to_ascii_lowercase message) "is already in use"
  | _ => false
  end.

Definition is_port_collision (e : DockerError) : bool :=
  match e with
  | ServerError 500 message =>
      let m := to_ascii_lowercase message in
      contains m "bind: address already in use" || contains m "port is already allocated" ||
      (contains m "userland proxy" && contains m "bind")
  | _ => false
  end.

(** [env_vec.sort()]: by bytes. *)
Definition string_le (a b : string) : Prop := String.leb a b = true.
#[global] Instance string_le_dec : RelDecision string_le.
Proof. intros a b. unfold Decision, string_le. destruct (String.leb a b); [by left|by right]. Defined.

Definition container_name `{UuidLib} (config : ContainerConfig) : string :=
  "sandbox-" +:+ hyphenated (cc_sandbox_id config).

Definition build_docker_config `{UuidLib} (config : ContainerConfig) (sandbox_id_str : string)
    (host_port : option Z) : DockerConfig :=
  let ports := match host_port with
    | Some hp => if decide (cc_exposed_port config = 0)%Z then None
                 else Some (pretty (cc_exposed_port config) +:+ "/tcp", pretty hp)
    | None => None
    end in
  {| dk_image := cc_image config;
     dk_cmd := DEFAULT_SANDBOX_ENTRYPOINT;
     dk_labels := {[LABEL_MANAGED_BY := LABEL_MANAGED_BY_VALUE; LABEL_SANDBOX_ID := sandbox_id_str]};
     dk_exposed_ports := fst <$> ports;
     dk_port_bindings := (λ '(key, hp), (key, ("0.0.0.0", hp))) <$> ports;
     dk_memory := as_i64 (cc_memory_limit_bytes config);
     dk_nano_cpus := cc_cpu_limit_millicores config * NANOCPUS_PER_MILLICPU;
     dk_env := merge_sort string_le
                 ((λ '(k, v), k +:+ "=" +:+ v) <$> map_to_list (cc_env_vars config)) |}.

(** The outcome of a call that may reach an [expect] or an [unreachable!]. *)
Inductive Outcome (A : Type) := Returned (a : A) | Panicked.
Arguments Returned {A} a.
Arguments Panicked {A}.

Section docker.
Context `{UuidLib} {W : Type} `{!Docker W}.

Definition runtime_err (e : DockerError) : AgentError := Runtime (docker_display e).

Definition final_attempt_err (kind : string) (max : Z) (e : DockerError) : AgentError :=
  Runtime (kind +:+ " after " +:+ pretty max +:+ " attempts: " +:+ docker_display e).

(** The loop of [pull_image_with_retry] over the attempts left. *)
Fixpoint pull_loop (image : string) (attempts : list Z) (last_err : option AgentError)
    : ST W (Outcome (result () AgentError)) :=
  match attempts with
  | [] => st_ret (match last_err with Some e => Returned (Err e) | None => Panicked end)
  | attempt :: rest =>
      let! r := create_image image in
      match r with
      | Ok _ => st_ret (Returned (Ok ()))
      | Err e =>
          if decide (attempt < MAX_PULL_ATTEMPTS)%Z then
            let! _ := docker_sleep (PULL_BASE_DELAY_MS * 2 ^ (attempt - 1)) in
            pull_loop image rest (Some (runtime_err e))
          else pull_loop image rest (Some (runtime_err e))
      end
  end.
Definition pull_image_with_retry (image : string) : ST W (Outcome (result () AgentError)) :=
  pull_loop image [1; 2; 3; 4]%Z None.

Definition force_remove (target : string) : ST W () :=
  let! _ := remove_container target in st_ret ().

Definition allocate_free_host_port : ST W (result Z AgentError) :=
  let! r := bind_port in
  st_ret (
    let? listener := map_err (λ e, Runtime ("could not allocate ephemeral host port: " +:+ e)) r in
    map_err (λ e, Runtime ("could not read ephemeral host port: " +:+ e)) listener).

(** The image before the first attempt: pulled, found, or refused. *)
Definition probe_presence (image : string) (policy : PullPolicy) : ST W Presence :=
  match policy with
  | Always => st_ret Unknown
  | IfNotPresent | Never =>
      let! r := inspect_image image in
      st_ret (match r with
              | Ok _ => Present
              | Err (ServerError 404 _) => Absent
              | Err _ => Unknown
              end)
  end.

Definition ensure_image (image : string) (policy : PullPolicy)
    : ST W (Outcome (result () AgentError)) :=
  let! presence := probe_presence image policy in
  match policy, presence with
  | Always, _ | IfNotPresent, (Absent | Unknown) => pull_image_with_retry image
  | IfNotPresent, Present | Never, Present => st_ret (Returned (Ok ()))
  | Never, Absent =>
      st_ret (Returned (Err (Runtime ("image " +:+ image +:+
        " not present locally and pull_policy=never"))))
  | Never, Unknown =>
      st_ret (Returned (Err (Runtime ("could not verify image " +:+ image +:+
        " presence and pull_policy=never"))))
  end.

(** What an attempt ends with: return from the function, or the next iteration. *)
Inductive Step := Return_ (r : Outcome (result ContainerInfo AgentError)) | Next.

Definition jitter_ms (sandbox_id_str : string) : Z :=
  10 + match sandbox_id_str with
       | String a _ => Z.of_N (Ascii.N_of_ascii a)
       | EmptyString => 0
       end `mod` 31.

Definition start_created (config : ContainerConfig) (final_attempt : bool) (host_port : option Z)
    (id : string) : ST W Step :=
  let! r := start_container id in
  match r with
  | Ok _ => st_ret (Return_ (Returned (Ok {| ci_id := id; ci_sandbox_id := cc_sandbox_id config;
                       ci_host_port := default 0%Z host_port; ci_state := CRunning |})))
  | Err e =>
      if is_port_collision e && bool_decide (is_Some host_port) && negb final_attempt then
        let! _ := force_remove id in
        let! _ := docker_sleep (jitter_ms (hyphenated (cc_sandbox_id config))) in
        st_ret Next
      else if is_port_collision e && final_attempt then
        let! _ := force_remove id in
        st_ret (Return_ (Returned (Err
          (final_attempt_err "port-bind collision" MAX_PORT_RETRY_ATTEMPTS e))))
      else
        let! _ := force_remove id in
        st_ret (Return_ (Returned (Err (runtime_err e))))
  end.

(** A second [create_container] after a recovery, then the start. *)
Definition create_again (config : ContainerConfig) (docker_config : DockerConfig) (kind : string)
    (final_attempt : bool) (host_port : option Z) : ST W Step :=
  let! r := create_container (container_name config) docker_config in
  match r with
  | Ok id => start_created config final_attempt host_port id
  | Err e =>
      if final_attempt
      then st_ret (Return_ (Returned (Err (final_attempt_err kind MAX_PORT_RETRY_ATTEMPTS e))))
      else st_ret Next
  end.

Definition try_create (config : ContainerConfig) (final_attempt : bool) (host_port : option Z)
    : ST W Step :=
  let docker_config := build_docker_config config (hyphenated (cc_sandbox_id config)) host_port in
  let! r := create_container (container_name config) docker_config in
  match r with
  | Ok id => start_created config final_attempt host_port id
  | Err e =>
      if is_not_found e && negb (bool_decide (cc_pull_policy config = Never)) then
        let! pulled := pull_image_with_retry (cc_image config) in
        match pulled with
        | Panicked => st_ret (Return_ Panicked)
        | Returned (Ok _) =>
            create_again config docker_config "create_container after pull-recovery"
              final_attempt host_port
        | Returned (Err e) =>
            if final_attempt then st_ret (Return_ (Returned (Err e))) else st_ret Next
        end
      else if is_name_conflict_409 e then
        let! _ := force_remove (container_name config) in
        create_again config docker_config "create_container after 409 force-remove"
          final_attempt host_port
      else st_ret (Return_ (Returned (Err (runtime_err e))))
  end.

Definition attempt_once (config : ContainerConfig) (attempt : Z) : ST W Step :=
  let final_attempt := bool_decide (attempt = MAX_PORT_RETRY_ATTEMPTS) in
  if decide (cc_exposed_port config > 0)%Z then
    let! r := allocate_free_host_port in
    match r with
    | Ok p => try_create config final_attempt (Some p)
    | Err e => st_ret (Return_ (Returned (Err e)))
    end
  else try_create config final_attempt None.

Fixpoint attempts_loop (config : ContainerConfig) (attempts : list Z)
    : ST W (Outcome (result ContainerInfo AgentError)) :=
  match attempts with
  | [] => st_ret Panicked
  | attempt :: rest =>
      let! s := attempt_once config attempt in
      match s with Return_ r => st_ret r | Next => attempts_loop config rest end
  end.

Definition docker_create_and_start (config : ContainerConfig)
    : ST W (Outcome (result ContainerInfo AgentError)) :=
  let! r := ensure_image (cc_image config) (cc_pull_policy config) in
  match r with
  | Returned (Ok _) => attempts_loop config [1; 2; 3]%Z
  | Returned (Err e) => st_ret (Returned (Err e))
  | Panicked => st_ret Panicked
  end.

(** Pause and unpause: already there is success, a missing container its own error. *)
Definition freeze_outcome (id : string) (r : result () DockerError) : result () AgentError :=
  match r with
  | Ok _ => Ok ()
  | Err (ServerError 409 _) => Ok ()
  | Err (ServerError 404 _) => Err (AgentSandboxNotFound id)
  | Err e => Err (runtime_err e)
  end.
Definition docker_pause (id : string) : ST W (result () AgentError) :=
  let! r := pause_container id in st_ret (freeze_outcome id r).
Definition docker_unpause (id : string) : ST W (result () AgentError) :=
  let! r := unpause_container id in st_ret (freeze_outcome id r).

Definition docker_stop_and_remove (id : string) (timeout_ms : Z) : ST W (result () AgentError) :=
  let! _ := unpause_container id in
  let! _ := stop_container id (timeout_ms / 1000) in
  let! r := remove_container id in
  st_ret (map_err runtime_err r).

Variable uuid_error : string → string.

Fixpoint summaries (l : list ContainerSummary) : result (list ContainerInfo) AgentError :=
  match l with
  | [] => Ok []
  | c :: l' =>
      match cs_id c with
      | None => summaries l'
      | Some id =>
          match default ∅ (cs_labels c) !! LABEL_SANDBOX_ID with
          | None => summaries l'
          | Some sandbox_id_str =>
              match parse_str sandbox_id_str with
              | None => Err (AgentInternal (uuid_error sandbox_id_str))
              | Some sandbox_id =>
                  let state := match cs_state c with
                    | Some s => if decide (s = "running") then CRunning
                                else if decide (s = "paused") then CPaused else CStopped
                    | None => CStopped
                    end in
                  let host_port := default 0%Z (head (omap (λ p, p) (default [] (cs_ports c)))) in
                  let? rest := summaries l' in
                  Ok ({| ci_id := id; ci_sandbox_id := sandbox_id; ci_host_port := host_port;
                         ci_state := state |} :: rest)
              end
          end
      end
  end.

Definition docker_list_sandbox_containers : ST W (result (list ContainerInfo) AgentError) :=
  let! r := list_containers (LABEL_MANAGED_BY +:+ "=" +:+ LABEL_MANAGED_BY_VALUE) in
  st_ret (let? l := map_err runtime_err r in summaries l).

(** The backend behind the agent's interface; [docker_create_all_or_nothing] below shows that [None]
    only stands for a call that the deadline cut off. *)
Definition DockerRuntime : ContainerRuntime W := {|
  create_and_start config :=
    let! r := docker_create_and_start config in
    st_ret (match r with Returned r => Some r | Panicked => None end);
  stop_and_remove := docker_stop_and_remove;
  pause := docker_pause;
  unpause := docker_unpause;
  list_sandbox_containers := docker_list_sandbox_containers;
|}.
End docker.

(** ** What the daemon promises *)

Record DContainer := { dn_name : string; dn_running : bool; dn_config : DockerConfig }.

Class DockerSpec (W : Type) `{!Docker W} := {
  containers : W → gmap string DContainer;
  pulls : W → nat;
  (** container ids are hexadecimal *)
  ids_not_names w id c : containers w !! id = Some c → starts_with id "sandbox-" = false;
  create_image_spec image w r w' : create_image image w = (r, w') →
    containers w' = containers w ∧ pulls w' = S (pulls w);
  inspect_image_spec image w r w' : inspect_image image w = (r, w') →
    containers w' = containers w ∧ pulls w' = pulls w;
  bind_port_spec w r w' : bind_port w = (r, w') →
    containers w' = containers w ∧ pulls w' = pulls w;
  docker_sleep_spec ms w w' : docker_sleep ms w = ((), w') →
    containers w' = containers w ∧ pulls w' = pulls w;
  create_container_spec name config w r w' : create_container name config w = (r, w') →
    pulls w' = pulls w ∧
    match r with
    | Ok id => containers w !! id = None ∧ (∀ i c, containers w !! i = Some c → dn_name c ≠ name) ∧
        containers w' = <[id := {| dn_name := name; dn_running := false; dn_config := config |}]>
                          (containers w)
    | Err _ => containers w' = containers w
    end;
  start_container_spec id w r w' : start_container id w = (r, w') →
    pulls w' = pulls w ∧
    match r with
    | Ok _ => containers w' = alter (λ c, {| dn_name := dn_name c; dn_running := true;
                                             dn_config := dn_config c |}) id (containers w)
    | Err _ => containers w' = containers w
    end;
  (** by id, or else by name *)
  remove_container_spec target w r w' : remove_container target w = (r, w') →
    pulls w' = pulls w ∧
    match r with
    | Ok _ => containers w' = if decide (is_Some (containers w !! target))
                              then delete target (containers w)
                              else filter (λ p, dn_name p.2 ≠ target) (containers w)
    | Err _ => containers w' = containers w
    end;
}.

Section docker_theorems.
Context `{UuidLib} {W : Type} `{!Docker W} `{!DockerSpec W}.
Implicit Types (w : W) (m : gmap string DContainer).

Definition others (name : string) m : gmap string DContainer := filter (λ p, dn_name p.2 ≠ name) m.

(** Removing a container that is there works. *)
Definition removals_work : Prop := ∀ target w r w',
  remove_container target w = (r, w') →
  is_Some (containers w !! target) ∨ (∃ id c, containers w !! id = Some c ∧ dn_name c = target) →
  r = Ok ().

(** Containers of other names are as they were, and those of this name were there before. *)
Record unwound (name : string) (w0 w : W) : Prop := {
  uw_others : others name (containers w) = others name (containers w0);
  uw_old : removals_work → ∀ id c, containers w !! id = Some c → dn_name c = name →
             containers w0 !! id = Some c;
}.

(** One container of this name, created by this call. *)
Record fresh_one (name : string) (w0 w : W) (id : string) (running : bool) (config : DockerConfig)
    : Prop := {
  fo_others : others name (containers w) = others name (containers w0);
  fo_this : containers w !! id =
              Some {| dn_name := name; dn_running := running; dn_config := config |};
  fo_only : ∀ i c, containers w !! i = Some c → dn_name c = name → i = id;
}.

Lemma unwound_refl name w : unwound name w w.
Proof. done. Qed.

Lemma unwound_same name w0 w w' :
  containers w' = containers w → unwound name w0 w → unwound name w0 w'.
Proof. intros E []. split; by rewrite E. Qed.

Lemma others_delete_named name m id c :
  m !! id = Some c → dn_name c = name → others name (delete id m) = others name m.
Proof.
  intros Hi Hn. unfold others. apply map_eq. intros i. rewrite !map_lookup_filter.
  destruct (decide (i = id)) as [->|]; [|by rewrite lookup_delete_ne].
  rewrite lookup_delete_eq, Hi. simpl. by rewrite option_guard_False by tauto.
Qed.

Lemma others_others name m : others name (filter (λ p, dn_name p.2 ≠ name) m) = others name m.
Proof.
  unfold others. apply map_filter_filter_l. intros i x ?. simpl. tauto.
Qed.

(** ** Rolling back *)

Section attempt.
Context (config : ContainerConfig) (w0 : W).
#[local] Abbreviation name := (container_name config).

Lemma name_not_id w c : containers w !! name ≠ Some c.
Proof.
  intros E. apply ids_not_names in E. unfold container_name in E.
  by rewrite starts_with_app in E.
Qed.

(** Calls that leave the containers alone. *)
Lemma quiet {A} (m : ST W A) :
  (∀ w r w', m w = (r, w') → containers w' = containers w) →
  triple (unwound name w0) m (λ _, unwound name w0).
Proof.
  intros Hm w Hw. destruct (m w) as [r w'] eqn:E. simpl.
  apply (unwound_same _ _ w); [by eapply Hm|done].
Qed.

Lemma pull_quiet image attempts last :
  triple (unwound name w0) (pull_loop image attempts last) (λ _, unwound name w0).
Proof.
  revert last. induction attempts as [|n rest IH]; intros last; simpl; [by apply triple_ret|].
  eapply triple_bind; [apply quiet; intros; by eapply create_image_spec|].
  intros [u|e]; simpl; [by apply triple_ret|]. case_decide; [|done].
  eapply triple_bind; [apply quiet; intros ? [] ? ?; by eapply docker_sleep_spec|done].
Qed.

(** A rolled back container is gone, if removals work. *)
Lemma force_remove_fresh id running dc :
  triple (λ w, fresh_one name w0 w id running dc) (force_remove id) (λ _, unwound name w0).
Proof.
  intros w [Ho Ht Hu]. unfold force_remove, st_bind.
  destruct (remove_container id w) as [r w'] eqn:E. simpl.
  pose proof (remove_container_spec _ _ _ _ E) as [_ Hr]. split.
  - destruct r as [[]|e]; [|by rewrite Hr]. rewrite decide_True in Hr by eauto.
    rewrite Hr. by erewrite others_delete_named.
  - intros Hrm i c Hi Hn. rewrite (Hrm _ _ _ _ E) in Hr by eauto.
    rewrite decide_True in Hr by eauto. rewrite Hr in Hi.
    apply lookup_delete_Some in Hi as [Hne Hi]. by apply Hu in Hi.
Qed.

Lemma force_remove_name :
  triple (unwound name w0) (force_remove name) (λ _, unwound name w0).
Proof.
  intros w [Ho Hold]. unfold force_remove, st_bind.
  destruct (remove_container name w) as [r w'] eqn:E. simpl.
  pose proof (remove_container_spec _ _ _ _ E) as [_ Hr].
  assert (containers w' = containers w ∨
          containers w' = filter (λ p, dn_name p.2 ≠ name) (containers w)) as [Hc|Hc].
  { destruct r; [|by left]. rewrite decide_False in Hr; [by right|].
    intros [c Hc]. by apply name_not_id in Hc. }
  - by eapply unwound_same.
  - split; [by rewrite Hc, others_others|]. intros Hrm i c Hi Hn. rewrite Hc in Hi.
    apply map_lookup_filter_Some in Hi as [_ Hne]. by destruct Hne.
Qed.

(** A successful create leaves exactly one container of the name. *)
Lemma create_fresh dc :
  triple (unwound name w0) (create_container name dc)
    (λ r w, match r with
            | Ok id => fresh_one name w0 w id false dc
            | Err _ => unwound name w0 w
            end).
Proof.
  intros w [Ho Hold]. destruct (create_container name dc w) as [r w'] eqn:E. simpl.
  pose proof (create_container_spec _ _ _ _ _ E) as [_ Hr].
  destruct r as [id|e]; [|by eapply unwound_same].
  destruct Hr as (Hfresh & Hnone & Hw'). split.
  - rewrite Hw', <- Ho. unfold others.
    rewrite map_filter_insert_False by (simpl; tauto). by rewrite delete_id.
  - by rewrite Hw', lookup_insert_eq.
  - intros i c Hi Hn. rewrite Hw' in Hi. apply lookup_insert_Some in Hi as [[? _]|[_ Hi]]; [done|].
    by apply Hnone in Hi.
Qed.

(** What an attempt or the whole call leaves behind. *)
Definition settled (r : Outcome (result ContainerInfo AgentError)) w : Prop :=
  match r with
  | Returned (Ok info) => ci_sandbox_id info = cc_sandbox_id config ∧ ci_state info = CRunning ∧
      ∃ hp, ci_host_port info = default 0%Z hp ∧
        (is_Some hp ↔ (cc_exposed_port config > 0)%Z) ∧
        fresh_one name w0 w (ci_id info) true
          (build_docker_config config (hyphenated (cc_sandbox_id config)) hp)
  | Returned (Err _) => unwound name w0 w
  | Panicked => False
  end.
Definition stepped (final : bool) (s : Step) w : Prop :=
  match s with
  | Return_ r => settled r w
  | Next => final = false ∧ unwound name w0 w
  end.

Lemma start_created_settles final hp id :
  (is_Some hp ↔ (cc_exposed_port config > 0)%Z) →
  triple (λ w, fresh_one name w0 w id false
            (build_docker_config config (hyphenated (cc_sandbox_id config)) hp))
    (start_created config final hp id) (stepped final).
Proof.
  intros Hhp. set (dc := build_docker_config _ _ hp). unfold start_created.
  apply (triple_bind _ _ _ (λ r w, fresh_one name w0 w id (match r with Ok _ => true | Err _ => false end) dc)).
  { intros w [Ho Ht Hu]. destruct (start_container id w) as [r w'] eqn:E. simpl.
    pose proof (start_container_spec _ _ _ _ E) as [_ Hr].
    destruct r as [[]|e]; [|split; by rewrite Hr]. split.
    - rewrite Hr, <- Ho. unfold others. apply map_eq. intros i. rewrite !map_lookup_filter.
      destruct (decide (i = id)) as [->|]; [|by rewrite lookup_alter_ne].
      rewrite lookup_alter_eq, Ht. simpl. by rewrite !option_guard_False by (simpl; tauto).
    - by rewrite Hr, lookup_alter_eq, Ht.
    - intros i c Hi Hn. rewrite Hr in Hi. apply lookup_alter_Some in Hi as [(-> & _)|[_ Hi]]; [done|].
      by eapply Hu. }
  intros [[]|e].
  { apply triple_ret. intros w Hf. simpl. eauto 10. }
  destruct (is_port_collision e && bool_decide (is_Some hp) && negb final) eqn:E1.
  - eapply triple_bind; [apply force_remove_fresh|]. intros u.
    eapply triple_bind; [apply quiet; intros ? [] ? ?; by eapply docker_sleep_spec|]. intros u'.
    apply triple_ret. intros w Hw. simpl. split; [|done].
    apply andb_true_iff in E1 as [_ E1]. by destruct final.
  - destruct (is_port_collision e && final); (eapply triple_bind; [apply force_remove_fresh|]);
      intros u; by apply triple_ret.
Qed.

Lemma create_again_settles final kind hp :
  (is_Some hp ↔ (cc_exposed_port config > 0)%Z) →
  triple (unwound name w0)
    (create_again config (build_docker_config config (hyphenated (cc_sandbox_id config)) hp)
       kind final hp) (stepped final).
Proof.
  intros Hhp. unfold create_again. eapply triple_bind; [apply create_fresh|]. intros [id|e].
  - by apply start_created_settles.
  - destruct final; by apply triple_ret.
Qed.

(** The pull returns. *)
Lemma pull_loop_returns image attempts last w :
  attempts ≠ [] ∨ is_Some last → (pull_loop image attempts last w).1 ≠ Panicked.
Proof.
  revert last w. induction attempts as [|n rest IH]; intros last w Hp; simpl.
  - destruct Hp as [?|[e ->]]; done.
  - unfold st_bind. destruct (create_image image w) as [[u|e] w']; [done|]. case_decide.
    + destruct (docker_sleep _ w') as [u w'']. apply IH. eauto.
    + apply IH. eauto.
Qed.

Lemma pull_unwinds image :
  triple (unwound name w0) (pull_image_with_retry image)
    (λ r w, r ≠ Panicked ∧ unwound name w0 w).
Proof.
  intros w Hw. split; [apply pull_loop_returns; by left|by apply pull_quiet].
Qed.

Lemma try_create_settles final hp :
  (is_Some hp ↔ (cc_exposed_port config > 0)%Z) →
  triple (unwound name w0) (try_create config final hp) (stepped final).
Proof.
  intros Hhp. unfold try_create. eapply triple_bind; [apply create_fresh|]. intros [id|e].
  { by apply start_created_settles. }
  destruct (is_not_found e && _).
  - eapply triple_bind; [apply pull_unwinds|]. intros [[u|e']|].
    + eapply triple_conseq; [by apply create_again_settles|by intros w [_ ?]|done].
    + destruct final; apply triple_ret; by intros w [_ ?].
    + by intros w [? _].
  - destruct (is_name_conflict_409 e); [|by apply triple_ret].
    eapply triple_bind; [apply force_remove_name|]. intros u. by apply create_again_settles.
Qed.

Lemma attempt_once_settles n :
  triple (unwound name w0) (attempt_once config n)
    (stepped (bool_decide (n = MAX_PORT_RETRY_ATTEMPTS))).
Proof.
  unfold attempt_once. case_decide as Hp.
  - unfold allocate_free_host_port. eapply (triple_bind _ _ _ (λ _, unwound name w0)).
    { eapply triple_bind; [apply quiet; intros; by eapply bind_port_spec|]. intros r.
      by apply triple_ret. }
    intros [p|e]; [|by apply triple_ret]. apply try_create_settles. split; [done|eauto].
  - apply try_create_settles. split; [by intros []|done].
Qed.

(** Three attempts are enough for the loop to return. *)
Lemma attempts_settle : triple (unwound name w0) (attempts_loop config [1; 2; 3]%Z) settled.
Proof.
  cbn [attempts_loop].
  do 2 (eapply triple_bind; [apply attempt_once_settles|]; intros [r|];
    [by apply triple_ret|eapply triple_conseq; [|by intros w [_ Hw]; exact Hw|intros a w Hw; exact Hw]]).
  eapply triple_bind; [apply attempt_once_settles|]. intros [r|]; [by apply triple_ret|].
  by intros w [? _].
Qed.

Lemma ensure_image_unwinds :
  triple (unwound name w0) (ensure_image (cc_image config) (cc_pull_policy config))
    (λ r w, r ≠ Panicked ∧ unwound name w0 w).
Proof.
  unfold ensure_image. apply (triple_bind _ _ _ (λ _, unwound name w0)).
  { unfold probe_presence. destruct (cc_pull_policy config); [|by apply triple_ret|];
      (eapply triple_bind; [apply quiet; intros; by eapply inspect_image_spec|]);
      intros r; by apply triple_ret. }
  intros pres. destruct (cc_pull_policy config), pres; try apply pull_unwinds;
    apply triple_ret; intros w Hw; by split.
Qed.

Lemma create_settles : triple (unwound name w0) (docker_create_and_start config) settled.
Proof.
  unfold docker_create_and_start. eapply triple_bind; [apply ensure_image_unwinds|].
  intros [[u|e]|].
  - eapply triple_conseq; [apply attempts_settle|by intros w [_ ?]|done].
  - apply triple_ret. by intros w [_ ?].
  - by intros w [? _].
Qed.
End attempt.

(** ** How often the registry is asked *)

Section pull_budget.
Context (config : ContainerConfig).
Implicit Types (n : nat).

Definition within n w : Prop := pulls w ≤ n.
Definition pull_cost : nat := if decide (cc_pull_policy config = Never) then 0 else 4.

Lemma within_quiet {A} n (m : ST W A) :
  (∀ w r w', m w = (r, w') → pulls w' = pulls w) → triple (within n) m (λ _, within n).
Proof. intros Hm w Hw. destruct (m w) as [r w'] eqn:E. apply Hm in E. unfold within in *. simpl. lia. Qed.

Lemma within_weaken n k w : n ≤ k → within n w → within k w.
Proof. unfold within. lia. Qed.

Lemma pull_loop_within image attempts last n :
  triple (within n) (pull_loop image attempts last) (λ _, within (n + length attempts)).
Proof.
  revert last n. induction attempts as [|x rest IH]; intros last n; simpl.
  { apply triple_ret. intros w. apply within_weaken. lia. }
  eapply (triple_bind _ _ _ (λ _, within (S n))).
  { intros w Hw. destruct (create_image image w) as [r w'] eqn:E.
    apply create_image_spec in E as [_ E]. unfold within in *. simpl. lia. }
  rewrite <- Nat.add_succ_comm.
  intros [u|e]; [apply triple_ret; intros w; apply within_weaken; lia|]. case_decide; [|apply IH].
  eapply triple_bind; [apply within_quiet; intros ? [] ? ?; by eapply docker_sleep_spec|].
  intros u. apply IH.
Qed.

Lemma force_remove_within n target : triple (within n) (force_remove target) (λ _, within n).
Proof.
  eapply triple_bind; [apply within_quiet; intros; by eapply remove_container_spec|].
  intros r. by apply triple_ret.
Qed.

Lemma start_created_within n final hp id :
  triple (within n) (start_created config final hp id) (λ _, within n).
Proof.
  unfold start_created.
  eapply triple_bind; [apply within_quiet; intros; by eapply start_container_spec|].
  intros [u|e]; [by apply triple_ret|].
  repeat case_match; (eapply triple_bind; [apply force_remove_within|]); intros u;
    try (by apply triple_ret).
  eapply triple_bind; [apply within_quiet; intros ? [] ? ?; by eapply docker_sleep_spec|].
  intros u'. by apply triple_ret.
Qed.

Lemma create_again_within n final kind dc hp :
  triple (within n) (create_again config dc kind final hp) (λ _, within n).
Proof.
  unfold create_again.
  eapply triple_bind; [apply within_quiet; intros; by eapply create_container_spec|].
  intros [id|e]; [apply start_created_within|]. destruct final; by apply triple_ret.
Qed.

Lemma pull_within n image :
  triple (within n) (pull_image_with_retry image) (λ _, within (n + 4)).
Proof. apply pull_loop_within. Qed.

Lemma try_create_within n final hp :
  triple (within n) (try_create config final hp) (λ _, within (n + pull_cost)).
Proof.
  assert (∀ w, within n w → within (n + pull_cost) w) as Hw by (intros w; apply within_weaken; lia).
  unfold try_create.
  eapply triple_bind; [apply within_quiet; intros; by eapply create_container_spec|].
  intros [id|e]; [eapply triple_conseq; [apply start_created_within|done|auto]|].
  destruct (is_not_found e && _) eqn:E.
  - assert (pull_cost = 4) as ->.
    { unfold pull_cost. apply andb_true_iff in E as [_ E]. case_decide; [|done].
      by rewrite bool_decide_eq_true_2 in E. }
    eapply triple_bind; [apply pull_within|].
    intros [[u|e']|]; [apply create_again_within| |by apply triple_ret].
    destruct final; by apply triple_ret.
  - destruct (is_name_conflict_409 e); [|by apply triple_ret].
    eapply triple_bind; [apply force_remove_within|]. intros u.
    eapply triple_conseq; [apply create_again_within|done|auto].
Qed.

Lemma attempt_once_within n x :
  triple (within n) (attempt_once config x) (λ _, within (n + pull_cost)).
Proof.
  unfold attempt_once. case_decide; [|apply try_create_within].
  eapply (triple_bind _ _ _ (λ _, within n)).
  { eapply triple_bind; [apply within_quiet; intros; by eapply bind_port_spec|]. intros r.
    by apply triple_ret. }
  intros [p|e]; [apply try_create_within|]. apply triple_ret. intros w. apply within_weaken. lia.
Qed.

Lemma attempts_within n attempts :
  triple (within n) (attempts_loop config attempts)
    (λ _, within (n + length attempts * pull_cost)).
Proof.
  revert n. induction attempts as [|x rest IH]; intros n; simpl.
  { apply triple_ret. intros w. apply within_weaken. lia. }
  eapply triple_bind; [apply attempt_once_within|]. intros [r|].
  - apply triple_ret. intros w. apply within_weaken. lia.
  - rewrite Nat.add_assoc. apply IH.
Qed.

Lemma ensure_image_within n :
  triple (within n) (ensure_image (cc_image config) (cc_pull_policy config))
    (λ _, within (n + pull_cost)).
Proof.
  assert (∀ w, within n w → within (n + pull_cost) w) as Hw by (intros w; apply within_weaken; lia).
  unfold ensure_image. apply (triple_bind _ _ _ (λ _, within n)).
  { unfold probe_presence. destruct (cc_pull_policy config); [|by apply triple_ret|];
      (eapply triple_bind; [apply within_quiet; intros; by eapply inspect_image_spec|]);
      intros r; by apply triple_ret. }
  intros pres. unfold pull_cost in *. destruct (cc_pull_policy config), pres;
    rewrite ?decide_False by done; try apply pull_within; by apply triple_ret.
Qed.

Lemma create_within n :
  triple (within n) (docker_create_and_start config) (λ _, within (n + 4 * pull_cost)).
Proof.
  unfold docker_create_and_start. eapply triple_bind; [apply ensure_image_within|].
  intros [[u|e]|]; [|apply triple_ret; intros w; apply within_weaken; lia..].
  eapply triple_conseq; [apply attempts_within|done|]. intros r w. apply within_weaken. simpl. lia.
Qed.
End pull_budget.

(** C20: creating a container is all or nothing. The call always returns; whatever image
    probes, pulls, name conflicts, port collisions and failures occur on the way, containers
    of other sandboxes are not touched. On success the sandbox has exactly one container, it
    runs with the configuration built for it, and its host port is the one bound, 0 when no
    port is exposed. On failure, provided that removing a container that is there works, every
    container of the sandbox that is left was there before. At most sixteen pulls are tried,
    and none at all under the policy Never. *)
Theorem docker_create_all_or_nothing config w :
  let name := container_name config in
  let '(r, w') := docker_create_and_start config w in
  others name (containers w') = others name (containers w) ∧
  match r with
  | Returned (Ok info) =>
      ci_sandbox_id info = cc_sandbox_id config ∧ ci_state info = CRunning ∧
      ∃ hp, ci_host_port info = default 0%Z hp ∧
        (is_Some hp ↔ (cc_exposed_port config > 0)%Z) ∧
        containers w' !! ci_id info = Some {| dn_name := name; dn_running := true;
          dn_config := build_docker_config config (hyphenated (cc_sandbox_id config)) hp |} ∧
        ∀ i c, containers w' !! i = Some c → dn_name c = name → i = ci_id info
  | Returned (Err _) =>
      removals_work → ∀ i c, containers w' !! i = Some c → dn_name c = name →
        containers w !! i = Some c
  | Panicked => False
  end ∧
  pulls w' ≤ pulls w + (if decide (cc_pull_policy config = Never) then 0 else 16).
Proof.
  intros name. pose proof (create_settles config w w (unwound_refl _ w)) as Hs.
  pose proof (create_within config (pulls w) w (le_n _)) as Hp. unfold within, pull_cost in Hp.
  destruct (docker_create_and_start config w) as [r w']. cbn [fst snd] in Hs, Hp.
  split; [|split; [|case_decide; lia]].
  - destruct r as [[info|e]|]; [|by destruct Hs|done]. by destruct Hs as (_ & _ & hp & _ & _ & []).
  - destruct r as [[info|e]|]; [|by destruct Hs|done].
    destruct Hs as (? & ? & hp & ? & ? & []). eauto 10.
Qed.
End docker_theorems.

Module DockerExamples.
(** A daemon that keeps containers by number and fails starts as scripted. *)
Record Daemon := {
  dw_map : gmap nat DContainer;
  dw_pulls : nat;
  dw_starts : list DockerError;
}.
Definition id_of (n : nat) : string := String "c" (pretty n).
#[local] Instance id_of_inj : Inj (=) (=) id_of.
Proof. intros n m [= E]. by apply (inj pretty) in E. Qed.

Definition with_map (m : gmap nat DContainer) (w : Daemon) : Daemon :=
  {| dw_map := m; dw_pulls := dw_pulls w; dw_starts := dw_starts w |}.
Definition named (name : string) (m : gmap nat DContainer) : gmap nat DContainer :=
  filter (λ p, dn_name p.2 = name) m.

#[local] Instance SmallDaemon : Docker Daemon := {
  create_image _ w := (Ok (), {| dw_map := dw_map w; dw_pulls := S (dw_pulls w);
                                 dw_starts := dw_starts w |});
  inspect_image _ w := (Ok (), w);
  create_container name config w :=
    if decide (named name (dw_map w) = ∅) then
      let n := fresh (dom (dw_map w)) in
      (Ok (id_of n), with_map (<[n := {| dn_name := name; dn_running := false;
                                         dn_config := config |}]> (dw_map w)) w)
    else (Err (ServerError 409 "The container name is already in use"), w);
  start_container id w :=
    match dw_starts w with
    | e :: rest => (Err e, {| dw_map := dw_map w; dw_pulls := dw_pulls w; dw_starts := rest |})
    | [] => (Ok (), with_map (map_imap (λ n c, Some (if decide (id_of n = id) then
               {| dn_name := dn_name c; dn_running := true; dn_config := dn_config c |} else c))
               (dw_map w)) w)
    end;
  remove_container target w :=
    (Ok (), with_map (if decide (filter (λ p, id_of p.1 = target) (dw_map w) = ∅)
       then filter (λ p, dn_name p.2 ≠ target) (dw_map w)
       else filter (λ p, id_of p.1 ≠ target) (dw_map w)) w);
  pause_container _ w := (Ok (), w);
  unpause_container _ w := (Ok (), w);
  stop_container _ _ w := (Ok (), w);
  list_containers _ w := (Ok [], w);
  bind_port w := (Ok (Ok 40000%Z), w);
  docker_sleep _ w := ((), w);
  docker_display _ := "docker error";
}.
Definition view_of (w : Daemon) : gmap string DContainer := kmap id_of (dw_map w).

Lemma view_lookup w n : view_of w !! id_of n = dw_map w !! n.
Proof. apply lookup_kmap, _. Qed.
Lemma view_some w id c : view_of w !! id = Some c ↔ ∃ n, id = id_of n ∧ dw_map w !! n = Some c.
Proof. apply lookup_kmap_Some, _. Qed.
(** Two views with the same entries at the numbers. *)
Lemma view_ext m m' :
  (∀ id c, m !! id = Some c ↔ m' !! id = Some c) → m = (m' : gmap string DContainer).
Proof.
  intros E. apply map_eq. intros i. apply option_eq. intros c. apply E.
Qed.

#[local] Instance SmallDaemonSpec : DockerSpec Daemon.
Proof.
  refine {| containers := view_of; pulls := dw_pulls |}.
  - intros w id c (n & -> & _)%view_some. done.
  - by intros image w r w' [= <- <-].
  - by intros image w r w' [= <- <-].
  - by intros w r w' [= <- <-].
  - by intros ms w w' [= <-].
  - intros name config w r w'. cbn. case_decide as Hn; intros [= <- <-]; [|done]. split; [done|].
    pose proof (is_fresh (dom (dw_map w))) as Hf. apply not_elem_of_dom in Hf.
    split; [by rewrite view_lookup|]. split.
    + intros i c (n & -> & Hi)%view_some E.
      assert (named name (dw_map w) !! n = Some c) as Hx by (by apply map_lookup_filter_Some).
      by rewrite Hn in Hx.
    + unfold view_of, with_map. cbn. by rewrite (kmap_insert id_of).
  - intros id w r w'. cbn. destruct (dw_starts w); intros [= <- <-]; [|done]. split; [done|].
    apply view_ext. intros i c. rewrite view_some. cbn. setoid_rewrite map_lookup_imap.
    rewrite lookup_alter_Some. setoid_rewrite view_some. split.
    + intros (n & -> & Hn). destruct (dw_map w !! n) as [d|] eqn:E; [|done]. cbn in Hn.
      case_decide as Hd; simplify_eq; [|by eauto 10]. left. split; [done|]. eauto 10.
    + intros [(<- & d & (n & -> & Hn) & ->)|(Hne & n & -> & Hn)]; exists n; (split; [done|]);
        rewrite Hn; cbn; [by rewrite decide_True|]. by rewrite decide_False by congruence.
  - intros target w r w' [= <- <-]. split; [done|].
    assert (is_Some (view_of w !! target) ↔ filter (λ p, id_of p.1 = target) (dw_map w) ≠ ∅) as Hin.
    { split.
      - intros [c (n & -> & Hn)%view_some] E.
        assert (filter (λ p, id_of p.1 = id_of n) (dw_map w) !! n = Some c) as Hx
          by (by apply map_lookup_filter_Some). by rewrite E in Hx.
      - intros (n & c & [Hn E]%map_lookup_filter_Some)%map_choose. exists c.
        rewrite <- E. by rewrite view_lookup. }
    apply view_ext. intros i c. rewrite view_some. cbn.
    destruct (decide (is_Some (view_of w !! target))) as [Hy|Hy]; rewrite Hin in Hy.
    + rewrite decide_False by done. rewrite lookup_delete_Some, view_some.
      setoid_rewrite map_lookup_filter_Some. cbn. split.
      * intros (n & -> & Hn & Hne). eauto.
      * intros (Hne & n & -> & Hn). eauto.
    + rewrite decide_True by (apply dec_stable; tauto). rewrite map_lookup_filter_Some, view_some.
      setoid_rewrite map_lookup_filter_Some. cbn. split; [|naive_solver].
      intros (n & -> & Hn & Hne). eauto.
Defined.

(** A stale container of the name is in the way, and the first start finds its port taken. *)
Definition box_config : @ContainerConfig RefUuid :=
  {| cc_sandbox_id := uid 7; cc_image := "alpine"; cc_cpu_limit_millicores := 500;
     cc_memory_limit_bytes := 1024; cc_env_vars := {["A" := "1"]}; cc_exposed_port := 8080;
     cc_pull_policy := Never |}.
Definition old_container : DContainer :=
  {| dn_name := container_name box_config; dn_running := false;
     dn_config := build_docker_config box_config "" None |}.
Definition crowded : Daemon :=
  {| dw_map := {[3 := old_container]}; dw_pulls := 0;
     dw_starts := [ServerError 500 "Bind: address already in use"] |}.

Lemma docker_create_all_or_nothing_witness :
  ∃ info w', docker_create_and_start box_config crowded = (Returned (Ok info), w') ∧
    ci_host_port info = 40000%Z ∧ dw_pulls w' = 0 ∧
    ∀ i c, view_of w' !! i = Some c → dn_name c = container_name box_config → i = ci_id info.
Proof.
  pose proof (docker_create_all_or_nothing box_config crowded) as Hx.
  assert (match (docker_create_and_start box_config crowded).1 with
          | Returned (Ok info) => Z.eqb (ci_host_port info) 40000 | _ => false end = true) as Hok
    by evaluate.
  destruct (docker_create_and_start box_config crowded) as [[[info|e]|] w'];
    cbn [fst] in Hok; [|discriminate..].
  destruct Hx as (_ & (_ & _ & hp & _ & _ & _ & Honly) & Hpulls).
  exists info, w'. split; [reflexivity|]. split; [by apply Z.eqb_eq|]. split; [|exact Honly].
  rewrite decide_True in Hpulls by done. cbn in Hpulls. lia.
Defined.
End DockerExamples.
