(* ===== verification/DockerDrain.v ===== *)
(** * The Docker backend: draining an exec (crates/agent/src/container.rs, crates/agent-docker/src/lib.rs)

    The output pump of an exec and the code that waits for the exec's end run concurrently,
    with a bounded channel for each of the two streams between them. [drain_to_exit],
    [read_file], [write_file], [write_files_targz] and [exec_collect_stdout] read stdout to its
    end before they read stderr; [delete_file] and [wait_port_listening] read the two
    together. *)

From S2P Require Import Prelude Contracts UuidRef IoFrames AgentSandbox AgentIo AgentExec.

Definition EXEC_CHANNEL_CAPACITY : nat := 4.
#[global] Arguments EXEC_CHANNEL_CAPACITY : simpl never.

(** The two tasks: what the pump has still to send (it drops both senders when there is
    nothing left), the channels, and what each receive loop has got and whether it is over. *)
Record Drain := {
  dr_todo : list (OutputKind * bytes);
  dr_out : list bytes;
  dr_err : list bytes;
  dr_got_out : list bytes;
  dr_got_err : list bytes;
  dr_out_done : bool;
  dr_err_done : bool;
}.

Definition drain_start (todo : list (OutputKind * bytes)) : Drain :=
  {| dr_todo := todo; dr_out := []; dr_err := []; dr_got_out := []; dr_got_err := [];
     dr_out_done := false; dr_err_done := false |}.

(** One step of either task; [serial]: the caller reads stderr after stdout. *)
Inductive drain_step (serial : bool) : Drain → Drain → Prop :=
| pump_sends_out m todo out err go ge od ed :
    length out < EXEC_CHANNEL_CAPACITY →
    drain_step serial
      {| dr_todo := (KStdout, m) :: todo; dr_out := out; dr_err := err; dr_got_out := go;
         dr_got_err := ge; dr_out_done := od; dr_err_done := ed |}
      {| dr_todo := todo; dr_out := out ++ [m]; dr_err := err; dr_got_out := go;
         dr_got_err := ge; dr_out_done := od; dr_err_done := ed |}
| pump_sends_err m todo out err go ge od ed :
    length err < EXEC_CHANNEL_CAPACITY →
    drain_step serial
      {| dr_todo := (KStderr, m) :: todo; dr_out := out; dr_err := err; dr_got_out := go;
         dr_got_err := ge; dr_out_done := od; dr_err_done := ed |}
      {| dr_todo := todo; dr_out := out; dr_err := err ++ [m]; dr_got_out := go;
         dr_got_err := ge; dr_out_done := od; dr_err_done := ed |}
| caller_gets_out m todo out err go ge ed :
    drain_step serial
      {| dr_todo := todo; dr_out := m :: out; dr_err := err; dr_got_out := go;
         dr_got_err := ge; dr_out_done := false; dr_err_done := ed |}
      {| dr_todo := todo; dr_out := out; dr_err := err; dr_got_out := go ++ [m];
         dr_got_err := ge; dr_out_done := false; dr_err_done := ed |}
| caller_ends_out err go ge ed :
    drain_step serial
      {| dr_todo := []; dr_out := []; dr_err := err; dr_got_out := go;
         dr_got_err := ge; dr_out_done := false; dr_err_done := ed |}
      {| dr_todo := []; dr_out := []; dr_err := err; dr_got_out := go;
         dr_got_err := ge; dr_out_done := true; dr_err_done := ed |}
| caller_gets_err m todo out err go ge od :
    (serial = true → od = true) →
    drain_step serial
      {| dr_todo := todo; dr_out := out; dr_err := m :: err; dr_got_out := go;
         dr_got_err := ge; dr_out_done := od; dr_err_done := false |}
      {| dr_todo := todo; dr_out := out; dr_err := err; dr_got_out := go;
         dr_got_err := ge ++ [m]; dr_out_done := od; dr_err_done := false |}
| caller_ends_err out go ge od :
    (serial = true → od = true) →
    drain_step serial
      {| dr_todo := []; dr_out := out; dr_err := []; dr_got_out := go;
         dr_got_err := ge; dr_out_done := od; dr_err_done := false |}
      {| dr_todo := []; dr_out := out; dr_err := []; dr_got_out := go;
         dr_got_err := ge; dr_out_done := od; dr_err_done := true |}.

(** Both loops are over: the caller goes on to the exit code. *)
Definition drained (s : Drain) : Prop := dr_out_done s = true ∧ dr_err_done s = true.

Definition of_kind (k : OutputKind) (todo : list (OutputKind * bytes)) : list bytes :=
  omap (λ '(k', m), if decide (k' = k) then Some m else None) todo.

(** ** Termination *)

Definition drain_measure (s : Drain) : nat :=
  2 * length (dr_todo s) + length (dr_out s) + length (dr_err s) +
  (if dr_out_done s then 0 else 1) + (if dr_err_done s then 0 else 1).

Lemma drain_step_decreases serial s s' : drain_step serial s s' → drain_measure s' < drain_measure s.
Proof. destruct 1; unfold drain_measure; cbn; rewrite ?length_app; cbn; lia. Qed.

Lemma drain_terminates serial s : sn (drain_step serial) s.
Proof.
  induction s as [s IH] using (induction_ltof1 _ drain_measure).
  constructor. intros s' Hs. apply IH. by eapply drain_step_decreases.
Qed.

(** ** What a run keeps *)

Record drain_inv (serial : bool) (todo : list (OutputKind * bytes)) (s : Drain) : Prop := {
  di_out : of_kind KStdout todo = dr_got_out s ++ dr_out s ++ of_kind KStdout (dr_todo s);
  di_err : of_kind KStderr todo = dr_got_err s ++ dr_err s ++ of_kind KStderr (dr_todo s);
  di_err_bound : length (dr_err s) ≤ EXEC_CHANNEL_CAPACITY;
  di_out_done : dr_out_done s = true → dr_todo s = [] ∧ dr_out s = [];
  di_err_done : dr_err_done s = true → dr_todo s = [] ∧ dr_err s = [];
  di_serial : serial = true → dr_out_done s = false → dr_got_err s = [] ∧ dr_err_done s = false;
  di_fits : serial = true → dr_out_done s = true →
    length (of_kind KStderr todo) ≤ EXEC_CHANNEL_CAPACITY;
}.

Lemma drain_inv_start serial todo : drain_inv serial todo (drain_start todo).
Proof. split; cbn; try done. unfold EXEC_CHANNEL_CAPACITY. lia. Qed.

Lemma drain_inv_step serial todo s s' :
  drain_step serial s s' → drain_inv serial todo s → drain_inv serial todo s'.
Proof.
  intros Hs [Ho He Hb Hod Hed Hser Hfit]. destruct Hs; cbn in *; split; cbn;
    rewrite ?length_app, <- ?app_assoc; cbn; try done; try lia;
    try (intros; repeat match goal with
         | H : ?P → _, H' : ?P |- _ => specialize (H H')
         | H : true = true → _ |- _ => specialize (H eq_refl)
         end; destruct_and?; simplify_eq; by auto).
  intros Hs _. destruct (Hser Hs eq_refl) as [-> _]. rewrite He. cbn. by rewrite app_nil_r.
Qed.

Lemma drain_inv_run serial todo s :
  rtc (drain_step serial) (drain_start todo) s → drain_inv serial todo s.
Proof.
  revert s. apply rtc_ind_r; [apply drain_inv_start|]. eauto using drain_inv_step.
Qed.

Lemma drain_stuck serial todo s :
  drain_inv serial todo s → nf (drain_step serial) s → ¬ drained s →
  serial = true ∧ EXEC_CHANNEL_CAPACITY < length (of_kind KStderr todo).
Proof.
  intros [Ho He Hb Hod Hed Hser Hfit] Hnf Hd.
  assert (0 < EXEC_CHANNEL_CAPACITY) as Hc by (unfold EXEC_CHANNEL_CAPACITY; lia).
  destruct s as [todo' out err go ge od ed]; cbn in *.
  destruct todo' as [|[[] m] todo'].
  - (* the pump is done: the caller can go on *)
    exfalso. destruct od.
    + destruct (Hod eq_refl) as [_ ->]. destruct ed; [by apply Hd|]. apply Hnf.
      destruct err; eexists; by constructor.
    + apply Hnf. destruct out; eexists; constructor.
  - (* the pump has stdout to send: the channel has room, or the caller can make some *)
    exfalso. destruct od; [by destruct (Hod eq_refl)|]. apply Hnf. destruct out as [|m' out].
    + eexists. by apply pump_sends_out.
    + eexists. apply caller_gets_out.
  - (* the pump has stderr to send: only a full channel stops it *)
    destruct od; [by destruct (Hod eq_refl)|]. destruct ed; [by destruct (Hed eq_refl)|].
    destruct (decide (length err < EXEC_CHANNEL_CAPACITY)).
    { exfalso. apply Hnf. eexists. by apply pump_sends_err. }
    destruct serial.
    + split; [done|]. destruct (Hser eq_refl eq_refl) as [-> _]. rewrite He. cbn.
      rewrite length_app. cbn. rewrite decide_True by done. cbn. lia.
    + exfalso. apply Hnf. destruct err as [|m' err]; [cbn in *; lia|]. eexists. by apply caller_gets_err.
Qed.

(** C34: Waiting for an exec ends, one way or the other, in finitely many steps of the pump and
    its caller, however they are scheduled; when it can go no further, a caller that reads the
    two streams together has read both to their end and has every byte of them, and one that
    reads stdout before stderr has so if and only if the process wrote at most
    [EXEC_CHANNEL_CAPACITY] chunks of stderr: with more, both tasks wait for each other
    forever. *)
Theorem exec_drain_outcome serial todo :
  sn (drain_step serial) (drain_start todo) ∧
  ∀ s, rtc (drain_step serial) (drain_start todo) s → nf (drain_step serial) s →
    (drained s ↔
      serial = false ∨ length (of_kind KStderr todo) ≤ EXEC_CHANNEL_CAPACITY) ∧
    (drained s → dr_got_out s = of_kind KStdout todo ∧ dr_got_err s = of_kind KStderr todo).
Proof.
  split; [apply drain_terminates|]. intros s Hr Hnf. pose proof (drain_inv_run _ _ _ Hr) as Hi.
  split; [split|].
  - intros [Ho _]. destruct serial; [right|by left]. by eapply di_fits.
  - intros Hc. destruct (decide (drained s)) as [?|Hd]; [done|].
    destruct (drain_stuck _ _ _ Hi Hnf Hd) as [-> ?]. destruct Hc; [done|lia].
  - intros [Ho He]. pose proof (di_out _ _ _ Hi) as ->. pose proof (di_err _ _ _ Hi) as ->.
    destruct (di_out_done _ _ _ Hi Ho) as [-> ->]. destruct (di_err_done _ _ _ Hi He) as [_ ->].
    by rewrite !app_nil_r.
Qed.
