(* ===== verification/DockerExec.v ===== *)
(** * The Docker backend: execs (crates/agent/src/container.rs, crates/agent-docker/src/lib.rs)

    The marker by which a process reports its in-container pid, the pump that strips it from
    the process's stderr, and how an exec's start and exit are judged. *)

From S2P Require Import Prelude Contracts UuidRef IoFrames AgentSandbox AgentIo RustText AgentExec DockerRuntime.

Definition newline : ascii := "010"%char.
Definition quoted (s : string) : string := String "034" (s +:+ String "034" "").

Definition wrap_command_with_inpid_marker (cmd : list string) : list string :=
  ["sh"; "-c"; "printf 'OPENSB_INPID=%s\n' " +:+ quoted "$$" +:+ " 1>&2; exec " +:+ quoted "$@";
   "opensb-wrapper"] ++ cmd.

Definition INPID_MARKER_MAX_BUFFER : nat := 256.
#[global] Arguments INPID_MARKER_MAX_BUFFER : simpl never.
Definition INPID_PREFIX : string := "OPENSB_INPID=".

(** [Ok(Some(pid))] with what is left of the buffer, [Ok(None)], [Err(())]. *)
Inductive Marker := Found (pid : Z) (rest : bytes) | Wait | GiveUp.

Definition consume_inpid_marker (buf : bytes) : Marker :=
  if decide (String.length buf < String.length INPID_PREFIX) then
    if negb (starts_with INPID_PREFIX buf) then GiveUp
    else if decide (INPID_MARKER_MAX_BUFFER < String.length buf) then GiveUp
    else Wait
  else if negb (starts_with buf INPID_PREFIX) then GiveUp
  else match before_char newline buf with
       | None => if decide (INPID_MARKER_MAX_BUFFER < String.length buf) then GiveUp else Wait
       | Some line =>
           let digits := default "" (strip_prefix INPID_PREFIX line) in
           if negb (is_utf8 digits) then GiveUp else
           match parse_i32 digits with
           | None => GiveUp
           | Some pid => Found pid (default "" (strip_prefix (line +:+ String newline "") buf))
           end
       end.

Definition detect_command_not_found (text : bytes) : bool :=
  let lower := to_ascii_lowercase (utf8_lossy text) in
  contains lower "executable file not found" ||
  (contains lower "opensb-wrapper" && contains lower "not found") ||
  (contains lower "no such file or directory" &&
   (contains lower "exec:" || contains lower "starting container process")).

(** ** The output pump of [start_exec] *)

Inductive LogOutput := LStdOut (m : bytes) | LStdErr (m : bytes) | LOther.

Record Demux := {
  dx_scan : bytes;
  dx_done : bool;
  (** what was sent to the waiter *)
  dx_pid : option Z;
  dx_stdout : list bytes;
  dx_stderr : list bytes;
  dx_cnf_out : bytes;
  dx_cnf_err : bytes;
}.

Definition demux_start : Demux :=
  {| dx_scan := ""; dx_done := false; dx_pid := None; dx_stdout := []; dx_stderr := [];
     dx_cnf_out := ""; dx_cnf_err := "" |}.

Definition CNF_BUFFER : nat := 4096.
#[global] Arguments CNF_BUFFER : simpl never.
Definition remember (buf m : bytes) : bytes :=
  if decide (String.length buf < CNF_BUFFER) then buf +:+ m else buf.

(** Send [m] to the caller's stderr; [false]: nobody listens, and the pump returns. *)
Definition forward_stderr (err_open : bool) (m : bytes) (d : Demux) : Demux * bool :=
  ({| dx_scan := dx_scan d; dx_done := dx_done d; dx_pid := dx_pid d;
      dx_stdout := dx_stdout d;
      dx_stderr := if err_open then dx_stderr d ++ [m] else dx_stderr d;
      dx_cnf_out := dx_cnf_out d; dx_cnf_err := remember (dx_cnf_err d) m |}, err_open).

Definition scanned (pid : option Z) (done : bool) (scan : bytes) (d : Demux) : Demux :=
  {| dx_scan := scan; dx_done := done; dx_pid := pid; dx_stdout := dx_stdout d;
     dx_stderr := dx_stderr d; dx_cnf_out := dx_cnf_out d; dx_cnf_err := dx_cnf_err d |}.

(** One chunk of the daemon's output. *)
Definition demux_chunk (out_open err_open : bool) (d : Demux) (c : LogOutput) : Demux * bool :=
  match c with
  | LStdOut m =>
      ({| dx_scan := dx_scan d; dx_done := dx_done d; dx_pid := dx_pid d;
          dx_stdout := if out_open then dx_stdout d ++ [m] else dx_stdout d;
          dx_stderr := dx_stderr d;
          dx_cnf_out := remember (dx_cnf_out d) m; dx_cnf_err := dx_cnf_err d |}, out_open)
  | LStdErr m =>
      if dx_done d then forward_stderr err_open m d else
      let buf := dx_scan d +:+ m in
      match consume_inpid_marker buf with
      | Found pid rest =>
          let d := scanned (Some pid) true "" d in
          if decide (rest = "") then (d, true) else forward_stderr err_open rest d
      | Wait => (scanned (dx_pid d) false buf d, true)
      | GiveUp => forward_stderr err_open buf (scanned (dx_pid d) true "" d)
      end
  | LOther => (d, true)
  end.

(** The daemon's output: with each item, whether the receivers of the process's stdout and
    stderr are still there when it comes. *)
Definition ExecOutput : Type := list (bool * bool * result LogOutput string).

(** The loop ends with the stream or its first error; [false]: it was left because a receiver
    is gone. *)
Fixpoint demux_output (d : Demux) (output : ExecOutput) : Demux * bool :=
  match output with
  | [] | (_, _, Err _) :: _ => (d, true)
  | (out_open, err_open, Ok c) :: rest =>
      let '(d', go_on) := demux_chunk out_open err_open d c in
      if go_on then demux_output d' rest else (d', false)
  end.

(** The exit code the daemon reports ([None]: it does not answer), and whether the command was missing. *)
Definition exit_info (d : Demux) (inspect : option (option Z)) : ExecExitInfo :=
  match inspect with
  | None => {| xi_exit_code := -1; xi_command_not_found := false |}
  | Some code =>
      let exit_code := as_i32 (default (-1)%Z code) in
      {| xi_exit_code := exit_code;
         xi_command_not_found := bool_decide (exit_code = 127)%Z &&
           (detect_command_not_found (dx_cnf_err d) || detect_command_not_found (dx_cnf_out d)) |}
  end.

(** [timeout(wait, inpid_rx)]: the pid the pump found, if the pump's answer came, [at_ms] after
    the start, before the wait was over. *)
Definition awaited_pid (wait_ms at_ms : Z) (inpid : option Z) : option Z :=
  if decide (at_ms ≤ wait_ms)%Z then inpid else None.

(** [Duration::from_secs(5)] *)
Definition INPID_WAIT_MS : Z := 5000.

(** What [start_exec] makes of the pid it waited for; [None]: none came in time. *)
Definition captured_pid (inpid : option Z) : result Z AgentError :=
  match inpid with
  | Some pid =>
      if decide (pid > 0)%Z then Ok pid
      else Err (AgentInternal ("OPENSB_INPID wrapper reported invalid pid=" +:+ pretty pid +:+
                               "; refusing to start exec"))
  | None => Err (AgentInternal "OPENSB_INPID marker not received within 5s; refusing to start exec (would break disconnect-driven kill)")
  end.

(** The command [signal_exec] runs in the container, if any. *)
Definition kill_command (in_container_pid signum : Z) : option (list string) :=
  if decide (in_container_pid ≤ 0)%Z then None
  else Some ["kill"; "-" +:+ pretty signum; pretty in_container_pid].

(** ** Execs

    The daemon's exec calls. An exec is given all of its input when it is started and runs to
    its end: what it wrote, and when the pump had the answer about its first line, for which
    the code waits five seconds. *)

Record ExecStart := { es_command : list string; es_cwd : string; es_env : gmap string string }.

Record CreateExecOptions := {
  ceo_cmd : list string;
  (** stdin, stdout and stderr *)
  ceo_attach : bool;
  ceo_working_dir : option string;
  ceo_env : option (list string);
}.

Record Attached := {
  at_output : ExecOutput;
  (** ms from the start to the pump's answer *)
  at_marker_ms : Z;
  (** the task that writes to the process still takes what the caller sends *)
  at_stdin_open : bool;
}.

Class DockerExecs (W : Type) := {
  create_exec : string → CreateExecOptions → ST W (result string DockerError);
  (** The exec, whether to detach, and the input sent to it; [None]: not attached. *)
  run_exec : string → bool → list bytes → ST W (result (option Attached) DockerError);
  inspect_exec : string → ST W (result (option Z) DockerError);
  (** [Uuid::new_v4().simple()], and the clock, in ms *)
  new_v4_simple : ST W string;
  now_ms : W → Z;
}.

(** What the caller of an exec sees of it once it has ended. *)
Record ExecDone := {
  ed_exec_id : string;
  ed_pid : Z;
  ed_stdout : list bytes;
  ed_stderr : list bytes;
  ed_exited : option ExecExitInfo;
  ed_stdin_open : bool;
}.

Section docker_execs.
Context {W : Type} `{!Docker W, !DockerExecs W}.

Definition exec_options (start : ExecStart) : CreateExecOptions :=
  {| ceo_cmd := wrap_command_with_inpid_marker (es_command start);
     ceo_attach := true;
     ceo_working_dir := if decide (es_cwd start = "") then None else Some (es_cwd start);
     ceo_env := match map_to_list (es_env start) with
                | [] => None
                | env => Some ((λ '(k, v), k +:+ "=" +:+ v) <$> env)
                end |}.

(** Run a command with the given input to its end. *)
Definition docker_start_exec (id : ContainerId) (start : ExecStart) (stdin : list bytes)
    : ST W (result ExecDone AgentError) :=
  let! created := create_exec id (exec_options start) in
  match created with
  | Err e => st_ret (Err (runtime_err e))
  | Ok exec_id =>
      let! started := run_exec exec_id false stdin in
      match started with
      | Err e => st_ret (Err (runtime_err e))
      | Ok None => st_ret (Err (Runtime "start_exec returned non-attached result"))
      | Ok (Some a) =>
          let '(d, ended) := demux_output demux_start (at_output a) in
          let done exited :=
            let? pid := captured_pid (awaited_pid INPID_WAIT_MS (at_marker_ms a) (dx_pid d)) in
            Ok {| ed_exec_id := exec_id; ed_pid := pid; ed_stdout := dx_stdout d;
                  ed_stderr := dx_stderr d; ed_exited := exited;
                  ed_stdin_open := at_stdin_open a |} in
          if ended then
            let! inspect := inspect_exec exec_id in
            st_ret (done (Some (exit_info d (result_ok inspect))))
          else st_ret (done None)
      end
  end.

Definition docker_signal_exec (id : ContainerId) (in_container_pid signum : Z)
    : ST W (result () AgentError) :=
  match kill_command in_container_pid signum with
  | None => st_ret (Ok ())
  | Some cmd =>
      let! created := create_exec id {| ceo_cmd := cmd; ceo_attach := false;
                                        ceo_working_dir := None; ceo_env := None |} in
      match created with
      | Err e => st_ret (Err (runtime_err e))
      | Ok exec_id =>
          let! started := run_exec exec_id true [] in
          match started with
          | Err e => st_ret (Err (runtime_err e))
          | Ok _ => let! _ := inspect_exec exec_id in st_ret (Ok ())
          end
      end
  end.
End docker_execs.

(** ** The marker and the streams *)

(** What the stream delivers before its first error. *)
Fixpoint received (output : ExecOutput) : list LogOutput :=
  match output with
  | [] | (_, _, Err _) :: _ => []
  | (_, _, Ok c) :: rest => c :: received rest
  end.
Definition out_of (c : LogOutput) : option bytes := match c with LStdOut m => Some m | _ => None end.
Definition err_of (c : LogOutput) : option bytes := match c with LStdErr m => Some m | _ => None end.
Definition outs (output : ExecOutput) : list bytes := omap out_of (received output).
Definition errs (output : ExecOutput) : bytes := flatten (omap err_of (received output)).
(** The caller listens throughout. *)
Definition listening (output : ExecOutput) : Prop := Forall (λ i, i.1 = (true, true)) output.

Definition marker_line (digits : string) : bytes :=
  INPID_PREFIX +:+ digits +:+ String newline "".

(** No newline within. *)
Definition one_line : string → bool := string_forallb (λ a, negb (bool_decide (a = newline))).

Lemma string_app_prefix (a b p q : string) :
  a +:+ b = p +:+ q → String.length a ≤ String.length p → ∃ r, p = a +:+ r ∧ b = r +:+ q.
Proof.
  revert p. induction a as [|x a IH]; intros p He Hl; [by exists p|].
  destruct p as [|y p]; cbn in Hl; [lia|]. rewrite !string_app_cons in He. simplify_eq.
  destruct (IH p) as (r & -> & ->); [done|lia|]. by exists r.
Qed.

Lemma before_char_none c s :
  string_forallb (λ a, negb (bool_decide (a = c))) s = true → before_char c s = None.
Proof.
  induction s as [|a s IH]; cbn; [done|]. rewrite andb_true_iff, negb_true_iff, bool_decide_eq_false.
  intros [? ?]. rewrite decide_False by done. by rewrite IH.
Qed.

Lemma before_char_split c s l :
  before_char c s = Some l → string_forallb (λ a, negb (bool_decide (a = c))) l = true ∧
    ∃ r, s = (l +:+ String c "") +:+ r.
Proof.
  revert l. induction s as [|a s IH]; intros l; cbn; [done|]. case_decide; intros; simplify_eq.
  - split; [done|]. by exists s.
  - destruct (before_char c s) as [l'|]; simplify_eq/=. destruct (IH l') as [? [r ->]]; [done|].
    rewrite bool_decide_false by done. split; [done|]. by exists r.
Qed.

(** Decimal digits are not newlines, and an i32 has at most ten of them. *)
Lemma digits_no_newline s :
  string_forallb is_digit s = true → one_line s = true.
Proof.
  apply string_forallb_impl. intros a Ha. destruct (decide (a = newline)) as [->|?]; [by vm_compute in Ha|].
  by rewrite bool_decide_false.
Qed.

Lemma pretty_N_go_length k (x : N) s :
  (x < 10 ^ N.of_nat k)%N → String.length (pretty_N_go x s) ≤ k + String.length s.
Proof.
  revert x s. induction k as [|k IH]; intros x s Hx.
  - cbn in Hx. replace x with 0%N by lia. rewrite pretty_N_go_0. lia.
  - destruct (decide (x = 0)%N) as [->|]; [rewrite pretty_N_go_0; lia|].
    rewrite pretty_N_go_step by lia. etrans; [apply IH|cbn; lia].
    apply N.Div0.div_lt_upper_bound. rewrite Nat2N.inj_succ, N.pow_succ_r' in Hx. lia.
Qed.

Definition shell_pid (pid : Z) : Prop := (0 ≤ pid < 2 ^ 31)%Z.

Lemma shell_pid_length pid : shell_pid pid → String.length (pretty pid) ≤ 10.
Proof.
  intros Hp. rewrite pretty_Z_N by apply Hp. unfold pretty, pretty_N. case_decide; [cbn; lia|].
  etrans; [apply (pretty_N_go_length 10)|cbn; lia]. unfold shell_pid in Hp. lia.
Qed.

Lemma shell_pid_digits pid : shell_pid pid → string_forallb is_digit (pretty pid) = true.
Proof. intros Hp. apply pretty_Z_digits, Hp. Qed.

Lemma digits_are_ascii s : string_forallb is_digit s = true → string_forallb is_ascii s = true.
Proof.
  apply string_forallb_impl. intros a. pose proof (all_ascii_spec
    (λ a, implb (is_digit a) (is_ascii a)) ltac:(vm_compute; reflexivity) a) as H.
  cbn in H. by destruct (is_digit a).
Qed.

(** The parser on the marker and anything after it. *)
Lemma consume_marker pid rest :
  shell_pid pid → consume_inpid_marker (marker_line (pretty pid) +:+ rest) = Found pid rest.
Proof.
  intros Hp. pose proof (shell_pid_digits pid Hp) as Hd. unfold consume_inpid_marker, marker_line.
  rewrite !string_app_assoc. rewrite decide_False by (rewrite string_app_length; lia).
  rewrite starts_with_app. cbn [negb]. change (String newline "" +:+ rest) with (String newline rest).
  rewrite <- string_app_assoc, before_char_app.
  2:{ apply digits_no_newline in Hd. rewrite string_forallb_app. exact Hd. }
  rewrite strip_prefix_app. unfold default, id.
  assert (is_utf8 (pretty pid) = true) as ->.
  { apply bool_decide_eq_true, ascii_is_text, digits_are_ascii, Hd. }
  rewrite parse_i32_pretty by (unfold shell_pid, in_i32 in *; lia). cbn [negb].
  f_equal. change (String newline rest) with (String newline "" +:+ rest).
  by rewrite <- (string_app_assoc _ (String newline "")), strip_prefix_app.
Qed.

(** The parser on a part of the marker. *)
Lemma consume_marker_part pid buf tail :
  shell_pid pid → buf +:+ tail = marker_line (pretty pid) → tail ≠ "" →
  consume_inpid_marker buf = Wait.
Proof.
  intros Hp He Ht. pose proof (shell_pid_length pid Hp) as Hlen.
  assert (String.length buf ≤ 24) as Hbuf.
  { apply (f_equal String.length) in He. unfold marker_line in He.
    rewrite !string_app_length in He. cbn in He. destruct tail; [done|]. cbn in He. lia. }
  unfold consume_inpid_marker, marker_line, INPID_MARKER_MAX_BUFFER in *.
  case_decide as Hl.
  - destruct (string_app_prefix _ _ _ _ He ltac:(lia)) as (r & -> & _).
    rewrite starts_with_app. cbn [negb]. by rewrite decide_False by lia.
  - symmetry in He. destruct (string_app_prefix _ _ _ _ He ltac:(lia)) as (r & -> & Hr).
    rewrite starts_with_app. cbn [negb].
    assert (string_forallb (λ a, negb (bool_decide (a = newline))) r = true) as Hn.
    { symmetry in Hr. destruct (decide (String.length r ≤ String.length (pretty pid))) as [Hle|Hgt].
      - destruct (string_app_prefix _ _ _ _ Hr Hle) as (r' & Hr' & _).
        pose proof (digits_no_newline _ (shell_pid_digits pid Hp)) as Hd. unfold one_line in Hd. rewrite Hr' in Hd.
        rewrite string_forallb_app, andb_true_iff in Hd. apply Hd.
      - apply (f_equal String.length) in Hr. rewrite !string_app_length in Hr.
        destruct tail; [done|]. cbn in Hr. lia. }
    rewrite before_char_none by by rewrite string_forallb_app, Hn.
    by rewrite decide_False by lia.
Qed.

Lemma flatten_app xs ys : flatten (xs ++ ys) = flatten xs +:+ flatten ys.
Proof.
  induction xs as [|x xs IH]; [done|]. cbn. rewrite string_app_assoc. f_equal. exact IH.
Qed.

(** Once the scan is over, stderr goes through unchanged. *)
Lemma demux_after_scan output d :
  dx_done d = true → listening output →
  ∃ d', demux_output d output = (d', true) ∧ dx_pid d' = dx_pid d ∧ dx_scan d' = dx_scan d ∧
    dx_stdout d' = dx_stdout d ++ outs output ∧
    flatten (dx_stderr d') = flatten (dx_stderr d) +:+ errs output.
Proof.
  unfold listening. revert d. induction output as [|[[o e] [c|x]] rest IH]; intros d Hd Hl;
    cbn [demux_output].
  - exists d. unfold outs, errs. cbn. by rewrite app_nil_r, string_app_nil_r.
  - apply Forall_cons in Hl as [[= -> ->] Hl]. destruct c as [m|m|]; cbn [demux_chunk];
      [| |by apply IH].
    + edestruct IH as (d' & -> & H1 & H2 & H4 & H5); [|exact Hl|]; [exact Hd|].
      exists d'. split; [done|]. cbn in *. by rewrite H4, <- app_assoc.
    + rewrite Hd. unfold forward_stderr.
      edestruct IH as (d' & -> & H1 & H2 & H4 & H5); [|exact Hl|]; [exact Hd|].
      exists d'. cbn in *. rewrite flatten_app in H5. split; [done|]. rewrite H5. unfold errs. cbn.
      by rewrite string_app_nil_r, string_app_assoc.
  - exists d. unfold outs, errs. cbn. by rewrite app_nil_r, string_app_nil_r.
Qed.

(** A marker the parser finds is there, and what it leaves is the rest. *)
Lemma consume_found buf pid rest :
  consume_inpid_marker buf = Found pid rest →
  ∃ digits, parse_i32 digits = Some pid ∧ one_line digits = true ∧
    buf = marker_line digits +:+ rest.
Proof.
  unfold consume_inpid_marker. case_decide; [by repeat case_match|].
  destruct (starts_with buf INPID_PREFIX) eqn:Hp; [|done].
  apply starts_with_spec in Hp as [t ->]. cbn [negb]. rewrite before_char_skip by done.
  destruct (before_char newline t) as [l|] eqn:Hl; cbn [fmap option_fmap option_map];
    [|by repeat case_match].
  rewrite strip_prefix_app. unfold default at 1 2, id. destruct (is_utf8 l); cbn [negb]; [|done].
  destruct (parse_i32 l) as [n|] eqn:Hn; [|done]. intros [= -> <-]. exists l. split; [done|].
  apply before_char_split in Hl as [Hone [r ->]]. split; [exact Hone|]. unfold marker_line.
  rewrite <- (string_app_assoc INPID_PREFIX _ r), <- (string_app_assoc INPID_PREFIX l).
  by rewrite !string_app_nil, strip_prefix_app.
Qed.

(** What a run of the pump did with the process's stderr [text]. *)
Definition accounts (text : bytes) (d : Demux) : Prop :=
  match dx_pid d with
  | None => text = flatten (dx_stderr d) +:+ dx_scan d
  | Some pid => ∃ digits, parse_i32 digits = Some pid ∧ one_line digits = true ∧
      text = marker_line digits +:+ flatten (dx_stderr d)
  end.

Lemma demux_scanning output d :
  dx_done d = false → dx_pid d = None → dx_stderr d = [] → listening output →
  ∃ d', demux_output d output = (d', true) ∧ dx_stdout d' = dx_stdout d ++ outs output ∧
    accounts (dx_scan d +:+ errs output) d'.
Proof.
  unfold listening. revert d. induction output as [|[[o e] [c|x]] rest IH]; intros d Hd Hn He Hl;
    cbn [demux_output].
  1,3: exists d; unfold outs, errs, accounts; cbn; rewrite Hn, He, app_nil_r, string_app_nil_r; done.
  apply Forall_cons in Hl as [[= -> ->] Hl]. destruct c as [m|m|]; cbn [demux_chunk];
    [| |by apply IH].
  - edestruct IH as (d' & -> & H1 & H2); [exact Hd|exact Hn|exact He|exact Hl|].
    exists d'. split; [done|]. cbn in *. by rewrite H1, <- app_assoc.
  - rewrite Hd. unfold errs. cbn. fold (errs rest). rewrite <- (string_app_assoc _ m).
    destruct (consume_inpid_marker (dx_scan d +:+ m)) as [pid r| |] eqn:Hc.
    + apply consume_found in Hc as (digits & Hdig & Hone & ->). case_decide as Hr.
      * edestruct (demux_after_scan rest) as (d' & -> & H1 & H2 & H4 & H5); [|exact Hl|]; [done|].
        exists d'. split; [done|]. split; [done|]. unfold accounts. rewrite H1. exists digits.
        cbn in H5. rewrite H5, He, Hr. by rewrite string_app_nil_r.
      * unfold forward_stderr. edestruct (demux_after_scan rest) as (d' & -> & H1 & H2 & H4 & H5);
          [|exact Hl|]; [done|].
        exists d'. split; [done|]. split; [done|]. unfold accounts. rewrite H1. exists digits.
        cbn in H5. rewrite H5, He. cbn. by rewrite string_app_nil_r, !string_app_assoc.
    + edestruct IH as (d' & -> & H1 & H2); [..|exact Hl|]; [done|exact Hn|exact He|].
      exists d'. done.
    + unfold forward_stderr. edestruct (demux_after_scan rest) as (d' & -> & H1 & H2 & H4 & H5);
        [|exact Hl|]; [done|].
      exists d'. split; [done|]. split; [done|]. unfold accounts. rewrite H1. cbn in H2, H5 |- *.
      rewrite Hn, H2, H5, He. cbn. by rewrite !string_app_nil_r.
Qed.

(** The marker is found however the daemon cuts the stream. *)
Lemma demux_marker pid rest output d :
  shell_pid pid → dx_done d = false → listening output →
  String.length (dx_scan d) < String.length (marker_line (pretty pid)) →
  dx_scan d +:+ errs output = marker_line (pretty pid) +:+ rest →
  dx_pid (demux_output d output).1 = Some pid.
Proof.
  intros Hp. unfold listening. revert d.
  induction output as [|[[o e] [c|x]] output IH]; intros d Hd Hl Hs He.
  1,3: apply (f_equal String.length) in He; rewrite !string_app_length in He; cbn in He; lia.
  apply Forall_cons in Hl as [[= -> ->] Hl]. destruct c as [m|m|]; cbn [demux_output demux_chunk];
    [by apply IH| |by apply IH].
  unfold errs in He. cbn in He. fold (errs output) in He. rewrite <- (string_app_assoc _ m) in He.
  rewrite Hd. destruct (decide (String.length (dx_scan d +:+ m) < String.length (marker_line (pretty pid))))
    as [Hlt|Hge].
  - destruct (string_app_prefix _ _ _ _ He ltac:(lia)) as (tail & Ht & _).
    rewrite (consume_marker_part pid _ tail Hp (eq_sym Ht)).
    + by apply IH.
    + intros ->. rewrite string_app_nil_r in Ht. rewrite Ht in Hlt. lia.
  - symmetry in He. destruct (string_app_prefix _ _ _ _ He ltac:(lia)) as (r & -> & _).
    rewrite consume_marker by done. case_decide; unfold forward_stderr.
    + edestruct (demux_after_scan output) as (d' & -> & H1 & _); [|exact Hl|]; done.
    + edestruct (demux_after_scan output) as (d' & -> & H1 & _); [|exact Hl|]; done.
Qed.

Lemma marker_line_inv digits digits' t t' :
  one_line digits = true → one_line digits' = true →
  marker_line digits +:+ t = marker_line digits' +:+ t' → digits = digits' ∧ t = t'.
Proof.
  intros Hd Hd'. unfold marker_line. rewrite !string_app_assoc. intros He%string_app_inv_l.
  change (digits +:+ String newline t = digits' +:+ String newline t') in He.
  assert (digits = digits') as ->.
  { pose proof (before_char_app newline digits t Hd) as H1.
    pose proof (before_char_app newline digits' t' Hd') as H2. congruence. }
  apply string_app_inv_l in He. by injection He.
Qed.


Module DockerExecExamples.

Definition stream : ExecOutput :=
  [(true, true, Ok (LStdErr "OPENSB_IN")); (true, true, Ok (LStdOut "hello"));
   (true, true, Ok (LStdErr ("PID=42" +:+ String newline "oops"))); (true, true, Ok LOther);
   (true, true, Err "connection reset"); (true, true, Ok (LStdOut "never seen"))].

End DockerExecExamples.
