(* ===== verification/DockerFiles.v ===== *)
(** * The Docker backend: files (crates/agent-docker/src/lib.rs)

    The file operations of [DockerRuntime]: each runs one or more commands in the container
    and judges them by their output and exit code. The backend is an instance of the agent's
    [ContainerFiles]. [PosixContainer] is what POSIX promises of the commands. *)

From S2P Require Import Prelude Contracts UuidRef IoFrames AgentSandbox AgentIo RustText AgentExec DockerRuntime DockerExec.

Definition MAX_READ_BYTES : Z := 256 * 1024 * 1024.
Definition DEFAULT_WRITE_CWD : string := "/home".
Definition LIST_DIR_MAX_ENTRIES : nat := Z.to_nat 5000.
#[global] Arguments LIST_DIR_MAX_ENTRIES : simpl never.
#[global] Opaque LIST_DIR_MAX_ENTRIES.

Definition resolve_path (path : string) (cwd : option string) : string :=
  if starts_with path "/" then path
  else trim_end_matches "/" (default DEFAULT_WRITE_CWD cwd) +:+ "/" +:+ path.

Definition parent_dir (path : string) : string :=
  match before_last "/" path with
  | Some EmptyString => "/"
  | Some dir => dir
  | None => "."
  end.

(** ** Reading an exec's output *)

(** Gather chunks; [None]: they exceed [cap] bytes. *)
Fixpoint gather (cap : Z) (buf : bytes) (chunks : list bytes) : option bytes :=
  match chunks with
  | [] => Some buf
  | c :: rest => if decide (size buf + size c > cap)%Z then None else gather cap (buf +:+ c) rest
  end.
(** A chunk that does not fit is dropped; gathering goes on. *)
Fixpoint gather_fitting (cap : Z) (buf : bytes) (chunks : list bytes) : bytes :=
  match chunks with
  | [] => buf
  | c :: rest =>
      gather_fitting cap (if decide (size buf + size c > cap)%Z then buf else buf +:+ c) rest
  end.
(** Gathering stops at the first chunk that does not fit. *)
Fixpoint gather_until (cap : Z) (buf : bytes) (chunks : list bytes) : bytes :=
  match chunks with
  | [] => buf
  | c :: rest => if decide (size buf + size c > cap)%Z then buf else gather_until cap (buf +:+ c) rest
  end.

Definition exit_text (what : string) (code : Z) (text : string) : AgentError :=
  Runtime (what +:+ "exit=" +:+ pretty code +:+ " stderr=" +:+ str_trim text).

Definition drain_to_exit (h : ExecDone) : result () AgentError :=
  match ed_exited h with
  | None => Err (Runtime "internal exec terminated without exit info")
  | Some info =>
      if decide (xi_exit_code info = 0)%Z then Ok ()
      else Err (exit_text "internal exec " (xi_exit_code info)
                  (utf8_lossy (flatten (ed_stderr h))))
  end.

Inductive ListExecError := ListNotFound | ListOther (detail : string).

(** ** Directory listings *)

Definition MAX_ENTRY_LINE_BYTES : Z := 512.
Definition MAX_STDOUT_BYTES : Z := Z.of_nat LIST_DIR_MAX_ENTRIES * MAX_ENTRY_LINE_BYTES.
Definition MAX_STDERR_BYTES : Z := 64 * 1024.

Definition nl : string := String newline "".
Definition LIST_DIR_SCRIPT : string :=
  nl +:+ "cd " +:+ quoted "$1" +:+ " 2>/dev/null || exit 0" +:+ nl +:+
  "for f in * .[!.]* ..?*; do" +:+ nl +:+
  "  [ -e " +:+ quoted "$f" +:+ " ] || [ -L " +:+ quoted "$f" +:+ " ] || continue" +:+ nl +:+
  "  t=" +:+ quoted "" +:+ nl +:+
  "  if [ -L " +:+ quoted "$f" +:+ " ]; then t=" +:+
    quoted ("$(readlink " +:+ quoted "$f" +:+ " 2>/dev/null || true)") +:+ "; fi" +:+ nl +:+
  "  m=" +:+ quoted ("$(stat -c '%F|%s|%Y|%a' " +:+ quoted "$f" +:+ " 2>/dev/null || true)") +:+ nl +:+
  "  printf 'OSB:%s|%s|%s\n' " +:+ quoted "$f" +:+ " " +:+ quoted "$m" +:+ " " +:+ quoted "$t" +:+ nl +:+
  "done" +:+ nl.

Definition entry_type_of (file_type : string) : EntryType :=
  if decide (file_type = "regular file" ∨ file_type = "regular empty file") then EFile
  else if decide (file_type = "directory") then EDir
  else if decide (file_type = "symbolic link") then ESymlink
  else EOther.

Definition pad_mode (mode : string) : string :=
  if decide (mode = "") then ""
  else if decide (String.length mode < 4) then pad_left 4 "0" mode
  else mode.

#[global] Instance EntryType_eq_dec : EqDecision EntryType.
Proof. solve_decision. Defined.

(** One line of the script's output; [None]: not an entry. *)
Definition parse_list_line (raw_line : string) : option DirEntry :=
  line ← strip_prefix "OSB:" raw_line;
  let cols := splitn 6 "|" line in
  name ← cols !! 0;
  if decide (name = "") then None else
  let col i d := default d (cols !! i) in
  let entry_type := entry_type_of (col 1 "") in
  let size := default 0%Z (parse_u64 (col 2 "0")) in
  let mtime := default 0%Z (parse_u64 (col 3 "0")) in
  Some {| de_name := name;
          de_entry_type := entry_type;
          de_size := size;
          de_revision := pretty mtime +:+ ":" +:+ pretty size;
          de_mode := pad_mode (col 4 "");
          de_target := if decide (entry_type = ESymlink) then col 5 "" else "" |}.

Definition parse_portable_list_output (stdout : bytes) (dir_path : string)
    : result DirListing AgentError :=
  let all := omap parse_list_line (str_lines (utf8_lossy stdout)) in
  let entries := take LIST_DIR_MAX_ENTRIES all in
  Ok {| dl_path := dir_path;
        dl_entries := entries;
        dl_truncated := bool_decide (length entries < length all);
        dl_total_entries := Z.of_nat (length all) |}.

Section docker_files.
Context {W : Type} `{!Docker W, !DockerExecs W}.

(** [ExecStart { command, cwd: String::new(), env: HashMap::new() }] *)
Definition plain (command : list string) : ExecStart :=
  {| es_command := command; es_cwd := ""; es_env := ∅ |}.

Definition cleanup_tmp_file (container_id : ContainerId) (tmp_path : string) : ST W () :=
  let! _ := docker_start_exec container_id (plain ["rm"; "-f"; tmp_path]) [] in
  st_ret ().

Definition exec_collect_stdout (id : ContainerId) (command : list string)
    : ST W (result bytes ListExecError) :=
  let! h := docker_start_exec id (plain command) [] in
  st_ret (
    let? h := map_err (λ e, ListOther (AgentError_to_string e)) h in
    let? stdout := ok_or (gather MAX_STDOUT_BYTES "" (ed_stdout h))
      (ListOther ("exec stdout exceeded " +:+ pretty MAX_STDOUT_BYTES +:+ "-byte cap")) in
    let stderr := gather_until MAX_STDERR_BYTES "" (ed_stderr h) in
    let? info := ok_or (ed_exited h) (ListOther "internal exec terminated without exit info") in
    if decide (xi_exit_code info = 0)%Z then Ok stdout
    else
      let stderr_text := utf8_lossy stderr in
      if contains stderr_text "No such file" || contains stderr_text "cannot access"
      then Err ListNotFound
      else Err (ListOther ("exit=" +:+ pretty (xi_exit_code info) +:+ " stderr=" +:+
                           str_trim stderr_text))).

Definition list_error (resolved : string) (e : ListExecError) : AgentError :=
  match e with
  | ListNotFound => Runtime ("No such file: " +:+ resolved)
  | ListOther detail => Runtime detail
  end.

Definition docker_read_file (id : ContainerId) (path : string) (cwd : option string)
    : ST W (result bytes AgentError) :=
  let resolved := resolve_path path cwd in
  let!? h := docker_start_exec id (plain ["cat"; resolved]) [] in
  st_ret (
    let? buf := ok_or (gather MAX_READ_BYTES "" (ed_stdout h))
      (Runtime ("read_file output exceeds " +:+ pretty MAX_READ_BYTES +:+ "-byte cap")) in
    let? info := ok_or (ed_exited h) (Runtime "read_file exec terminated without exit info") in
    if decide (xi_exit_code info = 0)%Z then Ok buf
    else
      let stderr_text := utf8_lossy (flatten (ed_stderr h)) in
      if contains stderr_text "No such file" || contains stderr_text "not found"
      then Err (Runtime ("No such file: " +:+ resolved))
      else Err (exit_text "read_file " (xi_exit_code info) stderr_text)).

(** How [write_file] and [write_files_targz] judge the command they feed. *)
Definition fed (what : string) (h : ExecDone) : result () AgentError :=
  match ed_exited h with
  | None => Err (Runtime (what +:+ " exec terminated without exit info"))
  | Some info =>
      if decide (xi_exit_code info = 0)%Z then Ok ()
      else Err (exit_text (what +:+ " ") (xi_exit_code info) (utf8_lossy (flatten (ed_stderr h))))
  end.
Definition send_failed (what : string) : AgentError :=
  Runtime (what +:+ " stdin send failed: channel closed").

Definition docker_write_file (id : ContainerId) (path : string) (cwd : option string)
    (content : bytes) : ST W (result () AgentError) :=
  let resolved := resolve_path path cwd in
  let dir := parent_dir resolved in
  let! uuid := new_v4_simple in
  let temp := dir +:+ "/.opensb." +:+ uuid +:+ ".tmp" in
  let!? mkdir := docker_start_exec id (plain ["mkdir"; "-p"; dir]) [] in
  let!? _ := st_ret (drain_to_exit mkdir) in
  let!? writer := docker_start_exec id (plain ["tee"; temp]) [content] in
  if negb (ed_stdin_open writer) then
    let! _ := cleanup_tmp_file id temp in st_ret (Err (send_failed "write_file tee"))
  else
  match ed_exited writer with
  | None => st_ret (fed "write_file tee" writer)
  | Some _ =>
      match fed "write_file tee" writer with
      | Err e => let! _ := cleanup_tmp_file id temp in st_ret (Err e)
      | Ok _ =>
          let!? mv := docker_start_exec id (plain ["mv"; temp; resolved]) [] in
          match drain_to_exit mv with
          | Err e => let! _ := cleanup_tmp_file id temp in st_ret (Err e)
          | Ok _ => st_ret (Ok ())
          end
      end
  end.

Definition docker_list_dir (id : ContainerId) (path : string) (cwd : option string)
    : ST W (result DirListing AgentError) :=
  let resolved := resolve_path path cwd in
  let! stdout := exec_collect_stdout id ["sh"; "-c"; LIST_DIR_SCRIPT; "os-list-dir"; resolved] in
  st_ret (
    let? stdout := map_err (list_error resolved) stdout in
    parse_portable_list_output stdout resolved).

Definition STDERR_KEEP : Z := 4096.

Definition docker_delete_file (id : ContainerId) (path : string) (cwd : option string)
    (recursive : bool) : ST W (result () AgentError) :=
  let resolved := resolve_path path cwd in
  let!? h := docker_start_exec id
    {| es_command := ["rm"; if recursive then "-rf" else "-f"; "--"; resolved];
       es_cwd := ""; es_env := {[ "LC_ALL" := "C"; "LANG" := "C" ]} |} [] in
  st_ret (
    let stderr := gather_fitting STDERR_KEEP "" (ed_stderr h) in
    let? info := ok_or (ed_exited h) (Runtime "delete_file exec terminated without exit info") in
    if decide (xi_exit_code info = 0)%Z then Ok ()
    else Err (exit_text "rm " (xi_exit_code info) (utf8_lossy stderr))).

(** The polls that fit in the timeout (in ms). *)
Definition probe_iterations (timeout_ms : Z) : Z := Z.max (as_u64 (Z.max timeout_ms 50) `div` 50) 1.

Definition probe_script (port timeout_ms : Z) : string :=
  "i=0; while [ $i -lt " +:+ pretty (probe_iterations timeout_ms) +:+ " ]; do nc -z 127.0.0.1 " +:+
  pretty port +:+ " 2>/dev/null && echo OSB:READY && exit 0; i=$((i+1)); sleep 0.05; done; " +:+
  "echo OSB:TIMEOUT; exit 1".

(** What the probe's streams and exit say. *)
Definition probe_outcome (h : ExecDone) : result bool AgentError :=
  let stdout_text := utf8_lossy (gather_fitting STDERR_KEEP "" (ed_stdout h)) in
  let stderr_text := utf8_lossy (gather_fitting STDERR_KEEP "" (ed_stderr h)) in
  let? info := ok_or (ed_exited h)
    (Runtime "wait_port_listening probe terminated without exit info") in
  if contains stdout_text "OSB:READY" then Ok true
  else if contains stdout_text "OSB:TIMEOUT" then Ok false
  else if xi_command_not_found info
  then Err (Runtime "wait_port_listening requires `sh` and `nc` in the container image")
  else if contains stderr_text "nc:" || contains stderr_text "nc not found"
  then Err (Runtime "wait_port_listening requires `nc` in the container image")
  else Err (exit_text "wait_port_listening probe " (xi_exit_code info) stderr_text).

(** With the time it took, in ms. *)
Definition docker_wait_port_listening (id : ContainerId) (port timeout_ms : Z)
    : ST W (result bool AgentError * Z) := λ w,
  let '(r, w') := (let!? h := docker_start_exec id
                     (plain ["sh"; "-c"; probe_script port timeout_ms]) [] in
                   st_ret (probe_outcome h)) w in
  ((r, now_ms w' - now_ms w)%Z, w').

Definition stat_malformed (trimmed : string) : AgentError :=
  Runtime ("stat output malformed: " +:+ str_debug trimmed).

Definition parse_stat (stdout : bytes) : result FileRevision AgentError :=
  let trimmed := str_trim (utf8_lossy stdout) in
  let parts := split_whitespace trimmed in
  let? mtime := ok_or (parts !! 0 ≫= parse_u64) (stat_malformed trimmed) in
  let? size := ok_or (parts !! 1 ≫= parse_u64) (stat_malformed trimmed) in
  Ok {| fr_revision := pretty mtime +:+ ":" +:+ pretty size; fr_size := size |}.

Definition docker_stat_revision (id : ContainerId) (path : string) (cwd : option string)
    : ST W (result FileRevision AgentError) :=
  let resolved := resolve_path path cwd in
  let! stdout := exec_collect_stdout id ["stat"; "-c"; "%Y %s"; "--"; resolved] in
  st_ret (let? stdout := map_err (list_error resolved) stdout in parse_stat stdout).

Definition docker_write_files_targz (id : ContainerId) (cwd : option string) (tarball : bytes)
    : ST W (result () AgentError) :=
  let target_cwd := default DEFAULT_WRITE_CWD cwd in
  let!? mkdir := docker_start_exec id (plain ["mkdir"; "-p"; target_cwd]) [] in
  let!? _ := st_ret (drain_to_exit mkdir) in
  let!? extract := docker_start_exec id (plain ["tar"; "xzf"; "-"; "-C"; target_cwd]) [tarball] in
  st_ret (if negb (ed_stdin_open extract) then Err (send_failed "write_files_targz tar")
          else fed "write_files_targz tar" extract).

#[global] Instance DockerFiles : ContainerFiles W := {|
  read_file := docker_read_file;
  write_file := docker_write_file;
  write_files_targz := docker_write_files_targz;
  list_dir := docker_list_dir;
  stat_revision := docker_stat_revision;
  delete_file := docker_delete_file;
  wait_port_listening := docker_wait_port_listening;
|}.
End docker_files.

(** ** Listings: what the script prints is what the parser reads *)

(** An entry of a directory as [stat] and [readlink] describe it. *)
Record Listed := {
  li_name : string; li_type : string; li_size : Z; li_mtime : Z; li_mode : string;
  li_target : string;
}.

(** The body of the line the script prints for it. *)
Definition listed_body (l : Listed) : string :=
  li_name l +:+ String "|" (li_type l +:+ String "|" (pretty (li_size l) +:+ String "|"
    (pretty (li_mtime l) +:+ String "|" (li_mode l +:+ String "|" (li_target l))))).
Definition listed_line (l : Listed) : string := ("OSB:" +:+ listed_body l) +:+ nl.
Definition listed_entry (l : Listed) : DirEntry :=
  {| de_name := li_name l;
     de_entry_type := entry_type_of (li_type l);
     de_size := li_size l;
     de_revision := pretty (li_mtime l) +:+ ":" +:+ pretty (li_size l);
     de_mode := pad_mode (li_mode l);
     de_target := if decide (entry_type_of (li_type l) = ESymlink) then li_target l else "" |}.

(** Names the format can carry: no separator and no newline; a link's target may have a bar. *)
Record listable (l : Listed) : Prop := {
  lb_name : li_name l ≠ "";
  lb_bars : free_of "|" (li_name l +:+ li_type l +:+ li_mode l) = true;
  lb_lines : one_line (li_name l +:+ li_type l +:+ li_mode l +:+ li_target l) = true;
  lb_cr : chop_cr (String "|" (li_target l)) = String "|" (li_target l);
  lb_size : in_u64 (li_size l);
  lb_mtime : in_u64 (li_mtime l);
}.

Lemma splitn_column n c w s :
  free_of c w = true → splitn (S (S n)) c (w +:+ String c s) = w :: splitn (S n) c s.
Proof.
  intros Hw. cbn [splitn]. rewrite before_char_app by done. f_equal. f_equal.
  change (String c s) with (String c "" +:+ s). by rewrite <- string_app_assoc, strip_prefix_app.
Qed.

(** The lines of a text of lines. *)
Lemma str_lines_lines bodies :
  Forall (λ l, one_line l = true ∧ chop_cr l = l) bodies →
  str_lines (flatten ((λ l, l +:+ nl) <$> bodies)) = bodies.
Proof.
  unfold str_lines. induction 1 as [|l bodies [Hl Hc] _ IH]; [done|]. cbn [fmap list_fmap].
  change (flatten ((l +:+ nl) :: ((λ l, l +:+ nl) <$> bodies)))
    with ((l +:+ nl) +:+ flatten ((λ l, l +:+ nl) <$> bodies)).
  rewrite string_app_assoc. set (rest := flatten _) in *. change (nl +:+ rest) with (String "010" rest).
  rewrite str_split_line by done. destruct (str_split_cons "010" rest) as (w & ws & E).
  rewrite E in *. cbn [lines_of]. rewrite Hc. by f_equal.
Qed.

(** Only the last character decides. *)
Lemma chop_cr_suffix s a t :
  chop_cr (String a t) = String a t → chop_cr (s +:+ String a t) = s +:+ String a t.
Proof.
  unfold chop_cr. rewrite string_rev_app_distr. pose proof (string_rev_length (String a t)) as Hlen.
  destruct (string_rev (String a t)) as [|b r]; [done|]. rewrite string_app_cons.
  case_decide; [|done]. intros Hc. apply (f_equal String.length) in Hc.
  rewrite string_rev_length in Hc. cbn in Hlen, Hc. lia.
Qed.

Lemma digits_free_of_bar n : (0 ≤ n)%Z → free_of "|" (pretty n) = true.
Proof.
  intros Hn. eapply string_forallb_impl, pretty_Z_digits, Hn. intros a Ha.
  destruct (decide (a = "|"%char)) as [->|?]; [by vm_compute in Ha|]. by rewrite bool_decide_false.
Qed.

Lemma free_of_app c s t : free_of c (s +:+ t) = free_of c s && free_of c t.
Proof. apply string_forallb_app. Qed.

Lemma parse_list_line_listed l :
  listable l → parse_list_line ("OSB:" +:+ listed_body l) = Some (listed_entry l).
Proof.
  intros [Hname Hbars _ _ Hsize Hmtime]. rewrite !free_of_app, !andb_true_iff in Hbars.
  destruct Hbars as (Hbn & Hbt & Hbm). unfold in_u64 in *.
  unfold parse_list_line, listed_body. rewrite strip_prefix_app. cbn [mbind option_bind].
  rewrite !splitn_column by first [done|apply digits_free_of_bar; lia].
  cbn [splitn lookup list_lookup default from_option id mbind option_bind].
  rewrite decide_False by done. unfold default, id, parse_u64.
  rewrite !parse_unsigned_pretty by (unfold u64_max; lia). done.
Qed.

Lemma listed_line_ok l :
  listable l →
  one_line ("OSB:" +:+ listed_body l) = true ∧
  chop_cr ("OSB:" +:+ listed_body l) = "OSB:" +:+ listed_body l.
Proof.
  intros [_ _ Hlines Hcr Hsize Hmtime]. unfold in_u64 in *. split.
  - unfold listed_body, one_line in *. rewrite !string_forallb_app in Hlines.
    rewrite !andb_true_iff in Hlines. destruct Hlines as (Hn & Ht & Hm & Htg).
    pose proof (digits_no_newline _ (pretty_Z_digits (li_size l) ltac:(lia))) as Hs.
    pose proof (digits_no_newline _ (pretty_Z_digits (li_mtime l) ltac:(lia))) as Hmt.
    unfold one_line in Hs, Hmt.
    repeat (rewrite string_forallb_app; cbn [string_forallb]).
    by rewrite Hn, Ht, Hm, Htg, Hs, Hmt.
  - unfold listed_body.
    replace (li_name l +:+ _) with
      ((li_name l +:+ String "|" (li_type l +:+ String "|" (pretty (li_size l) +:+ String "|"
        (pretty (li_mtime l) +:+ String "|" (li_mode l))))) +:+ String "|" (li_target l))
      by (repeat (rewrite string_app_assoc || rewrite string_app_cons); done).
    rewrite <- string_app_assoc. by apply chop_cr_suffix.
Qed.

(** The directory listing the script prints is parsed back to exactly the entries it
    printed, in order, at most [LIST_DIR_MAX_ENTRIES] of them, with the true count and the
    truncation flag set exactly when some are left out: for every list of entries whose names
    hold no bar and no line break. *)
Theorem listing_roundtrip ls dir :
  Forall listable ls →
  is_utf8 (flatten (listed_line <$> ls)) = true →
  parse_portable_list_output (flatten (listed_line <$> ls)) dir =
    Ok {| dl_path := dir;
          dl_entries := take LIST_DIR_MAX_ENTRIES (listed_entry <$> ls);
          dl_truncated := bool_decide (LIST_DIR_MAX_ENTRIES < length ls);
          dl_total_entries := Z.of_nat (length ls) |}.
Proof.
  intros Hls Htext. apply bool_decide_eq_true in Htext. unfold parse_portable_list_output.
  rewrite Htext. replace (listed_line <$> ls) with
    ((λ b, b +:+ nl) <$> ((λ l, "OSB:" +:+ listed_body l) <$> ls)) by (by rewrite <- list_fmap_compose).
  rewrite str_lines_lines.
  2:{ apply Forall_fmap. eapply Forall_impl; [done|]. intros l. apply listed_line_ok. }
  assert (omap parse_list_line ((λ l, "OSB:" +:+ listed_body l) <$> ls) = listed_entry <$> ls) as ->.
  { clear Htext. induction Hls as [|l ls Hl _ IH]; [done|]. cbn [fmap list_fmap omap list_omap].
    rewrite parse_list_line_listed by done. by f_equal. }
  rewrite length_take, length_fmap. do 2 f_equal. apply bool_decide_ext. lia.
Qed.

(** ** Writing a file

    A container's files and directories by path, and what the commands do to them. *)

Inductive Node := NFile (content : bytes) | NDir.
Abbreviation Fs := (gmap string Node).
#[global] Instance Node_eq_dec : EqDecision Node.
Proof. solve_decision. Defined.

(** Where [mv] puts what it moves. *)
Definition base_name (path : string) : string :=
  match before_last "/" path with
  | Some dir => default path (strip_prefix (dir +:+ "/") path)
  | None => path
  end.
Definition mv_destination (fs : Fs) (source target : string) : string :=
  if decide (fs !! target = Some NDir) then target +:+ "/" +:+ base_name source else target.

(** The commands the backend changes files with. *)
Inductive Command :=
| CMkdir (dir : string) | CTee (t : string) | CMv (source target : string) | CRm (t : string)
| COther.
Definition command_of (argv : list string) : Command :=
  match argv with
  | ["mkdir"; "-p"; dir] => CMkdir dir
  | ["tee"; t] => CTee t
  | ["mv"; source; target] => CMv source target
  | ["rm"; "-f"; t] => CRm t
  | _ => COther
  end.

(** The change a command that got [input] and ended with [code] may have made. *)
Definition posix_ran (argv : list string) (input : bytes) (code : Z) (fs fs' : Fs) : Prop :=
  match command_of argv with
  | CMkdir dir =>
      ∀ p, fs' !! p = fs !! p ∨ fs !! p = None ∧ fs' !! p = Some NDir ∧ ∃ r, dir = p +:+ r
  | CTee t =>
      (∀ p, p ≠ t → fs' !! p = fs !! p) ∧
      (fs !! t ≠ Some NDir → code = 0%Z → fs' !! t = Some (NFile input))
  | CMv source target =>
      (code ≠ 0%Z → fs' = fs) ∧
      (code = 0%Z → ∃ n, fs !! source = Some n ∧
        fs' = <[mv_destination fs source target := n]> (delete source fs))
  | CRm t => ∀ p, p ≠ t → fs' !! p = fs !! p
  | COther => True
  end.

(** What the daemon and the commands promise. An exec may get only a first part of its input;
    [delivers]: it gets all of it. *)
Class PosixContainer (W : Type) `{!DockerExecs W} := {
  files : W → ContainerId → Fs;
  delivers : string → W → Prop;
  files_root : ∀ w id, files w id !! "/" = Some NDir;
  files_uuid : ∀ w id, files (new_v4_simple w).2 id = files w id;
  files_create : ∀ cid opts w id, files (create_exec cid opts w).2 id = files w id;
  files_inspect : ∀ exec_id w id, files (inspect_exec exec_id w).2 id = files w id;
  files_run : ∀ cid opts argv exec_id stdin w w1,
    create_exec cid opts w = (Ok exec_id, w1) →
    ceo_cmd opts = wrap_command_with_inpid_marker argv →
    ∃ code got rest, (0 ≤ code < 256)%Z ∧ flatten stdin = got +:+ rest ∧
      (delivers exec_id w1 → rest = "") ∧
      posix_ran argv got code (files w1 cid) (files (run_exec exec_id false stdin w1).2 cid) ∧
      ∀ c, (inspect_exec exec_id (run_exec exec_id false stdin w1).2).1 = Ok (Some c) → c = code;
}.

Lemma before_last_split c s w : before_last c s = Some w → ∃ r, s = w +:+ String c r.
Proof.
  revert w. induction s as [|a s IH]; intros w; cbn; [done|].
  destruct (before_last c s) as [w'|].
  - intros [= <-]. destruct (IH w' eq_refl) as [r ->]. by exists r.
  - case_decide; [|done]. intros [= <-]. subst. by exists s.
Qed.

(** The directory the target is in is not below the target. *)
Lemma parent_dir_above path r : parent_dir path = path +:+ r → path = "/" ∨ path = "." ∨ path = "".
Proof.
  unfold parent_dir. destruct (before_last "/" path) as [w|] eqn:E.
  - apply before_last_split in E as [r' ->]. destruct w as [|a w].
    + intros He. left. apply (f_equal String.length) in He as Hl. revert He Hl.
      rewrite string_app_nil, string_app_cons. intros [= He]. by destruct r'.
    + intros He. apply (f_equal String.length) in He. rewrite !string_app_length in He.
      cbn in He. lia.
  - destruct path as [|a path]; [by auto|]. rewrite string_app_cons. intros [= <- He].
    destruct path; [by auto|done].
Qed.

Section atomic.
Context {W : Type} `{!Docker W, !DockerExecs W, !PosixContainer W}.
Implicit Types (w : W) (id : ContainerId).

(** Running a command to its end; a call that fails may have run it or not. *)
Lemma docker_exec_ran id argv stdin w r w' :
  docker_start_exec id (plain argv) stdin w = (r, w') →
  files w' id = files w id ∧ (∃ e, r = Err e) ∨
  ∃ code got rest, flatten stdin = got +:+ rest ∧ ((∀ x v, delivers x v) → rest = "") ∧
    posix_ran argv got code (files w id) (files w' id) ∧
    ∀ h info, r = Ok h → ed_exited h = Some info → xi_exit_code info = 0%Z → code = 0%Z.
Proof.
  unfold docker_start_exec, st_bind, st_ret.
  pose proof (files_create id (exec_options (plain argv)) w id) as Hc.
  destruct (create_exec id (exec_options (plain argv)) w) as [[x|e] w1] eqn:Ec; cbn in Hc.
  2:{ intros [= <- <-]. left. eauto. }
  destruct (files_run id (exec_options (plain argv)) argv x stdin w w1 Ec eq_refl)
    as (code & got & rest & Hcode & Hin & Hdel & Hran & Hins).
  destruct (run_exec x false stdin w1) as [started w2]; cbn in Hran, Hins. rewrite Hc in Hran.
  pose proof (files_inspect x w2 id) as Hi.
  assert (∀ w', files w' id = files w2 id → posix_ran argv got code (files w id) (files w' id)) as Hw'.
  { by intros ? ->. }
  intros Hrun. right. exists code, got, rest.
  split; [done|]. split; [eauto|].
  destruct started as [[a|]|e]; simplify_eq/=; [|by eauto..].
  destruct (demux_output demux_start (at_output a)) as [d ended]. destruct ended.
  - destruct (inspect_exec x w2) as [ins w3] eqn:Ei; cbn in *. simplify_eq. split; [by apply Hw'|].
    intros h info Hr Hinfo Hz. destruct (captured_pid _) as [pid|]; cbn in Hr; simplify_eq/=.
    destruct ins as [[c|]|]; cbn in Hz; [|done..]. specialize (Hins c eq_refl) as ->.
    unfold as_i32 in Hz. rewrite as_signed_small in Hz by lia. done.
  - simplify_eq. split; [by apply Hw'|]. intros h info Hr Hinfo Hz.
    destruct (captured_pid _) as [pid|]; cbn in Hr; simplify_eq/=.
Qed.

Lemma drained_ok h :
  drain_to_exit h = Ok () → ∃ info, ed_exited h = Some info ∧ xi_exit_code info = 0%Z.
Proof. unfold drain_to_exit. destruct (ed_exited h) as [info|]; [|done]. case_decide; eauto. done. Qed.

Section one_write.
(** [dest]: where the temporary file goes, the target or a place in it when it is a
    directory. *)
Context (id : ContainerId) (resolved temp dest : string) (content : bytes) (fs0 : Fs).
Hypothesis Htemp : fs0 !! temp = None.
Hypothesis Hdest : dest = mv_destination fs0 temp resolved.
Hypothesis Hne : temp ≠ dest ∧ temp ≠ resolved.
Hypothesis Habove : ∀ r, parent_dir resolved ≠ temp +:+ r ∧
  (fs0 !! resolved = Some NDir ∨ parent_dir resolved ≠ resolved +:+ r) ∧ parent_dir resolved ≠ dest +:+ r.

(** Regular files keep their content at [p]. *)
Definition same_file (fs : Fs) (p : string) : Prop :=
  ∀ b, fs !! p = Some (NFile b) ↔ fs0 !! p = Some (NFile b).
(** The target and the place for the file are as they were. *)
Definition targets_kept (fs : Fs) : Prop :=
  fs !! resolved = fs0 !! resolved ∧ fs !! dest = fs0 !! dest.
(** Nothing but the temporary file has changed. *)
Definition staged (fs : Fs) : Prop :=
  (∀ p, p ≠ temp → same_file fs p) ∧ targets_kept fs ∧ fs !! temp ≠ Some NDir.
(** What is at the place in the end. *)
Definition delivered (fs : Fs) : Prop :=
  ∃ b rest, content = b +:+ rest ∧ ((∀ x v, delivers x v) → rest = "") ∧
    fs !! dest = Some (NFile b).
Definition untorn (fs : Fs) : Prop :=
  (∀ p, p ≠ temp → p ≠ dest → same_file fs p) ∧
  (fs !! dest = fs0 !! dest ∨ delivered fs).

Lemma staged_untorn fs : staged fs → untorn fs.
Proof. intros (H1 & [_ H2] & _). split; [auto|by left]. Qed.

Lemma untorn_temp fs fs' : (∀ p, p ≠ temp → fs' !! p = fs !! p) → untorn fs → untorn fs'.
Proof.
  destruct Hne as [Hne' _]. intros Hs [H1 H2]. split.
  - intros p ? ? b. rewrite Hs by done. by apply H1.
  - unfold delivered in *. by rewrite (Hs dest) by done.
Qed.

Lemma mkdir_stages stdin w r w' :
  docker_start_exec id (plain ["mkdir"; "-p"; parent_dir resolved]) stdin w = (r, w') →
  files w id = fs0 → staged (files w' id).
Proof.
  intros [[-> _]|(code & got & rest & _ & _ & Hran & _)]%docker_exec_ran Hw.
  - rewrite Hw. split; [done|]. split; [done|]. by rewrite Htemp.
  - cbn in Hran. rewrite Hw in Hran. split; [|split; [split|]].
    + intros p _ b. destruct (Hran p) as [->|(H1 & H2 & _)]; [done|]. by rewrite H1, H2.
    + destruct (Hran resolved) as [->|(Hn & _ & r' & Hr)]; [done|].
      destruct (Habove r') as (_ & [?|?] & _); [congruence|done].
    + destruct (Hran dest) as [->|(_ & _ & r' & Hr)]; [done|]. by destruct (Habove r') as (_ & _ & []).
    + destruct (Hran temp) as [->|(_ & _ & r' & Hr)]; [by rewrite Htemp|].
      by destruct (Habove r') as [[] _].
Qed.

Lemma tee_stages w r w' :
  docker_start_exec id (plain ["tee"; temp]) [content] w = (r, w') → staged (files w id) →
  untorn (files w' id) ∧
  ∀ h info, r = Ok h → ed_exited h = Some info → xi_exit_code info = 0%Z →
    (∀ p, p ≠ temp → same_file (files w' id) p) ∧ targets_kept (files w' id) ∧
    ∃ got rest, content = got +:+ rest ∧ ((∀ x v, delivers x v) → rest = "") ∧
      files w' id !! temp = Some (NFile got).
Proof.
  intros [[Hw [e ->]]|(code & got & rest & Hin & Hdel & [Hs Ht] & Hz)]%docker_exec_ran Hst.
  { rewrite Hw. split; [by apply staged_untorn|done]. }
  split; [by eapply untorn_temp, staged_untorn|]. intros h info Hh Hx H0.
  destruct Hst as (H1 & [H2 H2'] & H3). destruct Hne. split; [|split].
  - intros p Hp b. rewrite Hs by done. by apply H1.
  - split; by rewrite Hs by done.
  - exists got, rest. cbn in Hin. rewrite string_app_nil_r in Hin. split; [done|]. split; [done|].
    apply Ht; [done|]. by eapply Hz.
Qed.

Lemma cleanup_untorn w r w' :
  cleanup_tmp_file id temp w = (r, w') → untorn (files w id) → untorn (files w' id).
Proof.
  unfold cleanup_tmp_file, st_bind, st_ret.
  destruct (docker_start_exec id (plain ["rm"; "-f"; temp]) [] w) as [r' w2] eqn:E.
  intros [= <- <-]. apply docker_exec_ran in E as [[-> _]|(code & got & rest & _ & _ & Hs & _)];
    [done|]. by apply untorn_temp.
Qed.

Lemma mv_moves w r w' got rest :
  docker_start_exec id (plain ["mv"; temp; resolved]) [] w = (r, w') →
  (∀ p, p ≠ temp → same_file (files w id) p) → targets_kept (files w id) →
  content = got +:+ rest → ((∀ x v, delivers x v) → rest = "") →
  files w id !! temp = Some (NFile got) →
  untorn (files w' id) ∧
  ∀ h info, r = Ok h → ed_exited h = Some info → xi_exit_code info = 0%Z →
    delivered (files w' id) ∧ files w' id !! temp = None ∧
    (dest ≠ resolved → files w' id !! resolved = fs0 !! resolved).
Proof.
  intros Hrun Hsame [Hres Hplace] Hgot Hdel Hfile. destruct Hne as [Hne1 Hne2].
  assert (untorn (files w id)) as Hun by (split; [auto|by left]).
  apply docker_exec_ran in Hrun as [[-> [e ->]]|(code & got' & rest' & _ & _ & [Hf Hs] & Hz)]; [done|].
  destruct (decide (code = 0)%Z) as [H0|Hn0].
  - destruct (Hs H0) as (n & Hn & ->). assert (n = NFile got) as -> by congruence.
    assert (mv_destination (files w id) temp resolved = dest) as ->
      by (rewrite Hdest; unfold mv_destination; by rewrite Hres).
    assert (delivered (<[dest:=NFile got]> (delete temp (files w id)))) as Hd.
    { exists got, rest. by rewrite lookup_insert_eq. }
    split.
    + split; [|by right]. intros p Hp Hp'. intros b.
      rewrite lookup_insert_ne, lookup_delete_ne by done. by apply Hsame.
    + intros _ _ _ _ _. split; [done|]. split; [by rewrite lookup_insert_ne, lookup_delete_eq by done|].
      intros Hd'. by rewrite lookup_insert_ne, lookup_delete_ne by done.
  - rewrite (Hf Hn0). split; [done|]. intros h info Hh Hx H0. destruct Hn0. by eapply Hz.
Qed.
End one_write.

Lemma fed_ok what h :
  fed what h = Ok () → ∃ info, ed_exited h = Some info ∧ xi_exit_code info = 0%Z.
Proof. unfold fed. destruct (ed_exited h) as [info|]; [|done]. case_decide; eauto. done. Qed.

Lemma parent_dir_length path : path ≠ "" → String.length (parent_dir path) ≤ String.length path.
Proof.
  intros Hp. unfold parent_dir. destruct (before_last "/" path) as [w|] eqn:E.
  - apply before_last_split in E as [r ->]. rewrite string_app_length.
    destruct w; cbn; lia.
  - destruct path; [done|]. cbn. lia.
Qed.

(** The parent directory is above the target, the temporary file and the place it goes to. *)
Lemma parent_dir_below fs resolved uuid r :
  fs !! "/" = Some NDir → resolved ≠ "" → resolved ≠ "." →
  let temp := parent_dir resolved +:+ "/.opensb." +:+ uuid +:+ ".tmp" in
  parent_dir resolved ≠ temp +:+ r ∧
  (fs !! resolved = Some NDir ∨ parent_dir resolved ≠ resolved +:+ r) ∧
  parent_dir resolved ≠ mv_destination fs temp resolved +:+ r.
Proof.
  intros Hroot Hemp Hdot temp.
  assert (fs !! resolved = Some NDir ∨ parent_dir resolved ≠ resolved +:+ r) as Hres.
  { destruct (decide (fs !! resolved = Some NDir)) as [|Hn]; [by left|right].
    intros [->|[->| ->]]%parent_dir_above; done. }
  split; [|split; [done|]].
  - intros He%(f_equal String.length). unfold temp in He. rewrite !string_app_length in He. cbn in He. lia.
  - unfold mv_destination. case_decide; [|naive_solver].
    intros He%(f_equal String.length). rewrite !string_app_length in He. cbn in He.
    pose proof (parent_dir_length resolved Hemp). lia.
Qed.

(** C21: A write to a file of a container is all or nothing. The place it writes is the target,
    or, where the target is a directory, the temporary file's name in that directory, for that
    is where mv puts it. Whatever step fails, every other regular file of the container keeps
    its content, and the place holds either what it held or bytes of the new content written
    through the temporary file: never a mixture. When the call succeeds the place holds what
    the daemon delivered of the content (all of it, when the daemon delivers its input), the
    temporary file is gone from where it was written, and a directory target is still one. The
    root directory itself, whose place is the temporary file, is left out. *)
Theorem docker_write_file_atomic id path cwd content w :
  let resolved := resolve_path path cwd in
  let temp := parent_dir resolved +:+ "/.opensb." +:+ (new_v4_simple w).1 +:+ ".tmp" in
  let place := if decide (files w id !! resolved = Some NDir)
               then resolved +:+ "/" +:+ base_name temp else resolved in
  files w id !! temp = None → temp ≠ place → temp ≠ resolved → resolved ≠ "" → resolved ≠ "." →
  let '(r, w') := docker_write_file id path cwd content w in
  untorn temp place content (files w id) (files w' id) ∧
  (r = Ok () → delivered place content (files w' id) ∧ files w' id !! temp = None ∧
     (place ≠ resolved → files w' id !! resolved = files w id !! resolved)).
Proof.
  intros resolved temp place Htemp Hplace Hne Hemp Hdot.
  assert (∀ r, parent_dir resolved ≠ temp +:+ r ∧
    (files w id !! resolved = Some NDir ∨ parent_dir resolved ≠ resolved +:+ r) ∧
    parent_dir resolved ≠ place +:+ r) as Habove.
  { intros r. apply (parent_dir_below (files w id) resolved _ r); [apply files_root|done..]. }
  pose proof (conj Hplace Hne) as Hne'. assert (place = mv_destination (files w id) temp resolved) as Hdest by done.
  clearbody place. unfold docker_write_file. fold resolved. unfold st_bind at 1.
  revert temp Htemp Hplace Hne Habove Hne' Hdest.
  pose proof (files_uuid w id) as Hu. destruct (new_v4_simple w) as [uuid w0]. cbn [fst snd] in *.
  rewrite <- Hu in *. set (temp := _ +:+ "/.opensb." +:+ uuid +:+ ".tmp").
  intros Htemp Hplace Hne Habove Hne' Hdest.
  unfold st_bind_ok, st_bind, st_ret.
  destruct (docker_start_exec id (plain ["mkdir"; _; _]) [] w0) as [r1 w1] eqn:E1.
  assert (staged resolved temp place (files w0 id) (files w1 id)) as H1 by by eapply mkdir_stages.
  assert (untorn temp place content (files w0 id) (files w1 id)) as H1' by by eapply staged_untorn.
  destruct r1 as [mkdir|e]; [|done]. destruct (drain_to_exit mkdir); [|done].
  destruct (docker_start_exec id (plain ["tee"; temp]) [content] w1) as [r2 w2] eqn:E2.
  destruct (tee_stages _ _ _ _ _ _ Hne' _ _ _ E2 H1) as [H2 H2'].
  destruct r2 as [writer|e]; [|done]. destruct (ed_stdin_open writer); cbn [negb].
  2:{ destruct (cleanup_tmp_file id temp w2) as [r3 w3] eqn:E3. split; [|done].
      by eapply cleanup_untorn. }
  destruct (ed_exited writer) as [info|] eqn:Ex; [|split; [done|]; unfold fed; by rewrite Ex].
  destruct (fed "write_file tee" writer) as [[]|e] eqn:Ef.
  2:{ destruct (cleanup_tmp_file id temp w2) as [r3 w3] eqn:E3. split; [|done].
      by eapply cleanup_untorn. }
  apply fed_ok in Ef as (info' & Hx & H0).
  destruct (H2' writer info' eq_refl Hx H0) as (Hsame & Hres & got & rest & Hgot & Hdel & Hfile).
  destruct (docker_start_exec id (plain ["mv"; temp; resolved]) [] w2) as [r4 w4] eqn:E4.
  destruct (mv_moves _ _ _ _ _ _ Hdest Hne' _ _ _ _ _ E4 Hsame Hres Hgot Hdel Hfile) as [H4 H4'].
  destruct r4 as [mv|e]; [|done]. destruct (drain_to_exit mv) as [[]|e] eqn:Ed.
  - split; [done|]. intros _. apply drained_ok in Ed as (info4 & Hx4 & H04). by eapply H4'.
  - destruct (cleanup_tmp_file id temp w4) as [r5 w5] eqn:E5. split; [|done].
    by eapply cleanup_untorn.
Qed.
End atomic.

Module DockerFilesExamples.
(** One container, its last command, how much of its input a process gets ([None]: all), and
    the exit code of the last command. *)
Record Box := { bx_fs : Fs; bx_argv : list string; bx_keep : option nat; bx_code : Z }.

Definition view (w : Box) : Fs := <["/" := NDir]> (bx_fs w).

Definition exec_small (argv : list string) (input : bytes) (fs : Fs) : Fs * Z :=
  match command_of argv with
  | CMkdir dir => match fs !! dir with None => (<[dir := NDir]> fs, 0) | Some _ => (fs, 0) end
  | CTee t => if decide (fs !! t = Some NDir) then (fs, 1) else (<[t := NFile input]> fs, 0)
  | CMv source target =>
      if decide (source = "/" ∨ mv_destination fs source target = "/") then (fs, 1) else
      match fs !! source with
      | None => (fs, 1)
      | Some n => (<[mv_destination fs source target := n]> (delete source fs), 0)
      end
  | CRm t => (delete t fs, 0)
  | COther => (fs, 127)
  end%Z.

Definition got (w : Box) (stdin : list bytes) : bytes :=
  match bx_keep w with None => flatten stdin | Some n => string_take n (flatten stdin) end.

#[local] Arguments exec_small : simpl never.
#[local] Arguments view : simpl never.
#[local] Arguments got : simpl never.

#[local] Instance BoxDocker : Docker Box := {
  create_image _ w := (Ok (), w); inspect_image _ w := (Ok (), w);
  create_container _ _ w := (Ok "c", w); start_container _ w := (Ok (), w);
  remove_container _ w := (Ok (), w); pause_container _ w := (Ok (), w);
  unpause_container _ w := (Ok (), w); stop_container _ _ w := (Ok (), w);
  list_containers _ w := (Ok [], w); bind_port w := (Ok (Ok 40000%Z), w);
  docker_sleep _ w := ((), w); docker_display _ := "docker error";
}.

#[local] Instance BoxExecs : DockerExecs Box := {
  create_exec _ opts w :=
    (Ok "x", {| bx_fs := bx_fs w; bx_argv := drop 4 (ceo_cmd opts); bx_keep := bx_keep w;
                bx_code := bx_code w |});
  run_exec _ _ stdin w :=
    let '(fs, code) := exec_small (bx_argv w) (got w stdin) (view w) in
    (Ok (Some {| at_output := [(true, true, Ok (LStdErr (marker_line "7")))];
                 at_marker_ms := 0; at_stdin_open := true |}),
     {| bx_fs := fs; bx_argv := bx_argv w; bx_keep := bx_keep w; bx_code := code |});
  inspect_exec _ w := (Ok (Some (bx_code w)), w);
  new_v4_simple w := ("0123", w);
  now_ms _ := 0%Z;
}.

Lemma exec_small_ran argv input fs :
  fs !! "/" = Some NDir →
  posix_ran argv input (exec_small argv input fs).2 fs
    (<["/" := NDir]> (exec_small argv input fs).1) ∧
  (0 ≤ (exec_small argv input fs).2 < 256)%Z.
Proof.
  intros Hroot. unfold exec_small, posix_ran. destruct (command_of argv) as [dir|t|a b|t|].
  - destruct (fs !! dir) as [n|] eqn:Ed; cbn; (split; [|done]); intros p.
    + left. by rewrite insert_id.
    + rewrite insert_id by (rewrite lookup_insert_ne by congruence; done).
      destruct (decide (p = dir)) as [->|]; [right|left; by rewrite lookup_insert_ne].
      rewrite lookup_insert_eq. split; [done|]. split; [done|]. exists "". by rewrite string_app_nil_r.
  - case_decide as Ht; cbn; (split; [|done]).
    + by rewrite insert_id.
    + rewrite insert_id by (rewrite lookup_insert_ne by congruence; done). split.
      * intros p Hp. by rewrite lookup_insert_ne.
      * intros _ _. by rewrite lookup_insert_eq.
  - case_decide as Hd; [cbn; rewrite insert_id by done; by split|].
    destruct (fs !! a) as [n|] eqn:Ea; cbn; [|rewrite insert_id by done; by split].
    split; [|done]. split; [done|]. intros _. exists n. split; [done|].
    rewrite insert_id; [done|]. rewrite lookup_insert_ne, lookup_delete_ne by naive_solver. done.
  - cbn. split; [|done]. intros p Hp. destruct (decide (p = "/")) as [->|].
    + by rewrite lookup_insert_eq.
    + by rewrite lookup_insert_ne, lookup_delete_ne by done.
  - done.
Qed.

#[local] Instance BoxPosix : PosixContainer Box.
Proof.
  refine {| files w _ := view w; delivers _ w := bx_keep w = None |}.
  - intros w _. apply lookup_insert_eq.
  - done.
  - done.
  - done.
  - intros cid opts argv x stdin w w1 [= <- <-] Hcmd.
    rewrite Hcmd. cbn [wrap_command_with_inpid_marker app drop]. rewrite ?drop_0.
    set (w1 := {| bx_fs := bx_fs w; bx_argv := argv; bx_keep := bx_keep w; bx_code := bx_code w |}).
    pose proof (exec_small_ran argv (got w1 stdin) (view w1) (lookup_insert_eq _ _ _)) as [Hran Hcode].
    cbn [run_exec BoxExecs bx_argv w1]. fold w1.
    destruct (exec_small argv (got w1 stdin) (view w1)) as [fs code]. cbn in Hran, Hcode.
    destruct (string_take_prefix (default 0 (bx_keep w)) (flatten stdin)) as [rest Hrest].
    exists code, (got w1 stdin), (match bx_keep w with None => "" | Some _ => rest end).
    split; [done|]. split; [|split; [cbn; by intros ->|split; [exact Hran|by intros c [= <-]]]].
    unfold got. cbn. destruct (bx_keep w); [done|by rewrite string_app_nil_r].
Defined.

Definition home : Box :=
  {| bx_fs := {["/home" := NDir; "/home/a" := NFile "old"; "/home/b" := NFile "other"]};
     bx_argv := []; bx_keep := None; bx_code := 0 |}.

Lemma docker_write_file_atomic_witness :
  let '(r, w') := docker_write_file "c" "a" None "new content" home in
  r = Ok () ∧ delivered "/home/a" "new content" (files w' "c") ∧
  files w' "c" !! "/home/.opensb.0123.tmp" = None.
Proof.
  unshelve epose proof (docker_write_file_atomic "c" "a" None "new content" home _ _ _ _ _) as H;
    [evaluate|intros E; vm_compute in E; discriminate..|].
  assert ((docker_write_file "c" "a" None "new content" home).1 = Ok ()) as Hr by evaluate.
  destruct (docker_write_file "c" "a" None "new content" home) as [r w']. cbn in Hr.
  split; [exact Hr|]. destruct (proj2 H Hr) as (H1 & H2 & _). split; [exact H1|exact H2].
Defined.

(** A daemon that loses the end of the input: the write is reported as done. *)
Example lost_input_goes_unnoticed :
  let '(r, w') := docker_write_file "c" "a" None "new content"
    {| bx_fs := bx_fs home; bx_argv := []; bx_keep := Some 3; bx_code := 0 |} in
  r = Ok () ∧ files w' "c" !! "/home/a" = Some (NFile "new").
Proof. by vm_compute. Qed.

(** A target that is a directory: the write is reported as done, and the content is in the
    temporary file, now inside the directory. *)
Example write_to_directory :
  let '(r, w') := docker_write_file "c" "/home" None "text" home in
  r = Ok () ∧ files w' "c" !! "/home" = Some NDir ∧
  files w' "c" !! "/home/.opensb.0123.tmp" = Some (NFile "text").
Proof. by vm_compute. Qed.

Definition some_entries : list Listed :=
  [{| li_name := "a b.txt"; li_type := "regular file"; li_size := 12; li_mtime := 1700000000;
      li_mode := "644"; li_target := "" |};
   {| li_name := "link"; li_type := "symbolic link"; li_size := 5; li_mtime := 7;
      li_mode := "777"; li_target := "x|y" |}].

Lemma listing_roundtrip_witness :
  Forall listable some_entries ∧
  parse_portable_list_output (flatten (listed_line <$> some_entries)) "/home" =
    Ok {| dl_path := "/home";
          dl_entries := take LIST_DIR_MAX_ENTRIES (listed_entry <$> some_entries);
          dl_truncated := bool_decide (LIST_DIR_MAX_ENTRIES < length some_entries);
          dl_total_entries := 2 |}.
Proof.
  assert (Forall listable some_entries) as Hl.
  { repeat constructor; cbn; (done || evaluate || (by vm_compute) || (unfold in_u64; lia)). }
  split; [exact Hl|]. apply (listing_roundtrip some_entries "/home" Hl). evaluate.
Defined.
End DockerFilesExamples.
