(* ===== verification/DockerLegacyLs.v ===== *)
(** * The parser of [ls -lAn] output (crates/agent-docker/src/lib.rs)

    Kept in the source beside the parser of the portable listing (DockerFiles.v), and agreeing
    with it: the two read the same entry from what [ls] and what the script print of a file. *)

From S2P Require Import Prelude RustText Contracts ControllerCore IoFrames AgentSandbox AgentIo DockerRuntime DockerExec DockerFiles.

(** [u8::is_ascii_whitespace]. *)
Definition is_ascii_whitespace (a : ascii) : bool := bool_decide (a ∈ [" "; "009"; "010"; "012"; "013"]%char).

Fixpoint skip_whitespace (s : string) : string :=
  match s with
  | String a s' => if is_ascii_whitespace a then skip_whitespace s' else s
  | "" => ""
  end.
Fixpoint take_word (s : string) : string * string :=
  match s with
  | String a s' => if is_ascii_whitespace a then ("", s) else let '(w, r) := take_word s' in (String a w, r)
  | "" => ("", "")
  end.

(** [take_token]: the token and what the cursor is at after it. *)
Definition take_token (s : string) : option (string * string) :=
  match take_word (skip_whitespace s) with ("", _) => None | (w, r) => Some (w, r) end.

(** [str::split_once] with a string. *)
Fixpoint split_once_str (sep s : string) : option (string * string) :=
  match strip_prefix sep s with
  | Some rest => Some ("", rest)
  | None => match s with
            | "" => None
            | String a s' => '(before, after) ← split_once_str sep s'; Some (String a before, after)
            end
  end.

(** The byte at an index below the length. *)
Definition byte_at (i : nat) (s : string) : ascii := default "000"%char (String.get i s).

Definition mode_triplet (s : string) : option Z :=
  if decide (String.length s < 3) then None else
  let r := if decide (byte_at 0 s = "r"%char) then 4%Z else 0%Z in
  let w := if decide (byte_at 1 s = "w"%char) then 2%Z else 0%Z in
  let x := if decide (byte_at 2 s ∈ ["x"; "s"; "t"]%char) then 1%Z else 0%Z in
  Some (r + w + x)%Z.

Definition mode_string_to_octal (mode_str : string) : option string :=
  if decide (String.length mode_str < 10) then None else
  owner ← mode_triplet (String.substring 1 3 mode_str);
  group ← mode_triplet (String.substring 4 3 mode_str);
  other ← mode_triplet (String.substring 7 3 mode_str);
  let bit (i : nat) (cs : list ascii) (b : Z) : Z := if decide (byte_at i mode_str ∈ cs) then b else 0%Z in
  let high := Z.lor (Z.lor (bit 3 ["s"; "S"]%char 4%Z) (bit 6 ["s"; "S"]%char 2%Z)) (bit 9 ["t"; "T"]%char 1%Z) in
  Some (pretty high +:+ pretty owner +:+ pretty group +:+ pretty other).

Definition kind_of (mode_str : string) : EntryType :=
  match mode_str with
  | String "-" _ => EFile
  | String "d" _ => EDir
  | String "l" _ => ESymlink
  | _ => EOther
  end.

Definition parse_ls_entry_line (line : string) : option DirEntry :=
  '(mode_str, s) ← take_token line;
  '(_, s) ← take_token s;
  '(_, s) ← take_token s;
  '(_, s) ← take_token s;
  '(size_str, s) ← take_token s;
  '(mtime_str, s) ← take_token s;
  let name_field := skip_whitespace s in
  if decide (name_field = "") then None else
  let entry_type := kind_of mode_str in
  let '(name, target) :=
    if decide (entry_type = ESymlink) then default (name_field, "") (split_once_str " -> " name_field)
    else (name_field, "") in
  let size := default 0%Z (parse_u64 size_str) in
  let mtime := default 0%Z (parse_u64 mtime_str) in
  Some {| de_name := name; de_entry_type := entry_type; de_size := size;
          de_revision := pretty mtime +:+ ":" +:+ pretty size;
          de_mode := default mode_str (mode_string_to_octal mode_str); de_target := target |}.

Definition parse_ls_line (raw_line : string) : option DirEntry :=
  let line := str_trim_end raw_line in
  if decide (line = "") then None
  else if starts_with line "total " then None
  else parse_ls_entry_line line.

Definition parse_ls_lan_output (stdout : bytes) (dir_path : string) : result DirListing AgentError :=
  let all := omap parse_ls_line (str_lines (utf8_lossy stdout)) in
  let entries := take LIST_DIR_MAX_ENTRIES all in
  Ok {| dl_path := dir_path; dl_entries := entries;
        dl_truncated := bool_decide (length entries < length all);
        dl_total_entries := Z.of_nat (length all) |}.

(** ** Modes *)

(** How [ls] writes the permissions of a mode, and [stat]'s [%a], padded. *)
Definition rwx (m : Z) (special : bool) (with_x without_x : ascii) : string :=
  let exec := Z.testbit m 0 in
  String (if Z.testbit m 2 then "r" else "-")%char (String (if Z.testbit m 1 then "w" else "-")%char
    (String (if special then if exec then with_x else without_x else if exec then "x" else "-")%char "")).
Definition ls_permissions (m : Z) : string :=
  rwx (Z.shiftr m 6) (Z.testbit m 11) "s" "S" +:+ rwx (Z.shiftr m 3) (Z.testbit m 10) "s" "S" +:+
  rwx m (Z.testbit m 9) "t" "T".
Definition octal_mode (m : Z) : string :=
  pretty (Z.shiftr m 9) +:+ pretty (Z.land (Z.shiftr m 6) 7) +:+ pretty (Z.land (Z.shiftr m 3) 7) +:+
  pretty (Z.land m 7).

(** Every mode is read back. *)
Lemma mode_roundtrip kind m :
  (0 ≤ m < 4096)%Z → mode_string_to_octal (String kind (ls_permissions m)) = Some (octal_mode m).
Proof.
  intros Hm. assert (forallb (λ m, bool_decide (mode_string_to_octal (String kind (ls_permissions m)) =
    Some (octal_mode m))) (seqZ 0 4096) = true) as Hall by (vm_compute; reflexivity).
  rewrite forallb_forall in Hall. apply (bool_decide_eq_true_1 _), Hall, list_elem_of_In, elem_of_seqZ. lia.
Qed.

(** ** Lines *)

(** A line of [ls]: the columns may be padded on the left. *)
Record LsLine := {
  ll_kind : ascii; ll_mode : Z; ll_links : string; ll_uid : string; ll_gid : string;
  ll_size : Z; ll_mtime : Z; ll_name : string; ll_target : string;
}.
Definition ls_word (s : string) : bool := string_forallb (λ a, negb (is_ascii_whitespace a)) s && bool_decide (s ≠ "").
Definition spaces (s : string) : bool := string_forallb (λ a, bool_decide (a = " "%char)) s.

Definition ls_line (p1 p2 p3 p4 : string) (l : LsLine) : string :=
  let col p w s := String " " (p +:+ w +:+ s) in
  String (ll_kind l) (ls_permissions (ll_mode l)) +:+ col p1 (ll_links l) (col p2 (ll_uid l) (col p3 (ll_gid l)
    (col p4 (pretty (ll_size l)) (String " " (pretty (ll_mtime l) +:+ String " " (ll_name l +:+
      (if decide (ll_kind l = "l"%char) then " -> " +:+ ll_target l else ""))))))).

Record ls_printable (l : LsLine) : Prop := {
  lp_kind : is_ascii_whitespace (ll_kind l) = false;
  lp_mode : (0 ≤ ll_mode l < 4096)%Z;
  lp_links : ls_word (ll_links l) = true;
  lp_uid : ls_word (ll_uid l) = true;
  lp_gid : ls_word (ll_gid l) = true;
  lp_size : in_u64 (ll_size l);
  lp_mtime : in_u64 (ll_mtime l);
  lp_name : ∃ a s, ll_name l = String a s ∧ is_ascii_whitespace a = false;
  lp_arrow : ll_kind l = "l"%char → split_once_str " -> " (ll_name l +:+ " -> " +:+ ll_target l) =
    Some (ll_name l, ll_target l);
}.

Lemma skip_spaces p s : spaces p = true → skip_whitespace (p +:+ s) = skip_whitespace s.
Proof.
  induction p as [|a p IH]; [done|]. cbn. intros [Ha Hp]%andb_true_iff. apply bool_decide_eq_true in Ha as ->. by apply IH.
Qed.
Lemma take_word_app w s :
  string_forallb (λ a, negb (is_ascii_whitespace a)) w = true → take_word (w +:+ String " " s) = (w, String " " s).
Proof.
  induction w as [|a w IH]; [done|]. intros [Ha Hw]%andb_true_iff. rewrite string_app_cons. cbn [take_word].
  apply negb_true_iff in Ha. rewrite Ha, IH; done.
Qed.

(** A padded column. *)
Lemma take_column p w s :
  spaces p = true → ls_word w = true → take_token (p +:+ w +:+ String " " s) = Some (w, String " " s).
Proof.
  intros Hp [Hw Hne%bool_decide_eq_true]%andb_true_iff. unfold take_token. rewrite skip_spaces by done.
  destruct w as [|a w]; [done|]. pose proof Hw as [Ha _]%andb_true_iff. apply negb_true_iff in Ha.
  rewrite string_app_cons at 1. cbn [skip_whitespace]. rewrite Ha. change (String a (w +:+ String " " s)) with (String a w +:+ String " " s).
  by rewrite take_word_app.
Qed.

Lemma digits_word n : (0 ≤ n)%Z → ls_word (pretty n) = true.
Proof.
  intros Hn. apply andb_true_iff. split.
  - eapply string_forallb_impl; [|by apply pretty_Z_digits]. intros a Ha.
    pose proof (all_ascii_spec (λ a, implb (is_digit a) (negb (is_ascii_whitespace a))) ltac:(by vm_compute) a) as Hx.
    cbn in Hx. by rewrite Ha in Hx.
  - apply bool_decide_true. rewrite pretty_Z_N by done. apply pretty_N_nonempty.
Qed.

Definition ls_entry (l : LsLine) : DirEntry :=
  {| de_name := ll_name l; de_entry_type := kind_of (String (ll_kind l) ""); de_size := ll_size l;
     de_revision := pretty (ll_mtime l) +:+ ":" +:+ pretty (ll_size l);
     de_mode := octal_mode (ll_mode l);
     de_target := if decide (ll_kind l = "l"%char) then ll_target l else "" |}.

Lemma kind_link a s : kind_of (String a s) = ESymlink ↔ a = "l"%char.
Proof.
  split; [|by intros ->]. pose proof (all_ascii_spec (λ a, implb (bool_decide (kind_of (String a "") = ESymlink))
    (bool_decide (a = "l"%char))) ltac:(by vm_compute) a) as Hx. cbn beta in Hx. intros Hk.
  assert (kind_of (String a "") = kind_of (String a s)) as Hs by (by destruct a as [[] [] [] [] [] [] [] []]).
  rewrite bool_decide_true in Hx by (by rewrite Hs). by apply bool_decide_eq_true in Hx.
Qed.

(** What [ls] prints of an entry is read back, however its columns are padded and whatever
    its name looks like. *)
Lemma ls_line_roundtrip p1 p2 p3 p4 l :
  Forall (λ p, spaces p = true) [p1; p2; p3; p4] → ls_printable l →
  parse_ls_entry_line (ls_line p1 p2 p3 p4 l) = Some (ls_entry l).
Proof.
  intros Hp [Hk Hm Hl Hu Hg Hs Ht (a & n & Hn & Ha) Harr]. unfold in_u64 in *.
  assert (ls_word (String (ll_kind l) (ls_permissions (ll_mode l))) = true) as Hmode.
  { apply andb_true_iff. split; [|done]. cbn [string_forallb]. rewrite Hk. cbn [negb andb].
    unfold ls_permissions, rwx. rewrite !string_forallb_app. repeat case_match; reflexivity. }
  assert (∀ p w s, spaces p = true → ls_word w = true →
    take_token (String " " (p +:+ w +:+ String " " s)) = Some (w, String " " s)) as Hcol.
  { intros p w s Hps Hw. exact (take_column (String " " p) w s Hps Hw). }
  assert (∀ w s, ls_word w = true → take_token (String " " (w +:+ String " " s)) = Some (w, String " " s)) as Hcol0.
  { intros w s. exact (Hcol "" w s eq_refl). }
  apply Forall_cons in Hp as [H1 Hp]. apply Forall_cons in Hp as [H2 Hp]. apply Forall_cons in Hp as [H3 Hp].
  apply Forall_cons in Hp as [H4 _].
  unfold parse_ls_entry_line, ls_line. cbn beta zeta.
  assert (∀ s, take_token (String (ll_kind l) (ls_permissions (ll_mode l)) +:+ String " " s) =
    Some (String (ll_kind l) (ls_permissions (ll_mode l)), String " " s)) as ->
    by (intros s; exact (take_column "" _ s eq_refl Hmode)). cbn [mbind option_bind].
  rewrite (Hcol p1) by done. cbn [mbind option_bind]. rewrite (Hcol p2) by done. cbn [mbind option_bind].
  rewrite (Hcol p3) by done. cbn [mbind option_bind]. rewrite (Hcol p4) by (done || apply digits_word; lia).
  cbn [mbind option_bind]. rewrite Hcol0 by (apply digits_word; lia). cbn [mbind option_bind].
  set (name := ll_name l +:+ _). assert (skip_whitespace (String " " name) = name) as ->.
  { unfold name. rewrite Hn, string_app_cons. cbn [skip_whitespace]. change (is_ascii_whitespace " ") with true. by rewrite Ha. }
  rewrite decide_False by (unfold name; by rewrite Hn).
  unfold parse_u64. rewrite !parse_unsigned_pretty by (unfold u64_max; lia). rewrite mode_roundtrip by done. cbn [default].
  unfold ls_entry, name. destruct (decide (ll_kind l = "l"%char)) as [Hkl|Hkl].
  - rewrite decide_True by (by apply kind_link). rewrite (Harr Hkl). cbn. by rewrite Hkl.
  - rewrite decide_False by (by intros ?%kind_link). rewrite string_app_nil_r.
    by destruct (ll_kind l) as [[] [] [] [] [] [] [] []].
Qed.

(** Both parsers read the same entry of a file, if the two programs describe it alike. *)
Lemma listings_agree p1 p2 p3 p4 l (x : Listed) :
  Forall (λ p, spaces p = true) [p1; p2; p3; p4] → ls_printable l → listable x →
  li_name x = ll_name l → li_size x = ll_size l → li_mtime x = ll_mtime l →
  entry_type_of (li_type x) = kind_of (String (ll_kind l) "") → pad_mode (li_mode x) = octal_mode (ll_mode l) →
  (ll_kind l = "l"%char → li_target x = ll_target l) →
  parse_ls_entry_line (ls_line p1 p2 p3 p4 l) = parse_list_line ("OSB:" +:+ listed_body x).
Proof.
  intros Hp Hl Hx Hn Hs Ht Hk Hm Htg. rewrite ls_line_roundtrip, parse_list_line_listed by done.
  unfold ls_entry, listed_entry. rewrite Hn, Hs, Ht, Hk, Hm. do 2 f_equal.
  destruct (decide (ll_kind l = "l"%char)) as [Hkl|Hkl].
  - rewrite decide_True by (by apply kind_link). symmetry. auto.
  - by rewrite decide_False by (by intros ?%kind_link).
Qed.
