(* ===== verification/YoukiFiles.v ===== *)
(** * The youki backend: files (crates/agent-youki/src/setns_ops.rs, src/lib.rs)

    The file operations of [YoukiRuntime]: each enters the mount namespace of the container's
    first process on a thread of its own and works on its files directly. The class [Host] is
    what the code calls of the kernel and of libcontainer; [HostFiles] what the kernel
    promises of it. The backend is an instance of the agent's [ContainerFiles]. *)

From S2P Require Import Prelude RustText Contracts UuidRef IoFrames AgentSandbox AgentIo AgentExec DockerRuntime DockerExec DockerFiles.

Inductive ErrorKind := NotFound | DirectoryNotEmpty | OtherKind.
Record IoError := { io_kind : ErrorKind; io_text : string }.

Inductive FileType := TSymlink | TDir | TFile | TOther.
Record Metadata := { md_type : FileType; md_len : Z; md_mtime : Z; md_mode : Z }.

(** An entry [read_dir] yields, with what its metadata and [read_link] give. *)
Record RawEntry := { rw_name : bytes; rw_meta : option Metadata; rw_link : option bytes }.

(** The steps of entering a namespace and leaving it. *)
Inductive NsStep := SpawnThread | OpenSelf | OpenTarget | UnshareFs | Setns | RestoreNs.
Inductive NsKind := MountNs | NetNs.

(** Paths are of the namespace of the process with the given pid; durations are in ns. *)
Class Host (W : Type) := {
  load_pid : ContainerId → W → result (option Z) string;
  ns_step : NsKind → NsStep → Z → ST W (result () string);
  fs_read : Z → string → ST W (result bytes IoError);
  fs_create_dir_all : Z → string → ST W (result () IoError);
  fs_write : Z → string → bytes → ST W (result () IoError);
  fs_rename : Z → string → string → ST W (result () IoError);
  fs_read_dir : Z → string → ST W (result (list (option RawEntry)) IoError);
  fs_metadata : Z → string → ST W (result Metadata IoError);
  fs_symlink_metadata : Z → string → ST W (result Metadata IoError);
  fs_remove_dir_all : Z → string → ST W (result () IoError);
  fs_remove_dir : Z → string → ST W (result () IoError);
  fs_remove_file : Z → string → ST W (result () IoError);
  tar_unpack : Z → string → bytes → ST W (result () string);
  tcp_connect : Z → Z → Z → ST W bool;
  thread_sleep : Z → ST W ();
  instant_now : ST W Z;
  host_v4_simple : ST W string;
}.

Definition WRITE_TARGZ_ALLOWED_PREFIXES : list string := ["/workspace"; "/home"; "/tmp"; "/var/tmp"].

Definition is_target_dir_allowed (path : string) : bool :=
  if existsb (λ seg, bool_decide (seg = "..")) (str_split "/" path) then false
  else existsb (λ p, bool_decide (path = p) || starts_with path (p +:+ "/"))
         WRITE_TARGZ_ALLOWED_PREFIXES.

(** [{:04o}] of a value below 0o10000. *)
Definition octal4 (m : Z) : string :=
  let digit n := chr (48 + Z.to_N ((m / 8 ^ n) `mod` 8))%N in
  String (digit 3%Z) (String (digit 2%Z) (String (digit 1%Z) (String (digit 0%Z) ""))).
Example octal4_modes : octal4 <$> [420; 493; 1023; 8]%Z = ["0644"; "0755"; "1777"; "0010"].
Proof. reflexivity. Qed.

(** [{:?}] of a slice of texts. *)
Fixpoint join_with (sep : string) (l : list string) : string :=
  match l with
  | [] => ""
  | [s] => s
  | s :: l' => s +:+ sep +:+ join_with sep l'
  end.
Definition slice_debug (l : list string) : string :=
  "[" +:+ join_with ", " (str_debug <$> l) +:+ "]".

Definition youki_resolve_path (path : string) (cwd : option string) : string :=
  if starts_with path "/" then path
  else trim_end_matches "/" (default DEFAULT_WRITE_CWD cwd) +:+ "/" +:+ path.

Section youki.
Context {W : Type} `{!Host W}.

Definition container_pid (container_id : ContainerId) (w : W) : result Z AgentError :=
  match load_pid container_id w with
  | Err e => Err (Runtime ("failed to load container: " +:+ e))
  | Ok None => Err (Runtime "container has no PID")
  | Ok (Some pid) => Ok pid
  end.

(** A step that fails ends the operation with its own text. *)
Definition ns (kind : NsKind) (step : NsStep) (pid : Z) (what : string) : ST W (result () AgentError) :=
  let! r := ns_step kind step pid in
  st_ret (map_err (λ e, Runtime (what +:+ ": " +:+ e)) r).

Definition invalid_pid (target_pid : Z) : AgentError :=
  Runtime ("invalid container pid " +:+ pretty target_pid).

(** On the new thread: enter, run [f], restore on every path out of [f]. *)
Definition setns_op_inner {R} (target_pid : Z) (f : ST W (result R AgentError))
    : ST W (result R AgentError) :=
  let!? _ := ns MountNs OpenSelf target_pid "open self mnt ns" in
  let!? _ := ns MountNs OpenTarget target_pid
    ("open target mnt ns /proc/" +:+ pretty target_pid +:+ "/ns/mnt") in
  let!? _ := ns MountNs UnshareFs target_pid "unshare CLONE_FS before setns" in
  let!? _ := ns MountNs Setns target_pid
    ("setns into target mnt ns (pid=" +:+ pretty target_pid +:+ ")") in
  let! r := f in
  let! _ := ns_step MountNs RestoreNs target_pid in
  st_ret r.

Definition run_in_container_mount_ns {R} (target_pid : Z) (f : ST W (result R AgentError))
    : ST W (result R AgentError) :=
  if decide (target_pid ≤ 0)%Z then st_ret (Err (invalid_pid target_pid)) else
  let!? _ := ns MountNs SpawnThread target_pid "spawn setns thread" in
  setns_op_inner target_pid f.

(** [map_err(|e| ... format!("{what}: {e}"))] *)
Definition io {R} (what : string) (op : ST W (result R IoError)) : ST W (result R AgentError) :=
  let! r := op in st_ret (map_err (λ e, Runtime (what +:+ ": " +:+ io_text e)) r).
(** The same with a missing path told apart. *)
Definition io_at {R} (what path : string) (op : ST W (result R IoError)) : ST W (result R AgentError) :=
  let! r := op in
  st_ret (map_err (λ e, Runtime (match io_kind e with
                                 | NotFound => "No such file: " +:+ path
                                 | _ => what +:+ " " +:+ path +:+ ": " +:+ io_text e
                                 end)) r).

Definition read_file_in_ns (target_pid : Z) (path : string) : ST W (result bytes AgentError) :=
  run_in_container_mount_ns target_pid (io_at "read" path (fs_read target_pid path)).

Definition write_file_in_ns (target_pid : Z) (path : string) (content : bytes)
    : ST W (result () AgentError) :=
  let parent := default "." (path_parent path) in
  let! uuid := host_v4_simple in
  let temp := parent +:+ "/.opensb." +:+ uuid +:+ ".tmp" in
  run_in_container_mount_ns target_pid (
    let!? _ := if decide (parent = "") then st_ret (Ok ())
               else io ("mkdir -p " +:+ parent) (fs_create_dir_all target_pid parent) in
    let!? _ := io ("write temp " +:+ temp) (fs_write target_pid temp content) in
    let!? _ := io ("rename " +:+ temp +:+ " -> " +:+ path) (fs_rename target_pid temp path) in
    st_ret (Ok ())).

Definition extract_targz_in_ns (target_pid : Z) (target_dir : string) (tarball : bytes)
    : ST W (result () AgentError) :=
  if negb (is_target_dir_allowed target_dir) then
    st_ret (Err (Runtime ("target_dir " +:+ str_debug target_dir +:+
      " is not under an allowed prefix; allowed: " +:+ slice_debug WRITE_TARGZ_ALLOWED_PREFIXES)))
  else
  run_in_container_mount_ns target_pid (
    let!? _ := io ("mkdir -p " +:+ target_dir) (fs_create_dir_all target_pid target_dir) in
    let! r := tar_unpack target_pid target_dir tarball in
    st_ret (map_err (λ e, Runtime ("tar extract into " +:+ target_dir +:+ ": " +:+ e)) r)).

(** ** Listings *)

Definition ns_entry_type (t : FileType) : EntryType :=
  match t with TSymlink => ESymlink | TDir => EDir | TFile => EFile | TOther => EOther end.

Definition revision_of (mtime size : Z) : string := pretty mtime +:+ ":" +:+ pretty size.

Definition ns_dir_entry (name : bytes) (meta : Metadata) (link : option bytes) : DirEntry :=
  let entry_type := ns_entry_type (md_type meta) in
  let size := if decide (entry_type = EDir) then 0%Z else md_len meta in
  {| de_name := utf8_lossy name;
     de_entry_type := entry_type;
     de_size := size;
     de_revision := revision_of (as_u64 (md_mtime meta)) size;
     de_mode := octal4 (Z.land (md_mode meta) 0xFFF);
     de_target := match md_type meta with
                  | TSymlink => utf8_lossy (default "" link)
                  | _ => ""
                  end |}.

(** The loop over the directory: (entries so far, entries seen). *)
Definition ns_list_step (acc : list DirEntry * Z) (raw : option RawEntry) : list DirEntry * Z :=
  let '(entries, total) := acc in
  let total := (total + 1)%Z in
  match raw with
  | None => (entries, total)
  | Some e =>
      if decide (LIST_DIR_MAX_ENTRIES ≤ length entries) then (entries, total)
      else match rw_meta e with
           | None => (entries, total)
           | Some meta => (entries ++ [ns_dir_entry (rw_name e) meta (rw_link e)], total)
           end
  end.

Definition name_le (a b : DirEntry) : Prop := string_le (de_name a) (de_name b).
#[global] Instance name_le_dec : RelDecision name_le.
Proof. intros a b. apply string_le_dec. Defined.

Definition ns_listing (path : string) (read_dir : list (option RawEntry)) : DirListing :=
  let '(entries, total_entries) := foldl ns_list_step ([], 0%Z) read_dir in
  let entries := merge_sort name_le entries in
  {| dl_path := path;
     dl_entries := entries;
     dl_truncated := bool_decide (total_entries > Z.of_nat (length entries))%Z;
     dl_total_entries := total_entries |}.

Definition list_dir_in_ns (target_pid : Z) (path : string) : ST W (result DirListing AgentError) :=
  run_in_container_mount_ns target_pid (
    let!? read_dir := io_at "read_dir" path (fs_read_dir target_pid path) in
    st_ret (Ok (ns_listing path read_dir))).

Definition stat_revision_in_ns (target_pid : Z) (path : string)
    : ST W (result FileRevision AgentError) :=
  run_in_container_mount_ns target_pid (
    let!? meta := io_at "stat" path (fs_metadata target_pid path) in
    let size := match md_type meta with TDir => 0%Z | _ => md_len meta end in
    st_ret (Ok {| fr_revision := revision_of (as_u64 (md_mtime meta)) size; fr_size := size |})).

Definition delete_in_ns (target_pid : Z) (path : string) (recursive : bool)
    : ST W (result () AgentError) :=
  run_in_container_mount_ns target_pid (
    let! meta := fs_symlink_metadata target_pid path in
    match meta with
    | Err e =>
        match io_kind e with
        | NotFound => st_ret (Ok ())
        | _ => st_ret (Err (Runtime ("stat " +:+ path +:+ ": " +:+ io_text e)))
        end
    | Ok meta =>
        match md_type meta with
        | TDir =>
            if recursive then io ("remove_dir_all " +:+ path) (fs_remove_dir_all target_pid path)
            else
              let! r := fs_remove_dir target_pid path in
              st_ret (map_err (λ e, Runtime (match io_kind e with
                | DirectoryNotEmpty => "rm: cannot remove '" +:+ path +:+ "': Directory not empty"
                | _ => "remove_dir " +:+ path +:+ ": " +:+ io_text e
                end)) r)
        | _ => io ("remove_file " +:+ path) (fs_remove_file target_pid path)
        end
    end).

(** ** The port probe *)

Definition PROBE_INTERVAL : Z := 50 * 1000000.

(** How the loop ends: [Err] for a port that is no port. *)
Inductive ProbeEnd := Probed (ready : bool) | BadAddr.

(** One more iteration for each unit of fuel; [None]: the fuel did not suffice. *)
Fixpoint probe_loop (fuel : nat) (target_pid port timeout started : Z) : ST W (option ProbeEnd) :=
  match fuel with
  | O => st_ret None
  | S fuel =>
      let! now := instant_now in
      if decide (timeout ≤ now - started)%Z then st_ret (Some (Probed false))
      else if decide (port > 65535)%Z then st_ret (Some BadAddr)
      else
      let! now := instant_now in
      let left := (timeout - (now - started))%Z in
      if decide (left ≤ 0)%Z then st_ret (Some (Probed false)) else
      let! connected := tcp_connect target_pid port (Z.min left PROBE_INTERVAL) in
      if connected : bool then st_ret (Some (Probed true)) else
      let! now := instant_now in
      let remaining := Z.max 0 (timeout - (now - started)) in
      let sleep := Z.min PROBE_INTERVAL remaining in
      if decide (sleep = 0)%Z then st_ret (Some (Probed false)) else
      let! _ := thread_sleep sleep in
      probe_loop fuel target_pid port timeout started
  end.

(** A sleep lasts at least what it was asked to, so two iterations more than there are
    intervals in the timeout are enough. *)
Definition probe_fuel (timeout : Z) : nat := Z.to_nat (timeout / PROBE_INTERVAL + 2).

(** On the probe's thread, until the loop starts. *)
Definition enter_net_ns (target_pid : Z) : ST W (result () AgentError) :=
  let!? _ := ns NetNs SpawnThread target_pid "spawn setns net-probe thread" in
  let!? _ := ns NetNs OpenSelf target_pid "open self net ns" in
  let!? _ := ns NetNs OpenTarget target_pid
    ("open target net ns /proc/" +:+ pretty target_pid +:+ "/ns/net") in
  ns NetNs Setns target_pid "setns into target net ns".

Definition wait_port_listening_in_ns (target_pid port timeout : Z)
    : ST W (option (result bool AgentError)) :=
  if decide (target_pid ≤ 0)%Z then st_ret (Some (Err (invalid_pid target_pid))) else
  let! entered := enter_net_ns target_pid in
  match entered with
  | Err e => st_ret (Some (Err e))
  | Ok _ =>
      let! started := instant_now in
      let! r := probe_loop (probe_fuel timeout) target_pid port timeout started in
      match r with
      | None => st_ret None
      | Some BadAddr =>
          st_ret (Some (Err (Runtime ("invalid probe addr 127.0.0.1:" +:+ pretty port))))
      | Some (Probed ready) =>
          let! _ := ns_step NetNs RestoreNs target_pid in st_ret (Some (Ok ready))
      end
  end.

(** ** The backend *)

Definition with_pid {R} (id : ContainerId) (k : Z → ST W (result R AgentError))
    : ST W (result R AgentError) := λ w,
  match container_pid id w with Err e => (Err e, w) | Ok pid => k pid w end.

#[global] Instance YoukiFiles : ContainerFiles W := {|
  read_file id path cwd := with_pid id (λ pid, read_file_in_ns pid (youki_resolve_path path cwd));
  write_file id path cwd content :=
    with_pid id (λ pid, write_file_in_ns pid (youki_resolve_path path cwd) content);
  write_files_targz id cwd tarball :=
    with_pid id (λ pid, extract_targz_in_ns pid (default DEFAULT_WRITE_CWD cwd) tarball);
  list_dir id path cwd := with_pid id (λ pid, list_dir_in_ns pid (youki_resolve_path path cwd));
  stat_revision id path cwd :=
    with_pid id (λ pid, stat_revision_in_ns pid (youki_resolve_path path cwd));
  delete_file id path cwd recursive :=
    with_pid id (λ pid, delete_in_ns pid (youki_resolve_path path cwd) recursive);
  wait_port_listening id port timeout_ms :=
    let! before := instant_now in
    let! r := with_pid id (λ pid,
      let! r := wait_port_listening_in_ns pid port (timeout_ms * 1000000) in
      st_ret (default (Err (AgentInternal "probe did not end")) r)) in
    let! after := instant_now in
    st_ret (r, (after - before) `div` 1000000)%Z;
|}.
End youki.

(** ** What the kernel promises *)

Class HostFiles (W : Type) `{!Host W} := {
  (** the files of the namespace of a process *)
  ns_files : W → Z → gmap string Node;
  hf_step : ∀ kind step pid w q, ns_files (ns_step kind step pid w).2 q = ns_files w q;
  hf_uuid : ∀ w q, ns_files (host_v4_simple w).2 q = ns_files w q;
  hf_create_dir_all : ∀ pid dir w p,
    let fs := ns_files w pid in
    let fs' := ns_files (fs_create_dir_all pid dir w).2 pid in
    fs' !! p = fs !! p ∨ fs !! p = None ∧ fs' !! p = Some NDir ∧ ∃ r, dir = p +:+ r;
  hf_write : ∀ pid t b w,
    let fs := ns_files w pid in
    let fs' := ns_files (fs_write pid t b w).2 pid in
    (∀ p, p ≠ t → fs' !! p = fs !! p) ∧
    ((fs_write pid t b w).1 = Ok () → fs' !! t = Some (NFile b));
  (** [rename(2)]: of a file onto a directory it fails *)
  hf_rename : ∀ pid a b w,
    let fs := ns_files w pid in
    let fs' := ns_files (fs_rename pid a b w).2 pid in
    match (fs_rename pid a b w).1 with
    | Err _ => fs' = fs
    | Ok _ => ∃ n, fs !! a = Some n ∧ (fs !! b = Some NDir → n = NDir) ∧
                fs' = <[b := n]> (delete a fs)
    end;
}.

Class HostTime (W : Type) `{!Host W} := {
  clock : W → Z;
  ht_now : ∀ w, (clock w ≤ (instant_now w).1 ≤ clock (instant_now w).2)%Z;
  ht_ns : ∀ kind step pid w, (clock w ≤ clock (ns_step kind step pid w).2)%Z;
  ht_connect : ∀ pid port d w, (clock w ≤ clock (tcp_connect pid port d w).2)%Z;
  ht_sleep : ∀ d w, (clock w + d ≤ clock (thread_sleep d w).2)%Z;
}.

(** ** Paths *)

Lemma trim_tail_length fuel s : String.length (trim_tail fuel s) ≤ String.length s.
Proof.
  revert s. induction fuel as [|fuel IH]; intros s; [done|].
  destruct s as [|a [|b s]]; [done| |].
  - destruct a as [[] [] [] [] [] [] [] []]; cbn; lia.
  - specialize (IH (String b s)) as H1. cbn [trim_tail].
    repeat case_match; subst; cbn in *; try lia.
Qed.

Lemma trim_path_length s : String.length (trim_path s) ≤ String.length s.
Proof.
  unfold trim_path. rewrite string_rev_length. etrans; [apply trim_tail_length|].
  by rewrite string_rev_length.
Qed.

(** A trailing separator is trimmed. *)
Lemma trim_path_slash dir : dir ≠ "" → String.length (trim_path (dir +:+ "/")) ≤ String.length dir.
Proof.
  intros Hd. unfold trim_path. rewrite string_rev_length, string_rev_app_distr.
  change (string_rev "/" +:+ string_rev dir) with (String "/" (string_rev dir)).
  pose proof (string_rev_length dir) as Hl. destruct (string_rev dir) as [|a r].
  { destruct dir; [done|]. by cbn in Hl. }
  rewrite string_app_length, Nat.add_comm. cbn [String.length Nat.add trim_tail].
  etrans; [apply trim_tail_length|]. by rewrite Hl.
Qed.

Lemma path_parent_shorter p d :
  path_parent p = Some d → String.length d < String.length p ∨ d = "/".
Proof.
  unfold path_parent. pose proof (trim_path_length p) as Hp. set (s := trim_path p) in *.
  case_decide as Hs; [done|]. intros [= <-].
  destruct (before_last "/" s) as [dir|] eqn:E.
  - destruct dir as [|a dir]; [by right|]. left.
    apply before_last_split in E as [r E]. rewrite E, string_app_length in Hp.
    pose proof (trim_path_slash (String a dir) ltac:(done)) as Ht. cbn in Hp, Ht |- *. lia.
  - left. destruct s; [naive_solver|]. cbn in *. lia.
Qed.

(** The parent directory is not at or below the path itself. *)
Lemma parent_not_below p r :
  p ≠ "" → p ≠ "/" → p ≠ "." → default "." (path_parent p) ≠ p +:+ r.
Proof.
  intros H1 H2 H3 He. destruct (path_parent p) as [d|] eqn:E; cbn in He.
  - apply path_parent_shorter in E as [Hl|Hd].
    + rewrite He, string_app_length in Hl. lia.
    + rewrite Hd in He. destruct p as [|a p]; [done|]. rewrite string_app_cons in He.
      injection He as <- Hp. destruct p; [done|]. by rewrite string_app_cons in Hp.
  - destruct p as [|a p]; [done|]. rewrite string_app_cons in He. injection He as <- Hp.
    destruct p; [done|]. by rewrite string_app_cons in Hp.
Qed.

Section write.
Context {W : Type} `{!Host W, !HostFiles W}.
Implicit Types (w : W) (pid : Z).

(** Entering and leaving the namespace leaves the files alone. *)
Lemma ns_keeps kind step pid what w q :
  ns_files (ns kind step pid what w).2 q = ns_files w q.
Proof.
  unfold ns, st_bind, st_ret. pose proof (hf_step kind step pid w q) as H.
  by destruct (ns_step kind step pid w).
Qed.

Lemma run_in_ns_files {R} pid (f : ST W (result R AgentError)) w (P : result R AgentError → gmap string Node → Prop) :
  (∀ e, P (Err e) (ns_files w pid)) →
  (∀ w1, ns_files w1 pid = ns_files w pid → P (f w1).1 (ns_files (f w1).2 pid)) →
  let '(r, w') := run_in_container_mount_ns pid f w in P r (ns_files w' pid).
Proof.
  intros Herr Hf. unfold run_in_container_mount_ns. case_decide; [apply Herr|].
  unfold setns_op_inner, st_bind_ok, st_bind, st_ret.
  repeat match goal with
  | |- context [ns ?k ?s ?p ?t ?v] =>
      let H := fresh "Hk" in pose proof (ns_keeps k s p t v pid) as H;
      destruct (ns k s p t v) as [[[]|] ?]; cbn [snd] in H
  end; try (by repeat match goal with H : ns_files _ _ = _ |- _ => rewrite H end).
  match goal with |- context [f ?v] =>
    specialize (Hf v); destruct (f v) as [r wf]; cbn [fst snd] in Hf;
    pose proof (hf_step MountNs RestoreNs pid wf pid) as Hres;
    destruct (ns_step MountNs RestoreNs pid wf); cbn [snd] in Hres end.
  rewrite Hres. apply Hf. congruence.
Qed.

(** A write in a youki container is all or nothing: whatever step fails, every other
    regular file keeps its content and the target holds either what it held or exactly the new
    content; success means the new content is there and the temporary file is gone. *)
Theorem youki_write_file_atomic pid path content w :
  let temp := default "." (path_parent path) +:+ "/.opensb." +:+ (host_v4_simple w).1 +:+ ".tmp" in
  temp ≠ path → path ≠ "" → path ≠ "/" → path ≠ "." →
  let '(r, w') := write_file_in_ns pid path content w in
  (∀ p b, p ≠ temp → p ≠ path →
    ns_files w' pid !! p = Some (NFile b) ↔ ns_files w pid !! p = Some (NFile b)) ∧
  (ns_files w' pid !! path = ns_files w pid !! path ∨
   ns_files w' pid !! path = Some (NFile content)) ∧
  (r = Ok () → ns_files w' pid !! path = Some (NFile content) ∧ ns_files w' pid !! temp = None).
Proof.
  intros temp Hne H1 H2 H3. unfold write_file_in_ns, st_bind at 1. revert temp Hne.
  pose proof (hf_uuid w pid) as Hu. destruct (host_v4_simple w) as [uuid w0]. cbn [fst snd] in *.
  rewrite <- Hu. set (parent := default "." (path_parent path)).
  set (temp := parent +:+ "/.opensb." +:+ uuid +:+ ".tmp"). intros Hne.
  apply (run_in_ns_files pid _ w0 (λ r fs',
    (∀ p b, p ≠ temp → p ≠ path → fs' !! p = Some (NFile b) ↔ ns_files w0 pid !! p = Some (NFile b)) ∧
    (fs' !! path = ns_files w0 pid !! path ∨ fs' !! path = Some (NFile content)) ∧
    (r = Ok () → fs' !! path = Some (NFile content) ∧ fs' !! temp = None))).
  { intros e. split; [done|]. split; [by left|done]. }
  intros w1 <-. unfold st_bind_ok, st_bind.
  (* the directory *)
  assert (∃ r1 w2, (if decide (parent = "") then st_ret (Ok ())
      else io ("mkdir -p " +:+ parent) (fs_create_dir_all pid parent)) w1 = (r1, w2) ∧
    (∀ p b, ns_files w2 pid !! p = Some (NFile b) ↔ ns_files w1 pid !! p = Some (NFile b)) ∧
    ns_files w2 pid !! path = ns_files w1 pid !! path) as (r1 & w2 & -> & Hm1 & Hm2).
  { case_decide; [by eexists _, _|]. unfold io, st_bind, st_ret.
    pose proof (hf_create_dir_all pid parent w1) as Hm. cbn in Hm.
    destruct (fs_create_dir_all pid parent w1) as [r1 w2]; cbn [snd] in Hm.
    eexists _, _. split; [done|]. split.
    - intros p b. destruct (Hm p) as [->|(E1 & E2 & _)]; [done|]. by rewrite E1, E2.
    - destruct (Hm path) as [->|(_ & _ & r & Hr)]; [done|]. by apply parent_not_below in Hr. }
  destruct r1 as [[]|e]; [|split; [intros; apply Hm1|split; [by left|done]]].
  (* the temporary file *)
  unfold io, st_bind, st_ret. pose proof (hf_write pid temp content w2) as [Hw1 Hw2].
  destruct (fs_write pid temp content w2) as [r2 w3]; cbn [fst snd] in Hw1, Hw2.
  assert (ns_files w3 pid !! path = ns_files w1 pid !! path) as Hpath by by rewrite Hw1, Hm2.
  assert (∀ p b, p ≠ temp → ns_files w3 pid !! p = Some (NFile b) ↔ ns_files w1 pid !! p = Some (NFile b))
    as Hothers by (intros p b Hp; rewrite Hw1 by done; apply Hm1).
  destruct r2 as [[]|e]; cbn [map_err]; [|split; [by auto|by split; [left|]]].
  (* the move *)
  pose proof (hf_rename pid temp path w3) as Hr. cbn in Hr.
  destruct (fs_rename pid temp path w3) as [[[]|e] w4]; cbn [fst snd] in Hr; cbn [map_err fst snd].
  - destruct Hr as (n & Hn & Hdir & ->). rewrite (Hw2 eq_refl) in Hn. injection Hn as <-.
    split; [|rewrite lookup_insert_eq, lookup_insert_ne, lookup_delete_eq by done; by auto].
    intros p b Hp Hp'. rewrite lookup_insert_ne, lookup_delete_ne by done. by apply Hothers.
  - rewrite Hr. split; [by auto|]. by split; [left|].
Qed.
End write.

(** ** Uploads stay where they may go *)

(** C36: An upload is unpacked only below one of the allowed directories: the target's path,
    resolved segment by segment, stays below an allowed prefix; any other target is refused
    before the container's namespace is entered and nothing is changed. *)
Theorem targz_stays_in_allowed_dirs {W} `{!Host W} pid target_dir tarball (w : W) :
  match is_target_dir_allowed target_dir with
  | true => ∃ p, p ∈ WRITE_TARGZ_ALLOWED_PREFIXES ∧ walk [] p `prefix_of` walk [] target_dir
  | false => ∃ e, extract_targz_in_ns pid target_dir tarball w = (Err (Runtime e), w)
  end.
Proof.
  destruct (is_target_dir_allowed target_dir) eqn:E.
  - unfold is_target_dir_allowed in E. destruct (existsb _ (str_split _ _)) eqn:Ed; [done|].
    apply existsb_exists in E as (p & Hin & Hp). exists p. split; [by apply list_elem_of_In|].
    apply orb_true_iff in Hp as [->%bool_decide_eq_true|Hp]; [done|].
    apply starts_with_spec in Hp as [t ->]. rewrite string_app_assoc in *.
    change ("/" +:+ t) with (String "/" t) in *. unfold walk.
    rewrite str_split_app in *. rewrite foldl_app. apply walk_below.
    intros Hd. apply not_true_iff_false in Ed. destruct Ed. apply existsb_exists.
    exists "..". split; [|done]. apply list_elem_of_In, elem_of_app. by right.
  - unfold extract_targz_in_ns. rewrite E. by eexists.
Qed.

(** ** The probe ends *)

Section probe.
Context {W : Type} `{!Host W, !HostTime W}.

Lemma probe_loop_ends fuel pid port timeout started (w : W) :
  (timeout - (clock w - started) ≤ (Z.of_nat fuel - 1) * PROBE_INTERVAL)%Z →
  (0 < fuel)%nat →
  ∃ r w', probe_loop fuel pid port timeout started w = (Some r, w') ∧
    (clock w ≤ clock w')%Z ∧ (r = Probed false → timeout ≤ clock w' - started)%Z.
Proof.
  assert (0 < PROBE_INTERVAL)%Z as Hi by (unfold PROBE_INTERVAL; lia).
  revert w. induction fuel as [|fuel IH]; intros w Ht Hf; [lia|]. cbn [probe_loop].
  unfold st_bind, st_ret.
  pose proof (ht_now w) as Hn1. destruct (instant_now w) as [now1 w1]; cbn [fst snd] in Hn1.
  case_decide. { eexists _, _. split; [done|]. lia. }
  case_decide. { eexists _, _. split; [done|]. split; [lia|done]. }
  pose proof (ht_now w1) as Hn2. destruct (instant_now w1) as [now2 w2]; cbn [fst snd] in Hn2.
  case_decide. { eexists _, _. split; [done|]. lia. }
  pose proof (ht_connect pid port (Z.min (timeout - (now2 - started)) PROBE_INTERVAL) w2) as Hc.
  destruct (tcp_connect _ _ _ w2) as [[] w3]; cbn [snd] in Hc.
  { eexists _, _. split; [done|]. split; [lia|done]. }
  pose proof (ht_now w3) as Hn3. destruct (instant_now w3) as [now3 w4]; cbn [fst snd] in Hn3.
  case_decide. { eexists _, _. split; [done|]. lia. }
  set (sleep := Z.min _ _) in *. pose proof (ht_sleep sleep w4) as Hs.
  destruct (thread_sleep sleep w4) as [[] w5]; cbn [snd] in Hs.
  destruct fuel as [|fuel].
  - exfalso. lia.
  - destruct (IH w5) as (r & w' & -> & ? & ?); [|lia|].
    + subst sleep. destruct (Z.min_spec PROBE_INTERVAL (Z.max 0 (timeout - (now3 - started))))
        as [[? E]|[? E]]; rewrite E in *; nia.
    + eexists _, _. split; [done|]. split; [lia|done].
Qed.

Lemma entering_takes_time pid (w : W) :
  ∃ r w', enter_net_ns pid w = (r, w') ∧
    (clock w ≤ clock w')%Z.
Proof.
  unfold enter_net_ns, st_bind_ok, ns, st_bind, st_ret.
  pose proof (ht_ns NetNs SpawnThread pid w). destruct (ns_step _ SpawnThread _ w) as [[[]|] w1];
    cbn [map_err fst snd] in *; [|by eexists _, _].
  pose proof (ht_ns NetNs OpenSelf pid w1). destruct (ns_step _ OpenSelf _ w1) as [[[]|] w2];
    cbn [map_err fst snd] in *; [|eexists _, _; split; [done|lia]].
  pose proof (ht_ns NetNs OpenTarget pid w2). destruct (ns_step _ OpenTarget _ w2) as [[[]|] w3];
    cbn [map_err fst snd] in *; [|eexists _, _; split; [done|lia]].
  pose proof (ht_ns NetNs Setns pid w3). destruct (ns_step _ Setns _ w3) as [r w4].
  cbn [snd] in *. eexists _, _. split; [done|]. lia.
Qed.

(** The port probe of a youki container always comes to an end, after at most two polls
    more than fit in its timeout, and says that nothing listens only when the timeout has
    passed. *)
Theorem youki_probe_ends pid port timeout (w : W) :
  (0 ≤ timeout)%Z →
  ∃ r w', wait_port_listening_in_ns pid port timeout w = (Some r, w') ∧
    (r = Ok false → timeout ≤ clock w' - clock w)%Z.
Proof.
  intros Hto. unfold wait_port_listening_in_ns. case_decide; [by eexists _, _|].
  unfold st_bind, st_ret.
  destruct (entering_takes_time pid w) as (r & w1 & -> & Hw1).
  destruct r as [[]|e]; [|by eexists _, _].
  pose proof (ht_now w1) as Hn. destruct (instant_now w1) as [started w2]; cbn [fst snd] in Hn.
  destruct (probe_loop_ends (probe_fuel timeout) pid port timeout started w2)
    as (r & w3 & -> & Hw3 & Hr).
  - assert (0 < PROBE_INTERVAL)%Z by (unfold PROBE_INTERVAL; lia). unfold probe_fuel.
    pose proof (Z.div_pos timeout PROBE_INTERVAL ltac:(lia) ltac:(lia)).
    pose proof (Z.mod_pos_bound timeout PROBE_INTERVAL ltac:(lia)).
    pose proof (Z.div_mod timeout PROBE_INTERVAL ltac:(lia)). rewrite Z2Nat.id by lia. nia.
  - unfold probe_fuel. assert (0 ≤ timeout / PROBE_INTERVAL)%Z by (apply Z.div_pos; [lia|done]). lia.
  - destruct r as [ready|]; [|by eexists _, _].
    pose proof (ht_ns NetNs RestoreNs pid w3) as Hres.
    destruct (ns_step NetNs RestoreNs pid w3) as [x w4]; cbn [snd] in Hres.
    eexists _, _. split; [done|]. intros [= ->]. specialize (Hr eq_refl). lia.
Qed.
End probe.

(** ** Listings *)

(** The entries of a directory that can be described. *)
Definition described (read_dir : list (option RawEntry)) : list DirEntry :=
  omap (λ raw, e ← raw; meta ← rw_meta e; Some (ns_dir_entry (rw_name e) meta (rw_link e))) read_dir.

Lemma ns_list_loop l entries total :
  foldl ns_list_step (entries, total) l =
    (entries ++ take (LIST_DIR_MAX_ENTRIES - length entries) (described l),
     (total + Z.of_nat (length l))%Z).
Proof.
  revert entries total. induction l as [|raw l IH]; intros entries total; cbn [foldl].
  - cbn. rewrite take_nil, app_nil_r. f_equal. lia.
  - unfold ns_list_step at 2. unfold described. cbn [omap list_omap].
    destruct raw as [e|]; cbn [mbind option_bind].
    2:{ rewrite IH. f_equal. cbn [length]. lia. }
    case_decide as Hc.
    + rewrite IH. replace (LIST_DIR_MAX_ENTRIES - length entries) with 0 by lia.
      f_equal. cbn [length]. lia.
    + destruct (rw_meta e) as [m|]; cbn [mbind option_bind].
      * rewrite IH, length_app. cbn [length]. f_equal; [|lia]. rewrite <- app_assoc. f_equal.
        replace (LIST_DIR_MAX_ENTRIES - length entries)
          with (S (LIST_DIR_MAX_ENTRIES - (length entries + 1))) by lia. done.
      * rewrite IH. f_equal. cbn [length]. lia.
Qed.

#[global] Instance name_le_total : Total name_le.
Proof. intros a b. unfold name_le, string_le. apply String.leb_total. Qed.

(** A youki listing holds the first [LIST_DIR_MAX_ENTRIES] entries of the directory that
    can be described, in the order of their names, with the number of all of them; it is
    flagged as truncated exactly when some entry is missing from it. *)
Theorem youki_listing_sorted path l :
  let d := ns_listing path l in
  dl_entries d ≡ₚ take LIST_DIR_MAX_ENTRIES (described l) ∧
  Sorted name_le (dl_entries d) ∧
  dl_total_entries d = Z.of_nat (length l) ∧
  (dl_truncated d = true ↔ length (dl_entries d) < length l).
Proof.
  unfold ns_listing. rewrite ns_list_loop. cbn [app length dl_entries dl_total_entries dl_truncated].
  rewrite Nat.sub_0_r. split; [apply merge_sort_Permutation|]. split; [apply Sorted_merge_sort, _|].
  split; [lia|]. rewrite bool_decide_eq_true. lia.
Qed.

Module YoukiExamples.
(** A namespace with files and a clock. *)
Record Ns := { nw_fs : gmap string Node; nw_clock : Z; nw_listening : bool }.

Definition with_fs (fs : gmap string Node) (w : Ns) : Ns :=
  {| nw_fs := fs; nw_clock := nw_clock w; nw_listening := nw_listening w |}.
Definition later (d : Z) (w : Ns) : Ns :=
  {| nw_fs := nw_fs w; nw_clock := nw_clock w + Z.max 0 d; nw_listening := nw_listening w |}.
Definition io_error : IoError := {| io_kind := OtherKind; io_text := "refused" |}.

#[local] Instance NsHost : Host Ns := {
  load_pid _ _ := Ok (Some 7%Z);
  ns_step _ _ _ w := (Ok (), w);
  fs_read _ p w := (match nw_fs w !! p with
                    | Some (NFile b) => Ok b
                    | _ => Err {| io_kind := NotFound; io_text := "missing" |} end, w);
  fs_create_dir_all _ d w :=
    (Ok (), match nw_fs w !! d with None => with_fs (<[d := NDir]> (nw_fs w)) w | Some _ => w end);
  fs_write _ t b w := (Ok (), with_fs (<[t := NFile b]> (nw_fs w)) w);
  fs_rename _ a b w :=
    match nw_fs w !! a with
    | Some n => if decide (nw_fs w !! b = Some NDir ∧ n ≠ NDir) then (Err io_error, w)
                else (Ok (), with_fs (<[b := n]> (delete a (nw_fs w))) w)
    | None => (Err io_error, w)
    end;
  fs_read_dir _ _ w := (Ok [], w);
  fs_metadata _ _ w := (Err io_error, w);
  fs_symlink_metadata _ _ w := (Err io_error, w);
  fs_remove_dir_all _ _ w := (Ok (), w);
  fs_remove_dir _ _ w := (Ok (), w);
  fs_remove_file _ p w := (Ok (), with_fs (delete p (nw_fs w)) w);
  tar_unpack _ _ _ w := (Ok (), w);
  tcp_connect _ _ _ w := (nw_listening w, later 1000 w);
  thread_sleep d w := ((), later d w);
  instant_now w := (nw_clock w, w);
  host_v4_simple w := ("0123", w);
}.

#[local] Instance NsHostFiles : HostFiles Ns.
Proof.
  refine {| ns_files w _ := nw_fs w |}; try done.
  - intros pid dir w p. cbn. destruct (nw_fs w !! dir) eqn:E; cbn; [by left|].
    destruct (decide (p = dir)) as [->|]; [right|left; by rewrite lookup_insert_ne].
    split; [done|]. rewrite lookup_insert_eq. split; [done|]. exists "". by rewrite string_app_nil_r.
  - intros pid t b w. cbn. split; [intros p Hp; by rewrite lookup_insert_ne|by rewrite lookup_insert_eq].
  - intros pid a b w. cbn. destruct (nw_fs w !! a) as [n|] eqn:E; [|done].
    case_decide as Hd; [done|]. cbn. exists n. split; [done|]. split; [|done].
    intros Hb. destruct (decide (n = NDir)); [done|]. by destruct Hd.
Defined.

#[local] Instance NsHostTime : HostTime Ns.
Proof. refine {| clock := nw_clock |}; intros; cbn; lia. Defined.

Definition home : Ns :=
  {| nw_fs := {["/home/a" := NFile "old"; "/home/b" := NFile "other"]};
     nw_clock := 5; nw_listening := false |}.

Lemma youki_write_file_atomic_witness :
  let '(r, w') := write_file_in_ns 7 "/home/a" "new" home in
  r = Ok () ∧ ns_files w' 7 !! "/home/a" = Some (NFile "new") ∧
  ns_files w' 7 !! "/home/b" = Some (NFile "other").
Proof.
  unshelve epose proof (youki_write_file_atomic 7 "/home/a" "new" home _ _ _ _) as H;
    [intros E; vm_compute in E; discriminate..|].
  assert ((write_file_in_ns 7 "/home/a" "new" home).1 = Ok ()) as Hr by evaluate.
  destruct (write_file_in_ns 7 "/home/a" "new" home) as [r w']. cbn [fst] in Hr.
  destruct H as (Ho & _ & Hok). split; [exact Hr|]. split; [apply (Hok Hr)|].
  apply Ho; [intros E; vm_compute in E; discriminate..|evaluate].
Defined.

Lemma youki_probe_ends_witness :
  (0 ≤ 120000000)%Z ∧
  ∃ r w', wait_port_listening_in_ns 7 8080 120000000 home = (Some r, w') ∧
    (r = Ok false → 120000000 ≤ clock w' - clock home)%Z.
Proof. split; [lia|]. apply (youki_probe_ends 7 8080 120000000 home). lia. Defined.
End YoukiExamples.
