(* ===== verification/MockRuntime.v ===== *)
(** * The agent's test doubles (crates/agent/src/testutil.rs)

    The runtimes the agent's own tests run on, as instances of the interfaces its theorems are
    about: a programmable one with files and processes, one that always fails, and one that is
    slow. *)

From S2P Require Import Prelude RustText Contracts UuidRef Store MemStore ControllerCore IoFrames ControllerGrpc AgentSandbox AgentIo AgentExec DockerRuntime DockerExec DockerFiles YoukiFiles.

Section mock.
Context `{UuidLib}.

Record SignalRecord := { sr_container_id : ContainerId; sr_pid : Z; sr_signum : Z }.
Record WriteRecord := { wr_container_id : ContainerId; wr_resolved_path : string; wr_bytes : bytes }.

Record MockContainerRuntime := {
  mk_created : Z;
  mk_stopped : Z;
  mk_paused : Z;
  mk_unpaused : Z;
  mk_port_counter : Z;
  mk_existing : list ContainerInfo;
  mk_files : gmap string bytes;
  mk_signals_received : list SignalRecord;
  mk_writes_received : list WriteRecord;
  mk_next_pid : Z;
  mk_listening_ports : gset Z;
}.
Implicit Types (m : MockContainerRuntime).

Definition mock_new : MockContainerRuntime :=
  {| mk_created := 0; mk_stopped := 0; mk_paused := 0; mk_unpaused := 0; mk_port_counter := 9000;
     mk_existing := []; mk_files := ∅; mk_signals_received := []; mk_writes_received := [];
     mk_next_pid := 1000; mk_listening_ports := ∅ |}.

(** [AtomicUsize::fetch_add] wraps. *)
Definition with_counts (created stopped paused unpaused port : Z) m : MockContainerRuntime :=
  {| mk_created := as_u64 created; mk_stopped := as_u64 stopped; mk_paused := as_u64 paused;
     mk_unpaused := as_u64 unpaused; mk_port_counter := as_u64 port;
     mk_existing := mk_existing m; mk_files := mk_files m;
     mk_signals_received := mk_signals_received m; mk_writes_received := mk_writes_received m;
     mk_next_pid := mk_next_pid m; mk_listening_ports := mk_listening_ports m |}.
Definition with_files (files : gmap string bytes) (writes : list WriteRecord) m : MockContainerRuntime :=
  {| mk_created := mk_created m; mk_stopped := mk_stopped m; mk_paused := mk_paused m;
     mk_unpaused := mk_unpaused m; mk_port_counter := mk_port_counter m;
     mk_existing := mk_existing m; mk_files := files;
     mk_signals_received := mk_signals_received m; mk_writes_received := writes;
     mk_next_pid := mk_next_pid m; mk_listening_ports := mk_listening_ports m |}.
Definition with_processes (signals : list SignalRecord) (next_pid : Z) m : MockContainerRuntime :=
  {| mk_created := mk_created m; mk_stopped := mk_stopped m; mk_paused := mk_paused m;
     mk_unpaused := mk_unpaused m; mk_port_counter := mk_port_counter m;
     mk_existing := mk_existing m; mk_files := mk_files m;
     mk_signals_received := signals; mk_writes_received := mk_writes_received m;
     mk_next_pid := next_pid; mk_listening_ports := mk_listening_ports m |}.
Definition with_listening_port (port : Z) m : MockContainerRuntime :=
  {| mk_created := mk_created m; mk_stopped := mk_stopped m; mk_paused := mk_paused m;
     mk_unpaused := mk_unpaused m; mk_port_counter := mk_port_counter m;
     mk_existing := mk_existing m; mk_files := mk_files m;
     mk_signals_received := mk_signals_received m; mk_writes_received := mk_writes_received m;
     mk_next_pid := mk_next_pid m; mk_listening_ports := {[port]} ∪ mk_listening_ports m |}.
Definition with_existing (containers : list ContainerInfo) : MockContainerRuntime :=
  {| mk_created := 0; mk_stopped := 0; mk_paused := 0; mk_unpaused := 0; mk_port_counter := 9000;
     mk_existing := containers; mk_files := ∅; mk_signals_received := []; mk_writes_received := [];
     mk_next_pid := 1000; mk_listening_ports := ∅ |}.
Definition with_file (path : string) (content : bytes) m : MockContainerRuntime :=
  with_files (<[path := content]> (mk_files m)) (mk_writes_received m) m.

(** ** Containers *)

Definition mock_create (config : ContainerConfig)
    : ST MockContainerRuntime (option (result ContainerInfo AgentError)) := λ m,
  (Some (Ok {| ci_id := "mock-" +:+ hyphenated (cc_sandbox_id config);
               ci_sandbox_id := cc_sandbox_id config; ci_host_port := as_u16 (mk_port_counter m);
               ci_state := CRunning |}),
   with_counts (mk_created m + 1) (mk_stopped m) (mk_paused m) (mk_unpaused m) (mk_port_counter m + 1) m).

#[global] Instance MockLifecycle : ContainerRuntime MockContainerRuntime := {|
  create_and_start := mock_create;
  stop_and_remove _ _ m :=
    (Ok (), with_counts (mk_created m) (mk_stopped m + 1) (mk_paused m) (mk_unpaused m) (mk_port_counter m) m);
  pause _ m :=
    (Ok (), with_counts (mk_created m) (mk_stopped m) (mk_paused m + 1) (mk_unpaused m) (mk_port_counter m) m);
  unpause _ m :=
    (Ok (), with_counts (mk_created m) (mk_stopped m) (mk_paused m) (mk_unpaused m + 1) (mk_port_counter m) m);
  list_sandbox_containers m := (Ok (mk_existing m), m);
|}.

(** ** Files *)

Definition mock_resolve_path (path : string) (cwd : option string) : string :=
  if starts_with path "/" then path
  else trim_end_matches "/" (default "/home" cwd) +:+ "/" +:+ path.

Definition no_such_file (resolved : string) : AgentError := Runtime ("No such file: " +:+ resolved).

Definition mock_read_file (id : ContainerId) (path : string) (cwd : option string)
    : ST MockContainerRuntime (result bytes AgentError) := λ m,
  let resolved := mock_resolve_path path cwd in
  (ok_or (mk_files m !! resolved) (no_such_file resolved), m).

Definition mock_write_file (id : ContainerId) (path : string) (cwd : option string) (content : bytes)
    : ST MockContainerRuntime (result () AgentError) := λ m,
  let resolved := mock_resolve_path path cwd in
  (Ok (), with_files (<[resolved := content]> (mk_files m))
    (mk_writes_received m ++ [{| wr_container_id := id; wr_resolved_path := resolved; wr_bytes := content |}]) m).

Definition mock_write_files_targz (id : ContainerId) (cwd : option string) (tarball : bytes)
    : ST MockContainerRuntime (result () AgentError) := λ m,
  (Ok (), with_files (mk_files m)
    (mk_writes_received m ++ [{| wr_container_id := id; wr_resolved_path := default "/home" cwd;
                                 wr_bytes := tarball |}]) m).

Definition mock_revision (b : bytes) : string := "mock:" +:+ pretty (size b).

Definition mock_stat_revision (id : ContainerId) (path : string) (cwd : option string)
    : ST MockContainerRuntime (result FileRevision AgentError) := λ m,
  let resolved := mock_resolve_path path cwd in
  (let? b := ok_or (mk_files m !! resolved) (no_such_file resolved) in
   Ok {| fr_revision := mock_revision b; fr_size := size b |}, m).

(** [sort_by], which is stable: an entry comes after those that are not greater. *)
Fixpoint insert_by_name (e : DirEntry) (es : list DirEntry) : list DirEntry :=
  match es with
  | [] => [e]
  | e' :: es' => if decide (name_le e' e) then e' :: insert_by_name e es' else e :: es
  end.
Definition sort_by_name (es : list DirEntry) : list DirEntry := foldl (λ acc e, insert_by_name e acc) [] es.

Definition leaf_entry (name : string) (b : bytes) : DirEntry :=
  {| de_name := name; de_entry_type := EFile; de_size := size b; de_revision := mock_revision b;
     de_mode := "0644"; de_target := "" |}.
Definition virtual_dir (name : string) : DirEntry :=
  {| de_name := name; de_entry_type := EDir; de_size := 0; de_revision := "mock-dir:0";
     de_mode := "0755"; de_target := "" |}.

Definition dir_prefix (resolved : string) : string :=
  if decide (resolved = "/") then "/" else trim_end_matches "/" resolved +:+ "/".

(** What a file is below a directory: a leaf, part of a subdirectory, or nothing to list. *)
Definition below (prefix : string) (f : string * bytes) : option (string * bytes + string) :=
  rest ← strip_prefix prefix f.1;
  match split_once "/" rest with
  | Some (dir_name, _) => if decide (dir_name = "") then None else Some (inr dir_name)
  | None => Some (inl (rest, f.2))
  end.

Definition mock_entries (resolved : string) (files : gmap string bytes) : list DirEntry :=
  let found := omap (below (dir_prefix resolved)) (map_to_list files) in
  let seen_dirs : gset string := list_to_set (omap (λ x, match x with inr d => Some d | inl _ => None end) found) in
  let leaves := omap (λ x, match x with inl (n, b) => Some (leaf_entry n b) | inr _ => None end) found in
  sort_by_name ((virtual_dir <$> merge_sort string_le (elements seen_dirs)) ++ leaves).

Definition mock_list_dir (id : ContainerId) (path : string) (cwd : option string)
    : ST MockContainerRuntime (result DirListing AgentError) := λ m,
  let resolved := mock_resolve_path path cwd in
  let entries := mock_entries resolved (mk_files m) in
  (Ok {| dl_path := resolved; dl_entries := take LIST_DIR_MAX_ENTRIES entries;
         dl_truncated := bool_decide (LIST_DIR_MAX_ENTRIES < length entries)%nat;
         dl_total_entries := Z.of_nat (length entries) |}, m).

Definition mock_delete_file (id : ContainerId) (path : string) (cwd : option string) (recursive : bool)
    : ST MockContainerRuntime (result () AgentError) := λ m,
  let resolved := mock_resolve_path path cwd in
  match mk_files m !! resolved with
  | Some _ => (Ok (), with_files (delete resolved (mk_files m)) (mk_writes_received m) m)
  | None =>
      let prefix := trim_end_matches "/" resolved +:+ "/" in
      let children := filter (λ f, starts_with f.1 prefix) (mk_files m) in
      if decide (children = ∅) then (Ok (), m)
      else if negb recursive then
        (Err (Runtime ("rm: cannot remove '" +:+ resolved +:+ "': Directory not empty")), m)
      else (Ok (), with_files (filter (λ f, ¬ starts_with f.1 prefix) (mk_files m)) (mk_writes_received m) m)
  end.

#[global] Instance MockFiles : ContainerFiles MockContainerRuntime := {|
  read_file := mock_read_file;
  write_file := mock_write_file;
  write_files_targz := mock_write_files_targz;
  list_dir := mock_list_dir;
  stat_revision := mock_stat_revision;
  delete_file := mock_delete_file;
  wait_port_listening _ port _ m := ((Ok (bool_decide (port ∈ mk_listening_ports m)), 0%Z), m);
|}.
End mock.

(** ** Processes *)

(** A process as [simulate_exec] plays it: what it has printed, whether someone still reads its
    output, and its exit. *)
Record MockProcess := {
  mp_command : list string;
  mp_stdout : list bytes;
  mp_stderr : list bytes;
  mp_read : bool;
  mp_exit : option ExecExitInfo;
}.

Inductive MockEvent :=
| MStdin (b : bytes)
| MStdinOver
| MStdoutGone
| MElapsed (ms : Z).

Definition exited (code : Z) (not_found : bool) : option ExecExitInfo :=
  Some {| xi_exit_code := code; xi_command_not_found := not_found |}.

Definition not_found_text (cmd : string) : bytes :=
  "OCI runtime exec failed: exec failed: unable to start container process: exec: " +:+
  String "034" (cmd +:+ String "034" ": executable file not found in $PATH") +:+ String "013" (String "010" "").

Definition sleep_secs (cmd : list string) : Z := default 30%Z (cmd !! 1 ≫= parse_u64).

(** Up to where it waits. *)
Definition simulate_start (cmd : list string) : MockProcess :=
  let ran out err exit := {| mp_command := cmd; mp_stdout := out; mp_stderr := err; mp_read := true; mp_exit := exit |} in
  match cmd with
  | "echo" :: args => ran [String.concat " " args +:+ String "010" ""] [] (exited 0 false)
  | "cat" :: _ | "sleep" :: _ => ran [] [] None
  | _ =>
      let msg := not_found_text (default "" (head cmd)) in
      ran [] [msg] (exited 127 (detect_command_not_found msg))
  end.

Definition upd_process (out : list bytes) (read : bool) (exit : option ExecExitInfo) (p : MockProcess) : MockProcess :=
  {| mp_command := mp_command p; mp_stdout := out; mp_stderr := mp_stderr p; mp_read := read; mp_exit := exit |}.

Definition simulate_event (p : MockProcess) (e : MockEvent) : MockProcess :=
  let exit i := upd_process (mp_stdout p) (mp_read p) i p in
  if decide (is_Some (mp_exit p)) then p else
  match head (mp_command p), e with
  | _, MStdoutGone => upd_process (mp_stdout p) false None p
  | Some "cat", MStdin b =>
      if mp_read p then upd_process (mp_stdout p ++ [b]) true None p else exit (exited 0 false)
  | Some "cat", MStdinOver => exit (exited 0 false)
  | Some "sleep", MElapsed ms =>
      if decide (sleep_secs (mp_command p) * 1000 ≤ ms)%Z then exit (exited 0 false) else p
  | Some "sleep", MStdin _ | Some "sleep", MStdinOver => exit (exited 143 false)
  | _, _ => p
  end.

Definition simulate_exec (cmd : list string) (evs : list MockEvent) : MockProcess :=
  foldl simulate_event (simulate_start cmd) evs.

Section processes.
Context `{UuidLib}.

(** [start_exec]: the exec's id and pid; the process is spawned. *)
Definition mock_start_exec (id : ContainerId) (start : ExecStart)
    : ST MockContainerRuntime (result (string * Z * MockProcess) AgentError) := λ m,
  let pid := mk_next_pid m in
  (Ok ("mock-exec-" +:+ pretty pid, pid, simulate_start (es_command start)),
   with_processes (mk_signals_received m) (as_i32 (pid + 1)) m).

Definition mock_signal_exec (id : ContainerId) (pid signum : Z)
    : ST MockContainerRuntime (result () AgentError) := λ m,
  (Ok (), with_processes (mk_signals_received m ++
     [{| sr_container_id := id; sr_pid := pid; sr_signum := signum |}]) (mk_next_pid m) m).
End processes.

(** ** The failing and the slow runtime *)

Definition mock_failure {A} : result A AgentError := Err (Runtime "mock runtime failure").

Inductive FailingContainerRuntime := FailingRuntime.
(** [pub sleep: Duration], in ms. *)
Record SlowContainerRuntime := { sl_sleep : Z }.

Section doubles.
Context `{UuidLib}.

#[global] Instance FailingLifecycle : ContainerRuntime FailingContainerRuntime := {|
  create_and_start _ w := (Some mock_failure, w);
  stop_and_remove _ _ w := (mock_failure, w);
  pause _ w := (mock_failure, w);
  unpause _ w := (mock_failure, w);
  list_sandbox_containers w := (Ok [], w);
|}.

#[global] Instance FailingFiles : ContainerFiles FailingContainerRuntime := {|
  read_file _ _ _ w := (mock_failure, w);
  write_file _ _ _ _ w := (mock_failure, w);
  write_files_targz _ _ _ w := (mock_failure, w);
  list_dir _ _ _ w := (mock_failure, w);
  stat_revision _ _ _ w := (mock_failure, w);
  delete_file _ _ _ _ w := (mock_failure, w);
  wait_port_listening _ _ _ w := ((mock_failure, 0%Z), w);
|}.

(** The create sleeps first: it has not finished at the deadline when it sleeps longer. *)
#[global] Instance SlowLifecycle : ContainerRuntime SlowContainerRuntime := {|
  create_and_start config w :=
    (if decide (sl_sleep w ≤ SANDBOX_CREATE_DEADLINE)%Z
     then Some (Ok {| ci_id := "slow-" +:+ hyphenated (cc_sandbox_id config);
                      ci_sandbox_id := cc_sandbox_id config; ci_host_port := 9000; ci_state := CRunning |})
     else None, w);
  stop_and_remove _ _ w := (Ok (), w);
  pause _ w := (Ok (), w);
  unpause _ w := (Ok (), w);
  list_sandbox_containers w := (Ok [], w);
|}.

#[global] Instance SlowFiles : ContainerFiles SlowContainerRuntime := {|
  read_file _ _ _ w := (Ok "", w);
  write_file _ _ _ _ w := (Ok (), w);
  write_files_targz _ _ _ w := (Ok (), w);
  list_dir _ path _ w := (Ok {| dl_path := path; dl_entries := []; dl_truncated := false; dl_total_entries := 0 |}, w);
  stat_revision _ _ _ w := (Ok {| fr_revision := "slow:0"; fr_size := 0 |}, w);
  delete_file _ _ _ _ w := (Ok (), w);
  wait_port_listening _ _ _ w := ((Ok false, 0%Z), w);
|}.

(** Their processes: neither starts one. *)
Definition failing_start_exec (id : ContainerId) (start : ExecStart)
    : ST FailingContainerRuntime (result (string * Z) AgentError) := λ w, (mock_failure, w).
Definition failing_signal_exec (id : ContainerId) (pid signum : Z)
    : ST FailingContainerRuntime (result () AgentError) := λ w, (mock_failure, w).
Definition slow_start_exec (id : ContainerId) (start : ExecStart)
    : ST SlowContainerRuntime (result (string * Z) AgentError) := λ w,
  (Err (Runtime "slow runtime mock: start_exec unimplemented"), w).
Definition slow_signal_exec (id : ContainerId) (pid signum : Z)
    : ST SlowContainerRuntime (result () AgentError) := λ w, (Ok (), w).

(** ** What tests are set up with *)

Record MockHttpClient := { mh_response : HttpResponse; mh_called : Z }.
Definition mock_http_new (response : HttpResponse) : MockHttpClient := {| mh_response := response; mh_called := 0 |}.
Definition was_called (c : MockHttpClient) : bool := bool_decide (0 < mh_called c)%Z.
Definition mock_http_send (port : Z) (request : HttpRequest) : ST MockHttpClient (result HttpResponse AgentError) := λ c,
  (Ok (mh_response c), {| mh_response := mh_response c; mh_called := as_u64 (mh_called c + 1) |}).

Definition mock_container_info (state : ContainerState) (sandbox_id : SandboxId) (port : Z) : ContainerInfo :=
  {| ci_id := "existing-" +:+ hyphenated sandbox_id; ci_sandbox_id := sandbox_id; ci_host_port := port;
     ci_state := state |}.

Definition start_cmd (sandbox_id : SandboxId) (image : string) : ControllerCommand :=
  StartSandbox (hyphenated sandbox_id) image (Some {| cpu_limit_millicores := 1000;
    memory_limit_bytes := 512000000; env_vars := ∅; exposed_port := 8080; pull_policy := 0 |}).
End doubles.

(** ** The doubles keep what the real runtimes promise *)

(** Paths are resolved as in the Docker backend. *)
Lemma mock_resolves path cwd : mock_resolve_path path cwd = resolve_path path cwd.
Proof. done. Qed.

Lemma insert_by_name_perm e es : insert_by_name e es ≡ₚ e :: es.
Proof.
  induction es as [|e' es IH]; [done|]. cbn. case_decide; [|done]. rewrite IH. apply Permutation_swap.
Qed.
Lemma sort_by_name_perm es : sort_by_name es ≡ₚ es.
Proof.
  unfold sort_by_name. assert (∀ acc, foldl (λ acc e, insert_by_name e acc) acc es ≡ₚ acc ++ es) as ->; [|done].
  induction es as [|e es IH]; intros acc; [by rewrite app_nil_r|]. cbn. rewrite IH, insert_by_name_perm.
  apply Permutation_middle.
Qed.

Lemma insert_by_name_sorted e es : Sorted name_le es → Sorted name_le (insert_by_name e es).
Proof.
  intros Hs. induction Hs as [|e' es Hs IH Hd]; [by repeat constructor|]. cbn. case_decide as Hle.
  - constructor; [done|]. destruct es as [|e'' es]; cbn; [by constructor|].
    case_decide; constructor; [by inversion Hd|done].
  - constructor; [by constructor|]. constructor. by destruct (total name_le e' e).
Qed.
Lemma sort_by_name_sorted es : Sorted name_le (sort_by_name es).
Proof.
  unfold sort_by_name. assert (∀ acc, Sorted name_le acc → Sorted name_le (foldl (λ acc e, insert_by_name e acc) acc es)) as Hgo.
  { induction es as [|e es IH]; intros acc Ha; [done|]. cbn. by apply IH, insert_by_name_sorted. }
  apply Hgo. constructor.
Qed.

(** A name that is one segment. *)
Definition segment (name : string) : Prop := split_once "/" name = None.

Lemma split_once_eq c s k v : split_once c s = Some (k, v) ↔ s = k +:+ String c v ∧ split_once c k = None.
Proof.
  revert k. induction s as [|a s IH]; intros k; cbn.
  - split; [done|]. by destruct k as [|b k]; intros [? _].
  - case_decide as Ha; [subst a|].
    + split.
      * intros [= <- <-]. done.
      * destruct k as [|b k]; [by intros [[= ->] _]|]. rewrite string_app_cons. intros [[= <- _] Hn].
        cbn in Hn. by rewrite decide_True in Hn.
    + destruct k as [|b k].
      * split; [by destruct (split_once c s) as [[]|]|]. rewrite string_app_nil. by intros [[= ->] _].
      * rewrite string_app_cons. split.
        -- destruct (split_once c s) as [[k' v']|] eqn:E; [|done]. intros [= <- <- <-].
           destruct (proj1 (IH k') eq_refl) as [-> Hn]. split; [done|]. cbn. by rewrite decide_False, Hn.
        -- intros [[= <- Hs] Hn]. cbn in Hn. rewrite decide_False in Hn by done.
           assert (split_once c s = Some (k, v)) as ->; [|done]. apply IH. split; [done|].
           by destruct (split_once c k) as [[]|].
Qed.

Section mock_facts.
Context `{UuidLib}.
Implicit Types (m : MockContainerRuntime).

Lemma below_leaf prefix f name b :
  below prefix f = Some (inl (name, b)) ↔ segment name ∧ f = (prefix +:+ name, b).
Proof.
  destruct f as [p c]. unfold below, segment. cbn [fst snd]. split.
  - destruct (strip_prefix prefix p) as [rest|] eqn:E; [|done]. apply strip_prefix_Some in E as ->. cbn.
    destruct (split_once "/" rest) as [[d r]|] eqn:Es; [by case_decide|]. by intros [= <- <-].
  - intros [Hs [= -> ->]]. rewrite strip_prefix_app. cbn. by rewrite Hs.
Qed.

Lemma below_dir prefix f name :
  below prefix f = Some (inr name) ↔ segment name ∧ name ≠ "" ∧ ∃ rest, f.1 = prefix +:+ name +:+ "/" +:+ rest.
Proof.
  destruct f as [p c]. unfold below, segment. cbn [fst snd]. split.
  - destruct (strip_prefix prefix p) as [rest|] eqn:E; [|done]. apply strip_prefix_Some in E as ->. cbn.
    destruct (split_once "/" rest) as [[d r]|] eqn:Es; [|done]. case_decide; [done|]. intros [= <-].
    apply split_once_eq in Es as [-> Hn]. split; [done|]. split; [done|]. by exists r.
  - intros (Hs & Hne & rest & ->). rewrite strip_prefix_app. cbn.
    assert (split_once "/" (name +:+ "/" +:+ rest) = Some (name, rest)) as ->.
    { apply split_once_eq. split; [|done]. done. }
    by rewrite decide_False.
Qed.

Lemma mock_entries_spec resolved files e :
  e ∈ mock_entries resolved files ↔
    (∃ name b, segment name ∧ files !! (dir_prefix resolved +:+ name) = Some b ∧ e = leaf_entry name b) ∨
    (∃ name rest, segment name ∧ name ≠ "" ∧
       is_Some (files !! (dir_prefix resolved +:+ name +:+ "/" +:+ rest)) ∧ e = virtual_dir name).
Proof.
  unfold mock_entries. rewrite sort_by_name_perm, elem_of_app, list_elem_of_fmap, list_elem_of_omap, Logic.or_comm. f_equiv.
  - split.
    + intros ([[n b]|d] & Hx & He); [|done]. injection He as <-. apply list_elem_of_omap in Hx as (f & Hf & Hb).
      apply below_leaf in Hb as [Hs ->]. apply elem_of_map_to_list in Hf. by exists n, b.
    + intros (n & b & Hs & Hb & ->). exists (inl (n, b)). split; [|done]. apply list_elem_of_omap.
      exists (dir_prefix resolved +:+ n, b). split; [by apply elem_of_map_to_list|by apply below_leaf].
  - setoid_rewrite merge_sort_Permutation. setoid_rewrite elem_of_elements. setoid_rewrite elem_of_list_to_set.
    setoid_rewrite list_elem_of_omap. split.
    + intros (n & -> & [[n' b]|d] & Hx & He); [done|]. injection He as ->. apply list_elem_of_omap in Hx as ([p b] & Hf & Hb).
      apply below_dir in Hb as (Hs & Hne & rest & Hp). cbn in Hp. subst p. apply elem_of_map_to_list in Hf.
      exists n, rest. by split_and!; eauto.
    + intros (n & rest & Hs & Hne & [b Hb] & ->). exists n. split; [done|]. exists (inr n). split; [|done].
      apply list_elem_of_omap. exists (dir_prefix resolved +:+ n +:+ "/" +:+ rest, b).
      split; [by apply elem_of_map_to_list|]. apply below_dir. by split_and!; eauto.
Qed.

(** What is listed below a directory: the files in it, and a directory for every first segment
    of a path to a file further down; sorted by name, counted in full, and cut at the limit. *)
Theorem mock_listing id path cwd m :
  let resolved := mock_resolve_path path cwd in
  ∃ entries l, mock_list_dir id path cwd m = (Ok l, m) ∧ dl_path l = resolved ∧
    dl_entries l = take LIST_DIR_MAX_ENTRIES entries ∧ Sorted name_le entries ∧
    dl_total_entries l = Z.of_nat (length entries) ∧
    (dl_truncated l = true ↔ (LIST_DIR_MAX_ENTRIES < length entries)%nat) ∧
    ∀ e, e ∈ entries ↔
      (∃ name b, segment name ∧ mk_files m !! (dir_prefix resolved +:+ name) = Some b ∧ e = leaf_entry name b) ∨
      (∃ name rest, segment name ∧ name ≠ "" ∧
         is_Some (mk_files m !! (dir_prefix resolved +:+ name +:+ "/" +:+ rest)) ∧ e = virtual_dir name).
Proof.
  intros resolved. exists (mock_entries resolved (mk_files m)). eexists. split; [done|]. cbn.
  split_and!; try done; [apply sort_by_name_sorted|apply bool_decide_eq_true|intros e; apply mock_entries_spec].
Qed.

(** A written file is read back, with the revision of what was written, from wherever the same
    path is meant, and no other file changes. *)
Theorem mock_write_read id path cwd content m :
  let m' := (mock_write_file id path cwd content m).2 in
  ∀ id' path' cwd', mock_read_file id' path' cwd' m' =
    (if decide (mock_resolve_path path' cwd' = mock_resolve_path path cwd) then Ok content
     else (mock_read_file id' path' cwd' m).1, m').
Proof.
  intros m' id' path' cwd'. unfold mock_read_file, m'. cbn. case_decide as Hp.
  - by rewrite Hp, lookup_insert_eq.
  - by rewrite lookup_insert_ne.
Qed.

(** A deletion that succeeds leaves nothing at the path, and with [recursive], unless there was
    a file of that very name, nothing below it; one that fails changes nothing; files elsewhere
    stay. *)
Theorem mock_delete id path cwd recursive m r m' :
  mock_delete_file id path cwd recursive m = (r, m') →
  let resolved := mock_resolve_path path cwd in
  let prefix := trim_end_matches "/" resolved +:+ "/" in
  match r with
  | Ok _ => mk_files m' !! resolved = None ∧
      (recursive = true → mk_files m !! resolved = None → ∀ p, starts_with p prefix = true → mk_files m' !! p = None)
  | Err _ => m' = m ∧ recursive = false ∧ ∃ p, is_Some (mk_files m !! p) ∧ starts_with p prefix = true
  end ∧
  ∀ p, p ≠ resolved → starts_with p prefix = false → mk_files m' !! p = mk_files m !! p.
Proof.
  intros Hd resolved prefix. unfold mock_delete_file in Hd. fold resolved in Hd. fold prefix in Hd.
  destruct (mk_files m !! resolved) as [b|] eqn:E.
  { injection Hd as <- <-. cbn. split; [split; [apply lookup_delete_eq|done]|]. intros p Hp _. by rewrite lookup_delete_ne. }
  case_decide as Hc; [|destruct recursive; cbn [negb] in Hd]; injection Hd as <- <-.
  - split; [|done]. split; [done|]. intros _ _ p Hp. destruct (mk_files m !! p) as [b|] eqn:Ep; [|done].
    exfalso. assert (filter (λ f : string * bytes, starts_with f.1 prefix) (mk_files m) !! p = Some b) as Hf
      by (apply map_lookup_filter_Some_2; [done|cbn; by rewrite Hp]). by rewrite Hc in Hf.
  - cbn. split; [split|].
    + by apply map_lookup_filter_None_2; left.
    + intros _ _ p Hp. apply map_lookup_filter_None. right. intros b _ Hn. apply Hn. cbn. by rewrite Hp.
    + intros p _ Hp. rewrite map_lookup_filter. destruct (mk_files m !! p); cbn; [|done].
      case_guard as Hn; [done|]. by rewrite Hp in Hn.
  - split; [|done]. split; [done|]. split; [done|]. apply map_choose in Hc as (p & b & Hp).
    apply map_lookup_filter_Some in Hp as [Hp Hs]. exists p. split; [by eexists|]. cbn in Hs. by destruct (starts_with p prefix).
Qed.

(** On the failing runtime a start is recorded as failed and nothing else the manager does
    changes anything. *)
Theorem failing_runtime uuid_error cmd (ag : Agent FailingContainerRuntime) :
  (execute uuid_error cmd ag).2 = ag ∨
  ∃ sb image config, cmd = StartSandbox sb image config ∧ ∃ s, parse_str sb = Some s ∧
    (execute uuid_error cmd ag).2 =
      with_sandboxes (<[s := {| se_container_id := ""; se_host_port := 0; se_state := Failed |}]> (ag_sandboxes ag)) ag.
Proof.
  assert (∀ w, w = ag_runtime ag → with_runtime w ag = ag) as Hrt by (intros w ->; by destruct ag).
  destruct cmd as [| |sb image config|sb secs|sb|sb|]; try (by left); cbn.
  - unfold start_sandbox, parse_sandbox_id, ok_or. destruct (parse_str sb) as [s|] eqn:Es; [|by left]. right.
    exists sb, image, config. split; [done|]. exists s. split; [done|]. cbn. by rewrite Hrt.
  - left. unfold stop_sandbox, parse_sandbox_id, ok_or. destruct (parse_str sb); [|done].
    destruct (ag_sandboxes ag !! _); [|done]. cbn. by rewrite Hrt.
  - left. unfold pause_sandbox, freeze_sandbox, parse_sandbox_id, ok_or. destruct (parse_str sb); [|done].
    destruct (ag_sandboxes ag !! _); [|done]. case_decide; [done|]. cbn. by rewrite Hrt.
  - left. unfold unpause_sandbox, freeze_sandbox, parse_sandbox_id, ok_or. destruct (parse_str sb); [|done].
    destruct (ag_sandboxes ag !! _); [|done]. case_decide; [done|]. cbn. by rewrite Hrt.
Qed.

(** A create that sleeps past the deadline fails the sandbox, any other starts it. *)
Theorem slow_runtime `{!UuidLaws _} uuid_error (sb : SandboxId) image sleep sandboxes :
  let ag := {| ag_runtime := {| sl_sleep := sleep |}; ag_sandboxes := sandboxes |} in
  execute uuid_error (start_cmd sb image) ag =
    (Some (if decide (sleep ≤ SANDBOX_CREATE_DEADLINE)%Z then Ok Running else Err (deadline_error sb)),
     with_sandboxes (<[sb := if decide (sleep ≤ SANDBOX_CREATE_DEADLINE)%Z
       then {| se_container_id := "slow-" +:+ hyphenated sb; se_host_port := 9000; se_state := Running |}
       else {| se_container_id := ""; se_host_port := 0; se_state := Failed |}]> sandboxes) ag).
Proof.
  intros ag. unfold start_cmd. cbn [execute]. unfold start_sandbox, parse_sandbox_id. rewrite parse_hyphenated. cbn.
  by case_decide.
Qed.
End mock_facts.

(** [cat] prints what it is given until its input is over; a signal never reaches a process. *)
Theorem mock_cat args bs :
  let p := simulate_exec ("cat" :: args) (MStdin <$> bs) in
  mp_stdout p = bs ∧ mp_exit p = None ∧ mp_exit (simulate_event p MStdinOver) = exited 0 false.
Proof.
  assert (∀ bs p, head (mp_command p) = Some "cat" → mp_read p = true → mp_exit p = None →
    let p' := foldl simulate_event p (MStdin <$> bs) in
    mp_command p' = mp_command p ∧ mp_stdout p' = mp_stdout p ++ bs ∧ mp_exit p' = None) as Hgo.
  { clear bs. induction bs as [|b bs IH]; intros p Hc Hr He; cbn; [by rewrite app_nil_r|].
    assert (simulate_event p (MStdin b) = upd_process (mp_stdout p ++ [b]) true None p) as ->.
    { unfold simulate_event. rewrite decide_False by (rewrite He; by intros []). by rewrite Hc, Hr. }
    destruct (IH (upd_process (mp_stdout p ++ [b]) true None p)) as (-> & -> & ->); [done..|]. cbn. by rewrite <- app_assoc. }
  intros p. assert (mp_command p = "cat" :: args ∧ mp_stdout p = bs ∧ mp_exit p = None) as (Hc & Ho & He)
    by (by apply (Hgo bs (simulate_start ("cat" :: args)))).
  split; [done|]. split; [done|]. unfold simulate_event. rewrite decide_False by (rewrite He; by intros []). by rewrite Hc.
Qed.

Module MockExamples.
(** A process that sleeps ends as if signalled on the first byte of input; a signal it is sent is
    only written down. *)
Example sleep_ends_on_input :
  mp_exit (simulate_exec ["sleep"; "5"] [MElapsed 10; MStdin "x"]) = exited 143 false ∧
  mk_signals_received (mock_signal_exec "c" 1000 15 mock_new).2 =
    [{| sr_container_id := "c"; sr_pid := 1000; sr_signum := 15 |}].
Proof. done. Qed.

Example unknown_command :
  mp_exit (simulate_exec ["not_a_binary"] []) = exited 127 true ∧
  mp_stdout (simulate_exec ["echo"; "a"; "b"] []) = ["a b" +:+ String "010" ""].
Proof. split; evaluate. Qed.

(** The agent's sessions on the mock: a file is written, then read. *)
Definition mock_sess : Sess MockContainerRuntime :=
  {| ss_runtime := mock_new; ss_sent := []; ss_room := None; ss_draining := false |}.
Definition upload : list (result IoClientFrame AgentError) :=
  (λ p, Ok {| icf_stream_id := "io-1"; icf_payload := Some p |}) <$> [CStdin "hel"; CStdin "lo"; CClose true].
Example written_then_read :
  let s := drive_read_file "io-2" "c" "motd" "/home" (drive_write_file "io-1" "c" "motd" "" "" true upload mock_sess) in
  omap isf_payload (ss_sent s) =
    [SFileMeta "mock:5" 5; SExited 0 false; SFileMeta "mock:5" 5; SStdout "hello"; SExited 0 false] ∧
  mk_writes_received (ss_runtime s) = [{| wr_container_id := "c"; wr_resolved_path := "/home/motd"; wr_bytes := "hello" |}].
Proof. split; evaluate. Qed.

(** The mock's revision is the length: it does not tell two contents of one length apart. *)
Example same_length_same_revision : mock_revision "hello" = mock_revision "world".
Proof. done. Qed.
End MockExamples.
