(* ===== verification/YoukiImage.v ===== *)
(** * The youki backend: images and DNS (crates/agent-youki/src/image.rs, src/dns.rs)

    [ImageManager::pull_and_unpack_with] and [extract_layer] over a registry and a disk, which
    are parameters ([ImageHost], with the laws of [ImageDisk]), and the resolver file written
    into a root file system. *)

From S2P Require Import Prelude RustText Contracts UuidRef IoFrames AgentSandbox.

(** ** Paths *)

Definition path_join (a b : string) : string :=
  if starts_with b "/" then b
  else if decide (a = "" ∨ string_rev a ≠ "" ∧ starts_with (string_rev a) "/" = true) then a +:+ b
  else a +:+ "/" +:+ b.

(** The components a path is compared by. *)
Definition components (p : string) : list string :=
  filter (λ s, s ≠ "" ∧ s ≠ ".") (str_split "/" p).
Definition path_starts_with (p base : string) : bool :=
  bool_decide (components base `prefix_of` components p ∧ starts_with p "/" = starts_with base "/").

(** [Path::file_name] of a path without "..", as text. *)
Definition path_file_name (p : string) : option string :=
  let p := trim_path p in
  if decide (p = "" ∨ p = "/") then None
  else Some (match before_last "/" p with
             | Some dir => default p (strip_prefix (dir +:+ "/") p)
             | None => p
             end).

(** ** The registry and the disk *)

Record TarEntry := { te_path : result bytes string; te_body : bytes }.

Class ImageHost (W : Type) := {
  parse_reference : string → result string string;
  (** the digests of the layers, and the manifest's digest *)
  pull_manifest_and_config : string → ST W (result (list string * string) string);
  pull_blob_stream : string → string → ST W (result (list (result bytes string)) string);
  read_tar_gz : bytes → result (list (result TarEntry string)) string;
  path_exists : string → W → bool;
  canonicalize : string → W → option string;
  disk_create_dir_all : string → ST W (result () string);
  disk_remove_file : string → ST W (result () string);
  disk_remove_dir_all : string → ST W (result () string);
  disk_rename : string → string → ST W (result () string);
  disk_write : string → bytes → ST W (result () string);
  disk_read_to_string : string → ST W (result string string);
  entry_unpack : TarEntry → string → ST W (result () string);
  image_v4_simple : ST W string;
}.

(** ** Layers *)

(** A path that must not be joined to the root: absolute, or with a ".." component. *)
Definition rejected (path : bytes) : bool :=
  starts_with path "/" || bool_decide (".." ∈ str_split "/" path).

Definition WHITEOUT : string := ".wh.".

(** The name an entry whites out. *)
Definition whiteout_target (path : bytes) : option string :=
  name ← path_file_name path;
  if is_utf8 name then strip_prefix WHITEOUT name else None.

Section image.
Context {W : Type} `{!ImageHost W}.

(** [canonicalize] succeeds and leads out of the root. *)
Definition escapes (rootfs p : string) (w : W) : bool :=
  match canonicalize p w with Some c => negb (path_starts_with c rootfs) | None => false end.

Definition fail {A} (detail : string) : ST W (result A AgentError) := st_ret (Err (Runtime detail)).
(** [map_err(|e| ... format!("{what}{e}"))] *)
Definition or_fail {A} (what : string) (op : ST W (result A string)) : ST W (result A AgentError) :=
  let! r := op in st_ret (map_err (λ e, Runtime (what +:+ e)) r).

Definition extract_entry (rootfs : string) (entry : result TarEntry string)
    : ST W (result () AgentError) :=
  match entry with
  | Err e => fail ("failed to read tar entry: " +:+ e)
  | Ok entry =>
  match te_path entry with
  | Err e => fail ("invalid tar entry path: " +:+ e)
  | Ok path =>
      if rejected path then
        fail ("tar entry rejected (absolute or '..' component): " +:+ utf8_lossy path)
      else
      match whiteout_target path with
      | Some name =>
          let target := path_join (path_join rootfs (default "" (path_parent path))) name in
          λ w,
          if escapes rootfs target w
          then fail ("whiteout target escapes rootfs: " +:+ utf8_lossy target) w
          else (let! _ := disk_remove_file target in
                let! _ := disk_remove_dir_all target in
                st_ret (Ok ())) w
      | None =>
          let dest := path_join rootfs path in
          λ w,
          if match path_parent dest with Some parent => escapes rootfs parent w | None => false end
          then fail ("tar entry parent escapes rootfs: " +:+ utf8_lossy dest) w
          else or_fail ("failed to extract " +:+ utf8_lossy path +:+ ": ") (entry_unpack entry dest) w
      end
  end
  end.

Fixpoint extract_entries (rootfs : string) (entries : list (result TarEntry string))
    : ST W (result () AgentError) :=
  match entries with
  | [] => st_ret (Ok ())
  | e :: rest => let!? _ := extract_entry rootfs e in extract_entries rootfs rest
  end.

Definition extract_layer (data : bytes) (rootfs : string) : ST W (result () AgentError) :=
  match read_tar_gz data with
  | Err e => fail ("failed to read tar entries: " +:+ e)
  | Ok entries => extract_entries rootfs entries
  end.

(** ** Pulling *)

Fixpoint layer_data (layer : string) (buf : bytes) (chunks : list (result bytes string))
    : result bytes AgentError :=
  match chunks with
  | [] => Ok buf
  | Ok c :: rest => layer_data layer (buf +:+ c) rest
  | Err e :: _ => Err (Runtime ("failed to read layer " +:+ layer +:+ " data: " +:+ e))
  end.

Fixpoint extract_layers (reference tmp_dir : string) (layers : list string)
    : ST W (result () AgentError) :=
  match layers with
  | [] => st_ret (Ok ())
  | layer :: rest =>
      let!? chunks := or_fail ("failed to start pulling layer " +:+ layer +:+ ": ")
                        (pull_blob_stream reference layer) in
      let!? data := st_ret (layer_data layer "" chunks) in
      let!? _ := extract_layer data tmp_dir in
      extract_layers reference tmp_dir rest
  end.

(** [digest.replace(':', "_")] *)
Definition safe_digest (digest : string) : string :=
  string_map (λ a, if decide (a = ":"%char) then "_"%char else a) digest.

(** What the extracted tree replaces, once it is complete. *)
Definition install (force : bool) (tmp_dir rootfs_dir marker : string) : ST W (result () AgentError) :=
  if force then
    let! _ := disk_remove_file marker in
    let!? _ := (λ w, if path_exists rootfs_dir w
                     then or_fail ("force-refresh: failed to remove cached rootfs at " +:+
                                   utf8_lossy rootfs_dir +:+ ": ") (disk_remove_dir_all rootfs_dir) w
                     else (Ok (), w)) in
    or_fail "force-refresh: failed to atomically install rootfs: " (disk_rename tmp_dir rootfs_dir)
  else λ w,
    if path_exists rootfs_dir w then (let! _ := disk_remove_dir_all tmp_dir in st_ret (Ok ())) w
    else or_fail "failed to atomically install rootfs: " (disk_rename tmp_dir rootfs_dir) w.

(** A pull that is not answered from the cache. *)
Definition fetch (reference : string) (layers : list string) (force : bool) (image_dir : string)
    : ST W (result string AgentError) :=
  let rootfs_dir := path_join image_dir "rootfs" in
  let marker := path_join image_dir ".complete" in
  let! uuid := image_v4_simple in
  let tmp_dir := path_join image_dir ("rootfs.tmp." +:+ uuid) in
  let!? _ := or_fail "failed to create image directory: " (disk_create_dir_all image_dir) in
  let!? _ := or_fail "failed to create rootfs tmp directory: " (disk_create_dir_all tmp_dir) in
  let! extracted := extract_layers reference tmp_dir layers in
  match extracted with
  | Err e => let! _ := disk_remove_dir_all tmp_dir in st_ret (Err e)
  | Ok _ =>
      let!? _ := install force tmp_dir rootfs_dir marker in
      let!? _ := or_fail "failed to write image marker: " (disk_write marker "") in
      st_ret (Ok rootfs_dir)
  end.

Section manager.
Variable root_dir : string.

Definition image_dir (digest : string) : string :=
  path_join (path_join root_dir "images") (safe_digest digest).

Definition pull_and_unpack_with (image_ref : string) (force : bool) : ST W (result string AgentError) :=
  match parse_reference image_ref with
  | Err e => fail ("invalid image reference '" +:+ image_ref +:+ "': " +:+ e)
  | Ok reference =>
      let!? (layers, digest) := or_fail ("failed to pull manifest for '" +:+ image_ref +:+ "': ")
                                   (pull_manifest_and_config reference) in
      let image_dir := image_dir digest in
      let rootfs_dir := path_join image_dir "rootfs" in
      let marker := path_join image_dir ".complete" in
      λ w,
      if negb force && path_exists marker w then (Ok rootfs_dir, w) else
      fetch reference layers force image_dir w
  end.
End manager.
End image.

(** ** DNS *)

Definition FALLBACK_RESOLV_CONF : string :=
  "nameserver 8.8.8.8" +:+ String "010" ("nameserver 8.8.4.4" +:+ String "010" "").

Definition is_loopback (addr : string) : bool := starts_with addr "127." || bool_decide (addr = "::1").

(** The lines that stay. *)
Definition keep_line (line : string) : bool :=
  let trimmed := str_trim line in
  if negb (starts_with trimmed "nameserver") then negb (bool_decide (trimmed = ""))
  else match split_whitespace trimmed !! 1 with
       | Some addr => negb (is_loopback addr)
       | None => false
       end.

Definition is_nameserver (line : string) : bool := starts_with (str_trim line) "nameserver".

Fixpoint join_lines (lines : list string) : string :=
  match lines with
  | [] => ""
  | [l] => l
  | l :: rest => l +:+ String "010" (join_lines rest)
  end.

Definition generate_resolv_conf (host_content : string) : string :=
  let filtered := filter (λ l, keep_line l = true) (str_lines host_content) in
  if negb (existsb is_nameserver filtered) then FALLBACK_RESOLV_CONF
  else
    let result := join_lines filtered in
    if starts_with (string_rev result) (String "010" "") then result
    else result +:+ String "010" "".

Definition write_resolv_conf {W} `{!ImageHost W} (rootfs : string) : ST W (result () AgentError) :=
  let etc_dir := path_join rootfs "etc" in
  let!? _ := or_fail ("failed to create " +:+ utf8_lossy rootfs +:+ "/etc: ")
               (disk_create_dir_all etc_dir) in
  let! host_content := disk_read_to_string "/etc/resolv.conf" in
  let content := generate_resolv_conf (default "" (result_ok host_content)) in
  let!? _ := or_fail "failed to write resolv.conf: "
               (disk_write (path_join etc_dir "resolv.conf") content) in
  st_ret (Ok ()).

(** ** What the disk promises *)

(** Neither path is at or below the other. *)
Definition apart (p q : string) : Prop :=
  ¬ components p `prefix_of` components q ∧ ¬ components q `prefix_of` components p.

Class ImageDisk (W Tree : Type) `{!ImageHost W} := {
  (** what is at a path, links followed *)
  tree : W → string → option Tree;
  id_exists : ∀ p w, path_exists p w = true ↔ is_Some (tree w p);
  id_manifest : ∀ r w p, tree (pull_manifest_and_config r w).2 p = tree w p;
  id_blob : ∀ r l w p, tree (pull_blob_stream r l w).2 p = tree w p;
  id_uuid : ∀ w p, tree (image_v4_simple w).2 p = tree w p;
  id_create : ∀ d w p, ¬ components p `prefix_of` components d →
    tree (disk_create_dir_all d w).2 p = tree w p;
  id_remove_file : ∀ f w p, apart p f → tree (disk_remove_file f w).2 p = tree w p;
  id_remove_dir : ∀ f w p, apart p f → tree (disk_remove_dir_all f w).2 p = tree w p;
  id_removed : ∀ f w w', disk_remove_dir_all f w = (Ok (), w') → tree w' f = None;
  id_unmarked : ∀ f w, tree (disk_remove_file f w).2 f = tree w f ∨ tree (disk_remove_file f w).2 f = None;
  id_rename_err : ∀ a b w e w', disk_rename a b w = (Err e, w') → ∀ p, tree w' p = tree w p;
  id_rename : ∀ a b w w', disk_rename a b w = (Ok (), w') →
    tree w' b = tree w a ∧ is_Some (tree w a) ∧ ∀ p, apart p a → apart p b → tree w' p = tree w p;
  id_write : ∀ f b w p, apart p f → tree (disk_write f b w).2 p = tree w p;
  id_written : ∀ f b w w', disk_write f b w = (Ok (), w') → is_Some (tree w' f);
  (** an entry is written where its parent directory leads *)
  id_unpack : ∀ e dest root w p,
    match path_parent dest with Some d => escapes root d w | None => false end = false →
    apart p root → tree (entry_unpack e dest w).2 p = tree w p;
  (** what a target that does not lead out of the root names is in the root; a target that
      leads nowhere names nothing *)
  id_whiteout_file : ∀ f root w p,
    escapes root f w = false → apart p root → tree (disk_remove_file f w).2 p = tree w p;
  id_whiteout_dir : ∀ f root w p,
    escapes root f w = false → apart p root → tree (disk_remove_dir_all f w).2 p = tree w p;
  id_whiteout_still : ∀ f root w,
    escapes root f w = false → escapes root f (disk_remove_file f w).2 = false;
}.

(** ** Paths of an image *)

Lemma components_join a b :
  starts_with b "/" = false → components (path_join a b) = components a ++ components b.
Proof.
  intros Hb. unfold path_join. rewrite Hb. unfold components. case_decide as Hd.
  - destruct Hd as [->|[_ Hs]]; [done|]. apply starts_with_spec in Hs as [t Ht].
    assert (a = string_rev t +:+ "/") as ->.
    { rewrite <- (string_rev_involutive a), Ht, string_rev_app_distr. done. }
    rewrite string_app_assoc. change ("/" +:+ b) with (String "/" b).
    assert (str_split "/" (string_rev t +:+ "/") = str_split "/" (string_rev t) ++ [""]) as ->
      by exact (str_split_app "/" (string_rev t) "").
    rewrite str_split_app, !filter_app. by rewrite app_nil_r.
  - change ("/" +:+ b) with (String "/" b). by rewrite str_split_app, filter_app.
Qed.

(** Siblings with different names are apart. *)
Lemma apart_siblings l x xs y ys p q :
  components p = l ++ x :: xs → components q = l ++ y :: ys → x ≠ y → apart p q.
Proof.
  intros Hp Hq Hne. unfold apart. rewrite Hp, Hq.
  split; intros H%prefix_app_inv; apply prefix_cons_inv_1 in H; congruence.
Qed.

Lemma apart_sym p q : apart p q → apart q p.
Proof. unfold apart. naive_solver. Qed.

Lemma str_split_prefix c p s :
  string_forallb (λ a, negb (bool_decide (a = c))) p = true →
  ∃ w ws, str_split c (p +:+ s) = (p +:+ w) :: ws.
Proof.
  induction p as [|a p IH].
  - intros _. destruct (str_split_cons c s) as (w & ws & E). rewrite string_app_nil, E. by exists w, ws.
  - cbn [string_forallb]. rewrite andb_true_iff, negb_true_iff, bool_decide_eq_false. intros [Ha Hp].
    destruct (IH Hp) as (w & ws & E). rewrite string_app_cons. cbn [str_split].
    rewrite decide_False, E by done. by exists w, ws.
Qed.

Section image_paths.
Context (dir uuid : string).
Abbreviation rootfs := (path_join dir "rootfs").
Abbreviation marker := (path_join dir ".complete").
Abbreviation tmp := (path_join dir ("rootfs.tmp." +:+ uuid)).

Lemma components_rootfs : components rootfs = components dir ++ ["rootfs"].
Proof. by rewrite components_join. Qed.
Lemma components_marker : components marker = components dir ++ [".complete"].
Proof. by rewrite components_join. Qed.
Lemma components_tmp : ∃ w ws, components tmp = components dir ++ ("rootfs.tmp." +:+ w) :: ws.
Proof.
  rewrite components_join by done.
  destruct (str_split_prefix "/" "rootfs.tmp." uuid eq_refl) as (w & ws & E).
  unfold components at 2. rewrite E. rewrite filter_cons_True by done. by eexists w, _.
Qed.

Lemma image_paths_apart : apart rootfs marker ∧ apart rootfs tmp ∧ apart marker tmp.
Proof.
  destruct components_tmp as (w & ws & Ht). pose proof components_rootfs. pose proof components_marker.
  split; [by eapply apart_siblings|]. split; by eapply apart_siblings.
Qed.

Lemma not_above_dir p x : components p = components dir ++ [x] → ¬ components p `prefix_of` components dir.
Proof. intros -> [l Hl]. apply (f_equal length) in Hl. rewrite !length_app in Hl. cbn in Hl. lia. Qed.
End image_paths.

Section cache.
Context {W Tree : Type} `{!ImageHost W, !ImageDisk W Tree}.
Implicit Types (w : W) (p : string).

(** ** Extraction stays in its directory *)

Lemma or_fail_snd {A} what (op : ST W (result A string)) w : (or_fail what op w).2 = (op w).2.
Proof. unfold or_fail, st_bind, st_ret. by destruct (op w). Qed.

Lemma extract_entry_apart rootfs entry w p :
  apart p rootfs → tree (extract_entry rootfs entry w).2 p = tree w p.
Proof.
  intros Hp. unfold extract_entry. destruct entry as [entry|e]; [|done].
  destruct (te_path entry) as [path|e]; [|done]. destruct (rejected path); [done|].
  destruct (whiteout_target path) as [name|]; cbn zeta.
  - set (target := path_join _ name). destruct (escapes rootfs target w) eqn:E; [done|].
    unfold st_bind, st_ret. pose proof (id_whiteout_file target rootfs w p E Hp) as H1.
    pose proof (id_whiteout_still target rootfs w E) as H2.
    destruct (disk_remove_file target w) as [r w1]; cbn [snd] in *.
    pose proof (id_whiteout_dir target rootfs w1 p H2 Hp) as H3.
    destruct (disk_remove_dir_all target w1) as [r' w2]; cbn [snd] in *. congruence.
  - destruct (match path_parent _ with Some _ => _ | None => _ end) eqn:E; [done|].
    rewrite or_fail_snd. by eapply id_unpack.
Qed.

Lemma extract_entries_apart rootfs entries w p :
  apart p rootfs → tree (extract_entries rootfs entries w).2 p = tree w p.
Proof.
  intros Hp. revert w. induction entries as [|e entries IH]; intros w; [done|].
  cbn [extract_entries]. unfold st_bind_ok, st_bind, st_ret.
  pose proof (extract_entry_apart rootfs e w p Hp) as H1.
  destruct (extract_entry rootfs e w) as [[[]|] w1]; cbn [snd] in *; [|done]. by rewrite IH.
Qed.

Lemma extract_layers_apart reference tmp layers w p :
  apart p tmp → tree (extract_layers reference tmp layers w).2 p = tree w p.
Proof.
  intros Hp. revert w. induction layers as [|layer layers IH]; intros w; [done|].
  cbn [extract_layers]. unfold st_bind_ok, st_bind, st_ret, or_fail, st_bind, st_ret.
  pose proof (id_blob reference layer w p) as H1.
  destruct (pull_blob_stream reference layer w) as [[chunks|] w1]; cbn [map_err snd] in *; [|done].
  destruct (layer_data layer "" chunks) as [data|]; [|done].
  unfold extract_layer. destruct (read_tar_gz data) as [entries|]; [|done].
  pose proof (extract_entries_apart tmp entries w1 p Hp) as H2.
  destruct (extract_entries tmp entries w1) as [[[]|] w2]; cbn [snd] in *; [|congruence].
  by rewrite IH, H2.
Qed.

(** ** The cache *)

(** The tree that extracting all the given layers, in order and without an error, leaves in a
    new directory. *)
Definition complete (layers : list string) (t : Tree) : Prop :=
  ∃ reference tmp w0 w1 w2,
    disk_create_dir_all tmp w0 = (Ok (), w1) ∧
    extract_layers reference tmp layers w1 = (Ok (), w2) ∧ tree w2 tmp = Some t.

(** A marked root file system is there, and one that is there has all the image's layers. *)
Definition cache_ok (layers : list string) (dir : string) w : Prop :=
  (∀ t, tree w (path_join dir "rootfs") = Some t → complete layers t) ∧
  (is_Some (tree w (path_join dir ".complete")) → is_Some (tree w (path_join dir "rootfs"))).

(** Removals work: a file is gone, a directory goes entirely or not at all. *)
Definition removals_clean : Prop :=
  (∀ f w, tree (disk_remove_file f w).2 f = None) ∧
  (∀ p w e w', disk_remove_dir_all p w = (Err e, w') → tree w' p = tree w p).

(** The digest of a manifest determines its layers. *)
Definition content_addressed (layers_of : string → list string) : Prop :=
  ∀ reference w layers digest,
    (pull_manifest_and_config reference w).1 = Ok (layers, digest) → layers = layers_of digest.

(** [cache_ok] depends on the two paths only. *)
Lemma cache_ok_same layers dir w w' :
  tree w' (path_join dir "rootfs") = tree w (path_join dir "rootfs") →
  tree w' (path_join dir ".complete") = tree w (path_join dir ".complete") →
  cache_ok layers dir w → cache_ok layers dir w'.
Proof. unfold cache_ok. intros -> ->. done. Qed.

Lemma unmarked_ok layers dir w :
  (∀ t, tree w (path_join dir "rootfs") = Some t → complete layers t) →
  tree w (path_join dir ".complete") = None → cache_ok layers dir w.
Proof. intros H1 H2. split; [done|]. rewrite H2. by intros []. Qed.

(** Moving the extracted tree into place when no root file system is there. *)
Lemma rename_ok layers dir uuid what w r w' :
  let tmp := path_join dir ("rootfs.tmp." +:+ uuid) in
  tree w (path_join dir "rootfs") = None → cache_ok layers dir w →
  (∀ t, tree w tmp = Some t → complete layers t) →
  or_fail what (disk_rename tmp (path_join dir "rootfs")) w = (r, w') →
  cache_ok layers dir w' ∧ (r = Ok () → is_Some (tree w' (path_join dir "rootfs"))).
Proof.
  intros tmp Hnone Hok Ht. destruct (image_paths_apart dir uuid) as (Arm & Art & Amt).
  fold tmp in Art, Amt. unfold or_fail, st_bind, st_ret.
  destruct (disk_rename tmp (path_join dir "rootfs") w) as [[[]|e] w1] eqn:E; intros [= <- <-].
  - destruct (id_rename _ _ _ _ E) as (H1 & Hs & _).
    split; [|by rewrite H1]. split; [by rewrite H1|]. by rewrite H1.
  - pose proof (id_rename_err _ _ _ _ _ E) as H1. split; [|done].
    by apply (cache_ok_same layers dir w).
Qed.

Lemma install_ok layers force dir uuid w r w' :
  let tmp := path_join dir ("rootfs.tmp." +:+ uuid) in
  removals_clean → cache_ok layers dir w → (∀ t, tree w tmp = Some t → complete layers t) →
  install force tmp (path_join dir "rootfs") (path_join dir ".complete") w = (r, w') →
  cache_ok layers dir w' ∧ (r = Ok () → is_Some (tree w' (path_join dir "rootfs"))).
Proof.
  intros tmp [Hfile Hdir] Hok Ht. destruct (image_paths_apart dir uuid) as (Arm & Art & Amt).
  fold tmp in Art, Amt. unfold install, st_bind_ok, st_bind, st_ret. destruct force.
  - pose proof (id_remove_file _ w _ Arm) as H1.
    pose proof (id_remove_file _ w _ (apart_sym _ _ Amt)) as H2.
    pose proof (Hfile (path_join dir ".complete") w) as H3.
    destruct (disk_remove_file (path_join dir ".complete") w) as [r1 w1]; cbn [snd] in *.
    assert (cache_ok layers dir w1) as Hok1 by (apply unmarked_ok; [rewrite H1; apply Hok|done]).
    destruct (path_exists (path_join dir "rootfs") w1) eqn:Ex.
    + unfold or_fail at 1, st_bind, st_ret.
      pose proof (id_remove_dir _ w1 _ (apart_sym _ _ Arm)) as H4.
      pose proof (id_remove_dir _ w1 _ (apart_sym _ _ Art)) as H5.
      destruct (disk_remove_dir_all (path_join dir "rootfs") w1) as [[[]|e] w2] eqn:E;
        cbn [map_err snd] in *.
      * pose proof (id_removed _ _ _ E) as H6. apply rename_ok; [done| |fold tmp; by rewrite H5, H2].
        apply unmarked_ok; [by rewrite H6|congruence].
      * intros [= <- <-]. split; [|done]. apply unmarked_ok; [|congruence].
        rewrite (Hdir _ _ _ _ E). apply Hok1.
    + apply rename_ok; [|done|fold tmp; by rewrite H2]. apply not_true_iff_false in Ex.
      destruct (tree w1 (path_join dir "rootfs")) eqn:E; [|done]. destruct Ex. apply id_exists. eauto.
  - destruct (path_exists (path_join dir "rootfs") w) eqn:Ex.
    + pose proof (id_remove_dir _ w _ Art) as H1. pose proof (id_remove_dir _ w _ Amt) as H2.
      destruct (disk_remove_dir_all tmp w) as [r1 w1]; cbn [snd] in *. intros [= <- <-].
      split; [by apply (cache_ok_same layers dir w)|]. intros _. rewrite H1. by apply id_exists.
    + apply rename_ok; [|done..]. apply not_true_iff_false in Ex.
      destruct (tree w (path_join dir "rootfs")) eqn:E; [|done]. destruct Ex. apply id_exists. eauto.
Qed.

Lemma fetch_ok reference layers force dir w :
  removals_clean → cache_ok layers dir w →
  let '(r, w') := fetch reference layers force dir w in
  cache_ok layers dir w' ∧
  (∀ path, r = Ok path → path = path_join dir "rootfs" ∧ is_Some (tree w' (path_join dir "rootfs")) ∧
     is_Some (tree w' (path_join dir ".complete"))).
Proof.
  intros Hclean Hok. unfold fetch, st_bind_ok, or_fail, st_bind, st_ret.
  pose proof (id_uuid w) as H1. destruct (image_v4_simple w) as [uuid w1]; cbn [snd] in H1.
  destruct (image_paths_apart dir uuid) as (Arm & Art & Amt).
  pose proof (id_create dir w1 _ (not_above_dir dir _ _ (components_rootfs dir))) as H2.
  pose proof (id_create dir w1 _ (not_above_dir dir _ _ (components_marker dir))) as H2'.
  destruct (disk_create_dir_all dir w1) as [[[]|e] w2]; cbn [map_err snd] in *;
    [|split; [apply (cache_ok_same layers dir w); congruence|done]].
  set (tmp := path_join dir ("rootfs.tmp." +:+ uuid)) in *.
  pose proof (id_create tmp w2 _ (proj1 Art)) as H3. pose proof (id_create tmp w2 _ (proj1 Amt)) as H3'.
  destruct (disk_create_dir_all tmp w2) as [[[]|e] w3] eqn:E3; cbn [map_err snd] in *;
    [|split; [apply (cache_ok_same layers dir w); congruence|done]].
  pose proof (extract_layers_apart reference tmp layers w3 _ Art) as H4.
  pose proof (extract_layers_apart reference tmp layers w3 _ Amt) as H4'.
  destruct (extract_layers reference tmp layers w3) as [[[]|e] w4] eqn:E4; cbn [snd] in *.
  2:{ pose proof (id_remove_dir tmp w4 _ Art) as H5. pose proof (id_remove_dir tmp w4 _ Amt) as H5'.
      destruct (disk_remove_dir_all tmp w4) as [r w5]; cbn [snd] in *.
      split; [apply (cache_ok_same layers dir w); congruence|done]. }
  assert (∀ t, tree w4 tmp = Some t → complete layers t) as Ht
    by (intros t Et; by exists reference, tmp, w2, w3, w4).
  assert (cache_ok layers dir w4) as Hok4 by (apply (cache_ok_same layers dir w); congruence).
  destruct (install force tmp (path_join dir "rootfs") (path_join dir ".complete") w4) as [r w5] eqn:E5.
  destruct (install_ok layers force dir uuid w4 r w5 Hclean Hok4 Ht E5) as [Hok5 Hroot].
  destruct r as [[]|e]; [|done].
  pose proof (id_write _ "" w5 _ Arm) as H6.
  destruct (disk_write (path_join dir ".complete") "" w5) as [[[]|e] w6] eqn:E6; cbn [map_err snd] in *.
  - pose proof (id_written _ _ _ _ E6) as H7. destruct (Hroot eq_refl) as [t' Ht'].
    assert (is_Some (tree w6 (path_join dir "rootfs"))) as Hs by (rewrite H6, Ht'; done).
    split; [|intros path [= <-]; done]. split; [rewrite H6; apply Hok5|done].
  - split; [|done]. split; [rewrite H6; apply Hok5|]. intros _. rewrite H6. by apply Hroot.
Qed.

End cache.

(** ** The resolver file *)

Definition newline_free : string → bool := free_of "010".

Lemma string_forallb_rev (P : ascii → bool) s : string_forallb P (string_rev s) = string_forallb P s.
Proof.
  induction s as [|a s IH]; [done|]. rewrite string_rev_cons, string_forallb_app, IH. cbn.
  by destruct (P a), (string_forallb P s).
Qed.

Lemma chop_cr_free s : newline_free s = true → newline_free (chop_cr s) = true.
Proof.
  intros Hs. unfold chop_cr. destruct (string_rev s) as [|a r] eqn:E; [done|].
  case_decide; [|done]. unfold newline_free, free_of in *. rewrite string_forallb_rev.
  rewrite <- string_forallb_rev, E in Hs. cbn in Hs. by apply andb_true_iff in Hs as [_ ?].
Qed.

Lemma str_lines_free s l : l ∈ str_lines s → newline_free l = true.
Proof.
  unfold str_lines. assert (∀ w, w ∈ str_split "010" s → newline_free w = true) as H
    by (intros; by eapply str_split_free).
  induction (str_split "010" s) as [|p ps IH]; [by intros ?%not_elem_of_nil|].
  destruct ps as [|p' ps]; cbn [lines_of].
  - case_decide; [by intros ?%not_elem_of_nil|]. intros ->%list_elem_of_singleton.
    apply H, elem_of_cons. by left.
  - intros [->|Hl]%elem_of_cons; [apply chop_cr_free, H, elem_of_cons; by left|].
    apply IH; [|done]. intros w Hw. apply H, elem_of_cons. by right.
Qed.

Lemma kept_nonempty l : keep_line l = true → l ≠ "".
Proof. intros Hk ->. by vm_compute in Hk. Qed.

Lemma starts_with_app_l c s t : s ≠ "" → starts_with (s +:+ t) (String c "") = starts_with s (String c "").
Proof.
  destruct s as [|a s]; [done|]. intros _. unfold starts_with. rewrite string_app_cons. cbn.
  case_decide; [|done]. by rewrite !bool_decide_true by eauto.
Qed.

Lemma not_ending_in_newline l : newline_free l = true → starts_with (string_rev l) (String "010" "") = false.
Proof.
  unfold newline_free, free_of. rewrite <- string_forallb_rev. destruct (string_rev l) as [|a r]; [done|].
  cbn [string_forallb]. rewrite andb_true_iff, negb_true_iff, bool_decide_eq_false. intros [Ha _].
  unfold starts_with. cbn. rewrite decide_False by congruence. done.
Qed.

(** Lines joined and closed by a newline, cut at the newlines. *)
Lemma join_lines_split ls :
  ls ≠ [] → Forall (λ l, newline_free l = true ∧ l ≠ "") ls →
  join_lines ls ≠ "" ∧ starts_with (string_rev (join_lines ls)) (String "010" "") = false ∧
  str_split "010" (join_lines ls +:+ String "010" "") = ls ++ [""].
Proof.
  intros Hne Hf. induction Hf as [|l ls [Hl Hl'] Hf IH]; [done|].
  destruct ls as [|l' ls].
  - cbn [join_lines]. split; [done|]. split; [by apply not_ending_in_newline|].
    by rewrite str_split_line.
  - destruct IH as (H1 & H2 & H3); [done|].
    change (join_lines (l :: l' :: ls)) with (l +:+ (String "010" "" +:+ join_lines (l' :: ls))).
    set (rest := join_lines (l' :: ls)) in *. split; [by destruct l|]. split.
    + assert (string_rev rest ≠ "") as Hr.
      { intros E. apply H1. rewrite <- (string_rev_involutive rest), E. done. }
      rewrite !string_rev_app_distr, string_app_assoc. by rewrite starts_with_app_l.
    + rewrite !string_app_assoc.
      change (String "010" "" +:+ (rest +:+ String "010" "")) with (String "010" (rest +:+ String "010" "")).
      rewrite str_split_line by done. by rewrite H3.
Qed.

(** The resolver file of a container is usable: it has a name server, none of its name
    server lines names a loopback address, and when the host's file has a name server the
    container can reach, every line of it that is neither blank nor a loopback server is kept,
    in order. *)
Theorem resolv_conf_usable host_content :
  ∃ ls, str_split "010" (generate_resolv_conf host_content) = ls ++ [""] ∧
    existsb is_nameserver ls = true ∧
    (∀ l, l ∈ ls → is_nameserver l = true →
       ∃ addr, split_whitespace (str_trim l) !! 1 = Some addr ∧ is_loopback addr = false) ∧
    (∀ l, l ∈ str_lines host_content → is_nameserver l = true → keep_line l = true →
       ls = filter (λ l, keep_line l = true) (str_lines host_content)).
Proof.
  unfold generate_resolv_conf. set (kept := filter _ _).
  assert (∀ l, keep_line l = true → is_nameserver l = true →
    ∃ addr, split_whitespace (str_trim l) !! 1 = Some addr ∧ is_loopback addr = false) as Hserver.
  { intros l Hk Hn. unfold keep_line, is_nameserver in *. rewrite Hn in Hk. cbn [negb] in Hk.
    destruct (_ !! 1) as [addr|]; [|done]. exists addr. by apply negb_true_iff in Hk. }
  destruct (existsb is_nameserver kept) eqn:E; cbn [negb].
  - exists kept. destruct (join_lines_split kept) as (_ & H1 & H2).
    + intros Hn. by rewrite Hn in E.
    + apply Forall_forall. intros l [Hk Hl]%list_elem_of_filter.
      split; [by eapply str_lines_free|by apply kept_nonempty].
    + rewrite H1. split; [done|]. split; [done|]. split; [|done].
      intros l [Hk _]%list_elem_of_filter. by apply Hserver.
  - exists ["nameserver 8.8.8.8"; "nameserver 8.8.4.4"]. split; [evaluate|]. split; [evaluate|]. split.
    + intros l [->|[->|[]%not_elem_of_nil]%elem_of_cons]%elem_of_cons _.
      * exists "8.8.8.8". split; evaluate.
      * exists "8.8.4.4". split; evaluate.
    + intros l Hl Hn Hk. exfalso. apply not_true_iff_false in E. apply E, existsb_exists.
      exists l. split; [|done]. apply list_elem_of_In, list_elem_of_filter. done.
Qed.

Module ImageExamples.
(** A disk as the names extracted below each directory; [torn]: directories are removed
    half-way, with an error. *)
Abbreviation Disk := (gmap (list string) (list string)).

Section disk.
Variable torn : bool.

Definition disk_host : ImageHost Disk := {|
  parse_reference s := Ok s;
  pull_manifest_and_config _ w := (Ok (["etc"; "bin"], "sha256:aa"), w);
  pull_blob_stream _ layer w := (Ok [Ok layer], w);
  read_tar_gz data := Ok [Ok {| te_path := Ok data; te_body := "" |}];
  path_exists p w := bool_decide (is_Some (w !! components p));
  canonicalize p w := Some (if starts_with p "/" then p else "/" +:+ p);
  disk_create_dir_all d w :=
    (Ok (), match w !! components d with None => <[components d := []]> w | Some _ => w end);
  disk_remove_file f w := (Ok (), delete (components f) w);
  disk_remove_dir_all f w :=
    if torn then (Err "busy", <[components f := ["torn"]]> w) else (Ok (), delete (components f) w);
  disk_rename a b w :=
    match w !! components a with
    | Some t => (Ok (), <[components b := t]> (delete (components a) w))
    | None => (Err "missing", w)
    end;
  disk_write f _ w := (Ok (), <[components f := []]> w);
  disk_read_to_string _ w := (Err "missing", w);
  entry_unpack e dest w :=
    (Ok (), match path_parent dest with
            | None => w
            | Some d => map_imap (λ k t, Some (if decide (k `prefix_of` components d)
                          then t ++ [default "" (result_ok (te_path e))] else t)) w
            end);
  image_v4_simple w := ("0123", w);
|}.
End disk.

#[local] Instance sound_host : ImageHost Disk := disk_host false.

Lemma apart_key (p q : string) : apart p q → components p ≠ components q.
Proof. intros [H _] E. apply H. by rewrite E. Qed.

Lemma not_escaping_below (root f : string) (w : Disk) :
  escapes root f w = false → components root `prefix_of` components f.
Proof.
  unfold escapes, path_starts_with. cbn.
  rewrite negb_false_iff, bool_decide_eq_true. intros [H _].
  destruct (starts_with f "/") eqn:E; [done|]. unfold components in *.
  change ("/" +:+ f) with ("" +:+ String "/" f) in H. rewrite str_split_app, filter_app in H.
  exact H.
Qed.

Lemma apart_not_above (root p : string) (l : list string) :
  apart p root → components root `prefix_of` l → ¬ components p `prefix_of` l.
Proof.
  intros [H1 H2] Hr Hp. destruct (prefix_weak_total _ _ _ Hr Hp); done.
Qed.

#[local] Instance sound_disk : ImageDisk Disk (list string).
Proof.
  refine {| tree w p := w !! components p |}; try done.
  - intros p w. cbn. by rewrite bool_decide_eq_true.
  - intros d w p Hp. cbn. destruct (w !! components d); cbn; [done|].
    rewrite lookup_insert_ne; [done|]. intros E. apply Hp. by rewrite E.
  - intros f w p Hp%apart_key. cbn. by rewrite lookup_delete_ne.
  - intros f w p Hp%apart_key. cbn. by rewrite lookup_delete_ne.
  - intros f w w' [= <-]. by rewrite lookup_delete_eq.
  - intros f w. right. cbn. by rewrite lookup_delete_eq.
  - intros a b w e w'. cbn. destruct (w !! components a); [done|]. by intros [= <- <-].
  - intros a b w w'. cbn. destruct (w !! components a) as [t|] eqn:E; [|done]. intros [= <-].
    rewrite lookup_insert_eq. split; [done|]. split; [done|].
    intros p Ha%apart_key Hb%apart_key. by rewrite lookup_insert_ne, lookup_delete_ne.
  - intros f b w p Hp%apart_key. cbn. by rewrite lookup_insert_ne.
  - intros f b w w' [= <-]. by rewrite lookup_insert_eq.
  - intros e dest root w p He Hp. cbn. destruct (path_parent dest) as [d|]; cbn; [|done].
    apply not_escaping_below in He. rewrite map_lookup_imap.
    destruct (w !! components p); cbn; [|done].
    rewrite decide_False; [done|]. by eapply apart_not_above.
  - intros f root w p He%not_escaping_below Hp. cbn. rewrite lookup_delete_ne; [done|].
    intros E. eapply apart_not_above; [exact Hp|exact He|]. by rewrite E.
  - intros f root w p He%not_escaping_below Hp. cbn. rewrite lookup_delete_ne; [done|].
    intros E. eapply apart_not_above; [exact Hp|exact He|]. by rewrite E.
Defined.

Definition dir : string := "/r/images/sha256_aa".

Lemma removals_clean_here : removals_clean (W := Disk).
Proof. split; [|done]. intros f w. apply lookup_delete_eq. Qed.


(** A refresh that cannot remove the old tree, followed by an ordinary pull: what is left of
    the old tree is marked as complete. *)
Example torn_cache_is_marked :
  let pull := @pull_and_unpack_with Disk (disk_host true) "/r" "img" in
  let cached : Disk := {[components (path_join dir "rootfs") := ["etc"; "bin"];
                         components (path_join dir ".complete") := []]} in
  let '(r1, w1) := pull true cached in
  let '(r2, w2) := pull false w1 in
  (∃ e, r1 = Err e) ∧ r2 = Ok (path_join dir "rootfs") ∧
  w2 !! components (path_join dir "rootfs") = Some ["torn"] ∧
  is_Some (w2 !! components (path_join dir ".complete")).
Proof. vm_compute. split; [by eexists|by eauto]. Qed.
End ImageExamples.
