(* ===== verification/YoukiRuntime.v ===== *)
(** * The youki backend: containers (crates/agent-youki/src/{lib,spec,cni}.rs)

    The OCI specification, the CNI network and the lifecycle operations of [YoukiRuntime] over
    libcontainer, the CNI plugins and the disk, which are parameters ([YoukiHost]). *)

From S2P Require Import Prelude RustText Contracts UuidRef IoFrames AgentSandbox AgentIo AgentExec DockerRuntime DockerExec DockerFiles YoukiFiles YoukiImage.

(** ** The OCI specification *)

Inductive Capability :=
| CapAuditWrite | CapChown | CapDacOverride | CapFowner | CapFsetid | CapKill | CapMknod
| CapNetBindService | CapNetRaw | CapSetfcap | CapSetgid | CapSetpcap | CapSetuid | CapSysChroot.
Inductive NamespaceType := NsPid | NsNetwork | NsMount | NsIpc | NsUts | NsCgroup.

Record OciSpec := {
  sp_version : string;
  sp_root : string;
  sp_root_readonly : bool;
  sp_terminal : bool;
  sp_args : list string;
  sp_env : list string;
  sp_cwd : string;
  (** bounding, effective, permitted, inheritable and ambient alike *)
  sp_capabilities : list Capability;
  sp_no_new_privileges : bool;
  sp_cpu_quota : Z;
  sp_cpu_period : Z;
  sp_memory_limit : Z;
  sp_pids_limit : Z;
  sp_namespaces : list NamespaceType;
  sp_masked_paths : list string;
  sp_readonly_paths : list string;
  sp_cgroups_path : option string;
}.

Definition CPU_PERIOD_USEC : Z := 100000.
Definition PIDS_LIMIT : Z := 256.

Definition docker_default_caps : list Capability :=
  [CapAuditWrite; CapChown; CapDacOverride; CapFowner; CapFsetid; CapKill; CapMknod;
   CapNetBindService; CapNetRaw; CapSetfcap; CapSetgid; CapSetpcap; CapSetuid; CapSysChroot].

Definition default_masked_paths : list string :=
  ["/proc/asound"; "/proc/acpi"; "/proc/kcore"; "/proc/keys"; "/proc/latency_stats";
   "/proc/timer_list"; "/proc/timer_stats"; "/proc/sched_debug"; "/proc/scsi"; "/sys/firmware"].

Definition default_readonly_paths : list string :=
  ["/proc/bus"; "/proc/fs"; "/proc/irq"; "/proc/sys"; "/proc/sysrq-trigger"].

(** Every field the builders ask for is given, so they do not fail. *)
Definition generate_full_spec `{UuidLib} (config : ContainerConfig) (rootfs_path : string)
    (cgroup_path : option string) : OciSpec :=
  {| sp_version := "1.0.2";
     sp_root := rootfs_path;
     sp_root_readonly := false;
     sp_terminal := false;
     sp_args := DEFAULT_SANDBOX_ENTRYPOINT;
     sp_env := ["PATH=/usr/local/sbin:/usr/local/bin:/usr/sbin:/usr/bin:/sbin:/bin"; "TERM=xterm"] ++
               ((λ '(k, v), k +:+ "=" +:+ v) <$> map_to_list (cc_env_vars config));
     sp_cwd := "/";
     sp_capabilities := docker_default_caps;
     sp_no_new_privileges := true;
     sp_cpu_quota := (cc_cpu_limit_millicores config * CPU_PERIOD_USEC) `quot` 1000;
     sp_cpu_period := CPU_PERIOD_USEC;
     sp_memory_limit := as_i64 (cc_memory_limit_bytes config);
     sp_pids_limit := PIDS_LIMIT;
     sp_namespaces := [NsPid; NsNetwork; NsMount; NsIpc; NsUts; NsCgroup];
     sp_masked_paths := default_masked_paths;
     sp_readonly_paths := default_readonly_paths;
     sp_cgroups_path := cgroup_path |}.

Definition generate_spec `{UuidLib} (config : ContainerConfig) : OciSpec :=
  generate_full_spec config "rootfs" None.

(** ** CNI *)

#[warnings="-register-all"]
Inductive Json :=
| JBool (b : bool) | JNum (n : Z) | JStr (s : string) | JArr (l : list Json)
| JObj (fields : list (string * Json)).

Record CniPlugin := { cp_type : string; cp_config : gmap string Json }.
Record CniConfList := { cl_version : string; cl_name : string; cl_plugins : list CniPlugin }.
Record CniResult := { cr_version : string; cr_ips : option (list (string * option string)) }.

Definition generate_conflist (network_name : string) : CniConfList :=
  {| cl_version := "1.0.0";
     cl_name := network_name;
     cl_plugins :=
       [{| cp_type := "bridge";
           cp_config := {["bridge" := JStr "cni0"; "isGateway" := JBool true; "ipMasq" := JBool true;
             "ipam" := JObj [("type", JStr "host-local"); ("subnet", JStr "10.88.0.0/16");
                             ("routes", JArr [JObj [("dst", JStr "0.0.0.0/0")]])]]} |};
        {| cp_type := "portmap";
           cp_config := {["capabilities" := JObj [("portMappings", JBool true)]]} |}] |}.

Definition build_cni_env (command container_id netns ifname cni_path : string) : gmap string string :=
  {["CNI_COMMAND" := command; "CNI_CONTAINERID" := container_id; "CNI_NETNS" := netns;
    "CNI_IFNAME" := ifname; "CNI_PATH" := cni_path]}.

Definition inject_port_mappings (conflist : CniConfList) (host_port container_port : Z) : CniConfList :=
  let mapping := JObj [("portMappings", JArr [JObj [("hostPort", JNum host_port);
    ("containerPort", JNum container_port); ("protocol", JStr "tcp")]])] in
  {| cl_version := cl_version conflist;
     cl_name := cl_name conflist;
     cl_plugins := (λ p, if decide (cp_type p = "portmap")
                         then {| cp_type := cp_type p;
                                 cp_config := <["runtimeConfig" := mapping]> (cp_config p) |}
                         else p) <$> cl_plugins conflist |}.

(** How running a plugin ends. *)
Inductive PluginRun :=
| SpawnFailed (e : string)
| StdinFailed (e : string)
| WaitFailed (e : string)
| PluginDone (success : bool) (status : string) (stdout stderr : bytes).

Inductive BuildError := BadStateDir (e : string) | BuildFailed (e : string).
Inductive LoadError := LoadFailed (e : string) | OpFailed (e : string).
Inductive ContainerStatus := StRunning | StPaused | StOther.

(** libcontainer's calls run as tasks of their own; the outer error is a task that panicked. *)
Class YoukiHost (W : Type) := {
  #[global] yh_disk :: ImageHost W;
  run_plugin : string → gmap string string → gmap string Json → ST W PluginRun;
  json_of : bytes → option Json;
  cni_error_msg : bytes → option string;
  cni_result_of : Json → result CniResult string;
  bind_tcp : ST W (result (result Z string) string);
  youki_v4 : ST W string;
  spec_json : OciSpec → bytes;
  lc_build : string → string → ST W (result (result (option Z) BuildError) string);
  lc_status : string → W → result ContainerStatus string;
  lc_start : string → ST W (result (result () LoadError) string);
  lc_pause : string → ST W (result () string);
  lc_resume : string → ST W (result () string);
  lc_kill_term : string → ST W ();
  lc_sleep : Z → ST W ();
  lc_delete : string → ST W (result () string);
}.

Definition CONTAINER_ID_PREFIX : string := "osb".
Definition CGROUP_PATH_PREFIX : string := "/open-sandbox".
Definition NETWORK_NAME : string := "open-sandbox".
Definition STOP_GRACE_PERIOD_MS : Z := 10000.

Record YoukiConfig := { yc_root_dir : string; yc_cni_bin_path : string }.

Record ContainerMetadata `{UuidLib} := {
  cm_sandbox_id : SandboxId;
  cm_host_port : Z;
  cm_container_dir : string;
  cm_netns_path : string;
}.

(** The runtime: its table of containers and the host. *)
Record Youki `{UuidLib} (W : Type) := {
  yk_containers : gmap string ContainerMetadata;
  yk_host : W;
}.
Arguments yk_containers {_ W} _.
Arguments yk_host {_ W} _.

Section youki_runtime.
Context `{UuidLib} {W : Type} `{!YoukiHost W} (cfg : YoukiConfig).

(** ** Invoking the plugins *)

Definition plugin_conf (conflist : CniConfList) (plugin : CniPlugin) (prev : option Json)
    : gmap string Json :=
  let conf := <["name" := JStr (cl_name conflist)]>
    (<["cniVersion" := JStr (cl_version conflist)]>
      (<["type" := JStr (cp_type plugin)]> (cp_config plugin))) in
  match prev with Some r => <["prevResult" := r]> conf | None => conf end.

Fixpoint run_plugins (conflist : CniConfList) (command : string) (env : gmap string string)
    (plugins : list CniPlugin) (prev : option Json) : ST W (result (option Json) AgentError) :=
  match plugins with
  | [] => st_ret (Ok prev)
  | plugin :: rest =>
      let! run := run_plugin (path_join (yc_cni_bin_path cfg) (cp_type plugin)) env
                    (plugin_conf conflist plugin prev) in
      match run with
      | SpawnFailed e =>
          fail ("failed to spawn CNI plugin " +:+ cp_type plugin +:+ ": " +:+ e)
      | StdinFailed e => fail ("failed to write to CNI plugin stdin: " +:+ e)
      | WaitFailed e => fail ("CNI plugin " +:+ cp_type plugin +:+ " failed: " +:+ e)
      | PluginDone success status stdout stderr =>
          if negb success then
            match cni_error_msg stdout with
            | Some msg => fail ("CNI plugin " +:+ cp_type plugin +:+ " error: " +:+ msg +:+ " (" +:+
                                utf8_lossy stderr +:+ ")")
            | None => fail ("CNI plugin " +:+ cp_type plugin +:+ " exited with " +:+ status +:+ ": " +:+
                            utf8_lossy stderr)
            end
          else
            run_plugins conflist command env rest
              (if decide (command = "ADD" ∧ stdout ≠ "") then json_of stdout else prev)
      end
  end.

Definition invoke_cni (conflist : CniConfList) (command container_id netns : string)
    : ST W (result CniResult AgentError) :=
  let env := build_cni_env command container_id netns "eth0" (utf8_lossy (yc_cni_bin_path cfg)) in
  let!? prev := run_plugins conflist command env (cl_plugins conflist) None in
  st_ret (match prev with
          | Some result => map_err (λ e, Runtime ("failed to parse final CNI result: " +:+ e))
                             (cni_result_of result)
          | None => Ok {| cr_version := cl_version conflist; cr_ips := None |}
          end).

Definition allocate_port : ST W (result Z AgentError) :=
  let! r := bind_tcp in
  st_ret (
    let? listener := map_err (λ e, Runtime ("failed to bind for port allocation: " +:+ e)) r in
    map_err (λ e, Runtime ("failed to get local address: " +:+ e)) listener).

(** ** Creating a container *)

Definition state_dir : string := path_join (yc_root_dir cfg) "state".

(** [YoukiRuntime::new]: the directories are made in this order, up to the first that fails. *)
Fixpoint create_subdirs (subdirs : list string) : ST W (result () AgentError) :=
  match subdirs with
  | [] => st_ret (Ok ())
  | subdir :: rest =>
      let!? _ := or_fail ("failed to create " +:+ subdir +:+ " directory: ")
                   (disk_create_dir_all (path_join (yc_root_dir cfg) subdir)) in
      create_subdirs rest
  end.
Definition youki_new : ST W (result (W → Youki W) AgentError) :=
  let!? _ := create_subdirs ["state"; "images"; "containers"] in
  st_ret (Ok (λ w, {| yk_containers := ∅; yk_host := w |})).

Definition rollback_libcontainer (container_id container_dir : string) : ST W () :=
  let state_root := path_join state_dir container_id in
  let! _ := (λ w, if path_exists state_root w then disk_remove_dir_all state_root w else (Ok (), w)) in
  let! _ := (λ w, if path_exists container_dir w then disk_remove_dir_all container_dir w
                  else (Ok (), w)) in
  st_ret ().

Definition rollback_cni (conflist : CniConfList) (container_id netns_path : string) : ST W () :=
  let! _ := invoke_cni conflist "DEL" container_id netns_path in st_ret ().

Definition never_refused : AgentError :=
  Runtime "pull_policy=never is not yet supported by the youki runtime: youki's image_manager always probes the manifest before deciding to extract, so it cannot satisfy the no-registry-contact contract Never requires. A future iteration adds a local tag→digest index that lets Never resolve without a manifest probe. Until then, set IfNotPresent or Always.".

(** From the bundle to a built container: its first process. *)
Definition build_container (container_id bundle_dir : string) : ST W (result Z AgentError) :=
  let! r := lc_build container_id bundle_dir in
  st_ret (match r with
          | Err e => Err (Runtime ("container creation task panicked: " +:+ e))
          | Ok (Err (BadStateDir e)) => Err (Runtime ("invalid state directory: " +:+ e))
          | Ok (Err (BuildFailed e)) => Err (Runtime ("failed to create container: " +:+ e))
          | Ok (Ok None) => Err (Runtime "container has no init PID after creation")
          | Ok (Ok (Some pid)) => Ok pid
          end).

Definition start_container_task (container_id : string) : ST W (result () AgentError) :=
  let! r := lc_start container_id in
  st_ret (match r with
          | Err e => Err (Runtime ("container start task panicked: " +:+ e))
          | Ok (Err (LoadFailed e)) => Err (Runtime ("failed to load container for start: " +:+ e))
          | Ok (Err (OpFailed e)) => Err (Runtime ("failed to start container: " +:+ e))
          | Ok (Ok _) => Ok ()
          end).

(** The network and the start of a built container, undone when either fails. *)
Definition connect_and_start (config : ContainerConfig) (container_id container_dir : string)
    (host_port init_pid : Z) : ST W (result string AgentError) :=
  let netns_path := "/proc/" +:+ pretty init_pid +:+ "/ns/net" in
  if decide (cc_exposed_port config > 65535)%Z then
    fail ("exposed_port " +:+ pretty (cc_exposed_port config) +:+ " exceeds u16 range")
  else
  let conflist := inject_port_mappings (generate_conflist NETWORK_NAME) host_port
                    (cc_exposed_port config) in
  let! added := invoke_cni conflist "ADD" container_id netns_path in
  match added with
  | Err e => let! _ := rollback_libcontainer container_id container_dir in st_ret (Err e)
  | Ok _ =>
      let! started := start_container_task container_id in
      match started with
      | Err e =>
          let! _ := rollback_cni conflist container_id netns_path in
          let! _ := rollback_libcontainer container_id container_dir in
          st_ret (Err e)
      | Ok _ => st_ret (Ok netns_path)
      end
  end.

(** Everything but the entry in the table: (container id, its metadata). *)
Definition create_on_host (config : ContainerConfig)
    : ST W (result (string * ContainerMetadata) AgentError) :=
  if decide (cc_pull_policy config = Never) then st_ret (Err never_refused) else
  let!? rootfs := pull_and_unpack_with (yc_root_dir cfg) (cc_image config)
                    (bool_decide (cc_pull_policy config = Always)) in
  let!? _ := write_resolv_conf rootfs in
  let!? host_port := allocate_port in
  let! uuid := youki_v4 in
  let container_id := CONTAINER_ID_PREFIX +:+ "-" +:+ uuid in
  let container_dir := path_join (path_join (yc_root_dir cfg) "containers") container_id in
  let bundle_dir := path_join container_dir "bundle" in
  let!? _ := or_fail "failed to create bundle directory: " (disk_create_dir_all bundle_dir) in
  let oci_spec := generate_full_spec config (utf8_lossy rootfs)
                    (Some (CGROUP_PATH_PREFIX +:+ "/" +:+ container_id)) in
  let!? _ := or_fail "failed to write config.json: "
               (disk_write (path_join bundle_dir "config.json") (spec_json oci_spec)) in
  let!? init_pid := build_container container_id bundle_dir in
  let!? netns_path := connect_and_start config container_id container_dir host_port init_pid in
  st_ret (Ok (container_id, {| cm_sandbox_id := cc_sandbox_id config; cm_host_port := host_port;
                               cm_container_dir := container_dir; cm_netns_path := netns_path |})).

Definition on_host {A} (op : ST W A) : ST (Youki W) A := λ y,
  let '(a, w) := op (yk_host y) in (a, {| yk_containers := yk_containers y; yk_host := w |}).

Definition youki_create_and_start (config : ContainerConfig)
    : ST (Youki W) (result ContainerInfo AgentError) :=
  let!? (container_id, meta) := on_host (create_on_host config) in
  λ y, (Ok {| ci_id := container_id; ci_sandbox_id := cc_sandbox_id config;
              ci_host_port := cm_host_port meta; ci_state := CRunning |},
        {| yk_containers := <[container_id := meta]> (yk_containers y); yk_host := yk_host y |}).

(** ** Pause, resume, stop and list *)

(** Each runs as a task of its own, modelled as one that does not panic. *)

(** A container that is there already is success. *)
Definition freeze_task (reached : ContainerStatus → bool)
    (op : string → ST W (result () string)) (load_text op_text : string) (id : string)
    : ST W (result () AgentError) := λ w,
  match lc_status id w with
  | Err e => (Err (Runtime ("failed to load container for " +:+ load_text +:+ ": " +:+ e)), w)
  | Ok status => if reached status then (Ok (), w)
                 else or_fail ("failed to " +:+ op_text +:+ " container: ") (op id) w
  end.
Definition is_paused (s : ContainerStatus) : bool := match s with StPaused => true | _ => false end.
Definition is_running (s : ContainerStatus) : bool := match s with StRunning => true | _ => false end.

Definition youki_pause (id : string) : ST (Youki W) (result () AgentError) :=
  on_host (freeze_task is_paused lc_pause "pause" "pause" id).
Definition youki_unpause (id : string) : ST (Youki W) (result () AgentError) :=
  on_host (freeze_task is_running lc_resume "unpause" "resume" id).

Definition stop_task (id : string) (grace_ms : Z) : ST W (result () AgentError) := λ w,
  match lc_status id w with
  | Err e => (Err (Runtime ("failed to load container for stop: " +:+ e)), w)
  | Ok status =>
      (let! _ := if is_paused status then lc_resume id else st_ret (Ok ()) in
       let! _ := lc_kill_term id in
       let! _ := lc_sleep grace_ms in
       or_fail "failed to delete container: " (lc_delete id)) w
  end.

Definition youki_stop_and_remove (id : string) (timeout_ms : Z)
    : ST (Youki W) (result () AgentError) := λ y,
  let metadata := yk_containers y !! id in
  (let!? _ := on_host (stop_task id (Z.min timeout_ms STOP_GRACE_PERIOD_MS)) in
   match metadata with
   | None => st_ret (Ok ())
   | Some meta =>
       let! _ := on_host (invoke_cni (generate_conflist NETWORK_NAME) "DEL" id (cm_netns_path meta)) in
       let! _ := on_host (disk_remove_dir_all (cm_container_dir meta)) in
       st_ret (Ok ())
   end) {| yk_containers := delete id (yk_containers y); yk_host := yk_host y |}.

Definition youki_list_sandbox_containers : ST (Youki W) (result (list ContainerInfo) AgentError) := λ y,
  (Ok ((λ '(cid, meta),
          {| ci_id := cid; ci_sandbox_id := cm_sandbox_id meta; ci_host_port := cm_host_port meta;
             ci_state := match lc_status cid (yk_host y) with
                         | Ok StRunning => CRunning
                         | Ok StPaused => CPaused
                         | _ => CStopped
                         end |}) <$> map_to_list (yk_containers y)), y).

#[global] Instance YoukiLifecycle : ContainerRuntime (Youki W) := {|
  create_and_start config := let! r := youki_create_and_start config in st_ret (Some r);
  stop_and_remove := youki_stop_and_remove;
  pause := youki_pause;
  unpause := youki_unpause;
  list_sandbox_containers := youki_list_sandbox_containers;
|}.
End youki_runtime.

(** ** The two backends give a sandbox the same limits *)

(** C35: For every limit a request can carry, the two container backends grant the same share
    of CPU time and the same memory limit: nothing overflows the signed 64-bit fields, the
    share of a period is the configured number of millicores exactly, and the memory limit is
    the configured one when it fits in 63 bits and is negative, meaning none, otherwise. *)
Theorem backends_agree_on_limits `{UuidLib} config sandbox_id host_port rootfs cgroup :
  in_u32 (cc_cpu_limit_millicores config) → in_u64 (cc_memory_limit_bytes config) →
  let d := build_docker_config config sandbox_id host_port in
  let s := generate_full_spec config rootfs cgroup in
  (dk_nano_cpus d * sp_cpu_period s = sp_cpu_quota s * 10 ^ 9)%Z ∧
  (sp_cpu_quota s * 1000 = cc_cpu_limit_millicores config * sp_cpu_period s)%Z ∧
  in_i64 (dk_nano_cpus d) ∧ in_i64 (cc_cpu_limit_millicores config * CPU_PERIOD_USEC) ∧
  dk_memory d = sp_memory_limit s ∧
  sp_memory_limit s = (if decide (cc_memory_limit_bytes config < 2 ^ 63)%Z
                       then cc_memory_limit_bytes config
                       else cc_memory_limit_bytes config - 2 ^ 64)%Z.
Proof.
  intros Hc Hm. cbn. unfold in_u32, in_u64, in_i64, CPU_PERIOD_USEC, NANOCPUS_PER_MILLICPU in *.
  assert ((cc_cpu_limit_millicores config * 100000) `quot` 1000 = cc_cpu_limit_millicores config * 100)%Z
    as Hq.
  { replace (cc_cpu_limit_millicores config * 100000)%Z
      with (cc_cpu_limit_millicores config * 100 * 1000)%Z by lia. by rewrite Z.quot_mul. }
  split; [lia|]. split; [lia|]. split; [lia|]. split; [lia|]. split; [done|].
  unfold as_i64, as_signed. rewrite Z.mod_small by lia. by repeat case_decide.
Qed.

(** ** Rollback *)

(** What the plugins and libcontainer promise: which containers hold an address. *)
Class YoukiNet (W Tree : Type) `{!YoukiHost W} `{!ImageDisk W Tree} := {
  attached : W → string → Prop;
  yn_plugin_disk : ∀ path env conf w p, tree (run_plugin path env conf w).2 p = tree w p;
  (** only an ADD attaches, and only its own container *)
  yn_plugin : ∀ path env conf w c,
    attached (run_plugin path env conf w).2 c →
    attached w c ∨ env !! "CNI_COMMAND" = Some "ADD" ∧ env !! "CNI_CONTAINERID" = Some c;
  (** a DEL of the bridge that succeeds gives the address back *)
  yn_released : ∀ path env conf w c status stdout stderr w',
    env !! "CNI_COMMAND" = Some "DEL" → env !! "CNI_CONTAINERID" = Some c →
    conf !! "type" = Some (JStr "bridge") →
    run_plugin path env conf w = (PluginDone true status stdout stderr, w') → ¬ attached w' c;
  yn_remove : ∀ f w c, attached (disk_remove_dir_all f w).2 c ↔ attached w c;
  yn_start_disk : ∀ id w p, tree (lc_start id w).2 p = tree w p;
  yn_start : ∀ id w c, attached (lc_start id w).2 c ↔ attached w c;
}.

Section rollback.
Context `{UuidLib} {W Tree : Type} `{!YoukiHost W} `{!ImageDisk W Tree} `{!YoukiNet W Tree} (cfg : YoukiConfig).
Implicit Types (w : W) (p c id : string).

Lemma run_plugins_disk conflist command env plugins prev w p :
  tree (run_plugins cfg conflist command env plugins prev w).2 p = tree w p.
Proof.
  revert prev w. induction plugins as [|plugin plugins IH]; intros prev w; [done|].
  cbn [run_plugins]. unfold st_bind.
  pose proof (yn_plugin_disk (path_join (yc_cni_bin_path cfg) (cp_type plugin)) env
    (plugin_conf conflist plugin prev) w p) as H1.
  destruct (run_plugin _ _ _ w) as [run w1]; cbn [snd] in H1.
  destruct run; try done. destruct success; cbn [negb]; [by rewrite IH|by case_match].
Qed.

Lemma run_plugins_attached conflist command env plugins prev w c :
  attached (run_plugins cfg conflist command env plugins prev w).2 c →
  attached w c ∨ env !! "CNI_COMMAND" = Some "ADD" ∧ env !! "CNI_CONTAINERID" = Some c.
Proof.
  revert prev w. induction plugins as [|plugin plugins IH]; intros prev w; [by left|].
  cbn [run_plugins]. unfold st_bind.
  pose proof (yn_plugin (path_join (yc_cni_bin_path cfg) (cp_type plugin)) env
    (plugin_conf conflist plugin prev) w c) as H1.
  destruct (run_plugin _ _ _ w) as [run w1]; cbn [snd] in H1.
  destruct run; try exact H1. destruct success; cbn [negb]; [|by case_match].
  intros [Ha|?]%IH; [by apply H1|by right].
Qed.

Lemma invoke_cni_disk conflist command id netns w p :
  tree (invoke_cni cfg conflist command id netns w).2 p = tree w p.
Proof.
  unfold invoke_cni, st_bind_ok, st_bind, st_ret.
  pose proof (run_plugins_disk conflist command
    (build_cni_env command id netns "eth0" (utf8_lossy (yc_cni_bin_path cfg)))
    (cl_plugins conflist) None w p) as H1.
  by destruct (run_plugins _ _ _ _ _ _ w) as [[] w1].
Qed.

Lemma invoke_cni_attached conflist command id netns w c :
  attached (invoke_cni cfg conflist command id netns w).2 c →
  attached w c ∨ command = "ADD" ∧ c = id.
Proof.
  unfold invoke_cni, st_bind_ok, st_bind, st_ret.
  pose proof (run_plugins_attached conflist command
    (build_cni_env command id netns "eth0" (utf8_lossy (yc_cni_bin_path cfg)))
    (cl_plugins conflist) None w c) as H1.
  destruct (run_plugins _ _ _ _ _ _ w) as [[] w1]; cbn [snd] in *; intros Ha;
    destruct (H1 Ha) as [?|[E1 E2]]; try (by left); right; vm_compute in E1, E2; naive_solver.
Qed.

Lemma run_plugins_cons_ok conflist command env plugin rest prev w r w' :
  run_plugins cfg conflist command env (plugin :: rest) prev w = (Ok r, w') →
  ∃ status stdout stderr prev' w1,
    run_plugin (path_join (yc_cni_bin_path cfg) (cp_type plugin)) env (plugin_conf conflist plugin prev) w
      = (PluginDone true status stdout stderr, w1) ∧
    run_plugins cfg conflist command env rest prev' w1 = (Ok r, w').
Proof.
  cbn [run_plugins]. unfold st_bind, fail.
  destruct (run_plugin _ _ _ w) as [run w1]. destruct run; try discriminate.
  destruct success; cbn [negb]; [by eauto 10|]. by case_match.
Qed.

(** A DEL that succeeds gives the address back. *)
Lemma invoke_cni_released host_port container_port id netns w r w' :
  invoke_cni cfg (inject_port_mappings (generate_conflist NETWORK_NAME) host_port container_port)
    "DEL" id netns w = (Ok r, w') → ¬ attached w' id.
Proof.
  set (conflist := inject_port_mappings _ _ _).
  assert (∃ bridge portmap, cl_plugins conflist = [bridge; portmap] ∧ cp_type bridge = "bridge")
    as (bridge & portmap & Hpl & Hb) by (by eexists _, _).
  unfold invoke_cni, st_bind_ok, st_bind, st_ret. rewrite Hpl.
  set (env := build_cni_env "DEL" id netns "eth0" _).
  assert (env !! "CNI_COMMAND" = Some "DEL" ∧ env !! "CNI_CONTAINERID" = Some id) as [E1 E2] by done.
  destruct (run_plugins _ _ _ _ _ _ w) as [[p|e] w2] eqn:Hrun; [|discriminate].
  intros [= _ <-]. apply run_plugins_cons_ok in Hrun as (?&?&?&prev&w1&Hbr&Hrest).
  assert (¬ attached w1 id) as Hw1.
  { eapply yn_released; [exact E1|exact E2| |exact Hbr].
    unfold plugin_conf. rewrite 2 lookup_insert_ne, lookup_insert_eq by done. by rewrite Hb. }
  intros Ha. pose proof (run_plugins_attached conflist "DEL" env [portmap] prev w1 id) as H2.
  rewrite Hrest in H2. destruct (H2 Ha) as [?|[E _]]; [done|]. by rewrite E1 in E.
Qed.

Lemma start_container_task_spec id w :
  (∀ p, tree (start_container_task id w).2 p = tree w p) ∧
  ∀ c, attached (start_container_task id w).2 c ↔ attached w c.
Proof.
  pose proof (yn_start_disk id w) as Hd. pose proof (yn_start id w) as Ha.
  unfold start_container_task, st_bind, st_ret. by destruct (lc_start id w).
Qed.

(** Removing a directory that is there. *)
Definition remove_if_there (f : string) : ST W (result () string) := λ v,
  if path_exists f v then disk_remove_dir_all f v else (Ok (), v).

Lemma remove_if_there_spec f v :
  let v' := (remove_if_there f v).2 in
  ((∀ v, (disk_remove_dir_all f v).1 = Ok ()) → tree v' f = None) ∧
  (∀ p, apart p f → tree v' p = tree v p) ∧ ∀ c, attached v' c ↔ attached v c.
Proof.
  unfold remove_if_there. destruct (path_exists f v) eqn:E; cbn zeta.
  - split; [|split; [intros; by apply id_remove_dir|intros; apply yn_remove]].
    intros Hrm. specialize (Hrm v).
    destruct (disk_remove_dir_all f v) as [? v'] eqn:Er. cbn in *. subst. by eapply id_removed.
  - split; [|done]. intros _. apply not_true_iff_false in E. destruct (tree v f) eqn:Et; [|done].
    destruct E. apply id_exists. by rewrite Et.
Qed.

Lemma rollback_libcontainer_spec id dir w :
  apart (path_join (state_dir cfg) id) dir →
  let w' := (rollback_libcontainer cfg id dir w).2 in
  ((∀ v, (disk_remove_dir_all (path_join (state_dir cfg) id) v).1 = Ok ()) →
     tree w' (path_join (state_dir cfg) id) = None) ∧
  ((∀ v, (disk_remove_dir_all dir v).1 = Ok ()) → tree w' dir = None) ∧
  ∀ c, attached w' c ↔ attached w c.
Proof.
  intros Hap. unfold rollback_libcontainer, st_bind, st_ret. cbv zeta.
  set (root := path_join (state_dir cfg) id) in *. fold (remove_if_there root w).
  destruct (remove_if_there_spec root w) as (Ha & _ & Hb).
  destruct (remove_if_there root w) as [r1 w1]. cbn [snd] in *. fold (remove_if_there dir w1).
  destruct (remove_if_there_spec dir w1) as (Hc & Hd & He).
  destruct (remove_if_there dir w1) as [r2 w2]. cbn [snd] in *.
  split; [by rewrite Hd|]. split; [done|]. intros c. by rewrite He, Hb.
Qed.

End rollback.

Module YoukiRuntimeExamples.
Import ImageExamples.

(** The disk of [ImageExamples], with a mark for every container that holds an address: no
    path has a component that is empty. *)
Definition address (c : string) : list string := [""; c].

Lemma address_no_path (c p : string) : address c ≠ components p.
Proof.
  intros E. assert ("" ∈ components p) as Hin by (rewrite <- E; by left).
  unfold components in Hin. apply list_elem_of_filter in Hin as [[Hn _] _]. done.
Qed.

Definition is_bridge (kind : option Json) : bool :=
  match kind with Some (JStr s) => bool_decide (s = "bridge") | _ => false end.
Definition set_address (env : gmap string string) (kind : option Json) (w : Disk) : Disk :=
  match env !! "CNI_CONTAINERID" with
  | Some c =>
      if negb (is_bridge kind) then w
      else if decide (env !! "CNI_COMMAND" = Some "ADD") then <[address c := []]> w
      else if decide (env !! "CNI_COMMAND" = Some "DEL") then delete (address c) w else w
  | None => w
  end.

Lemma set_address_disk env kind w p : set_address env kind w !! components p = w !! components p.
Proof.
  pose proof (λ c, address_no_path c p) as Hn. unfold set_address.
  repeat case_match; try done; (rewrite lookup_insert_ne || rewrite lookup_delete_ne); done.
Qed.

Lemma set_address_other env kind w c :
  is_Some (set_address env kind w !! address c) →
  is_Some (w !! address c) ∨ env !! "CNI_COMMAND" = Some "ADD" ∧ env !! "CNI_CONTAINERID" = Some c.
Proof.
  unfold set_address. destruct (env !! "CNI_CONTAINERID") as [d|]; [|by left].
  destruct (negb _); [by left|]. repeat case_decide; try (by left).
  - destruct (decide (d = c)) as [->|Hne]; [by right|].
    rewrite lookup_insert_ne; [by left|]. by intros [=].
  - rewrite lookup_delete_is_Some. intros [_ Hc]. by left.
Qed.

(** The bridge keeps the addresses; the container cannot be started. *)
#[local] Instance net_host : YoukiHost Disk := {|
  yh_disk := sound_host;
  run_plugin _ env conf w :=
    (PluginDone true "exit status: 0" "" "",
     set_address env (conf !! "type") w);
  json_of _ := None;
  cni_error_msg _ := None;
  cni_result_of _ := Err "none";
  bind_tcp w := (Ok (Ok 40000%Z), w);
  youki_v4 w := ("u1", w);
  spec_json _ := "{}";
  lc_build _ _ w := (Ok (Ok (Some 7%Z)), w);
  lc_status _ _ := Ok StOther;
  lc_start _ w := (Ok (Err (OpFailed "no init")), w);
  lc_pause _ w := (Ok (), w);
  lc_resume _ w := (Ok (), w);
  lc_kill_term _ w := ((), w);
  lc_sleep _ w := ((), w);
  lc_delete _ w := (Ok (), w);
|}.

#[local] Instance net_disk : ImageDisk Disk (list string) := sound_disk.

#[local] Instance net_laws : YoukiNet Disk (list string).
Proof.
  refine {| attached w c := is_Some (w !! address c) |}; try done.
  - intros path env conf w p. apply set_address_disk.
  - intros path env conf w c. apply set_address_other.
  - intros path env conf w c ??? w' E1 E2 E3 [= <- <- <- <-]. unfold set_address.
    rewrite E2, E3, decide_False, decide_True by (done || by rewrite E1).
    change (negb _) with false. cbv iota. rewrite lookup_delete_eq. by intros [].
  - intros f w c. cbn. rewrite lookup_delete_ne; [done|]. intros E. by apply (address_no_path c f).
Defined.

Definition host_config : YoukiConfig := {| yc_root_dir := "/y"; yc_cni_bin_path := "/cni" |}.
Definition small_box : @ContainerConfig RefUuid :=
  {| cc_sandbox_id := uid 7; cc_image := "alpine"; cc_cpu_limit_millicores := 1500;
     cc_memory_limit_bytes := 2 ^ 29; cc_env_vars := {["A" := "1"]}; cc_exposed_port := 8080;
     cc_pull_policy := IfNotPresent |}.
Definition bundle : string := "/y/containers/osb-u1".
Definition built : Disk := {[components "/y/state/osb-u1" := []; components bundle := ["bundle"]]}.


Lemma backends_agree_on_limits_witness :
  (dk_nano_cpus (build_docker_config small_box "s" None) = 1500000000 ∧
  sp_cpu_quota (generate_full_spec small_box "rootfs" None) = 150000 ∧
  dk_memory (build_docker_config small_box "s" None) = 2 ^ 29)%Z.
Proof.
  destruct (backends_agree_on_limits small_box "s" None "rootfs" None) as (H1 & H2 & _ & _ & H3 & H4);
    [by vm_compute|by vm_compute|].
  split; [done|]. split; [done|]. by rewrite H3, H4.
Defined.
End YoukiRuntimeExamples.
