(* ===== verification/YoukiExec.v ===== *)
(** * The youki backend: execs (crates/agent-youki/src/exec.rs)

    A command is run in a container with [nsenter], with a pipe for each of the three streams
    and a task for each pipe. The processes are a parameter ([Nsenter]); an exec is modelled
    from its start to its end, as in [DockerExec]. *)

From S2P Require Import Prelude RustText Contracts IoFrames AgentSandbox AgentIo AgentExec DockerRuntime DockerExec YoukiFiles.

Definition nsenter_args (target_pid : Z) (start : ExecStart) : list string :=
  ["--target"; pretty target_pid; "--mount"; "--uts"; "--ipc"; "--net"; "--pid"] ++
  (if decide (es_cwd start = "") then [] else ["--wd=" +:+ es_cwd start]) ++
  ["--"] ++ wrap_command_with_inpid_marker (es_command start).

Definition kill_args (target_pid in_container_pid signum : Z) : list string :=
  ["--target"; pretty target_pid; "--mount"; "--pid"; "--"; "kill"; "-" +:+ pretty signum;
   pretty in_container_pid].

(** A run of nsenter to its end: what each pipe gave until it ended or failed, with whether the
    receiver was still there, which writes to the process succeeded, the exit code, and how
    many ms after the start the stderr pump had the answer about the first line. *)
Record NsenterRun := {
  nr_stdout : list (bool * bytes);
  nr_stderr : list (bool * bytes);
  nr_stdin : list bool;
  nr_exit_code : option Z;
  nr_marker_ms : Z;
}.

(** The process that could not be had: no such program, no pid, or a pipe that is missing. *)
Inductive SpawnError :=
| NotSpawned (e : string) | NoPid | NoStdin | NoStdout | NoStderr.

Definition spawn_error (e : SpawnError) : AgentError :=
  Runtime match e with
          | NotSpawned e => "failed to spawn nsenter: " +:+ e
          | NoPid => "spawned nsenter has no PID"
          | NoStdin => "nsenter stdin not available"
          | NoStdout => "nsenter stdout not available"
          | NoStderr => "nsenter stderr not available"
          end.

Class Nsenter (W : Type) := {
  #[global] nse_host :: Host W;
  (** the arguments, the variables added to the agent's own, and the input *)
  nsenter_run : list string → gmap string string → list bytes → ST W (result NsenterRun SpawnError);
  (** the same for a process of which only the exit status matters *)
  nsenter_status : list string → ST W (result bool string);
}.

(** The pumps are tasks of their own: each ends with its pipe or its receiver. *)
Fixpoint stdout_pump (reads : list (bool * bytes)) (sent : list bytes) (cnf : bytes)
    : list bytes * bytes :=
  match reads with
  | [] => (sent, cnf)
  | (open, m) :: rest =>
      if open : bool then stdout_pump rest (sent ++ [m]) (remember cnf m)
      else (sent, remember cnf m)
  end.

(** One read of the process's stderr; [false]: the receiver is gone. *)
Definition stderr_read (open : bool) (m : bytes) (d : Demux) : Demux * bool :=
  if dx_done d then forward_stderr open m d else
  let buf := dx_scan d +:+ m in
  match consume_inpid_marker buf with
  | Found pid rest =>
      let d := scanned (Some pid) true "" d in
      if decide (rest = "") then (d, true) else forward_stderr open rest d
  | Wait => (scanned (dx_pid d) false buf d, true)
  | GiveUp => forward_stderr open buf (scanned (dx_pid d) true "" d)
  end.

Fixpoint stderr_pump (reads : list (bool * bytes)) (d : Demux) : Demux :=
  match reads with
  | [] => d
  | (open, m) :: rest =>
      let '(d', go_on) := stderr_read open m d in
      if go_on then stderr_pump rest d' else d'
  end.

(** The task that feeds the process stops at the first write that fails. *)
Definition stdin_pump (writes : list bool) : bool := forallb id writes.

Definition youki_exit_info (run : NsenterRun) (out_cnf err_cnf : bytes) : ExecExitInfo :=
  let exit_code := default (-1)%Z (nr_exit_code run) in
  {| xi_exit_code := exit_code;
     xi_command_not_found := bool_decide (exit_code = 127)%Z &&
       (detect_command_not_found err_cnf || detect_command_not_found out_cnf) |}.

(** [Duration::from_secs(1)] *)
Definition YOUKI_INPID_WAIT_MS : Z := 1000.

(** What the caller sees of a run; a pid that did not come in time is 0. *)
Definition exec_done (exec_id : string) (run : NsenterRun) : ExecDone :=
  let '(out, out_cnf) := stdout_pump (nr_stdout run) [] "" in
  let d := stderr_pump (nr_stderr run) demux_start in
  {| ed_exec_id := exec_id;
     ed_pid := default 0%Z (awaited_pid YOUKI_INPID_WAIT_MS (nr_marker_ms run) (dx_pid d));
     ed_stdout := out;
     ed_stderr := dx_stderr d;
     ed_exited := Some (youki_exit_info run out_cnf (dx_cnf_err d));
     ed_stdin_open := stdin_pump (nr_stdin run) |}.

Section youki_exec.
Context {W : Type} `{!Nsenter W}.

Definition start_exec_streaming (container_id : ContainerId) (start : ExecStart) (stdin : list bytes)
    : ST W (result ExecDone AgentError) := λ w,
  match container_pid container_id w with
  | Err e => (Err e, w)
  | Ok target_pid =>
      (let! exec_id := host_v4_simple in
       let! ran := nsenter_run (nsenter_args target_pid start) (es_env start) stdin in
       st_ret (match ran with
               | Err e => Err (spawn_error e)
               | Ok run => Ok (exec_done exec_id run)
               end)) w
  end.

(** A process that is gone already is no error. *)
Definition signal_in_container (container_id : ContainerId) (in_container_pid signum : Z)
    : ST W (result () AgentError) := λ w,
  match container_pid container_id w with
  | Err e => (Err e, w)
  | Ok target_pid =>
      (let! r := nsenter_status (kill_args target_pid in_container_pid signum) in
       st_ret (match r with
               | Err e => Err (Runtime ("nsenter kill spawn failed: " +:+ e))
               | Ok _ => Ok ()
               end)) w
  end.

Definition youki_signal_exec (id : ContainerId) (in_container_pid signum : Z)
    : ST W (result () AgentError) :=
  if decide (in_container_pid ≤ 0)%Z then st_ret (Ok ())
  else signal_in_container id in_container_pid signum.
End youki_exec.

(** ** The two backends show an exec alike *)

(** The run whose pipes give what an attached exec of the Docker daemon gives, as fast. *)
Definition run_of (a : Attached) (code : Z) (writes : list bool) : NsenterRun :=
  {| nr_stdout := pair true <$> outs (at_output a);
     nr_stderr := pair true <$> omap err_of (received (at_output a));
     nr_stdin := writes;
     nr_exit_code := Some code;
     nr_marker_ms := at_marker_ms a |}.

Lemma as_i32_id z : in_i32 z → as_i32 z = z.
Proof.
  unfold in_i32, as_i32, as_signed. intros Hz. case_decide as Hm.
  - destruct (decide (0 ≤ z)%Z); [by rewrite Z.mod_small by lia|].
    exfalso. replace z with (z + 2 ^ 32 + (-1) * 2 ^ 32)%Z in Hm by lia.
    rewrite Z.mod_add, Z.mod_small in Hm by lia. lia.
  - destruct (decide (0 ≤ z)%Z); [exfalso; rewrite Z.mod_small in Hm by lia; lia|].
    replace z with (z + 2 ^ 32 + (-1) * 2 ^ 32)%Z at 1 by lia.
    rewrite Z.mod_add, Z.mod_small by lia. lia.
Qed.

Lemma demux_stderr_chunk d m :
  ∃ d', demux_chunk true true d (LStdErr m) = (d', true) ∧
    dx_stdout d' = dx_stdout d ∧ dx_cnf_out d' = dx_cnf_out d.
Proof.
  cbn [demux_chunk]. unfold forward_stderr.
  destruct (dx_done d); [by eexists|]. destruct (consume_inpid_marker _); [case_decide| |]; by eexists.
Qed.

Lemma stdout_pump_demux output d :
  listening output →
  stdout_pump (pair true <$> outs output) (dx_stdout d) (dx_cnf_out d) =
  let d' := (demux_output d output).1 in (dx_stdout d', dx_cnf_out d').
Proof.
  intros Hl. revert d. induction Hl as [|[oe [c|e]] output Hoe Hl IH]; intros d; [done| |by destruct oe].
  cbn in Hoe. subst oe. cbn [demux_output]. destruct c as [m|m|];
    [exact (IH (demux_chunk true true d (LStdOut m)).1)| |exact (IH d)].
  destruct (demux_stderr_chunk d m) as (d' & -> & <- & <-). exact (IH d').
Qed.

(** A stderr pipe read on its own does not see the other stream. *)
Definition same_stderr (d e : Demux) : Prop :=
  dx_scan d = dx_scan e ∧ dx_done d = dx_done e ∧ dx_pid d = dx_pid e ∧
  dx_stderr d = dx_stderr e ∧ dx_cnf_err d = dx_cnf_err e.

Lemma stderr_pump_demux output d e :
  listening output → same_stderr e d →
  same_stderr (stderr_pump (pair true <$> omap err_of (received output)) e) (demux_output d output).1.
Proof.
  intros Hl. revert d e. induction Hl as [|[oe [c|x]] output Hoe Hl IH]; intros d e He; [done| |by destruct oe].
  cbn in Hoe. subst oe. cbn [demux_output]. destruct c as [m|m|]; [by apply IH| |by apply IH].
  cbn [received omap list_omap err_of fmap list_fmap stderr_pump].
  destruct He as (H1 & H2 & H3 & H4 & H5). unfold stderr_read. cbn [demux_chunk].
  rewrite H1, H2, H3. unfold forward_stderr, scanned.
  destruct (dx_done d); [|destruct (consume_inpid_marker _); [case_decide| |]];
    apply IH; unfold same_stderr; cbn; rewrite ?H4, ?H5; done.
Qed.

(** No signal is ever sent to the process of such a handle. *)
Definition never_signalled (pid : Z) : Prop :=
  ∀ W `(!Nsenter W) id signum (w : W), youki_signal_exec id pid signum w = (Ok (), w).

Lemma nonpositive_never_signalled pid : (pid ≤ 0)%Z → never_signalled pid.
Proof. intros Hp W NW cid signum w. unfold youki_signal_exec. by rewrite decide_True. Qed.

(** C24: how an exec looks on the two container backends. For the same output, exit code and
    listening caller, the two pipes of the youki backend yield the byte chunks, the exit code
    and the command-not-found verdict that the single multiplexed stream of the Docker backend
    yields. The pid depends on when the marker comes: within one second both have the same,
    or Docker refuses to start the exec and youki starts one to which no signal is ever sent;
    after one second youki always starts one to which no signal is ever sent, while Docker
    takes the pid of a marker that comes within five seconds and refuses the exec after that. *)
Theorem exec_backends_agree a code writes exec_id :
  listening (at_output a) → in_i32 code →
  let d := (demux_output demux_start (at_output a)).1 in
  let docker := captured_pid (awaited_pid INPID_WAIT_MS (at_marker_ms a) (dx_pid d)) in
  let y := exec_done exec_id (run_of a code writes) in
  ed_stdout y = dx_stdout d ∧ ed_stderr y = dx_stderr d ∧
  ed_exited y = Some (exit_info d (Some (Some code))) ∧
  ((at_marker_ms a ≤ 1000)%Z →
     match docker with Ok pid => ed_pid y = pid | Err _ => never_signalled (ed_pid y) end) ∧
  ((1000 < at_marker_ms a ≤ 5000)%Z →
     docker = captured_pid (dx_pid d) ∧ ed_pid y = 0%Z ∧ never_signalled (ed_pid y)) ∧
  ((5000 < at_marker_ms a)%Z →
     docker = captured_pid None ∧ ed_pid y = 0%Z ∧ never_signalled (ed_pid y)).
Proof.
  intros Hl Hc d docker y. subst y. unfold exec_done, run_of.
  cbn [nr_stdout nr_stderr nr_exit_code nr_marker_ms].
  pose proof (stdout_pump_demux (at_output a) demux_start Hl) as Hout. cbn in Hout. fold d in Hout.
  rewrite Hout.
  destruct (stderr_pump_demux (at_output a) demux_start demux_start Hl) as (_ & _ & Hpid & Herr & Hcnf);
    [done|].
  fold d in Hpid, Herr, Hcnf. cbn [ed_stdout ed_stderr ed_exited ed_pid].
  split; [done|]. split; [done|]. split.
  { unfold youki_exit_info, exit_info. cbn [nr_exit_code default]. rewrite Hcnf.
    cbn [from_option id]. by rewrite (as_i32_id code). }
  rewrite Hpid. unfold docker, awaited_pid, INPID_WAIT_MS, YOUKI_INPID_WAIT_MS.
  split; [|split]; intros Ht; repeat case_decide; try lia.
  - destruct (dx_pid d) as [pid|]; cbn [captured_pid from_option]; [case_decide|]; [done| |];
      apply nonpositive_never_signalled; unfold id; lia.
  - split; [done|]. split; [done|]. by apply nonpositive_never_signalled.
  - split; [done|]. split; [done|]. by apply nonpositive_never_signalled.
Qed.

Module YoukiExecExamples.
(** The marker line in two pieces around the command's output; the command is missing. *)
Definition missing : ExecOutput :=
  (λ c, (true, true, Ok c)) <$>
  [LStdErr "OPENSB_INPID=4"; LStdOut "hi"; LStdErr (String.append "2" (String newline "opensb-wrapper: x: not found"))].

(** The marker is there after the given time. *)
Definition missing_at (ms : Z) : Attached :=
  {| at_output := missing; at_marker_ms := ms; at_stdin_open := true |}.

Lemma exec_backends_agree_witness :
  let y := exec_done "e" (run_of (missing_at 20) 127 []) in
  let late := exec_done "e" (run_of (missing_at 2000) 127 []) in
  ed_stdout y = ["hi"] ∧ ed_stderr y = ["opensb-wrapper: x: not found"] ∧ ed_pid y = 42%Z ∧
  ed_exited y = Some {| xi_exit_code := 127; xi_command_not_found := true |} ∧
  captured_pid (awaited_pid INPID_WAIT_MS 2000 (dx_pid (demux_output demux_start missing).1)) = Ok 42%Z ∧
  ed_pid late = 0%Z.
Proof.
  destruct (exec_backends_agree (missing_at 20) 127 [] "e") as (H1 & H2 & H3 & H4 & _);
    [by repeat constructor|by vm_compute|].
  destruct (exec_backends_agree (missing_at 2000) 127 [] "e") as (_ & _ & _ & _ & (H5 & H6 & _) & _);
    [by repeat constructor|by vm_compute|done|].
  assert (captured_pid (dx_pid (demux_output demux_start missing).1) = Ok 42%Z) as Hpid by evaluate.
  specialize (H4 ltac:(done)).
  change (awaited_pid INPID_WAIT_MS (at_marker_ms (missing_at 20)) (dx_pid (demux_output demux_start (at_output (missing_at 20))).1))
    with (dx_pid (demux_output demux_start missing).1) in H4. rewrite Hpid in H4.
  split; [rewrite H1; evaluate|]. split; [rewrite H2; evaluate|]. split; [exact H4|].
  split; [rewrite H3; evaluate|]. split; [etrans; [exact H5|exact Hpid]|exact H6].
Defined.
End YoukiExecExamples.
