(* ===== verification/AgentTunnel.v ===== *)
(** * The agent's side of the tunnel (crates/agent/src/{proxy_client,tunnel}.rs)

    [ProxyConnection::run] per request, [handle_io_client_frame], and the life of the
    sessions it spawns: the driver, the wrapper that forwards its frames, and the map of
    live sessions that holds the sending end of each driver's input. *)

From S2P Require Import Prelude Contracts UuidRef ControllerCore IoFrames ControllerGrpc AgentSandbox.

(** Where a driver is: in its session, only discarding input after an early error
    ([drain_remaining_client_frames]), or returned, which drops its sender. *)
Inductive Driver := Driving | Discarding | DReturned.

Record TSession := {
  ts_inbox : list IoClientFrame;
  ts_driver : Driver;
  ts_outbox : list IoServerFrame;
}.

Section tunnel.
Context `{UuidLib} {W : Type} `{!ContainerRuntime W}.
(** The agent's HTTP client: port and request to response; the uuid crate's error text. *)
Variable http_send : Z → HttpRequest → result HttpResponse AgentError.
Variable uuid_error : string → string.

Record Tunnel := {
  tn_agent : Agent W;
  (** the session map: ids whose input sender it holds *)
  tn_sessions : gset string;
  tn_tasks : gmap string TSession;
  tn_outbound : list TunnelResponse;
}.
Implicit Types (t : Tunnel).

Definition upd_outbound (out : list TunnelResponse) t : Tunnel :=
  {| tn_agent := tn_agent t; tn_sessions := tn_sessions t; tn_tasks := tn_tasks t;
     tn_outbound := out |}.
Definition upd_session (id : string) (s : TSession) t : Tunnel :=
  {| tn_agent := tn_agent t; tn_sessions := tn_sessions t; tn_tasks := <[id := s]> (tn_tasks t);
     tn_outbound := tn_outbound t |}.

Definition respond_with (stream_id : string) (p : TunnelResponsePayload) t : Tunnel :=
  upd_outbound (tn_outbound t ++ [{| tr_stream_id := stream_id; tr_payload := Some p |}]) t.

Definition io_error_response (stream_id code detail : string) t : Tunnel :=
  respond_with stream_id (RIoServer {| isf_stream_id := stream_id;
                                       isf_payload := Some (SError code detail) |}) t.

(** [TunnelForwarder::forward]. *)
Definition forward (sandbox_id : SandboxId) (req : HttpRequest) (ag : Agent W)
    : result HttpResponse AgentError :=
  match host_port_for sandbox_id ag with
  | Ok port => http_send port req
  | Err e => Err e
  end.

(** The start frame of a session: why it is refused, or [None]. *)
Definition refuse_start (stream_id : string) (start : IoStart) t : option (string * string) :=
  match parse_str (is_sandbox_id start) with
  | None => Some ("INVALID_REQUEST", "invalid sandbox_id")
  | Some sandbox_id =>
      match container_for_io sandbox_id (tn_agent t) with
      | Err e => Some ("SANDBOX_NOT_FOUND", AgentError_to_string e)
      | Ok (_, state) =>
          if decide (state = Paused) then
            Some ("SANDBOX_PAUSED", "sandbox is paused; resume it before opening exec or file ops")
          else if decide (stream_id ∈ tn_sessions t) then
            Some ("STREAM_ID_REUSED", "an IoStream with this stream_id is already active")
          else None
      end
  end.

Definition handle_io_client_frame (f : IoClientFrame) t : Tunnel :=
  let stream_id := icf_stream_id f in
  match icf_payload f with
  | Some (CStart start) =>
      match refuse_start stream_id start t with
      | Some (code, detail) => io_error_response stream_id code detail t
      | None =>
          {| tn_agent := tn_agent t; tn_sessions := {[stream_id]} ∪ tn_sessions t;
             tn_tasks := <[stream_id := {| ts_inbox := [f]; ts_driver := Driving;
                                           ts_outbox := [] |}]> (tn_tasks t);
             tn_outbound := tn_outbound t |}
      end
  | _ =>
      if decide (stream_id ∈ tn_sessions t) then
        match tn_tasks t !! stream_id with
        | Some {| ts_inbox := inbox; ts_driver := DReturned; ts_outbox := out |} => t
        | Some {| ts_inbox := inbox; ts_driver := d; ts_outbox := out |} =>
            upd_session stream_id {| ts_inbox := inbox ++ [f]; ts_driver := d; ts_outbox := out |} t
        | None => t
        end
      else t
  end.

(** One request of the proxy; the error ends [run] and with it the tunnel. *)
Definition on_request (req : TunnelRequest) t : result Tunnel AgentError :=
  match tq_payload req with
  | None => Ok t
  | Some (QHttpRequest http_req) =>
      match parse_str (hq_sandbox_id http_req) with
      | None => Err (AgentInternal (uuid_error (hq_sandbox_id http_req)))
      | Some sandbox_id =>
          Ok (respond_with (tq_stream_id req)
            (match forward sandbox_id http_req (tn_agent t) with
             | Ok r => RHttpResponse r
             | Err e => RClose (AgentError_to_string e)
             end) t)
      end
  | Some (QData _ _) | Some (QClose _) => Ok t
  | Some (QIoClient f) => Ok (handle_io_client_frame f t)
  end.

(** ** The life of a session *)

Inductive SessionEvent :=
| EvFrame (f : IoClientFrame)
(** the driver takes its next frame, emits one, starts discarding, or returns *)
| EvTake (id : string)
| EvEmit (id : string) (f : IoServerFrame)
| EvDiscard (id : string)
| EvReturn (id : string)
(** the wrapper forwards a frame, or ends and drops the map entry *)
| EvWrap (id : string)
| EvWrapperEnd (id : string).

Definition session_step t (e : SessionEvent) : Tunnel :=
  match e with
  | EvFrame f => handle_io_client_frame f t
  | EvTake id =>
      match tn_tasks t !! id with
      | Some {| ts_inbox := _ :: rest; ts_driver := (Driving | Discarding) as d; ts_outbox := out |} =>
          upd_session id {| ts_inbox := rest; ts_driver := d; ts_outbox := out |} t
      | _ => t
      end
  | EvEmit id f =>
      match tn_tasks t !! id with
      | Some {| ts_inbox := inbox; ts_driver := Driving; ts_outbox := out |} =>
          upd_session id {| ts_inbox := inbox; ts_driver := Driving; ts_outbox := out ++ [f] |} t
      | _ => t
      end
  | EvDiscard id =>
      match tn_tasks t !! id with
      | Some {| ts_inbox := inbox; ts_driver := Driving; ts_outbox := out |} =>
          upd_session id {| ts_inbox := inbox; ts_driver := Discarding; ts_outbox := out |} t
      | _ => t
      end
  | EvReturn id =>
      match tn_tasks t !! id with
      | Some {| ts_inbox := inbox; ts_driver := Driving; ts_outbox := out |} =>
          upd_session id {| ts_inbox := inbox; ts_driver := DReturned; ts_outbox := out |} t
      | Some {| ts_inbox := []; ts_driver := Discarding; ts_outbox := out |} =>
          (* [client_frames.next()] is over only when no sender is left *)
          if decide (id ∈ tn_sessions t) then t
          else upd_session id {| ts_inbox := []; ts_driver := DReturned; ts_outbox := out |} t
      | _ => t
      end
  | EvWrap id =>
      match tn_tasks t !! id with
      | Some {| ts_inbox := inbox; ts_driver := d; ts_outbox := f :: out |} =>
          respond_with id (RIoServer f)
            (upd_session id {| ts_inbox := inbox; ts_driver := d; ts_outbox := out |} t)
      | _ => t
      end
  | EvWrapperEnd id =>
      match tn_tasks t !! id with
      | Some {| ts_driver := DReturned; ts_outbox := [] |} =>
          {| tn_agent := tn_agent t; tn_sessions := tn_sessions t ∖ {[id]};
             tn_tasks := delete id (tn_tasks t); tn_outbound := tn_outbound t |}
      | _ => t
      end
  end.

Definition session_run (evs : list SessionEvent) t : Tunnel := foldl session_step t evs.

(** A fresh connection. *)
Definition connected (ag : Agent W) : Tunnel :=
  {| tn_agent := ag; tn_sessions := ∅; tn_tasks := ∅; tn_outbound := [] |}.
End tunnel.
Arguments Tunnel {_} _.

Section tunnel_theorems.
Context `{UuidLib} {W : Type} `{!ContainerRuntime W}.
Implicit Types (t : Tunnel W).

(** The map holds a sender exactly for the sessions that have tasks. *)
Definition sessions_consistent t : Prop := tn_sessions t = dom (tn_tasks t).

Lemma upd_session_consistent id s t :
  is_Some (tn_tasks t !! id) → sessions_consistent t → sessions_consistent (upd_session id s t).
Proof.
  unfold sessions_consistent. intros Hs Ht. simpl. by rewrite dom_insert_lookup_L.
Qed.

Lemma session_step_consistent e t : sessions_consistent t → sessions_consistent (session_step t e).
Proof.
  intros Hc. pose proof Hc as Hc'. unfold sessions_consistent in Hc'.
  destruct e as [f|id|id f|id|id|id|id]; simpl.
  2-7: destruct (tn_tasks t !! id) as [[inbox d out]|] eqn:E; [|done];
    try (by destruct inbox, d, out; simpl; try case_decide;
         try apply upd_session_consistent; eauto).
  - unfold handle_io_client_frame. destruct (icf_payload f) as [[start| | |]|].
    { destruct (refuse_start _ _ _) as [[]|]; [done|]. unfold sessions_consistent. simpl.
      by rewrite dom_insert_L, Hc'. }
    all: case_decide; [|done]; destruct (tn_tasks t !! icf_stream_id f) as [[inbox [] out]|] eqn:E;
      try done; apply upd_session_consistent; eauto.
  - destruct d, out; try done. unfold sessions_consistent. simpl. by rewrite dom_delete_L, Hc'.
Qed.

Lemma session_run_consistent evs t : sessions_consistent t → sessions_consistent (session_run evs t).
Proof.
  revert t. induction evs as [|e evs IH]; intros t Ht; simpl; [done|].
  by apply IH, session_step_consistent.
Qed.

Lemma discarding_step e t id inbox out :
  sessions_consistent t →
  tn_tasks t !! id = Some {| ts_inbox := inbox; ts_driver := Discarding; ts_outbox := out |} →
  ∃ inbox' out', tn_tasks (session_step t e) !! id =
    Some {| ts_inbox := inbox'; ts_driver := Discarding; ts_outbox := out' |}.
Proof.
  intros Hc Hid. assert (id ∈ tn_sessions t) as Hin by (rewrite Hc; by eapply elem_of_dom_2).
  destruct e as [f|j|j f|j|j|j|j]; simpl.
  2-7: destruct (decide (j = id)) as [->|Hne];
    [rewrite Hid; simpl; repeat case_match; simpl; rewrite ?lookup_insert_eq; eauto; congruence|
     repeat case_match; simpl; rewrite ?lookup_insert_ne, ?lookup_delete_ne by congruence; eauto].
  unfold handle_io_client_frame. destruct (decide (icf_stream_id f = id)) as [->|Hne].
  - destruct (icf_payload f) as [[start| | |]|].
    { unfold refuse_start. repeat case_match; simpl in *; simplify_eq; eauto. }
    all: rewrite decide_True by done; rewrite Hid; simpl; rewrite lookup_insert_eq; eauto.
  - destruct (icf_payload f) as [[start| | |]|]; repeat case_match; simpl;
      rewrite ?lookup_insert_ne by congruence; eauto.
Qed.

(** A session that only discards its input never ends. After an early error a write
    session discards what the client still sends until its input is over; but the input's
    sender is in the session map until the wrapper ends, and the wrapper ends only after the
    driver returned: so, whatever happens on a connected tunnel from then on, the driver keeps
    waiting and the session stays in the map. *)
Theorem discarding_session_never_ends (ag : Agent W) evs evs' id s :
  let t := session_run evs (connected ag) in
  tn_tasks t !! id = Some s → ts_driver s = Discarding →
  let t' := session_run evs' t in
  id ∈ tn_sessions t' ∧ ∃ s', tn_tasks t' !! id = Some s' ∧ ts_driver s' = Discarding.
Proof.
  intros t Hid Hd. assert (sessions_consistent t) as Hc by by apply session_run_consistent.
  clearbody t. revert t s Hid Hd Hc.
  induction evs' as [|e evs' IH]; intros t [inbox d out] Hid Hd Hc; simpl in Hd; subst d.
  - simpl. split; [rewrite Hc; by eapply elem_of_dom_2|]. by eexists.
  - destruct (discarding_step e t id inbox out Hc Hid) as (inbox' & out' & Hid').
    apply (IH (session_step t e) _ Hid' eq_refl). by apply session_step_consistent.
Qed.

(** The answer the proxy gets for one request, if the tunnel survives it. *)
Definition answers (t t' : Tunnel W) : list TunnelResponse := drop (length (tn_outbound t)) (tn_outbound t').

Lemma start_cases f start t :
  let t' := match refuse_start (icf_stream_id f) start t with
    | Some (code, detail) => io_error_response (icf_stream_id f) code detail t
    | None =>
        {| tn_agent := tn_agent t; tn_sessions := {[icf_stream_id f]} ∪ tn_sessions t;
           tn_tasks := <[icf_stream_id f := {| ts_inbox := [f]; ts_driver := Driving;
                                               ts_outbox := [] |}]> (tn_tasks t);
           tn_outbound := tn_outbound t |}
    end in
  let admitted := ∃ sid e, parse_str (is_sandbox_id start) = Some sid ∧
    ag_sandboxes (tn_agent t) !! sid = Some e ∧ se_state e ≠ Paused ∧
    ¬ (icf_stream_id f ∈ tn_sessions t) in
  (admitted → answers t t' = [] ∧ icf_stream_id f ∈ tn_sessions t' ∧
     tn_tasks t' !! icf_stream_id f =
       Some {| ts_inbox := [f]; ts_driver := Driving; ts_outbox := [] |}) ∧
  (¬ admitted → tn_tasks t' = tn_tasks t ∧ tn_sessions t' = tn_sessions t ∧
     ∃ code detail, answers t t' = [{| tr_stream_id := icf_stream_id f;
       tr_payload := Some (RIoServer {| isf_stream_id := icf_stream_id f;
         isf_payload := Some (SError code detail) |}) |}]).
Proof.
  intros t' admitted. unfold t', admitted, answers, refuse_start, container_for_io, ok_or. split.
  - intros (sid & e & -> & -> & Hp & Hn). simpl. rewrite !decide_False by done. simpl.
    split; [apply drop_all|]. split; [set_solver|apply lookup_insert_eq].
  - intros Hna.
    destruct (parse_str (is_sandbox_id start)) as [sid|];
      [|simpl; rewrite drop_app_length; eauto].
    destruct (ag_sandboxes (tn_agent t) !! sid) as [e|] eqn:Ee; simpl;
      [|rewrite drop_app_length; eauto].
    case_decide; simpl; [rewrite drop_app_length; eauto|].
    case_decide; simpl; [rewrite drop_app_length; eauto|]. destruct Hna. eauto 10.
Qed.

(** Requests on the tunnel. An HTTP request for a sandbox the agent has is forwarded to
    that sandbox's host port and answered once, under its own stream id, with the response
    or, when the sandbox is unknown or the call fails, with a close that says why; a start
    frame is refused, with exactly one Error frame under its id and nothing else changed,
    when its sandbox is unknown or paused or its id is taken, and otherwise opens a session
    with that frame as its first input; and only an HTTP request with a malformed sandbox id
    ends the tunnel. *)
Theorem tunnel_requests_answered http_send uuid_error req t :
  match tq_payload req with
  | Some (QHttpRequest r) =>
      match parse_str (hq_sandbox_id r) with
      | None => on_request http_send uuid_error req t = Err (AgentInternal (uuid_error (hq_sandbox_id r)))
      | Some sid => ∃ t', on_request http_send uuid_error req t = Ok t' ∧
          tn_tasks t' = tn_tasks t ∧ tn_sessions t' = tn_sessions t ∧
          ∃ p, answers t t' = [{| tr_stream_id := tq_stream_id req; tr_payload := Some p |}] ∧
          match ag_sandboxes (tn_agent t) !! sid with
          | Some e => match http_send (se_host_port e) r with
                      | Ok resp => p = RHttpResponse resp
                      | Err err => p = RClose (AgentError_to_string err)
                      end
          | None => p = RClose (AgentError_to_string (no_such_sandbox sid))
          end
      end
  | Some (QIoClient f) =>
      ∃ t', on_request http_send uuid_error req t = Ok t' ∧
      match icf_payload f with
      | Some (CStart start) =>
          let admitted := ∃ sid e, parse_str (is_sandbox_id start) = Some sid ∧
            ag_sandboxes (tn_agent t) !! sid = Some e ∧ se_state e ≠ Paused ∧
            ¬ (icf_stream_id f ∈ tn_sessions t) in
          (admitted → answers t t' = [] ∧ icf_stream_id f ∈ tn_sessions t' ∧
             tn_tasks t' !! icf_stream_id f =
               Some {| ts_inbox := [f]; ts_driver := Driving; ts_outbox := [] |}) ∧
          (¬ admitted → tn_tasks t' = tn_tasks t ∧ tn_sessions t' = tn_sessions t ∧
             ∃ code detail, answers t t' = [{| tr_stream_id := icf_stream_id f;
               tr_payload := Some (RIoServer {| isf_stream_id := icf_stream_id f;
                 isf_payload := Some (SError code detail) |}) |}])
      | _ => answers t t' = []
      end
  | _ => on_request http_send uuid_error req t = Ok t
  end.
Proof.
  assert (∀ id p, answers t (respond_with id p t) =
    [{| tr_stream_id := id; tr_payload := Some p |}]) as Hone.
  { intros. unfold answers. simpl. by rewrite drop_app_length. }
  assert (∀ t', tn_outbound t' = tn_outbound t → answers t t' = []) as Hnone.
  { intros t' E. unfold answers. rewrite E. apply drop_all. }
  unfold on_request. destruct (tq_payload req) as [[r| | |f]|]; try done.
  - destruct (parse_str (hq_sandbox_id r)) as [sid|]; [|done]. eexists. split; [done|].
    split; [done|]. split; [done|]. eexists. split; [apply Hone|].
    unfold forward, host_port_for, ok_or. destruct (ag_sandboxes (tn_agent t) !! sid); simpl; [|done].
    by destruct (http_send _ _).
  - eexists. split; [done|]. unfold handle_io_client_frame.
    destruct (icf_payload f) as [[start| | |]|]; [by apply start_cases|..];
      repeat case_match; by apply Hnone.
Qed.
End tunnel_theorems.

Module AgentTunnelExamples.
Definition busy : Agent (gmap string ContainerState) :=
  {| ag_runtime := ∅;
     ag_sandboxes := {[AgentExamples.box := {| se_container_id := "c1"; se_host_port := 40000;
                                               se_state := Running |}]} |}.

(** A write with a stale revision: the start arrives, the driver takes it, fails, and
    discards. *)
Definition stale_write : list SessionEvent :=
  [EvFrame {| icf_stream_id := "io-0";
              icf_payload := Some (CStart {| is_sandbox_id := hyphenated AgentExamples.box;
                is_params := Some (PWriteFile "/f" "" "1:1" false) |}) |};
   EvTake "io-0";
   EvEmit "io-0" {| isf_stream_id := "io-0";
                    isf_payload := Some (SError "REVISION_MISMATCH" "2:1") |};
   EvDiscard "io-0"].

(** The client closes, the error is forwarded, and still nothing lets the session end. *)
Lemma discarding_session_never_ends_witness :
  "io-0" ∈ tn_sessions (session_run
    [EvFrame {| icf_stream_id := "io-0"; icf_payload := Some (CClose false) |};
     EvWrap "io-0"; EvTake "io-0"; EvReturn "io-0"; EvWrapperEnd "io-0"]
    (session_run stale_write (connected busy))).
Proof.
  assert (tn_tasks (session_run stale_write (connected busy)) !! "io-0" =
    Some {| ts_inbox := []; ts_driver := Discarding;
            ts_outbox := [{| isf_stream_id := "io-0";
              isf_payload := Some (SError "REVISION_MISMATCH" "2:1") |}] |}) as Hs by evaluate.
  pose proof (discarding_session_never_ends busy stale_write
    [EvFrame {| icf_stream_id := "io-0"; icf_payload := Some (CClose false) |};
     EvWrap "io-0"; EvTake "io-0"; EvReturn "io-0"; EvWrapperEnd "io-0"] "io-0" _ Hs eq_refl)
    as [Hx _].
  exact Hx.
Defined.
End AgentTunnelExamples.
