(* ===== verification/AgentInput.v ===== *)
(** * The input of an exec session (crates/agent/src/{io_stream,proxy_client}.rs)

    What a command is given: the frames the tunnel hands to a session's driver (AgentTunnel.v),
    in which order its demultiplexer takes them while the session's other tasks run
    (AgentExec.v), and what of them becomes standard input and signals of the process. *)

From S2P Require Import Prelude Contracts UuidRef ControllerCore IoFrames ControllerGrpc AgentSandbox AgentIo AgentExec AgentTunnel.

(** ** The demultiplexer and what it has not taken yet *)

(** A wake-up: the demultiplexer takes its next frame, finds its stream at its end, or anything
    else happens. *)
Inductive Turn := Take | Over | Other (e : ExecEvent).

Section turns.
Context `{UuidLib} (stream_id : string).
Implicit Types (x : Exec).

Definition input_step (s : list IoClientFrame * Exec) (t : Turn) : list IoClientFrame * Exec :=
  let '(rest, x) := s in
  match t with
  | Take =>
      match rest with
      | f :: rest' =>
          if decide (x_demux x = TEnded) then (rest, x)
          else if waits (Some (Ok f)) x then (rest, x)
          else (rest', exec_step stream_id x (EvClient (Some (Ok f))))
      | [] => (rest, x)
      end
  | Over => (rest, if decide (rest = []) then exec_step stream_id x (EvClient None) else x)
  | Other (EvClient _) => (rest, x)
  | Other e => (rest, exec_step stream_id x e)
  end.

Definition input_run (ts : list Turn) (s : list IoClientFrame * Exec) : list IoClientFrame * Exec :=
  foldl input_step s ts.
End turns.

(** ** What frames mean as input *)

(** Standard input up to the first frame that ends it; signals up to the first that ends the
    session, without the ones that are no signal. *)
Fixpoint stdin_of (fs : list IoClientFrame) : list bytes :=
  match fs with
  | [] => []
  | f :: fs =>
      match icf_payload f with
      | Some (CStdin b) => b :: stdin_of fs
      | Some (CSignal _) => stdin_of fs
      | _ => []
      end
  end.
Fixpoint signals_of (fs : list IoClientFrame) : list Z :=
  match fs with
  | [] => []
  | f :: fs =>
      match icf_payload f with
      | Some (CSignal s) => option_list (signal_of s) ++ signals_of fs
      | Some (CStdin _) | Some (CClose true) => signals_of fs
      | _ => []
      end
  end.

Definition ends_stdin (f : IoClientFrame) : bool :=
  match icf_payload f with Some (CStdin _) | Some (CSignal _) => false | _ => true end.
Definition ends_session (f : IoClientFrame) : bool :=
  match icf_payload f with Some (CStdin _) | Some (CSignal _) | Some (CClose true) => false | _ => true end.

Lemma stdin_of_app fs gs : stdin_of (fs ++ gs) = stdin_of fs ++ (if existsb ends_stdin fs then [] else stdin_of gs).
Proof.
  induction fs as [|f fs IH]; [done|]. cbn. unfold ends_stdin at 1.
  destruct (icf_payload f) as [[]|]; cbn; by rewrite ?IH.
Qed.
Lemma signals_of_app fs gs :
  signals_of (fs ++ gs) = signals_of fs ++ (if existsb ends_session fs then [] else signals_of gs).
Proof.
  induction fs as [|f fs IH]; [done|]. cbn. unfold ends_session at 1.
  destruct (icf_payload f) as [[| | |[]]|]; cbn; rewrite ?IH, ?app_assoc; done.
Qed.
Lemma ends_session_stdin fs : existsb ends_session fs = true → existsb ends_stdin fs = true.
Proof.
  rewrite !existsb_exists. intros (f & Hf & He). exists f. split; [done|]. unfold ends_session, ends_stdin in *.
  by destruct (icf_payload f) as [[| | |[]]|].
Qed.

(** More frames only add to the end. *)
Lemma stdin_of_prefix fs gs : fs `prefix_of` gs → stdin_of fs `prefix_of` stdin_of gs.
Proof. intros [l ->]. rewrite stdin_of_app. apply prefix_app_r, reflexivity. Qed.
Lemma signals_of_prefix fs gs : fs `prefix_of` gs → signals_of fs `prefix_of` signals_of gs.
Proof. intros [l ->]. rewrite signals_of_app. apply prefix_app_r, reflexivity. Qed.

(** ** What the process has been given *)

Section accounting.
Context `{UuidLib} (stream_id : string).
Implicit Types (x : Exec).

(** The signals the close hook adds. *)
Definition by_hook (c : Control) (k : list Z) : Prop :=
  match c with
  | Grace _ _ => k = [SIGTERM]
  | Finished false => k `prefix_of` [SIGTERM; SIGKILL]
  | _ => k = []
  end.

(** Of the frames [fs], [rest] is not taken yet; [s] are the client's signals the process got,
    [k] the hook's. *)
Record input_inv (fs rest : list IoClientFrame) (s k : list Z) x : Prop := {
  ii_signals : x_signals x = s ++ k;
  ii_hook : by_hook (x_control x) k;
  ii_room : (length (x_signal_queue x) ≤ SIGNAL_QUEUE)%nat;
  ii_looping : x_control x = Looping → x_demux x ≠ TAborting;
  ii_taking : x_demux x ≠ TEnded → ∃ taken, fs = taken ++ rest ∧
    existsb ends_session taken = false ∧ x_stdin_open x = negb (existsb ends_stdin taken) ∧
    x_stdin x = stdin_of taken ∧ s ++ pending x = signals_of taken;
  ii_part : x_stdin x `prefix_of` stdin_of fs ∧ s ++ pending x `prefix_of` signals_of fs;
  ii_whole : x_demux x = TEnded → x_control x = Looping → x_stdin_read x = true →
    x_stdin x = stdin_of fs ∧ s ++ pending x = signals_of fs;
}.

(** Steps that leave the input alone. *)
Definition same_input x x' : Prop :=
  x_calls x' = x_calls x ∧ x_demux x' = x_demux x ∧ x_stdin_open x' = x_stdin_open x ∧
  x_stdin x' = x_stdin x ∧ x_stdin_read x' = x_stdin_read x ∧ x_signal_queue x' = x_signal_queue x ∧
  x_control x' = x_control x.

Lemma same_input_inv fs rest s k x x' : same_input x x' → input_inv fs rest s k x → input_inv fs rest s k x'.
Proof.
  intros (E1 & E2 & E3 & E4 & E5 & E6 & E7) [H1 H2 H3 H4 H5 H6 H7]. unfold pending, x_signals in *.
  split; unfold pending, x_signals; rewrite ?E1, ?E2, ?E3, ?E4, ?E5, ?E6, ?E7; done.
Qed.

Lemma same_input_refl x : same_input x x.
Proof. by split_and!. Qed.
#[local] Hint Resolve same_input_refl : core.

Lemma xsend_same p x : same_input x (xsend stream_id p x).
Proof. unfold xsend. by destruct (x_listening x). Qed.

Lemma pump_step_same k x : same_input x (pump_step stream_id k x).
Proof.
  unfold pump_step, xsend. case_decide; [done|]. destruct (op_produced _ !! _); [by destruct (x_listening x)|].
  by destruct (op_closed _).
Qed.

(** The loop is left: the demultiplexer is told to stop. *)
Lemma leave_loop_input fs rest s k c b x :
  by_hook c [] → c ≠ Looping → input_inv fs rest s k x → x_control x = Looping →
  input_inv fs rest s k (leave_loop c b x).
Proof.
  intros Hc Hl [H1 H2 H3 H4 H5 H6 H7] Ec. rewrite Ec in H2. cbn in H2. subst k.
  split; unfold leave_loop; destruct b; cbn; try done; intros Ht; apply H5; by destruct (x_demux x).
Qed.

Lemma control_step_input fs rest s k x :
  input_inv fs rest s k x → ∃ k', input_inv fs rest s k' (control_step stream_id x).
Proof.
  intros Hi. pose proof (ii_hook _ _ _ _ _ Hi) as Hk. unfold control_step, registry_remove.
  destruct (x_control x) as [|info|code detail| | |] eqn:Ec; try (by exists k); cbn in Hk; subst k.
  - case_decide; [|by exists []]. exists []. pose proof (xsend_same
      (SExited (xi_exit_code info) (xi_command_not_found info)) x) as Hs.
    destruct (same_input_inv _ _ _ _ _ _ Hs Hi) as [H1 H2 H3 H4 H5 H6 H7].
    by split.
  - exists []. pose proof (xsend_same (SError code detail) x) as Hs.
    by destruct (same_input_inv _ _ _ _ _ _ Hs Hi) as [H1 H2 H3 H4 H5 H6 H7].
  - destruct Hi as [H1 H2 H3 H4 H5 H6 H7]. rewrite app_nil_r in H1.
    destruct (x_registry x !! stream_id); [exists [SIGTERM]|exists []]; split; cbn; try done.
    + unfold x_signals in *. cbn. by rewrite fmap_app, H1.
    + unfold x_signals in *. cbn. by rewrite H1, app_nil_r.
    + apply prefix_nil.
  - destruct Hi as [H1 H2 H3 H4 H5 H6 H7]. exists [SIGTERM; SIGKILL]. split; cbn; try done.
    unfold x_signals in *. cbn. rewrite fmap_app, H1. by rewrite <- app_assoc.
Qed.

Lemma select_signal_input fs rest s k x :
  input_inv fs rest s k x → x_control x = Looping → ∃ s', input_inv fs rest s' k (select_signal x).
Proof.
  intros Hi Ec. pose proof (ii_hook _ _ _ _ _ Hi) as Hk. rewrite Ec in Hk. cbn in Hk. subst k.
  unfold select_signal. destruct (x_signal_queue x) as [|sig q] eqn:Eq; [by exists s|].
  destruct Hi as [H1 H2 H3 H4 H5 H6 H7]. rewrite app_nil_r in H1. rewrite Eq in H3.
  assert (s ++ pending x = (s ++ option_list (signal_of sig)) ++ omap signal_of q) as Hp.
  { unfold pending. rewrite Eq, <- app_assoc. f_equal. cbn. by destruct (signal_of sig). }
  rewrite Hp in H5, H6, H7. exists (s ++ option_list (signal_of sig)).
  assert (x_signals (match Signum.try_from sig with
    | Ok g => upd_registry (x_registry x) (x_calls x ++ [(x_target x, Signum.as_i32 g)]) x | Err _ => x end) =
    s ++ option_list (signal_of sig)) as Hsg.
  { unfold signal_of, x_signals in *. destruct (Signum.try_from sig); cbn; rewrite ?fmap_app, H1, ?app_nil_r; done. }
  cbn in H3. destruct (Signum.try_from sig) as [g|e]; split; try done; try (cbn; lia);
    rewrite app_nil_r; exact Hsg.
Qed.

(** The demultiplexer ends: what it had taken was all there was, or it stops short. *)
Lemma demux_ends_inv fs rest rest' s k close x :
  (x_control x = Looping → x_stdin_read x = true → x_stdin x = stdin_of fs ∧ s ++ pending x = signals_of fs) →
  input_inv fs rest s k x →
  input_inv fs rest' s k (upd_demux TEnded false (x_stdin x) (x_signal_queue x) close x).
Proof. intros Hw [H1 H2 H3 H4 H5 H6 H7]. split; cbn; auto; done. Qed.

(** A frame that ends the session: nothing after it is input. *)
Lemma close_inv fs f rest s k x :
  ends_session f = true → x_demux x ≠ TEnded → input_inv fs (f :: rest) s k x →
  input_inv fs rest s k (upd_demux TEnded false (x_stdin x) (x_signal_queue x) true x).
Proof.
  intros He Hd Hi. eapply demux_ends_inv; [|exact Hi]. intros _ _.
  destruct (ii_taking _ _ _ _ _ Hi Hd) as (taken & -> & Hes & Ho & -> & ->).
  rewrite stdin_of_app, signals_of_app, Hes.
  assert (stdin_of (f :: rest) = [] ∧ signals_of (f :: rest) = []) as [-> ->].
  { unfold ends_session in He. cbn. by destruct (icf_payload f) as [[| | |[]]|]. }
  rewrite !app_nil_r. by destruct (existsb ends_stdin taken); rewrite ?app_nil_r.
Qed.

(** Any other frame: what it is goes to the process or waits for the control loop. *)
Lemma accept_inv fs f rest s k b q x :
  ends_session f = false → x_demux x ≠ TEnded → input_inv fs (f :: rest) s k x →
  b = (if x_stdin_open x then stdin_of [f] else []) → omap signal_of q = signals_of [f] →
  (length (x_signal_queue x ++ q) ≤ SIGNAL_QUEUE)%nat →
  input_inv fs rest s k (upd_demux (x_demux x) (x_stdin_open x && negb (ends_stdin f)) (x_stdin x ++ b)
                           (x_signal_queue x ++ q) (x_close_queue x) x).
Proof.
  intros He Hd [H1 H2 H3 H4 H5 H6 H7] -> Hq Hroom. destruct (H5 Hd) as (taken & -> & Hes & Ho & Hs & Hg).
  assert (∀ i, pending (upd_demux (x_demux x) (x_stdin_open x && negb (ends_stdin f)) i
    (x_signal_queue x ++ q) (x_close_queue x) x) = pending x ++ signals_of [f]) as Hp.
  { intros i. unfold pending. cbn. by rewrite omap_app, Hq. }
  assert (x_stdin x ++ (if x_stdin_open x then stdin_of [f] else []) = stdin_of (taken ++ [f])) as Hsn.
  { rewrite stdin_of_app, Ho, Hs. by destruct (existsb ends_stdin taken). }
  assert (s ++ pending x ++ signals_of [f] = signals_of (taken ++ [f])) as Hgn.
  { by rewrite signals_of_app, Hes, app_assoc, Hg. }
  assert (taken ++ f :: rest = (taken ++ [f]) ++ rest) as Hfs by by rewrite <- app_assoc.
  split; rewrite ?Hp; cbn [x_signals x_control x_signal_queue x_demux x_stdin upd_demux]; try done.
  - intros _. exists (taken ++ [f]). rewrite Hsn, Hgn, !existsb_app. cbn [existsb x_stdin_open upd_demux].
    rewrite Hes, He, Ho, !orb_false_r, negb_orb. done.
  - rewrite Hsn, Hgn, Hfs. split; [apply stdin_of_prefix|apply signals_of_prefix]; by apply prefix_app_r.
Qed.

(** One item of the client. *)
Lemma take_inv fs f rest s k x :
  input_inv fs (f :: rest) s k x → x_demux x ≠ TEnded → waits (Some (Ok f)) x = false →
  input_inv fs rest s k (demux_item (Some (Ok f)) x).
Proof.
  intros Hi Hd Hw. unfold demux_item. unfold waits in Hw.
  pose proof (λ H, close_inv fs f rest s k x H Hd Hi) as Hclose.
  pose proof (λ b q H, accept_inv fs f rest s k b q x H Hd Hi) as Ha.
  unfold ends_session, ends_stdin in *. cbn in Ha. destruct (icf_payload f) as [[start|b|sig|[]]|] eqn:Ef; try (by apply Hclose).
  - cbn [negb] in Ha. specialize (Ha _ [] eq_refl eq_refl eq_refl). rewrite andb_true_r, app_nil_r in Ha.
    specialize (Ha (ii_room _ _ _ _ _ Hi)). destruct (x_stdin_open x) eqn:Eo; cbn [negb].
    + destruct (x_stdin_read x) eqn:Er; [done|]. eapply demux_ends_inv; [|exact Hi]. by rewrite Er.
    + rewrite app_nil_r, <- Eo in Ha. by destruct x.
  - apply bool_decide_eq_false in Hw.
    specialize (Ha _ [sig] eq_refl eq_refl). cbn [negb] in Ha. rewrite andb_true_r in Ha.
    destruct (x_stdin_open x); rewrite !app_nil_r in Ha; apply Ha; cbn; rewrite ?length_app; cbn; try lia;
      by destruct (signal_of sig).
  - specialize (Ha _ [] eq_refl eq_refl eq_refl). rewrite andb_false_r, app_nil_r in Ha.
    specialize (Ha (ii_room _ _ _ _ _ Hi)). destruct (x_stdin_open x); by rewrite app_nil_r in Ha.
Qed.

Lemma input_step_inv fs rest s k x t :
  input_inv fs rest s k x →
  ∃ s' k', let '(rest', x') := input_step stream_id (rest, x) t in input_inv fs rest' s' k' x'.
Proof.
  intros Hi. destruct t as [| |e]; cbn [input_step].
  - exists s, k. destruct rest as [|f rest]; [done|]. case_decide; [done|]. destruct (waits (Some (Ok f)) x) eqn:Ew; [done|].
    cbn [exec_step]. rewrite decide_False by (intros [?|?]; congruence). by apply take_inv.
  - exists s, k. case_decide as Hr; [|done]. subst rest. cbn [exec_step]. case_decide as Hd; [done|]. apply Decidable.not_or in Hd as [Hd _].
    cbn [demux_item]. eapply demux_ends_inv; [|exact Hi]. intros _ _.
    destruct (ii_taking _ _ _ _ _ Hi Hd) as (taken & -> & _ & _ & -> & ->). by rewrite app_nil_r.
  - destruct e as [f| |o b|o|o|o|info| | | | |]; cbn [exec_step]; try (by exists s, k);
      try (exists s, k; eapply same_input_inv; [|exact Hi]; done).
    + exists s, k. by destruct Hi.
    + exists s, k. eapply same_input_inv; [|exact Hi]. by destruct (op_closed _).
    + exists s, k. eapply same_input_inv; [apply pump_step_same|exact Hi].
    + exists s, k. destruct o as [o|]; [eapply same_input_inv; [|exact Hi]; by case_decide|].
      case_decide as Ha; [|done]. eapply demux_ends_inv; [|exact Hi]. intros Hl. by destruct (ii_looping _ _ _ _ _ Hi Hl).
    + exists s, k. eapply same_input_inv; [|exact Hi]. by destruct (x_exit x).
    + exists s, k. destruct (x_control x) eqn:Ec; try done. unfold select_exit.
      destruct (x_exit x) as [[info|]|]; try done; by apply leave_loop_input.
    + destruct (x_control x) eqn:Ec; try (by exists s, k).
      destruct (select_signal_input _ _ _ _ _ Hi Ec) as [s' Hs']. by exists s', k.
    + exists s, k. destruct (x_control x) eqn:Ec; try done. unfold select_close.
      destruct (x_close_queue x); [|done]. apply leave_loop_input; try done. by destruct Hi.
    + destruct (control_step_input _ _ _ _ _ Hi) as [k' Hk']. by exists s, k'.
Qed.

Lemma input_run_inv fs rest s k x ts :
  input_inv fs rest s k x →
  ∃ s' k', input_inv fs (input_run stream_id ts (rest, x)).1 s' k' (input_run stream_id ts (rest, x)).2.
Proof.
  revert rest s k x. induction ts as [|t ts IH]; intros rest s k x Hi; [by exists s, k|]. cbn [input_run foldl].
  destruct (input_step_inv fs rest s k x t Hi) as (s' & k' & Hi'). destruct (input_step _ _ t) as [rest' x'].
  exact (IH _ _ _ _ Hi').
Qed.

Lemma drive_exec_input sandbox_id container_id exec_id pid listening reg fs :
  input_inv fs fs [] [] (drive_exec stream_id (Ok (exec_id, pid)) sandbox_id container_id listening reg).
Proof.
  unfold drive_exec. destruct listening; cbn; split; cbn; try done; try lia; try (split; apply prefix_nil).
  by exists [].
Qed.

(** What a running session has given its process, at any moment. *)
Lemma input_contract sandbox_id container_id exec_id pid listening reg fs ts :
  let start := drive_exec stream_id (Ok (exec_id, pid)) sandbox_id container_id listening reg in
  let '(rest, x) := input_run stream_id ts (fs, start) in
  x_stdin x `prefix_of` stdin_of fs ∧
  (∃ s k, x_signals x = s ++ k ∧ s `prefix_of` signals_of fs ∧ by_hook (x_control x) k) ∧
  (x_control x = Looping → x_stdin_read x = true →
     (rest = [] ∨ x_stdin_open x = false → x_stdin x = stdin_of fs) ∧
     (rest = [] → x_signal_queue x = [] → x_signals x = signals_of fs)) ∧
  (x_demux x ≠ TEnded → x_stdin_open x = false →
     x_stdin x = stdin_of fs ∧ ∃ f, f ∈ fs ∧ icf_payload f = Some (CClose true)).
Proof.
  intros start. destruct (input_run_inv fs fs [] [] start ts) as (s & k & Hi); [apply drive_exec_input|].
  destruct (input_run _ _ _) as [rest x]. cbn [fst snd] in Hi. destruct Hi as [H1 H2 H3 H4 H5 H6 H7].
  destruct H6 as [H6 H6']. split; [done|]. split; [exists s, k; split_and!; [done| |done]|].
  { etrans; [|exact H6']. by apply prefix_app_r. }
  split; cycle 1.
  { intros Hd Hopen. destruct (H5 Hd) as (taken & -> & Hes & Ho & -> & _). rewrite Hopen in Ho.
    symmetry in Ho. apply negb_false_iff in Ho. split; [by rewrite stdin_of_app, Ho, app_nil_r|].
    apply existsb_exists in Ho as (f & Hf & He). apply list_elem_of_In in Hf. exists f. split; [set_solver|].
    assert (ends_session f = false) as Hn.
    { apply not_true_is_false. intros Hn. apply eq_true_false_abs with (existsb ends_session taken); [|done].
      apply existsb_exists. exists f. by rewrite <- list_elem_of_In. }
    unfold ends_stdin, ends_session in *. by destruct (icf_payload f) as [[| | |[]]|]. }
  intros Hl Hr. rewrite Hl in H2. cbn in H2. subst k. rewrite app_nil_r in H1.
  assert (x_signal_queue x = [] → pending x = []) as Hp by (unfold pending; by intros ->).
  destruct (decide (x_demux x = TEnded)) as [Hd|Hd].
  - destruct (H7 Hd Hl Hr) as [Hs Hg]. split; [done|]. intros _ Hq. by rewrite H1, <- Hg, Hp, app_nil_r.
  - destruct (H5 Hd) as (taken & -> & Hes & Ho & Hs & Hg). split.
    + intros [->|Hopen]; [by rewrite app_nil_r|]. rewrite stdin_of_app. rewrite Ho in Hopen.
      apply negb_false_iff in Hopen. by rewrite Hopen, app_nil_r.
    + intros -> Hq. by rewrite app_nil_r, H1, <- Hg, Hp, app_nil_r.
Qed.

(** ** Nothing stays behind *)

(** The control loop takes a signal, then the demultiplexer its next frame. *)
Definition round : list Turn := [Other EvSelectSignal; Take].
Definition rounds (n : nat) : list Turn := concat (replicate n round).

Definition waiting (rest : list IoClientFrame) x : nat :=
  if decide (x_demux x = TEnded ∨ rest = []) then length (x_signal_queue x)
  else SIGNAL_QUEUE + length rest.

Lemma select_signal_keeps x :
  x_signal_queue (select_signal x) = tail (x_signal_queue x) ∧ x_demux (select_signal x) = x_demux x ∧
  x_control (select_signal x) = x_control x ∧ x_stdin_read (select_signal x) = x_stdin_read x ∧
  x_stdin_open (select_signal x) = x_stdin_open x ∧ x_stdin (select_signal x) = x_stdin x.
Proof.
  unfold select_signal. destruct (x_signal_queue x) as [|sig q] eqn:E; [by rewrite E|].
  by destruct (Signum.try_from sig).
Qed.

Lemma demux_item_keeps f x :
  waits f x = false →
  x_control (demux_item f x) = x_control x ∧ x_stdin_read (demux_item f x) = x_stdin_read x ∧
  ((length (x_signal_queue x) ≤ SIGNAL_QUEUE)%nat → (length (x_signal_queue (demux_item f x)) ≤ SIGNAL_QUEUE)%nat).
Proof.
  unfold demux_item, waits. destruct f as [[f|]|]; try done. destruct (icf_payload f) as [[start|b|sig|[]]|]; try done.
  - intros _. destruct (x_stdin_open x), (x_stdin_read x) eqn:E; cbn [negb]; by rewrite ?E.
  - intros Hw%bool_decide_eq_false. split_and!; try done. cbn. rewrite length_app. cbn. lia.
Qed.

Lemma round_moves rest x :
  x_control x = Looping → (length (x_signal_queue x) ≤ SIGNAL_QUEUE)%nat →
  let '(rest', x') := input_run stream_id round (rest, x) in
  x_control x' = Looping ∧ x_stdin_read x' = x_stdin_read x ∧
  (length (x_signal_queue x') ≤ SIGNAL_QUEUE)%nat ∧ (waiting rest' x' ≤ pred (waiting rest x))%nat.
Proof.
  intros Hl Hq. cbn [input_run round foldl input_step exec_step]. rewrite Hl.
  destruct (select_signal_keeps x) as (Eq & Ed & Ec & Er & _). set (x1 := select_signal x) in *.
  assert (length (x_signal_queue x1) = pred (length (x_signal_queue x))) as Hlen.
  { rewrite Eq. by destruct (x_signal_queue x). }
  destruct rest as [|f rest].
  { rewrite Ec, Er. split_and!; try done; [lia|]. unfold waiting. rewrite !decide_True by (by right). lia. }
  rewrite Ed. case_decide as Hd.
  { rewrite Ec, Er. split_and!; try done; [lia|]. unfold waiting. rewrite !decide_True by (left; congruence). lia. }
  assert (waits (Some (Ok f)) x1 = false) as Hw.
  { unfold waits. destruct (icf_payload f) as [[]|]; try done. apply bool_decide_eq_false.
    unfold SIGNAL_QUEUE in *. lia. }
  rewrite Hw, decide_False by (intros [?|?]; congruence).
  destruct (demux_item_keeps (Some (Ok f)) x1 Hw) as (Ec' & Er' & Hroom). rewrite Ec', Er', Ec, Er.
  split; [done|]. split; [done|]. split; [apply Hroom; lia|].
  unfold waiting at 2. rewrite decide_False by (intros [?|?]; [done|discriminate]). cbn [length].
  unfold waiting. case_decide; [|cbn; lia]. specialize (Hroom ltac:(lia)). lia.
Qed.

Lemma rounds_end n rest x :
  x_control x = Looping → (length (x_signal_queue x) ≤ SIGNAL_QUEUE)%nat → (waiting rest x ≤ n)%nat →
  let '(rest', x') := input_run stream_id (rounds n) (rest, x) in
  x_control x' = Looping ∧ x_stdin_read x' = x_stdin_read x ∧ waiting rest' x' = 0%nat.
Proof.
  unfold rounds. revert rest x. induction n as [|n IH]; intros rest x Hl Hq Hw; [split_and!; try done; cbn; lia|].
  cbn [replicate concat]. unfold input_run. rewrite foldl_app. pose proof (round_moves rest x Hl Hq) as Hm.
  unfold input_run in Hm. destruct (foldl _ _ round) as [rest1 x1]. destruct Hm as (Hl1 & Hr1 & Hq1 & Hw1).
  specialize (IH rest1 x1 Hl1 Hq1 ltac:(lia)). unfold input_run in IH. destruct (foldl _ _ _) as [rest2 x2].
  by rewrite <- Hr1.
Qed.

(** Whatever happened before, a session that goes on with a process that reads has, after as
    many rounds as frames wait and the signal channel has room for, given it everything. *)
Lemma input_delivered sandbox_id container_id exec_id pid listening reg fs ts n :
  let start := drive_exec stream_id (Ok (exec_id, pid)) sandbox_id container_id listening reg in
  let '(rest, x) := input_run stream_id ts (fs, start) in
  x_control x = Looping → x_stdin_read x = true → (length rest + SIGNAL_QUEUE ≤ n)%nat →
  let x' := (input_run stream_id (rounds n) (rest, x)).2 in
  x_control x' = Looping ∧ x_stdin x' = stdin_of fs ∧ x_signals x' = signals_of fs.
Proof.
  intros start. destruct (input_run_inv fs fs [] [] start ts) as (s & k & Hi); [apply drive_exec_input|].
  destruct (input_run _ ts _) as [rest x]. cbn [fst snd] in Hi. intros Hl Hr Hn.
  pose proof (ii_room _ _ _ _ _ Hi) as Hroom.
  destruct (input_run_inv _ _ _ _ _ (rounds n) Hi) as (s' & k' & Hi').
  pose proof (rounds_end n rest x Hl Hroom) as He. destruct (input_run _ (rounds n) _) as [rest' x']. cbn [fst snd] in *.
  assert (waiting rest x ≤ n)%nat as Hw by (unfold waiting; case_decide; lia).
  destruct (He Hw) as (Hl' & Hr' & Hw'). rewrite Hr in Hr'. split; [done|].
  destruct Hi' as [H1 H2 H3 H4 H5 H6 H7]. rewrite Hl' in H2. cbn in H2. subst k'. rewrite app_nil_r in H1.
  unfold waiting in Hw'. case_decide as Hd; [|unfold SIGNAL_QUEUE in Hw'; lia].
  assert (pending x' = []) as Hp by (unfold pending; by destruct (x_signal_queue x')).
  rewrite Hp, app_nil_r in H5, H7. rewrite H1.
  destruct (decide (x_demux x' = TEnded)) as [Ht|Ht]; [by apply H7|].
  destruct Hd as [?| ->]; [done|]. destruct (H5 Ht) as (taken & -> & _ & _ & Hs & Hg). by rewrite app_nil_r.
Qed.
End accounting.

(** ** From the tunnel to the driver *)

Section tunnel_input.
Context `{UuidLib} {W : Type} `{!ContainerRuntime W}.
Implicit Types (t : Tunnel W) (id : string).

(** The frames of a stream that arrive, and the ones its driver takes. *)
Definition arrives (id : string) (e : SessionEvent) : option IoClientFrame :=
  match e with EvFrame f => if decide (icf_stream_id f = id) then Some f else None | _ => None end.
Definition takes (id : string) (e : SessionEvent) t : option IoClientFrame :=
  match e with
  | EvTake j =>
      if decide (j = id) then
        match tn_tasks t !! id with
        | Some {| ts_inbox := f :: _; ts_driver := (Driving | Discarding) |} => Some f
        | _ => None
        end
      else None
  | _ => None
  end.
Definition delivered (id : string) (evs : list SessionEvent) : list IoClientFrame := omap (arrives id) evs.
Fixpoint taken_by (id : string) (evs : list SessionEvent) t : list IoClientFrame :=
  match evs with
  | [] => []
  | e :: evs => option_list (takes id e t) ++ taken_by id evs (session_step t e)
  end.

Definition is_start (f : IoClientFrame) : bool :=
  match icf_payload f with Some (CStart _) => true | _ => false end.

Lemma delivered_cons id e evs : delivered id (e :: evs) = option_list (arrives id e) ++ delivered id evs.
Proof. unfold delivered. cbn. by destruct (arrives id e). Qed.

(** A live task with more in its inbox. *)
Definition task_fed (fs : list IoClientFrame) (o : option TSession) : option TSession :=
  match o with
  | Some {| ts_inbox := inbox; ts_driver := (Driving | Discarding) as d; ts_outbox := out |} =>
      Some {| ts_inbox := inbox ++ fs; ts_driver := d; ts_outbox := out |}
  | o => o
  end.

(** A frame of another stream, or one that is no start, never opens the session. *)
Lemma frame_task id f t :
  sessions_consistent t → (icf_stream_id f = id → is_start f = false) →
  tn_tasks (handle_io_client_frame f t) !! id = task_fed (option_list (arrives id (EvFrame f))) (tn_tasks t !! id).
Proof.
  intros Hc Hs. unfold handle_io_client_frame, arrives. destruct (decide (icf_stream_id f = id)) as [Hid|Hne].
  - specialize (Hs Hid). unfold is_start in Hs. cbn [option_list]. rewrite Hid.
    assert (tn_tasks (if decide (id ∈ tn_sessions t) then
        match tn_tasks t !! id with
        | Some {| ts_inbox := inbox; ts_driver := DReturned; ts_outbox := out |} => t
        | Some {| ts_inbox := inbox; ts_driver := d; ts_outbox := out |} =>
            upd_session id {| ts_inbox := inbox ++ [f]; ts_driver := d; ts_outbox := out |} t
        | None => t
        end else t) !! id = task_fed [f] (tn_tasks t !! id)) as Hgo.
    { case_decide as Hin; rewrite Hc, elem_of_dom in Hin.
      - destruct (tn_tasks t !! id) as [[inbox [] out]|] eqn:E; cbn; rewrite ?lookup_insert_eq; done.
      - by destruct (tn_tasks t !! id) as [s|]; [destruct Hin|]. }
    destruct (icf_payload f) as [[]|]; done.
  - assert (∀ o, task_fed [] o = o) as Hnil by (intros [[inbox [] out]|]; cbn; by rewrite ?app_nil_r).
    cbn [option_list]. rewrite Hnil.
    destruct (icf_payload f) as [[]|]; repeat case_match; cbn; rewrite ?lookup_insert_ne by done; done.
Qed.

Definition live (s : TSession) : bool := match ts_driver s with DReturned => false | _ => true end.

(** One event, for the task of one stream: what is taken, then what waits, is what waited, then
    what arrives. *)
Definition task_moves (o o' : option TSession) (took came : option IoClientFrame) : Prop :=
  match o with
  | Some s =>
      if live s then ∃ s', o' = Some s' ∧ option_list took ++ ts_inbox s' = ts_inbox s ++ option_list came
      else took = None ∧ ∀ s', o' = Some s' → live s' = false
  | None => took = None ∧ o' = None
  end.

Lemma task_stays o : task_moves o o None None.
Proof. destruct o as [s|]; [|done]. cbn. destruct (live s) eqn:E; [exists s; by rewrite app_nil_r|naive_solver]. Qed.

Lemma task_step id e t :
  sessions_consistent t → (∀ f, arrives id e = Some f → is_start f = false) →
  task_moves (tn_tasks t !! id) (tn_tasks (session_step t e) !! id) (takes id e t) (arrives id e).
Proof.
  intros Hc Hs. destruct e as [f|j|j f|j|j|j|j].
  { cbn [session_step takes]. rewrite frame_task by (try done; intros; apply Hs; cbn; by rewrite decide_True).
    destruct (tn_tasks t !! id) as [[inbox [] out]|]; cbn; try (by eexists); try done.
    split; [done|]. by intros ? [= <-]. }
  all: cbn [session_step takes arrives]; destruct (decide (j = id)) as [->|Hne]; swap 1 2.
  all: try (match goal with |- task_moves ?o ?o' None None =>
         assert (o' = o) as ->; [repeat case_match; cbn; rewrite ?lookup_insert_ne, ?lookup_delete_ne by done; done|
         apply task_stays] end).
  all: destruct (tn_tasks t !! id) as [[[|f0 inbox] [] [|o out]]|] eqn:E; cbn; try case_decide; cbn;
    rewrite ?lookup_insert_eq, ?lookup_delete_eq, ?E; try (eexists; split; [done|]; cbn; by rewrite ?app_nil_r);
    naive_solver.
Qed.

(** What a driver takes is what arrived, in order and without anything of another stream; while
    it has not returned, what it has not taken waits for it. *)
Definition driven (o o' : option TSession) (took came : list IoClientFrame) : Prop :=
  match o with
  | Some s =>
      if live s then took `prefix_of` ts_inbox s ++ came ∧
        ∀ s', o' = Some s' → live s' = true → took ++ ts_inbox s' = ts_inbox s ++ came
      else took = [] ∧ ∀ s', o' = Some s' → live s' = false
  | None => took = [] ∧ o' = None
  end.

Lemma driven_step o o1 o' took came took' came' :
  task_moves o o1 took came → driven o1 o' took' came' →
  driven o o' (option_list took ++ took') (option_list came ++ came').
Proof.
  unfold task_moves, driven. destruct o as [s|]; [destruct (live s)|].
  - intros (s1 & -> & Hio) Hd. rewrite app_assoc, <- Hio. destruct (live s1).
    + destruct Hd as [Hp Hw]. split; [rewrite <- app_assoc; by apply prefix_app|].
      intros s' Hs' Hl. by rewrite <- !app_assoc, (Hw s' Hs' Hl).
    + destruct Hd as [-> Hd]. rewrite app_nil_r. split; [rewrite <- app_assoc; by apply prefix_app_r|].
      intros s' Hs' Hl. by rewrite (Hd s' Hs') in Hl.
  - intros [-> Hm] Hd. destruct o1 as [s1|]; [rewrite (Hm s1 eq_refl) in Hd; done|]. destruct Hd as [-> ->]. done.
  - by intros [-> ->] [-> ->].
Qed.

Lemma taken_in_order id evs t :
  sessions_consistent t → Forall (λ f, is_start f = false) (delivered id evs) →
  driven (tn_tasks t !! id) (tn_tasks (session_run evs t) !! id) (taken_by id evs t) (delivered id evs).
Proof.
  revert t. induction evs as [|e evs IH]; intros t Hc Hs.
  - cbn. unfold driven. destruct (tn_tasks t !! id) as [s|]; [|done]. destruct (live s) eqn:El; [|naive_solver].
    split; [apply prefix_nil|]. intros s' [= <-] _. by rewrite app_nil_r.
  - rewrite delivered_cons in Hs. apply Forall_app in Hs as [Hs1 Hs]. rewrite delivered_cons.
    eapply driven_step; [|apply IH; [by apply session_step_consistent|done]].
    apply task_step; [done|]. intros f Hf. rewrite Hf in Hs1. by inversion Hs1.
Qed.

(** A session from the frame that opens it. *)
Lemma session_input id (ag : Agent W) before f start evs :
  let t := session_run before (connected ag) in
  icf_stream_id f = id → icf_payload f = Some (CStart start) → refuse_start id start t = None →
  Forall (λ f, is_start f = false) (delivered id evs) →
  taken_by id evs (session_step t (EvFrame f)) `prefix_of` f :: delivered id evs.
Proof.
  intros t Hid Hf Hr Hs. assert (sessions_consistent t) as Hc by by apply session_run_consistent.
  pose proof (taken_in_order id evs _ (session_step_consistent (EvFrame f) t Hc) Hs) as Hd.
  cbn [session_step] in *. unfold handle_io_client_frame in *. rewrite Hf, Hid, Hr in *. cbn [tn_tasks] in Hd.
  rewrite lookup_insert_eq in Hd. cbn in Hd. exact (proj1 Hd).
Qed.
End tunnel_input.
