(* ===== verification/TunnelOpen.v ===== *)
(** * Opening a tunnel (crates/agent/src/proxy_client.rs)

    [ProxyConnection::run]: the call with its token, the first message, the loop over the
    proxy's requests and its end; and the proxy that is called (ProxyGrpc.v). tonic's parse of
    a metadata value is a parameter. *)

From S2P Require Import Prelude Contracts UuidRef ControllerCore IoFrames Routing Tunnels ProxyGrpc ControllerGrpc AgentSandbox AgentTunnel.

Record ProxyConnection `{UuidLib} := {
  pc_agent_id : AgentId;
  pc_tunnel_token : option string;
}.

Section open.
Context `{UuidLib} {R : Type} `{!RoutingStore R} {W : Type} `{!ContainerRuntime W}.
Context (metadata_value : string → result string string).
Variable http_send : Z → HttpRequest → result HttpResponse AgentError.
Variable uuid_error : string → string.
Implicit Types (p : ProxyConnection) (px : Proxy R) (t : Tunnel W).

(** The [authorization] of the call. *)
Definition tunnel_authorization p : result (option (option string)) AgentError :=
  match pc_tunnel_token p with
  | None => Ok None
  | Some token =>
      match metadata_value ("Bearer " +:+ token) with
      | Ok value => Ok (Some (Some value))
      | Err e => Err (AgentInternal e)
      end
  end.

Definition ready_msg p : TunnelResponse :=
  {| tr_stream_id := ""; tr_payload := Some (RReady (hyphenated (pc_agent_id p))) |}.

(** [open_tunnel] up to the task it spawns; [tx] is the new channel of requests. *)
Definition open_tunnel (role : ProxyRole) (tunnel_token : option string) (tx : nat)
    (authorization : option (option string)) : ST (Proxy R) (result () Status) := λ px,
  match open_tunnel_gate role tunnel_token (px_draining px) authorization with
  | Err e => (Err e, px)
  | Ok _ => (Ok (), with_tunnels (<[tx := ([], true)]> (px_tunnels px)) px)
  end.

(** [run] up to its loop. *)
Definition dial_tunnel p (role : ProxyRole) (tunnel_token : option string) (tx : nat) (ag : Agent W)
    : ST (Proxy R) (result (Tunnel W) AgentError) :=
  match tunnel_authorization p with
  | Err e => st_ret (Err e)
  | Ok authorization =>
      let! r := open_tunnel role tunnel_token tx authorization in
      st_ret (match r with
              | Err _ => Err TunnelDisconnected
              | Ok _ => Ok (upd_outbound [ready_msg p] (connected ag))
              end)
  end.

(** The loop, on the requests that come before the stream ends. Its end aborts the sessions'
    tasks. *)
Fixpoint serve (requests : list TunnelRequest) t : Tunnel W * AgentError :=
  match requests with
  | [] => (upd_outbound (tn_outbound t) (connected (tn_agent t)), TunnelDisconnected)
  | req :: requests =>
      match on_request http_send uuid_error req t with
      | Ok t => serve requests t
      | Err e => (upd_outbound (tn_outbound t) (connected (tn_agent t)), e)
      end
  end.
End open.

Section joins.
Context `{UuidLaws} {R : Type} `{!RoutingStore R} {W : Type} `{!ContainerRuntime W}.
Context (metadata_value : string → result string string) (p : ProxyConnection) (px : Proxy R).
Context (role : ProxyRole) (expected token : string) (tx : nat) (ag : Agent W).
Hypothesis Htoken : pc_tunnel_token p = Some token.
Hypothesis Hvalue : metadata_value ("Bearer " +:+ token) = Ok ("Bearer " +:+ token).

(** An agent with the proxy's token joins on a listener for agents, unless the proxy drains:
    its first message makes its channel the way to its sandboxes. Anyone else is refused, and
    the proxy stays as it is. *)
Lemma agent_joins_proxy :
  dial_tunnel metadata_value p role (Some expected) tx ag px =
    if accepts_open_tunnel role && bool_decide (token = expected) && negb (px_draining px)
    then (Ok (upd_outbound [ready_msg p] (connected ag)),
          with_tunnels (<[tx := ([], true)]> (px_tunnels px)) px)
    else (Err TunnelDisconnected, px).
Proof.
  unfold dial_tunnel, tunnel_authorization. rewrite Htoken, Hvalue. unfold st_bind, open_tunnel, open_tunnel_gate.
  destruct (accepts_open_tunnel role); [|done]. cbn [negb andb]. unfold token_ok, bearer. cbn [mjoin option_join mbind option_bind].
  rewrite strip_prefix_app. destruct (decide (token = expected)) as [->|Hne].
  - rewrite !bool_decide_true by done. by destruct (px_draining px).
  - by rewrite !bool_decide_false by congruence.
Qed.

Lemma ready_registers (px' : Proxy R) l :
  ∃ g px2, on_tunnel_message tx l (ready_msg p) px' =
      (TContinue {| ProxyGrpc.registered := Some (pc_agent_id p); my_generation := Some g |}, px2) ∧
    TunnelPool.get_sender_with_generation (pc_agent_id p) (px_pool px2) = Some (tx, g) ∧
    px_tunnels px2 = px_tunnels px'.
Proof.
  eexists _, _. unfold on_tunnel_message. cbn [ready_msg tr_payload]. rewrite parse_hyphenated.
  unfold TunnelPool.register. cbn. split; [done|]. split; [|done].
  unfold TunnelPool.get_sender_with_generation. cbn. by rewrite lookup_insert_eq.
Qed.
End joins.

