(* ===== verification/Wiring.v ===== *)
(** * The process around the parts

    crates/cli/src/{main,secret,tls}.rs and the start of [run_agent] in run.rs: what a command
    exits with, secrets in log lines, the choice of TLS on the public listener and what happens
    to a connection there, and the agent's two connections. rustls-acme and its configurations
    are parameters. *)

From S2P Require Import Prelude Contracts UuidRef ControllerCore IoFrames Routing Tunnels ProxyGrpc ControllerGrpc AgentSandbox AgentConnect AgentTunnel TunnelOpen.

(** ** secret.rs *)

Record Redacted := { rd_inner : string }.
Definition expose (r : Redacted) : string := rd_inner r.
Definition Redacted_from_str (s : string) : Redacted := {| rd_inner := s |}.
Definition Redacted_debug (r : Redacted) : string :=
  if decide (rd_inner r = "") then "Redacted(empty)" else "Redacted(<redacted>)".
Definition Redacted_eq (r : Redacted) (other : string) : bool := bool_decide (rd_inner r = other).

(** A log line tells two secrets apart only if one of them is empty. *)
Lemma redacted_hides r r' : (expose r = "" ↔ expose r' = "") ↔ Redacted_debug r = Redacted_debug r'.
Proof. unfold Redacted_debug, expose. repeat case_decide; naive_solver. Qed.

(** ** tls.rs *)

Record AcmeSettings := {
  acme_domain : string;
  acme_email : string;
  acme_cache_dir : string;
  acme_staging : bool;
}.

Definition AcmeSettings_from_env (env : string → option string) : option AcmeSettings :=
  domain ← env "TUNNEL_ACME_DOMAIN";
  email ← env "ACME_EMAIL";
  let cache_dir := default "./acme-cache" (env "ACME_CACHE_DIR") in
  let staging := bool_decide (env "ACME_STAGING" ∈ [Some "1"; Some "true"; Some "yes"]) in
  Some {| acme_domain := domain; acme_email := email; acme_cache_dir := cache_dir; acme_staging := staging |}.

(** How the public listener gets its connections. *)
Inductive Incoming := AcmeManaged (settings : AcmeSettings) | Plaintext.
Definition public_incoming (env : string → option string) : Incoming :=
  match AcmeSettings_from_env env with Some settings => AcmeManaged settings | None => Plaintext end.

(** A connection that was accepted: its ClientHello with whether it is a challenge, or why
    there is none; and the handshakes with the two configurations. *)
Record TlsPeer (Stream : Type) := {
  tp_hello : result bool string;
  tp_challenge : result Stream string;
  tp_default : result Stream string;
}.
Arguments tp_hello {_} _.
Arguments tp_challenge {_} _.
Arguments tp_default {_} _.

(** What the listener's accept yields, and what of it reaches the server. *)
Definition acme_connection {Stream} (peer : TlsPeer Stream) : option Stream :=
  match tp_hello peer with
  | Err _ => None
  | Ok challenge => if challenge then None else result_ok (tp_default peer)
  end.
Definition acme_incoming {Stream} (accepted : list (result (TlsPeer Stream) string)) : list Stream :=
  omap (λ a, match a with Ok peer => acme_connection peer | Err _ => None end) accepted.

(** The server gets exactly the connections that finished the handshake with the listener's
    certificate; a failed accept, a failed handshake or a challenge stops none of the others. *)
Lemma acme_incoming_elem {Stream} (accepted : list (result (TlsPeer Stream) string)) s :
  s ∈ acme_incoming accepted ↔
  ∃ peer, Ok peer ∈ accepted ∧ tp_hello peer = Ok false ∧ tp_default peer = Ok s.
Proof.
  unfold acme_incoming. rewrite list_elem_of_omap. split.
  - intros ([peer|e] & Hin & Hs); [|done]. exists peer. split; [done|]. unfold acme_connection in Hs.
    destruct (tp_hello peer) as [[]|]; try done. by destruct (tp_default peer); simplify_eq/=.
  - intros (peer & Hin & Hh & Hd). exists (Ok peer). split; [done|]. unfold acme_connection. by rewrite Hh, Hd.
Qed.

(** ** main.rs *)

Inductive Command {A : Type} :=
| Controller (args : A) | RunProxy (args : A) | RunAgent (args : A) | RunApi (args : A) | Migrate (args : A)
| Run (args : A) | Ssh (args : A) | SshPipe (args : A).
Arguments Command : clear implicits.

Definition report (r : result () string) : Z := match r with Ok _ => 0 | Err _ => 1 end.

(** The five services say whether they failed, the three clients with which code. *)
Definition cli_main {A W} (controller proxy agent api migrate : A → ST W (result () string))
    (run ssh ssh_pipe : A → ST W Z) (command : Command A) : ST W Z :=
  let reported m := let! r := m in st_ret (report r) in
  match command with
  | Controller args => reported (controller args)
  | RunProxy args => reported (proxy args)
  | RunAgent args => reported (agent args)
  | RunApi args => reported (api args)
  | Migrate args => reported (migrate args)
  | Run args => run args
  | Ssh args => ssh args
  | SshPipe args => ssh_pipe args
  end.

(** ** The agent's connections *)

Record AgentArgs := {
  aa_token : Redacted;
  aa_controller_url : string;
  aa_proxy_url : string;
}.

Section agent.
Context `{UuidLib}.

(** [agent_id] is drawn once per process. *)
Definition controller_conn (agent_id : AgentId) (args : AgentArgs) (resources : AgentResources)
    : ControllerConnection :=
  {| cc_agent_id := agent_id; cc_join_token := {| jt_token := expose (aa_token args) |}; cc_resources := resources |}.
Definition proxy_conn (agent_id : AgentId) (env : string → option string) : ProxyConnection :=
  {| pc_agent_id := agent_id; pc_tunnel_token := env "TUNNEL_JOIN_TOKEN" |}.
End agent.

Section reachable.
Context `{UuidLaws} {R : Type} `{!RoutingStore R} {W : Type} `{!ControllerStore W}.

(** The two sides know an agent process by one id: what the controller registers is what the
    proxy finds the tunnel under, so that a route to the agent leads to its tunnel. *)
Lemma one_identity agent_id args resources env tx l (px : Proxy R) :
  ∃ token res g px',
    register_msg (controller_conn agent_id args resources) = Some (Register (hyphenated agent_id) token (Some res)) ∧
    on_tunnel_message tx l (ready_msg (proxy_conn agent_id env)) px =
      (TContinue {| ProxyGrpc.registered := Some agent_id; my_generation := Some g |}, px') ∧
    TunnelPool.get_sender_with_generation agent_id (px_pool px') = Some (tx, g).
Proof.
  destruct (ready_registers (proxy_conn agent_id env) tx px l) as (g & px' & Hm & Hg & _).
  exists (expose (aa_token args)), resources, g, px'. done.
Qed.
End reachable.
