(* ===== verification/HttpPath.v ===== *)
(** * An HTTP request to a sandbox, there and back

    The agent's HTTP client (crates/cli/src/http_client.rs) and the path of a request: the
    proxy's server (HttpServer.v), the tunnel (AgentTunnel.v), the client, the server in the
    sandbox, and the way back. reqwest is a parameter. *)

From S2P Require Import Prelude Contracts UuidRef Store ControllerCore IoFrames Routing Tunnels ProxyGrpc HttpServer ControllerGrpc AgentSandbox AgentTunnel.

(** ** http_client.rs *)

(** A client's settings, times in ms; [cc_redirects]: how many redirects it follows, which the
    source leaves at reqwest's default. *)
Record ClientConfig := { cc_connect_timeout : Z; cc_timeout : Z; cc_redirects : nat }.
Definition REQWEST_DEFAULT_REDIRECTS : nat := 10.
Definition http_client_config : ClientConfig :=
  {| cc_connect_timeout := 2000; cc_timeout := 30000; cc_redirects := REQWEST_DEFAULT_REDIRECTS |}.

(** http's parse of a method, and a call: a method, URL, headers and body to a status, headers
    and a body, if that can be read. *)
Class Reqwest := {
  parse_method : string → result string string;
  request_send : ClientConfig → string → string → gmap string string → bytes →
    result (Z * HeaderMap * result bytes string) string;
}.

(** [collect] into a map: of several values of a name the last one; a value that is not text
    is empty. *)
Definition collect_headers (hs : HeaderMap) : gmap string string :=
  foldl (λ m h, <[h.1 := default "" h.2]> m) ∅ hs.

Definition http_client_send `{Reqwest} (port : Z) (request : HttpRequest) : result HttpResponse AgentError :=
  let url := "http://127.0.0.1:" +:+ pretty port +:+ hq_uri request in
  let? method := map_err AgentInternal (parse_method (hq_method request)) in
  let? (status, headers, body) :=
    map_err AgentInternal (request_send http_client_config method url (hq_headers request) (hq_body request)) in
  let? body := map_err AgentInternal body in
  Ok {| hr_status_code := status; hr_headers := collect_headers headers; hr_body := body |}.

Lemma collect_headers_lookup hs k :
  collect_headers hs !! k = default "" <$> last (omap (λ h, if decide (h.1 = k) then Some h.2 else None) hs).
Proof.
  unfold collect_headers. assert (∀ m : gmap string string, foldl (λ m h, <[h.1 := default "" h.2]> m) m hs !! k =
    match last (omap (λ h, if decide (h.1 = k) then Some h.2 else None) hs) with
    | Some v => Some (default "" v) | None => m !! k end) as Hg.
  { induction hs as [|[n v] hs IH]; intros m; [done|]. cbn [foldl fst snd]. rewrite IH. cbn.
    destruct (decide (n = k)) as [->|Hne]; [|by rewrite lookup_insert_ne].
    rewrite last_cons. destruct (last _); [done|]. by rewrite lookup_insert_eq. }
  rewrite Hg. by destruct (last _).
Qed.

(** ** The whole path *)

Section path.
Context `{UuidLib, Reqwest} {R : Type} `{!RoutingStore R} {W : Type} `{!ContainerRuntime W}.
Variable header_valid : string → string → bool.
Variable uuid_error : string → string.
Implicit Types (px : Proxy R) (t : Tunnel W).

(** The request still waits for its reply. *)
Record awaiting (w : PendingReply) (g : Z) px : Prop := {
  aw_pending : StreamMux.pending (px_mux px) !! wt_stream w =
    Some {| StreamMux.response_tx := wt_slot w; StreamMux.agent_id := wt_agent_id w;
            StreamMux.generation := g |};
  aw_slot : StreamMux.oneshots (px_mux px) !! wt_slot w = Some None;
}.

(** The request as it is passed on. *)
Definition passed_on (req : Request) (body : bytes) (sandbox_id : string) : HttpRequest :=
  {| hq_method := rq_method req; hq_uri := default "/" (rq_path_and_query req);
     hq_headers := forwarded_headers (rq_headers req); hq_body := body; hq_sandbox_id := sandbox_id |}.

Lemma request_leaves slot req px w px' :
  handle_request header_valid slot req px = (inl w, px') →
  ∃ body tn q, rq_body req = Some body ∧ TunnelPool.tunnels (px_pool px) !! wt_agent_id w = Some tn ∧
    awaiting w (TunnelPool.generation tn) px' ∧
    px_tunnels px !! TunnelPool.request_tx tn = Some (q, true) ∧
    px_tunnels px' !! TunnelPool.request_tx tn =
      Some (q ++ [{| tq_stream_id := wt_stream w;
                     tq_payload := Some (QHttpRequest (passed_on req body (wt_sandbox_id w))) |}], true).
Proof.
  unfold handle_request. destruct (collect_body (rq_body req)) as [body|] eqn:Eb; [|done].
  destruct (route_request _ _ _ _ _ _ px) as [[w'|e] px1] eqn:Er; [|done]. intros [= -> ->].
  apply route_request_inv in Er as (tn & l & Htn & _ & Hslot & Hl & Hsent & Hp & Ho).
  exists body, tn, l. unfold collect_body in Eb. destruct (rq_body req) as [b|]; [|done]. simpl in Eb.
  case_decide; [|done]. injection Eb as ->. split; [done|]. split; [done|].
  split; [split; by rewrite Hslot|]. split; [done|]. rewrite Hsent. apply lookup_insert_eq.
Qed.

(** The agent answers a request for one of its sandboxes with one message. *)
Lemma agent_answers stream_id r sid e t :
  parse_str (hq_sandbox_id r) = Some sid → ag_sandboxes (tn_agent t) !! sid = Some e →
  let answer := match http_client_send (se_host_port e) r with
                | Ok resp => RHttpResponse resp
                | Err err => RClose (AgentError_to_string err)
                end in
  ∃ t', on_request http_client_send uuid_error
          {| tq_stream_id := stream_id; tq_payload := Some (QHttpRequest r) |} t = Ok t' ∧
    answers t t' = [{| tr_stream_id := stream_id; tr_payload := Some answer |}].
Proof.
  intros Hp He answer. unfold on_request. cbn [tq_payload tq_stream_id]. rewrite Hp.
  unfold forward, host_port_for. rewrite He. cbn [fmap option_fmap option_map ok_or].
  eexists. split; [done|]. unfold answers. cbn. by rewrite drop_app_length.
Qed.

(** What the client of the proxy gets, by what the server in the sandbox answered. *)
Definition client_gets (sent : result HttpResponse AgentError) : option Response :=
  match sent with Ok resp => respond header_valid (Ok resp) | Err _ => Some bad_gateway end.

Lemma reply_arrives w g px request_tx l (sent : result HttpResponse AgentError) :
  awaiting w g px → registered l = Some (wt_agent_id w) →
  let msg := {| tr_stream_id := wt_stream w;
                tr_payload := Some (match sent with
                  | Ok resp => RHttpResponse resp | Err err => RClose (AgentError_to_string err) end) |} in
  (finish_request header_valid w false (on_tunnel_message request_tx l msg px).2).1 = Some (client_gets sent).
Proof.
  intros [Hp Ho] Hl msg.
  destruct (finish_request_cases header_valid w px g Hp Ho) as (Hok & Hfail & _).
  unfold on_tunnel_message. cbn [msg tr_payload tr_stream_id].
  destruct sent as [resp|err]; rewrite Hl; cbn [snd]; [exact (Hok resp)|exact (Hfail false _)].
Qed.

(** While no message comes, the request waits, until the timeout answers it. *)
Lemma still_awaiting w g px :
  awaiting w g px →
  (finish_request header_valid w true px).1 = Some (Some gateway_timeout) ∧
  (finish_request header_valid w false px).1 = None.
Proof.
  intros [Hp Ho]. destruct (finish_request_cases header_valid w px g Hp Ho) as (_ & _ & _ & Ht & Hw & _).
  by destruct px.
Qed.

End path.

Module HttpPathExamples.
Import ProxyExamples HttpExamples AgentTunnelExamples.

(** A server that names the URL it was called at, and two that answer with two cookies and
    with a redirect out of the sandbox, which the client follows. *)
#[local] Instance echo_reqwest : Reqwest := {
  parse_method := Ok;
  request_send _ method url hs body := Ok (200%Z, [("content-type", Some "text/plain")], Ok url);
}.
Definition cookies_reqwest : Reqwest := {|
  parse_method := Ok;
  request_send _ _ _ _ _ := Ok (200%Z, [("set-cookie", Some "a=1"); ("set-cookie", Some "b=2")], Ok "");
|}.
Fixpoint follow (hops : nat) (serve : string → Z * HeaderMap * bytes) (url : string)
    : result (Z * HeaderMap * result bytes string) string :=
  let '(status, hs, body) := serve url in
  match header_get "location" hs with
  | Some (Some next) =>
      if decide (300 ≤ status < 400)%Z then
        match hops with O => Err "too many redirects" | S hops => follow hops serve next end
      else Ok (status, hs, Ok body)
  | _ => Ok (status, hs, Ok body)
  end.
Definition redirect_reqwest : Reqwest := {|
  parse_method := Ok;
  request_send cfg _ url _ _ := follow (cc_redirects cfg) (λ url,
    if decide (url = "http://127.0.0.1:40000/index.html")
    then (302%Z, [("location", Some "http://169.254.169.254/latest/meta-data")], "")
    else (200%Z, [], "fetched " +:+ url)) url;
|}.

Definition index_request : HttpRequest :=
  passed_on get_index "" (hyphenated AgentExamples.box).

(** Of two cookies the client of the proxy gets one. *)
Example second_cookie_lost :
  (λ r, map_to_list (hr_headers r)) <$> result_ok (@http_client_send cookies_reqwest 40000 index_request) =
    Some [("set-cookie", "b=2")].
Proof. evaluate. Qed.

(** A redirect is followed by the agent, to wherever it leads, instead of being passed on. *)
Example redirect_followed_by_agent :
  (λ r, (hr_status_code r, hr_body r)) <$> result_ok (@http_client_send redirect_reqwest 40000 index_request) =
    Some (200%Z, "fetched http://169.254.169.254/latest/meta-data").
Proof. evaluate. Qed.

Definition handled := handle_request (λ _ _, true) 3 get_index reconnected.
Definition ok_reply (r : option (option Response)) : option (Z * bytes) :=
  r ← r; r ← r; Some (rs_status r, rs_body r).

End HttpPathExamples.
