(* ===== verification/Api.v ===== *)
(** * The API gateway's wire and boundary (crates/api/src/{frame,grpc_service,handlers}.rs)

    The WebSocket envelope in both directions, with the decoder of crates/ws-client, the
    mapping of the controller's errors to HTTP, and the checks at the boundary. prost's
    encoding of a message is a parameter: a [Codec] per message type. *)

From S2P Require Import Prelude RustText Contracts UuidRef ControllerCore IoFrames Routing Tunnels ProxyGrpc HttpServer.

(** ** Messages of the envelope *)

Record IoSignal := { sg_signum : Z }.
Record IoExited := { xd_exit_code : Z; xd_command_not_found : bool }.
Record IoErrorMsg := { ie_code : string; ie_detail : string }.
Record IoStarted := { sd_exec_id : string; sd_in_container_pid : Z }.
Record ListDirResult := {
  lr_path : string; lr_entries : list ListDirEntry; lr_truncated : bool; lr_total_entries : Z }.
Record WaitPortListeningResult := { wr_ready : bool; wr_elapsed_ms : Z }.
Record FileMeta := { fm_revision : string; fm_size : Z }.

(** The values a prost message can hold: texts are UTF-8, numbers have their width.
    [utf8] is Rust's invariant of [String]. *)
Section representable.
Variable utf8 : string → Prop.

Definition params_ok (p : IoParams) : Prop :=
  match p with
  | PExec e => Forall utf8 (ex_command e) ∧ utf8 (ex_cwd e) ∧
      map_Forall (λ k v, utf8 k ∧ utf8 v) (ex_env e)
  | PReadFile path cwd | PListDir path cwd | PDeleteFile path cwd _ => utf8 path ∧ utf8 cwd
  | PWriteFile path cwd rev _ => utf8 path ∧ utf8 cwd ∧ utf8 rev
  | PWriteFilesTargz cwd => utf8 cwd
  | PWaitPortListening port ms => in_u32 port ∧ in_u32 ms
  end.
Definition start_ok (s : IoStart) : Prop :=
  utf8 (is_sandbox_id s) ∧ from_option params_ok True (is_params s).
Definition signal_ok (s : IoSignal) : Prop := in_u32 (sg_signum s).
Definition exited_ok (e : IoExited) : Prop := in_i32 (xd_exit_code e).
Definition error_ok (e : IoErrorMsg) : Prop := utf8 (ie_code e) ∧ utf8 (ie_detail e).
Definition started_ok (s : IoStarted) : Prop :=
  utf8 (sd_exec_id s) ∧ in_i32 (sd_in_container_pid s).
Definition entry_ok (e : ListDirEntry) : Prop :=
  utf8 (lde_name e) ∧ in_u64 (lde_size e) ∧ utf8 (lde_revision e) ∧ utf8 (lde_mode e) ∧
  utf8 (lde_target e).
Definition list_dir_ok (r : ListDirResult) : Prop :=
  utf8 (lr_path r) ∧ Forall entry_ok (lr_entries r) ∧ in_u64 (lr_total_entries r).
Definition wait_port_ok (r : WaitPortListeningResult) : Prop := in_u32 (wr_elapsed_ms r).
Definition file_meta_ok (m : FileMeta) : Prop := utf8 (fm_revision m) ∧ in_u64 (fm_size m).
End representable.

(** prost: [encode] into a growing buffer does not fail; [decode] may. *)
Class Codec (A : Type) := { encode_msg : A → bytes; decode_msg : bytes → result A string }.
(** Decoding what was encoded gives it back. *)
Class CodecLaw (A : Type) `{!Codec A} (ok : A → Prop) :=
  decode_encode (a : A) : ok a → decode_msg (encode_msg a) = Ok a.

Class Prost := {
  #[global] prost_start :: Codec IoStart;
  #[global] prost_signal :: Codec IoSignal;
  #[global] prost_exited :: Codec IoExited;
  #[global] prost_error :: Codec IoErrorMsg;
  #[global] prost_started :: Codec IoStarted;
  #[global] prost_list_dir :: Codec ListDirResult;
  #[global] prost_wait_port :: Codec WaitPortListeningResult;
  #[global] prost_file_meta :: Codec FileMeta;
}.
Class ProstLaws (P : Prost) (utf8 : string → Prop) := {
  #[global] law_start :: CodecLaw IoStart (start_ok utf8);
  #[global] law_signal :: CodecLaw IoSignal signal_ok;
  #[global] law_exited :: CodecLaw IoExited exited_ok;
  #[global] law_error :: CodecLaw IoErrorMsg (error_ok utf8);
  #[global] law_started :: CodecLaw IoStarted (started_ok utf8);
  #[global] law_list_dir :: CodecLaw ListDirResult (list_dir_ok utf8);
  #[global] law_wait_port :: CodecLaw WaitPortListeningResult wait_port_ok;
  #[global] law_file_meta :: CodecLaw FileMeta (file_meta_ok utf8);
}.

(** ** frame.rs *)

Inductive FrameError :=
| FrameEmpty
| UnknownKind (k : Z)
| DecodeFailed (kind : Z) (detail : string).

Definition byte_of (k : Z) : ascii := Ascii.ascii_of_N (Z.to_N k).
Definition kind_of (a : ascii) : Z := Z.of_N (Ascii.N_of_ascii a).

(** The frames as the client crate hands them out. *)
Inductive ServerFrame :=
| Started (exec_id : string) (in_container_pid : Z)
| Stdout (b : bytes)
| Stderr (b : bytes)
| Exited (exit_code : Z) (command_not_found : bool)
| WsError (code detail : string)
| WsListDirResult (path : string) (entries : list ListDirEntry) (truncated : bool)
    (total_entries : Z)
| WsWaitPortListeningResult (ready : bool) (elapsed_ms : Z)
| WsFileMeta (revision : string) (size : Z).

(** [{k:02x}]. *)
Definition hex_digit (n : N) : ascii :=
  Ascii.ascii_of_N (if decide (n < 10)%N then 48 + n else 87 + n)%N.
Definition hex2 (a : ascii) : string :=
  let n := Ascii.N_of_ascii a in
  String (hex_digit (n / 16)) (String (hex_digit (n `mod` 16)) "").

Section envelope.
Context `{Prost}.

Definition decoded {A B} `{!Codec A} (kind : Z) (payload : bytes) (k : A → B) : result B FrameError :=
  match decode_msg payload with
  | Ok a => Ok (k a)
  | Err detail => Err (DecodeFailed kind detail)
  end.

Definition decode_client (bs : bytes) : result IoClientPayload FrameError :=
  match bs with
  | EmptyString => Err FrameEmpty
  | String a payload =>
      let kind := kind_of a in
      if decide (kind = FRAME_KIND_START) then decoded kind payload CStart
      else if decide (kind = FRAME_KIND_STDIN) then Ok (CStdin payload)
      else if decide (kind = FRAME_KIND_SIGNAL) then
        decoded kind payload (λ s, CSignal (sg_signum s))
      else if decide (kind = FRAME_KIND_STDIN_EOF) then Ok (CClose true)
      else Err (UnknownKind kind)
  end.

Definition build_client_frame (p : IoClientPayload) : IoClientFrame :=
  {| icf_stream_id := ""; icf_payload := Some p |}.

Definition encode_server (f : IoServerFrame) : result bytes FrameError :=
  match isf_payload f with
  | None => Err FrameEmpty
  | Some p =>
      let '(kind, body) := match p with
        | SStdout b => (FRAME_KIND_STDOUT, b)
        | SStderr b => (FRAME_KIND_STDERR, b)
        | SExited code cnf =>
            (FRAME_KIND_EXITED, encode_msg {| xd_exit_code := code; xd_command_not_found := cnf |})
        | SError code detail =>
            (FRAME_KIND_ERROR, encode_msg {| ie_code := code; ie_detail := detail |})
        | SStarted id pid =>
            (FRAME_KIND_STARTED, encode_msg {| sd_exec_id := id; sd_in_container_pid := pid |})
        | SListDirResult path es tr total =>
            (FRAME_KIND_LIST_DIR_RESULT, encode_msg {| lr_path := path; lr_entries := es;
               lr_truncated := tr; lr_total_entries := total |})
        | SWaitPortListeningResult ready ms =>
            (FRAME_KIND_WAIT_PORT_LISTENING_RESULT,
             encode_msg {| wr_ready := ready; wr_elapsed_ms := ms |})
        | SFileMeta rev sz =>
            (FRAME_KIND_FILE_META, encode_msg {| fm_revision := rev; fm_size := sz |})
        end in
      Ok (String (byte_of kind) body)
  end.

Definition decode_server (bs : bytes) : result IoServerPayload FrameError :=
  match bs with
  | EmptyString => Err FrameEmpty
  | String a payload =>
      let kind := kind_of a in
      if decide (kind = FRAME_KIND_STDOUT) then Ok (SStdout payload)
      else if decide (kind = FRAME_KIND_STDERR) then Ok (SStderr payload)
      else if decide (kind = FRAME_KIND_EXITED) then
        decoded kind payload (λ e, SExited (xd_exit_code e) (xd_command_not_found e))
      else if decide (kind = FRAME_KIND_ERROR) then
        decoded kind payload (λ e, SError (ie_code e) (ie_detail e))
      else if decide (kind = FRAME_KIND_STARTED) then
        decoded kind payload (λ s, SStarted (sd_exec_id s) (sd_in_container_pid s))
      else if decide (kind = FRAME_KIND_LIST_DIR_RESULT) then
        decoded kind payload (λ r, SListDirResult (lr_path r) (lr_entries r) (lr_truncated r)
                                     (lr_total_entries r))
      else if decide (kind = FRAME_KIND_WAIT_PORT_LISTENING_RESULT) then
        decoded kind payload (λ r, SWaitPortListeningResult (wr_ready r) (wr_elapsed_ms r))
      else if decide (kind = FRAME_KIND_FILE_META) then
        decoded kind payload (λ m, SFileMeta (fm_revision m) (fm_size m))
      else Err (UnknownKind kind)
  end.

(** ** The WebSocket client's frames (crates/ws-client/src/lib.rs) *)

Definition ws_start (sandbox_id : string) (command : list string) (cwd : option string)
    (env : gmap string string) : bytes :=
  String (byte_of FRAME_KIND_START) (encode_msg {| is_sandbox_id := sandbox_id;
    is_params := Some (PExec {| ex_command := command; ex_cwd := default "" cwd;
                                ex_env := env |}) |}).
Definition ws_stdin (b : bytes) : bytes := String (byte_of FRAME_KIND_STDIN) b.
Definition ws_signal (signum : Z) : bytes :=
  String (byte_of FRAME_KIND_SIGNAL) (encode_msg {| sg_signum := signum |}).
Definition ws_close_stdin : bytes := String (byte_of FRAME_KIND_STDIN_EOF) "".

(** The client's own decoder; an error is the text of [WsClientError::Protocol]. *)
Definition ws_decoded {A B} `{!Codec A} (payload : bytes) (k : A → B) : result B string :=
  match decode_msg payload with Ok a => Ok (k a) | Err detail => Err detail end.

Definition ws_decode_server (bs : bytes) : result ServerFrame string :=
  match bs with
  | EmptyString => Err "empty frame"
  | String a payload =>
      let kind := kind_of a in
      if decide (kind = FRAME_KIND_STDOUT) then Ok (Stdout payload)
      else if decide (kind = FRAME_KIND_STDERR) then Ok (Stderr payload)
      else if decide (kind = FRAME_KIND_EXITED) then
        ws_decoded payload (λ e, Exited (xd_exit_code e) (xd_command_not_found e))
      else if decide (kind = FRAME_KIND_ERROR) then
        ws_decoded payload (λ e, WsError (ie_code e) (ie_detail e))
      else if decide (kind = FRAME_KIND_STARTED) then
        ws_decoded payload (λ s, Started (sd_exec_id s) (sd_in_container_pid s))
      else if decide (kind = FRAME_KIND_LIST_DIR_RESULT) then
        ws_decoded payload (λ r, WsListDirResult (lr_path r) (lr_entries r) (lr_truncated r)
                                   (lr_total_entries r))
      else if decide (kind = FRAME_KIND_WAIT_PORT_LISTENING_RESULT) then
        ws_decoded payload (λ r, WsWaitPortListeningResult (wr_ready r) (wr_elapsed_ms r))
      else if decide (kind = FRAME_KIND_FILE_META) then
        ws_decoded payload (λ m, WsFileMeta (fm_revision m) (fm_size m))
      else Err ("unknown frame kind 0x" +:+ hex2 a)
  end.
End envelope.

(** ** grpc_service.rs: [grpc_to_api] *)

Definition grpc_to_api (st : Status) : ApiError :=
  match trailer st with
  | Some c =>
      if decide (c = "INVALID_TOKEN") then Unauthorized (message st)
      else if decide (c = "SANDBOX_NOT_FOUND") then ApiSandboxNotFound (message st)
      else if decide (c = "AGENT_NOT_FOUND") then ControllerUnavailable (message st)
      else if decide (c = "INVALID_STATE") then InvalidState (message st)
      else if decide (c = "NO_AVAILABLE_AGENTS") then
        ControllerUnavailable ("no available agents: " +:+ message st)
      else if decide (c = "DATABASE_ERROR" ∨ c = "INTERNAL" ∨ c = "UNKNOWN") then
        ApiInternal (message st)
      else ApiInternal (c +:+ ": " +:+ message st)
  | None =>
      match code st with
      | NotFound => ApiSandboxNotFound (message st)
      | Unavailable => ControllerUnavailable (message st)
      | InvalidArgument => InvalidRequest (message st)
      | FailedPrecondition => InvalidState (message st)
      | _ => ApiInternal (message st)
      end
  end.

(** ** handlers.rs: the HTTP status of an error, with the revision a mismatch carries *)

Definition api_error_status (e : ApiError) : Z :=
  match e with
  | Unauthorized _ => 401
  | ApiSandboxNotFound _ | SandboxGone _ | FileNotFound _ => 404
  | InvalidRequest _ | InvalidUpload _ => 400
  | ControllerUnavailable _ | ProxyUnavailable _ => 503
  | IoStreamFailed _ => 500
  | InvalidState _ | RevisionMismatch _ | DirectoryNotEmpty _ => 409
  | NotImplemented _ => 501
  | ApiInternal _ => 500
  end.
Definition api_error_response (e : ApiError) : Z * string * option string :=
  (api_error_status e, error_code e,
   match e with RevisionMismatch actual => Some actual | _ => None end).

(** ** handlers.rs: authentication and paths *)

Definition WS_AUTH_PROTOCOL_SENTINEL : string := "open-sandbox.v1".
Definition WS_AUTH_BEARER_PREFIX : string := "bearer.".
Definition WS_AUTH_MAX_OFFERED_PROTOCOLS : nat := 16.

Definition bearer_matches (hs : HeaderMap) (expected : string) : bool :=
  match bearer (header_get "authorization" hs) with
  | Some tok => constant_time_eq (string_bytes tok) (string_bytes expected)
  | None => false
  end.

Definition check_rest_auth (hs : HeaderMap) (api_key : string) : bool := bearer_matches hs api_key.

Definition eq_ignore_ascii_case (a b : string) : bool :=
  bool_decide (to_ascii_lowercase a = to_ascii_lowercase b).

Definition strip_prefix_ascii_ci (s prefix : string) : option string :=
  let n := String.length prefix in
  if decide (n ≤ String.length s)%nat then
    if eq_ignore_ascii_case (substring 0 n s) prefix
    then Some (substring n (String.length s - n) s) else None
  else None.

(** [headers.get_all(name)], text values, split at commas and trimmed, at most sixteen. *)
Definition offered_protocols (hs : HeaderMap) : list string :=
  take WS_AUTH_MAX_OFFERED_PROTOCOLS
    (v ← omap (λ h, if decide (h.1 = "sec-websocket-protocol") then h.2 else None) hs;
     trim <$> split_comma v).

Section ws_auth.
(** base64url without padding. *)
Variable b64url : string → string.

(** The loop over the offered entries: (sentinel offered, bearer accepted). *)
Definition ws_entry (expected : string) (acc : bool * bool) (offered : string) : bool * bool :=
  if eq_ignore_ascii_case offered WS_AUTH_PROTOCOL_SENTINEL then (true, acc.2)
  else match strip_prefix_ascii_ci offered WS_AUTH_BEARER_PREFIX with
       | Some b64 => if constant_time_eq (string_bytes b64) (string_bytes (b64url expected))
                     then (acc.1, true) else acc
       | None => acc
       end.

(** [Ok(None)], [Ok(Some(protocol))] to echo, or refused. *)
Definition check_ws_auth (hs : HeaderMap) (expected : string) : option (option string) :=
  if bearer_matches hs expected then Some None else
  let '(sentinel_offered, bearer_ok) :=
    foldl (ws_entry expected) (false, false) (offered_protocols hs) in
  if bearer_ok : bool then
    Some (if sentinel_offered : bool then Some WS_AUTH_PROTOCOL_SENTINEL else None)
  else None.
End ws_auth.

Definition validate_sandbox_path (path : string) : result () string :=
  if negb (string_forallb (λ a, negb (bool_decide (kind_of a = 0)%Z)) path) then
    Err "path must not contain NUL bytes"
  else if negb (string_forallb (λ a, negb (bool_decide (kind_of a < 0x20 ∧ kind_of a ≠ 9)%Z)) path) then
    Err "path must not contain control characters"
  else if bool_decide (".." ∈ str_split "/" path) then
    Err "path must not contain '..' segments"
  else Ok ().

(** ** The envelope *)

Definition payload_ok (utf8 : string → Prop) (p : IoServerPayload) : Prop :=
  match p with
  | SStdout _ | SStderr _ => True
  | SExited c n => exited_ok {| xd_exit_code := c; xd_command_not_found := n |}
  | SError c d => error_ok utf8 {| ie_code := c; ie_detail := d |}
  | SStarted i pid => started_ok utf8 {| sd_exec_id := i; sd_in_container_pid := pid |}
  | SListDirResult path es tr total => list_dir_ok utf8
      {| lr_path := path; lr_entries := es; lr_truncated := tr; lr_total_entries := total |}
  | SWaitPortListeningResult r ms => wait_port_ok {| wr_ready := r; wr_elapsed_ms := ms |}
  | SFileMeta r sz => file_meta_ok utf8 {| fm_revision := r; fm_size := sz |}
  end.

Definition server_frame (p : IoServerPayload) : ServerFrame :=
  match p with
  | SStarted i pid => Started i pid
  | SStdout b => Stdout b
  | SStderr b => Stderr b
  | SExited c n => Exited c n
  | SError c d => WsError c d
  | SListDirResult path es tr total => WsListDirResult path es tr total
  | SWaitPortListeningResult r ms => WsWaitPortListeningResult r ms
  | SFileMeta r sz => WsFileMeta r sz
  end.

Section envelope_theorems.
Context (P : Prost) (utf8 : string → Prop).

Lemma decoded_ok {A B} `{!Codec A} kind bs (k : A → B) b :
  decoded kind bs k = Ok b ↔ ∃ a, decode_msg bs = Ok a ∧ b = k a.
Proof. unfold decoded. destruct (decode_msg bs); naive_solver. Qed.

Lemma decoded_encode {A B} `{!Codec A} (ok : A → Prop) `{!CodecLaw A ok} kind a (k : A → B) :
  ok a → decoded kind (encode_msg a) k = Ok (k a).
Proof. intros Ha. unfold decoded. by rewrite decode_encode. Qed.

Lemma ws_decoded_encode {A B} `{!Codec A} (ok : A → Prop) `{!CodecLaw A ok} a (k : A → B) :
  ok a → ws_decoded (encode_msg a) k = Ok (k a).
Proof. intros Ha. unfold ws_decoded. by rewrite decode_encode. Qed.

(** A first byte is a kind of at most one direction. *)
Lemma kinds_disjoint b p q : decode_client b = Ok p → decode_server b ≠ Ok q.
Proof.
  destruct b as [|a b]; [done|]. unfold decode_client, decode_server. intros Hc Hs.
  assert (kind_of a ≤ FRAME_KIND_STDIN_EOF)%Z as Hle.
  { repeat case_decide; try done;
      match goal with E : kind_of a = ?k |- _ => rewrite E; unfold k, FRAME_KIND_STDIN_EOF; lia end. }
  unfold FRAME_KIND_STDIN_EOF in Hle. clear Hc.
  repeat case_decide; try done;
    match goal with E : kind_of a = ?k |- _ => rewrite E in Hle; unfold k in Hle end; lia.
Qed.

Lemma half_close_only b eof : decode_client b = Ok (CClose eof) → eof = true.
Proof.
  destruct b as [|a b]; [done|]. unfold decode_client. intros Hc.
  repeat case_decide; simplify_eq/=; try done; apply decoded_ok in Hc; naive_solver.
Qed.

Context `{!ProstLaws P utf8}.

Lemma encode_server_roundtrip id p :
  payload_ok utf8 p → ∃ b, encode_server {| isf_stream_id := id; isf_payload := Some p |} = Ok b ∧
    decode_server b = Ok p ∧ ws_decode_server b = Ok (server_frame p).
Proof.
  intros Hp. destruct p; simpl in Hp; (eexists; split; [reflexivity|]); [|done|done|..];
    (split; [refine (decoded_encode _ _ _ _ Hp)|refine (ws_decoded_encode _ _ _ Hp)]).
Qed.

(** C31: the WebSocket envelope. Every server frame the gateway encodes decodes, in the
    gateway's decoder and in the client crate's own, to exactly the payload it carried; every
    frame the client crate builds decodes in the gateway to what it stands for; the gateway
    can be handed a half-close of stdin but never a full close; and no frame of one direction
    is readable as one of the other, whatever its payload. *)
Theorem websocket_frames_roundtrip :
  (∀ id p, payload_ok utf8 p →
     ∃ b, encode_server {| isf_stream_id := id; isf_payload := Some p |} = Ok b ∧
       decode_server b = Ok p ∧ ws_decode_server b = Ok (server_frame p)) ∧
  (∀ sandbox command cwd env,
     let start := {| is_sandbox_id := sandbox; is_params := Some (PExec {| ex_command := command;
                       ex_cwd := default "" cwd; ex_env := env |}) |} in
     start_ok utf8 start → decode_client (ws_start sandbox command cwd env) = Ok (CStart start)) ∧
  (∀ b, decode_client (ws_stdin b) = Ok (CStdin b)) ∧
  (∀ n, in_u32 n → decode_client (ws_signal n) = Ok (CSignal n)) ∧
  decode_client ws_close_stdin = Ok (CClose true) ∧
  (∀ b eof, decode_client b = Ok (CClose eof) → eof = true) ∧
  (∀ b p q, decode_client b = Ok p → decode_server b ≠ Ok q).
Proof.
  split; [exact encode_server_roundtrip|]. split.
  { intros sandbox command cwd env start Hs. refine (decoded_encode _ _ _ _ Hs). }
  split; [done|]. split.
  { intros n Hn. refine (decoded_encode signal_ok _ {| sg_signum := n |} _ Hn). }
  split; [done|]. split; [exact half_close_only|exact kinds_disjoint].
Qed.
End envelope_theorems.

(** ** Authentication *)

Lemma bearer_matches_spec hs key :
  bearer_matches hs key = true ↔ header_get "authorization" hs = Some (Some ("Bearer " +:+ key)).
Proof.
  unfold bearer_matches, bearer. destruct (header_get "authorization" hs) as [[v|]|]; [|done..].
  change (match strip_prefix "Bearer " v with
          | Some tok => constant_time_eq (string_bytes tok) (string_bytes key) | None => false end =
          true ↔ Some (Some v) = Some (Some ("Bearer " +:+ key))).
  destruct (strip_prefix "Bearer " v) as [t|] eqn:E.
  - apply strip_prefix_Some in E as ->. rewrite constant_time_eq_spec. split.
    + by intros ->%string_bytes_inj.
    + intros [= Ht]. apply (string_app_inv_l "") in Ht as ->. done.
  - split; [done|]. intros [= ->]. by rewrite strip_prefix_app in E.
Qed.

Lemma substring_all s : substring 0 (String.length s) s = s.
Proof. induction s as [|a s IH]; simpl; congruence. Qed.

Lemma substring_app_l p t : substring 0 (String.length p) (p +:+ t) = p.
Proof.
  induction p as [|a p IH]; [by destruct t|]. rewrite string_app_cons. simpl. by rewrite IH.
Qed.

Lemma substring_app_r p t n : substring (String.length p) n (p +:+ t) = substring 0 n t.
Proof. induction p as [|a p IH]; [done|]. rewrite string_app_cons. simpl. by rewrite IH. Qed.

Lemma substring_prefix n s : n ≤ String.length s →
  ∃ t, s = substring 0 n s +:+ t ∧ String.length (substring 0 n s) = n.
Proof.
  revert s. induction n as [|n IH]; intros s Hn; [exists s; by destruct s|].
  destruct s as [|a s]; simpl in Hn; [lia|]. destruct (IH s) as (t & Ht & Hl); [lia|].
  exists t. simpl. rewrite string_app_cons, Hl. split; [|done]. by rewrite <- Ht.
Qed.

(** The prefix in any case, with something after it. *)
Lemma strip_prefix_ascii_ci_spec s prefix t :
  strip_prefix_ascii_ci s prefix = Some t ↔
  ∃ p, s = p +:+ t ∧ to_ascii_lowercase p = to_ascii_lowercase prefix.
Proof.
  unfold strip_prefix_ascii_ci, eq_ignore_ascii_case. split.
  - case_decide as Hl; [|done]. case_bool_decide as Hp; [|done].
    destruct (substring_prefix _ _ Hl) as (u & Hu & Hlen).
    remember (substring 0 (String.length prefix) s) as q eqn:Eq. clear Eq. subst s.
    intros [= <-]. exists q. split; [|done]. f_equal.
    rewrite <- Hlen, substring_app_r, string_app_length.
    replace (_ + _ - _) with (String.length u) by lia. by rewrite substring_all.
  - intros (p & -> & Hp).
    assert (String.length p = String.length prefix) as Hlen.
    { apply (f_equal String.length) in Hp. unfold to_ascii_lowercase in Hp.
      by rewrite !string_map_length in Hp. }
    rewrite string_app_length, <- Hlen, decide_True by lia.
    rewrite substring_app_l, bool_decide_eq_true_2 by done.
    rewrite substring_app_r. replace (_ + _ - _) with (String.length t) by lia.
    by rewrite substring_all.
Qed.

Section ws_auth_theorem.
Context (b64url : string → string).

Definition is_sentinel (offered : string) : bool :=
  eq_ignore_ascii_case offered WS_AUTH_PROTOCOL_SENTINEL.

Definition is_bearer (key offered : string) : Prop :=
  ∃ p, offered = p +:+ b64url key ∧ to_ascii_lowercase p = WS_AUTH_BEARER_PREFIX.

(** One entry: the sentinel is never a bearer, since they differ in the first letter. *)
Lemma ws_entry_spec key acc offered acc' :
  ws_entry b64url key acc offered = acc' →
  acc'.1 = acc.1 || is_sentinel offered ∧ (acc'.2 = true ↔ acc.2 = true ∨ is_bearer key offered).
Proof.
  unfold ws_entry, is_bearer. fold (is_sentinel offered). destruct acc as [sn bk]; cbn.
  destruct (is_sentinel offered) eqn:Es.
  - intros <-. cbn. split; [by rewrite orb_true_r|]. split; [by left|]. intros [|(p & -> & Hp)]; [done|].
    apply bool_decide_eq_true in Es. destruct p as [|a p]; [done|].
    change (String (ascii_lower a) (to_ascii_lowercase (p +:+ b64url key)) =
      String "o" "pen-sandbox.v1") in Es.
    change (String (ascii_lower a) (to_ascii_lowercase p) = String "b" "earer.") in Hp.
    congruence.
  - rewrite orb_false_r. intros <-.
    assert ((∃ p, offered = p +:+ b64url key ∧ to_ascii_lowercase p = WS_AUTH_BEARER_PREFIX) ↔
      strip_prefix_ascii_ci offered WS_AUTH_BEARER_PREFIX = Some (b64url key)) as ->
      by by rewrite strip_prefix_ascii_ci_spec.
    destruct (strip_prefix_ascii_ci _ _) as [t|]; [|cbn; naive_solver].
    destruct (constant_time_eq _ _) eqn:Ec; cbn.
    + apply constant_time_eq_spec, string_bytes_inj in Ec as ->. naive_solver.
    + split; [done|]. split; [by left|]. intros [|[= ->]]; [done|].
      by rewrite (proj2 (constant_time_eq_spec _ _)) in Ec.
Qed.

Lemma ws_entries_spec key l acc :
  (foldl (ws_entry b64url key) acc l).1 = acc.1 || existsb is_sentinel l ∧
  ((foldl (ws_entry b64url key) acc l).2 = true ↔ acc.2 = true ∨ Exists (is_bearer key) l).
Proof.
  revert acc. induction l as [|o l IH]; intros acc; cbn.
  - rewrite orb_false_r, Exists_nil. naive_solver.
  - destruct (ws_entry_spec key acc o _ eq_refl) as [H1 H2].
    destruct (IH (ws_entry b64url key acc o)) as [I1 I2].
    rewrite I1, I2, H1, H2, orb_assoc, Exists_cons. split; [done|]. tauto.
Qed.

(** Authentication at the gateway. A REST request is admitted exactly when its first
    Authorization header is the word Bearer, a space and the API key. A WebSocket upgrade is
    admitted exactly in that case or when one of the first sixteen offered subprotocols is
    "bearer." (in any case) followed by the key in base64url; the only subprotocol ever echoed
    is the sentinel, and only to a client that offered it and authenticated by subprotocol, so
    the key is never sent back. *)
Theorem gateway_auth_exact hs key :
  let header_ok := header_get "authorization" hs = Some (Some ("Bearer " +:+ key)) in
  let protocol_ok := Exists (is_bearer key) (offered_protocols hs) in
  (check_rest_auth hs key = true ↔ header_ok) ∧
  (is_Some (check_ws_auth b64url hs key) ↔ header_ok ∨ protocol_ok) ∧
  (∀ p, check_ws_auth b64url hs key = Some (Some p) ↔
     p = WS_AUTH_PROTOCOL_SENTINEL ∧ ¬ header_ok ∧ protocol_ok ∧
     existsb is_sentinel (offered_protocols hs) = true) ∧
  length (offered_protocols hs) ≤ 16.
Proof.
  intros header_ok protocol_ok. unfold check_rest_auth, check_ws_auth.
  pose proof (bearer_matches_spec hs key) as Hb. fold header_ok in Hb.
  destruct (ws_entries_spec key (offered_protocols hs) (false, false)) as [H1 H2].
  fold protocol_ok in H2. cbn in H1, H2.
  split; [done|]. split; [|split].
  - destruct (bearer_matches hs key); [naive_solver|].
    destruct (foldl _ _ _) as [sn bk]; cbn in *. destruct bk; naive_solver.
  - intros p. destruct (bearer_matches hs key); [naive_solver|].
    destruct (foldl _ _ _) as [sn bk]; cbn in *. rewrite <- H1.
    destruct bk, sn; naive_solver.
  - unfold offered_protocols. rewrite length_take. unfold WS_AUTH_MAX_OFFERED_PROTOCOLS. lia.
Qed.
End ws_auth_theorem.

(** ** Paths *)

Lemma string_forallb_spec (P : ascii → bool) s :
  string_forallb P s = true ↔ ∀ l a r, s = l +:+ String a r → P a = true.
Proof.
  induction s as [|b s IH]; cbn.
  - split; [|done]. intros _ [|] ? ?; done.
  - rewrite andb_true_iff, IH. split.
    + intros [Hb Hs] [|x l] a r; [by intros [= -> ->]|]. rewrite string_app_cons.
      intros [= -> E]. by eapply Hs.
    + intros H. split; [by apply (H "" b s)|]. intros l a r ->. by apply (H (String b l) a r).
Qed.

(** Sandbox paths. The gateway accepts a path exactly when every byte is printable or a
    tab and none of its segments is ".."; an accepted path, resolved from any directory, never
    leaves that directory; and a path that is refused only for its segments does name "..". *)
Theorem sandbox_paths_do_not_climb path :
  (validate_sandbox_path path = Ok () ↔
     (∀ l a r, path = l +:+ String a r → 0x20 ≤ kind_of a ∨ kind_of a = 9)%Z ∧
     ".." ∉ str_split "/" path) ∧
  (validate_sandbox_path path = Ok () → ∀ dir, dir `prefix_of` walk dir path) ∧
  (∀ e, validate_sandbox_path path = Err e →
     e = "path must not contain '..' segments" → ∃ w ws, str_split "/" path = w :: ws ∧
       (w = ".." ∨ ".." ∈ ws) ∧ path = w +:+ foldr (λ x acc, String "/" (x +:+ acc)) "" ws).
Proof.
  assert (validate_sandbox_path path = Ok () ↔
     (∀ l a r, path = l +:+ String a r → 0x20 ≤ kind_of a ∨ kind_of a = 9)%Z ∧
     ".." ∉ str_split "/" path) as Hok.
  { unfold validate_sandbox_path.
    destruct (string_forallb _ path) eqn:E0; cbn [negb]; rewrite ?string_forallb_spec in E0.
    - destruct (string_forallb (λ a, negb (bool_decide (kind_of a < 0x20 ∧ kind_of a ≠ 9)%Z)) path)
        eqn:E1; cbn [negb].
      + rewrite string_forallb_spec in E1.
        case_bool_decide as E2; [naive_solver|]. split; [|done]. intros _. split; [|done].
        intros l a r Hp. specialize (E1 l a r Hp). apply negb_true_iff, bool_decide_eq_false in E1.
        lia.
      + split; [done|]. intros [Hc _]. apply not_true_iff_false in E1. destruct E1.
        apply string_forallb_spec. intros l a r Hp. apply negb_true_iff, bool_decide_eq_false.
        specialize (Hc l a r Hp). lia.
    - split; [done|]. intros [Hc _]. apply not_true_iff_false in E0. destruct E0.
      apply string_forallb_spec. intros l a r Hp. apply negb_true_iff, bool_decide_eq_false.
      specialize (Hc l a r Hp). lia. }
  split; [done|]. split; [intros [_ H]%Hok dir; by apply walk_below|].
  intros e He ->. destruct (str_split_cons "/" path) as (w & ws & E). exists w, ws.
  split; [done|]. pose proof (str_split_join "/" path) as Hj. rewrite E in Hj. split; [|done].
  unfold validate_sandbox_path in He. repeat case_match; try done.
  match goal with H : bool_decide _ = true |- _ => apply bool_decide_eq_true in H end.
  rewrite E in *. set_solver.
Qed.

(** A codec for every countable type: the bits of its code. *)
Module ApiExamples.
Fixpoint bits (p : positive) : string :=
  match p with
  | xH => ""
  | xO p => String "0" (bits p)
  | xI p => String "1" (bits p)
  end.
Fixpoint unbits (s : string) : positive :=
  match s with
  | EmptyString => xH
  | String a s => if decide (a = "0"%char) then xO (unbits s) else xI (unbits s)
  end.
Lemma unbits_bits p : unbits (bits p) = p.
Proof. induction p as [p IH|p IH|]; [exact (f_equal xI IH)|exact (f_equal xO IH)|done]. Qed.

#[local] Instance bits_codec {A} `{Countable A} : Codec A := {
  encode_msg a := bits (encode a);
  decode_msg b := match decode (unbits b) with Some a => Ok a | None => Err "malformed" end;
}.
Lemma bits_codec_law {A} `{Countable A} (ok : A → Prop) : CodecLaw A ok.
Proof. intros a _. cbn. by rewrite unbits_bits, countable.decode_encode. Qed.

#[local] Instance ExecParams_eq_dec : EqDecision ExecParams.
Proof. solve_decision. Defined.
#[local] Instance ExecParams_countable : Countable ExecParams.
Proof.
  refine (inj_countable' (λ p, (ex_command p, ex_cwd p, ex_env p))
    (λ '(a, b, c), {| ex_command := a; ex_cwd := b; ex_env := c |}) _). by intros [].
Defined.
#[local] Instance IoParams_eq_dec : EqDecision IoParams.
Proof. solve_decision. Defined.
#[local] Instance IoParams_countable : Countable IoParams.
Proof.
  refine (inj_countable' (λ p, match p with
    | PExec e => inl e
    | PReadFile a b => inr (inl (a, b))
    | PWriteFile a b c d => inr (inr (inl (a, b, c, d)))
    | PWriteFilesTargz a => inr (inr (inr (inl a)))
    | PListDir a b => inr (inr (inr (inr (inl (a, b)))))
    | PWaitPortListening a b => inr (inr (inr (inr (inr (inl (a, b))))))
    | PDeleteFile a b c => inr (inr (inr (inr (inr (inr (a, b, c))))))
    end) (λ x, match x with
    | inl e => PExec e
    | inr (inl (a, b)) => PReadFile a b
    | inr (inr (inl (a, b, c, d))) => PWriteFile a b c d
    | inr (inr (inr (inl a))) => PWriteFilesTargz a
    | inr (inr (inr (inr (inl (a, b))))) => PListDir a b
    | inr (inr (inr (inr (inr (inl (a, b)))))) => PWaitPortListening a b
    | inr (inr (inr (inr (inr (inr (a, b, c)))))) => PDeleteFile a b c
    end) _). by intros [].
Defined.
#[local] Instance IoStart_eq_dec : EqDecision IoStart.
Proof. solve_decision. Defined.
#[local] Instance IoStart_countable : Countable IoStart.
Proof.
  refine (inj_countable' (λ s, (is_sandbox_id s, is_params s))
    (λ '(a, b), {| is_sandbox_id := a; is_params := b |}) _). by intros [].
Defined.
#[local] Instance IoSignal_eq_dec : EqDecision IoSignal.
Proof. solve_decision. Defined.
#[local] Instance IoSignal_countable : Countable IoSignal.
Proof. refine (inj_countable' sg_signum Build_IoSignal _). by intros []. Defined.
#[local] Instance IoExited_eq_dec : EqDecision IoExited.
Proof. solve_decision. Defined.
#[local] Instance IoExited_countable : Countable IoExited.
Proof.
  refine (inj_countable' (λ e, (xd_exit_code e, xd_command_not_found e))
    (λ '(a, b), Build_IoExited a b) _). by intros [].
Defined.
#[local] Instance IoErrorMsg_eq_dec : EqDecision IoErrorMsg.
Proof. solve_decision. Defined.
#[local] Instance IoErrorMsg_countable : Countable IoErrorMsg.
Proof.
  refine (inj_countable' (λ e, (ie_code e, ie_detail e)) (λ '(a, b), Build_IoErrorMsg a b) _).
  by intros [].
Defined.
#[local] Instance IoStarted_eq_dec : EqDecision IoStarted.
Proof. solve_decision. Defined.
#[local] Instance IoStarted_countable : Countable IoStarted.
Proof.
  refine (inj_countable' (λ s, (sd_exec_id s, sd_in_container_pid s))
    (λ '(a, b), Build_IoStarted a b) _). by intros [].
Defined.
#[local] Instance ListDirEntryType_eq_dec : EqDecision ListDirEntryType.
Proof. solve_decision. Defined.
#[local] Instance ListDirEntryType_countable : Countable ListDirEntryType.
Proof.
  refine (inj_countable (λ t, match t with
    | TyUnspecified => 0 | TyFile => 1 | TyDir => 2 | TySymlink => 3 | TyOther => 4 end)
    (λ n, [TyUnspecified; TyFile; TyDir; TySymlink; TyOther] !! n) _). by intros [].
Defined.
#[local] Instance ListDirEntry_eq_dec : EqDecision ListDirEntry.
Proof. solve_decision. Defined.
#[local] Instance ListDirEntry_countable : Countable ListDirEntry.
Proof.
  refine (inj_countable' (λ e, (lde_name e, lde_type e, lde_size e, lde_revision e, lde_mode e,
    lde_target e)) (λ '(a, b, c, d, e, f), Build_ListDirEntry a b c d e f) _). by intros [].
Defined.
#[local] Instance ListDirResult_eq_dec : EqDecision ListDirResult.
Proof. solve_decision. Defined.
#[local] Instance ListDirResult_countable : Countable ListDirResult.
Proof.
  refine (inj_countable' (λ r, (lr_path r, lr_entries r, lr_truncated r, lr_total_entries r))
    (λ '(a, b, c, d), Build_ListDirResult a b c d) _). by intros [].
Defined.
#[local] Instance WaitPortListeningResult_eq_dec : EqDecision WaitPortListeningResult.
Proof. solve_decision. Defined.
#[local] Instance WaitPortListeningResult_countable : Countable WaitPortListeningResult.
Proof.
  refine (inj_countable' (λ r, (wr_ready r, wr_elapsed_ms r))
    (λ '(a, b), Build_WaitPortListeningResult a b) _). by intros [].
Defined.
#[local] Instance FileMeta_eq_dec : EqDecision FileMeta.
Proof. solve_decision. Defined.
#[local] Instance FileMeta_countable : Countable FileMeta.
Proof.
  refine (inj_countable' (λ m, (fm_revision m, fm_size m)) (λ '(a, b), Build_FileMeta a b) _).
  by intros [].
Defined.

Definition bits_prost : Prost := {|
  prost_start := bits_codec; prost_signal := bits_codec; prost_exited := bits_codec;
  prost_error := bits_codec; prost_started := bits_codec; prost_list_dir := bits_codec;
  prost_wait_port := bits_codec; prost_file_meta := bits_codec |}.

Lemma bits_laws : ProstLaws bits_prost (λ _, True).
Proof. split; apply bits_codec_law. Qed.

Lemma websocket_frames_roundtrip_witness :
  (∃ b, @encode_server bits_prost
          {| isf_stream_id := "io-0"; isf_payload := Some (SExited (-1) false) |} = Ok b ∧
     @decode_server bits_prost b = Ok (SExited (-1) false)) ∧
  @decode_client bits_prost (@ws_signal bits_prost 15) = Ok (CSignal 15).
Proof.
  destruct (@websocket_frames_roundtrip bits_prost (λ _, True) bits_laws)
    as (H1 & _ & _ & H2 & _).
  split; [|by apply H2].
  destruct (H1 "io-0" (SExited (-1) false)) as (b & Hb & Hd & _); [done|]. by exists b.
Defined.
End ApiExamples.
