(* ===== verification/GatewayLifecycle.v ===== *)
(** * The gateway's lifecycle endpoints (crates/api/src/{handlers,grpc_service}.rs)

    Each REST handler checks the key, calls the controller's management service with the
    admin token, and turns the answer or the gRPC status into a response. A call reaches the
    controller: its interceptor, then the RPC of Management.v on the controller's state; a
    connection that breaks is not modelled. *)

From S2P Require Import Prelude RustText Contracts UuidRef Store MemStore ControllerCore Capacity ControllerGrpc Management IoFrames Routing Tunnels ProxyGrpc HttpServer Api.

(** ** service.rs *)

Record SandboxInfo `{UuidLib} := {
  si_sandbox_id : SandboxId;
  si_subdomain : string;
  si_agent_id : string;
  si_status : string;
  si_error : option string;
}.

Record CreateRequest := {
  crq_image : string;
  crq_cpu_millicores : Z;
  crq_memory_bytes : Z;
  crq_env_vars : gmap string string;
  crq_exposed_port : Z;
  crq_pull_policy : PullPolicy;
}.

(** A request as its JSON has it: fields that are missing get their defaults. *)
Record CreateJson := {
  cj_image : string;
  cj_cpu_millicores : option Z;
  cj_memory_bytes : option Z;
  cj_env_vars : option (gmap string string);
  cj_exposed_port : option Z;
  cj_pull_policy : option PullPolicy;
}.
Definition create_request (j : CreateJson) : CreateRequest :=
  {| crq_image := cj_image j;
     crq_cpu_millicores := default DEFAULT_SANDBOX_CPU_MILLICORES (cj_cpu_millicores j);
     crq_memory_bytes := default DEFAULT_SANDBOX_MEMORY_BYTES (cj_memory_bytes j);
     crq_env_vars := default ∅ (cj_env_vars j);
     crq_exposed_port := default 0%Z (cj_exposed_port j);
     crq_pull_policy := default IfNotPresent (cj_pull_policy j) |}.

Inductive LifecycleBody `{UuidLib} :=
| LEmpty
| LInfo (info : SandboxInfo)
| LSandboxes (items : list SandboxInfo)
| LTransition (status : string)
| LError (e : ApiError)
| LRefused (error error_code : string).
Definition LifecycleResponse `{UuidLib} : Type := Z * LifecycleBody.

Section lifecycle.
Context `{UuidLib} {W : Type} `{!ControllerStore W}.
(** The gateway's key, its admin token and tonic's parse of a metadata value; the token the
    controller expects. *)
Context (api_key : string) (admin_token : option string).
Context (metadata_value : string → result string string) (expected_token : string).

(** ** grpc_service.rs *)

(** [authed]: a token that is no metadata value is left out. *)
Definition authed_metadata : option string :=
  match admin_token with
  | Some token => result_ok (metadata_value ("Bearer " +:+ token))
  | None => None
  end.

Definition call {A} (rpc : ST (Ctl W) (result A Status)) : ST (Ctl W) (result A ApiError) :=
  match admin_auth_call expected_token (Some <$> authed_metadata) with
  | Err st => st_ret (Err (grpc_to_api st))
  | Ok _ => let! r := rpc in st_ret (map_err grpc_to_api r)
  end.

Definition empty_to_none (s : string) : option string := if decide (s = "") then None else Some s.

Definition controller_sandbox_id (id : string) : result SandboxId ApiError :=
  ok_or (parse_str id) (ApiInternal ("controller returned invalid sandbox_id: " +:+ id)).

Definition info_of (r : GetSandboxResponse) : result SandboxInfo ApiError :=
  let? sandbox_id := controller_sandbox_id (gsr_sandbox_id r) in
  Ok {| si_sandbox_id := sandbox_id; si_subdomain := gsr_subdomain r; si_agent_id := gsr_agent_id r;
        si_status := gsr_status r; si_error := empty_to_none (gsr_error r) |}.

(** [fresh] is the id the controller draws. *)
Definition svc_create (fresh : SandboxId) (request : CreateRequest)
    : ST (Ctl W) (result SandboxInfo ApiError) :=
  let!? resp := call (mgmt_create_sandbox fresh
    {| acr_image := crq_image request; acr_cpu_millicores := crq_cpu_millicores request;
       acr_memory_bytes := crq_memory_bytes request; acr_env_vars := crq_env_vars request;
       acr_exposed_port := crq_exposed_port request;
       acr_pull_policy := wire_pull_policy_as_i32 (to_wire (crq_pull_policy request)) |}) in
  st_ret (
    let? sandbox_id := controller_sandbox_id (csr_sandbox_id resp) in
    Ok {| si_sandbox_id := sandbox_id; si_subdomain := csr_subdomain resp;
          si_agent_id := csr_agent_id resp; si_status := csr_status resp; si_error := None |}).

Definition svc_get (sandbox_id : SandboxId) : ST (Ctl W) (result SandboxInfo ApiError) :=
  let!? resp := call (mgmt_get_sandbox (hyphenated sandbox_id)) in st_ret (info_of resp).

(** The first entry with a bad id fails the listing. *)
Fixpoint infos_of (items : list GetSandboxResponse) : result (list SandboxInfo) ApiError :=
  match items with
  | [] => Ok []
  | item :: items =>
      let? info := info_of item in
      let? rest := infos_of items in
      Ok (info :: rest)
  end.
Definition svc_list : ST (Ctl W) (result (list SandboxInfo) ApiError) :=
  let!? resp := call mgmt_list_sandboxes in st_ret (infos_of resp).

Definition svc_delete (sandbox_id : SandboxId) : ST (Ctl W) (result () ApiError) :=
  let!? _ := call (mgmt_delete_sandbox (hyphenated sandbox_id)) in st_ret (Ok ()).
Definition svc_pause (sandbox_id : SandboxId) : ST (Ctl W) (result string ApiError) :=
  call (mgmt_pause_sandbox (hyphenated sandbox_id)).
Definition svc_unpause (sandbox_id : SandboxId) : ST (Ctl W) (result string ApiError) :=
  call (mgmt_unpause_sandbox (hyphenated sandbox_id)).

(** ** handlers.rs *)

Definition refused_key : LifecycleResponse := (401%Z, LRefused "missing or invalid API key" "UNAUTHORIZED").
Definition refused_request (msg : string) : LifecycleResponse := (400%Z, LRefused msg "INVALID_REQUEST").

(** The service's answer as a response. *)
Definition respond {A} (ok : A → LifecycleResponse) (m : ST (Ctl W) (result A ApiError))
    : ST (Ctl W) LifecycleResponse :=
  let! r := m in
  st_ret (match r with Ok a => ok a | Err e => (api_error_status e, LError e) end).

Definition with_key (hs : HeaderMap) (k : ST (Ctl W) LifecycleResponse) : ST (Ctl W) LifecycleResponse :=
  if negb (check_rest_auth hs api_key) then st_ret refused_key else k.
Definition with_id (hs : HeaderMap) (id : string) (k : SandboxId → ST (Ctl W) LifecycleResponse)
    : ST (Ctl W) LifecycleResponse :=
  with_key hs match parse_str id with
              | None => st_ret (refused_request "invalid sandbox_id")
              | Some sandbox_id => k sandbox_id
              end.

(** A body that does not parse is refused before the key is looked at. *)
Definition rest_create_sandbox (fresh : SandboxId) (hs : HeaderMap) (body : result CreateJson string)
    : ST (Ctl W) LifecycleResponse :=
  match body with
  | Err text => st_ret (refused_request text)
  | Ok body => with_key hs (respond (λ info, (201%Z, LInfo info)) (svc_create fresh (create_request body)))
  end.
Definition rest_list_sandboxes (hs : HeaderMap) : ST (Ctl W) LifecycleResponse :=
  with_key hs (respond (λ items, (200%Z, LSandboxes items)) svc_list).
Definition rest_get_sandbox (hs : HeaderMap) (id : string) : ST (Ctl W) LifecycleResponse :=
  with_id hs id (λ s, respond (λ info, (200%Z, LInfo info)) (svc_get s)).
Definition rest_delete_sandbox (hs : HeaderMap) (id : string) : ST (Ctl W) LifecycleResponse :=
  with_id hs id (λ s, respond (λ _, (204%Z, LEmpty)) (svc_delete s)).
Definition rest_pause_sandbox (hs : HeaderMap) (id : string) : ST (Ctl W) LifecycleResponse :=
  with_id hs id (λ s, respond (λ st, (202%Z, LTransition st)) (svc_pause s)).
Definition rest_unpause_sandbox (hs : HeaderMap) (id : string) : ST (Ctl W) LifecycleResponse :=
  with_id hs id (λ s, respond (λ st, (202%Z, LTransition st)) (svc_unpause s)).
End lifecycle.

(** ** From a REST request to the agent's channel *)

(** The three requests that make the controller send a command. *)
Inductive LifecycleOp := ODelete | OPause | OUnpause.

Definition op_command (op : LifecycleOp) (id : string) : ControllerCommand :=
  match op with
  | ODelete => StopSandbox id 10
  | OPause => PauseSandbox id
  | OUnpause => UnpauseSandbox id
  end.
Definition op_allowed (op : LifecycleOp) : list string :=
  match op with
  | ODelete => []
  | OPause => ["running"; "pausing"; "paused"]
  | OUnpause => ["paused"; "unpausing"; "running"]
  end.
Definition op_success `{UuidLib} (op : LifecycleOp) : LifecycleResponse :=
  match op with
  | ODelete => (204%Z, LEmpty)
  | OPause => (202%Z, LTransition "pausing")
  | OUnpause => (202%Z, LTransition "unpausing")
  end.

Section end_to_end.
Context `{UuidLib} {LU : UuidLaws _} {W : Type} `{!ControllerStore W} `{!StoreSpec W} `{!StoreReliable W}.
Context (api_key : string) (token : string) (metadata_value : string → result string string).
Implicit Types (c : Ctl W) (op : LifecycleOp).

(** The gateway and the controller share the admin token. *)
Hypothesis Htoken : metadata_value ("Bearer " +:+ token) = Ok ("Bearer " +:+ token).

Definition rest_op op hs id : ST (Ctl W) LifecycleResponse :=
  match op with
  | ODelete => rest_delete_sandbox api_key (Some token) metadata_value token hs id
  | OPause => rest_pause_sandbox api_key (Some token) metadata_value token hs id
  | OUnpause => rest_unpause_sandbox api_key (Some token) metadata_value token hs id
  end.

Definition op_permitted op (row : option SandboxStateRow) : bool :=
  match op, row with
  | ODelete, _ | _, None => true
  | _, Some row => bool_decide (row_state row ∈ op_allowed op)
  end.

(** Whether a command can be handed to the agent: it has no stream, its stream has ended, or
    it listens. *)
Inductive Reach := NoStream | StreamEnded | Listening.
Definition reach (a : AgentId) c : Reach :=
  match c_conns c !! a with
  | None => NoStream
  | Some cid => match c_chans c !! cid with
                | Some {| ch_open := true |} => Listening
                | _ => StreamEnded
                end
  end.

Lemma call_admitted {A} (rpc : ST (Ctl W) (result A Status)) c :
  call (Some token) metadata_value token rpc c = let '(r, c') := rpc c in (map_err grpc_to_api r, c').
Proof.
  unfold call, authed_metadata. rewrite Htoken. cbn [result_ok fmap option_fmap option_map].
  assert (admin_auth_call token (Some (Some ("Bearer " +:+ token))) = Ok ()) as ->; [|done].
  unfold admin_auth_call. rewrite strip_prefix_app. by rewrite (proj2 (constant_time_eq_spec _ _)).
Qed.

(** The answer to a command that was or was not queued. *)
Definition sent_outcome op i a c (r : result () ControllerError) c' : Prop :=
  match reach a c with
  | Listening => r = Ok () ∧ delivered a (op_command op (hyphenated i)) c c' ∧
      c_store c' = c_store c
  | NoStream => r = Err (AgentNotFound (hyphenated a)) ∧ c' = c
  | StreamEnded => (∃ d, r = Err (Internal d)) ∧ c' = c
  end.

Lemma send_outcome op i a c r c' :
  send_command a (op_command op (hyphenated i)) c = (r, c') → sent_outcome op i a c r c'.
Proof.
  intros E. unfold sent_outcome, reach.
  apply send_command_inv in E as [(cid & l & Hc & Hl & -> & ->)|[-> [[-> Hc]|(d & -> & cid & Hc & Hl)]]];
    rewrite Hc.
  - rewrite Hl. split; [done|]. split; [by exists cid, l|done].
  - done.
  - assert (match c_chans c !! cid with Some {| ch_open := true |} => Listening | _ => StreamEnded end
      = StreamEnded) as ->.
    { destruct (c_chans c !! cid) as [[l []]|] eqn:E; try done. by destruct (Hl l). }
    split; [by exists d|done].
Qed.

Definition untouched c c' : Prop := c_chans c' = c_chans c ∧ view (c_store c') = view (c_store c).

(** What a command that was queued does to the records: a delete gives back what the sandbox
    had reserved and removes its route, the others record the state the sandbox goes to. *)
Definition recorded op i (v v' : AbsStore) : Prop :=
  match op with
  | ODelete => match as_resv v !! i with Some rs => eff_release i rs v v' | None => v' = v end
  | OPause => eff_sandbox_state i "pausing" None v v'
  | OUnpause => eff_sandbox_state i "unpausing" None v v'
  end.

(** What the controller answers a command request with when its database is up. *)
Definition command_outcome op i a c (r : result () Status) c' : Prop :=
  let v := view (c_store c) in let v' := view (c_store c') in
  match reach a c with
  | Listening => delivered a (op_command op (hyphenated i)) c c' ∧
      (r = Ok () ∧ recorded op i v v' ∨
       op = ODelete ∧ (∃ d, r = Err (controller_error_to_status (Database d))) ∧ (v' = v ∨ recorded op i v v'))
  | NoStream => r = Err (controller_error_to_status (AgentNotFound (hyphenated a))) ∧ untouched c c'
  | StreamEnded => (∃ d, r = Err (controller_error_to_status (Internal d))) ∧ untouched c c'
  end.
Definition mgmt_outcome op i c (r : result () Status) c' : Prop :=
  match as_routes (view (c_store c)) !! i with
  | None => r = Err (status NotFound (hyphenated i)) ∧ untouched c c'
  | Some a =>
      if op_permitted op (as_states (view (c_store c)) !! i)
      then command_outcome op i a c r c'
      else (∃ m, r = Err (status_with_invalid_state m)) ∧ untouched c c'
  end.

Lemma find_entry_reliable i c r c' :
  store_wf (c_store c) → reliable (c_store c) → or_status (lift (find_routing_entry i)) c = (r, c') →
  ∃ w', c' = with_store w' c ∧ store_wf w' ∧ view w' = view (c_store c) ∧ reliable w' ∧
    r = Ok ((λ a, {| re_sandbox_id := i; re_agent_id := a |}) <$> as_routes (view (c_store c)) !! i).
Proof.
  intros Hwf Hrel E. apply find_entry_inv in E as (w' & -> & Hwf' & Hv & Hr & E); [|done].
  exists w'. destruct E as [(d & _ & Hn)| ->]; [done|]. by auto 10.
Qed.

Definition op_state op : string := match op with ODelete => "" | OPause => "pausing" | OUnpause => "unpausing" end.

Lemma transition_mgmt op verb i c r c' :
  op ≠ ODelete → store_wf (c_store c) → reliable (c_store c) → let optimistic := op_state op in
  guarded_transition (hyphenated i) (op_allowed op) verb (op_command op) optimistic c = (r, c') →
  mgmt_outcome op i c (match r with Ok _ => Ok () | Err e => Err e end) c' ∧
  (∀ st, r = Ok st → st = optimistic).
Proof.
  intros Hop Hwf Hrel optimistic. unfold guarded_transition, mgmt_outcome, parse_id. rewrite parse_hyphenated.
  ctl_step r1 c1 E. apply find_entry_reliable in E as (w1 & -> & Hwf1 & Hv1 & Hrel1 & ->); [|done..].
  destruct (as_routes (view (c_store c)) !! i) as [a|]; simpl;
    [|intros [= <- <-]; split; [by split; [|split]|done]].
  ctl_step r2 c2 E. apply get_state_inv in E as (w2 & -> & Hwf2 & Hv2 & Hrel2 & E); [|done].
  simpl in *. rewrite Hv1 in *. destruct E as [(d & _ & Hn)| ->]; [done|].
  set (row := as_states (view (c_store c)) !! i) in *.
  set (permitted := match row with Some _ => _ | None => _ end).
  assert (op_permitted op row = permitted) as -> by by destruct op, row.
  destruct permitted; simpl.
  - ctl_step r3 c3 E. apply or_status_inv in E as (r0 & E & ->).
    apply send_outcome in E. unfold sent_outcome in E. unfold command_outcome.
    change (reach a (with_store w2 (with_store w1 c))) with (reach a c) in E.
    destruct (reach a c).
    + destruct E as [-> ->]. intros [= <- <-]. by split; [split; [|split; [|simpl; rewrite Hv2]]|].
    + destruct E as [[d ->] ->]. intros [= <- <-]. split; [|done].
      split; [by exists d|]. by split; [|simpl; rewrite Hv2].
    + destruct E as (-> & Hd & Hst). cbn [map_err]. ctl_step r4 c4 E. apply lift_inv in E as (w4 & E & ->).
      intros [= <- <-]. split; [split; [exact Hd|left; split; [done|]]|by intros ? [= <-]].
      rewrite Hst in E. cbn in E. pose proof (save_sandbox_state_answers _ _ _ _ _ _ _ (Hrel2 Hrel1) E) as [_ Hdb].
      apply save_sandbox_state_spec in E as [_ [[_ E]|(d & -> & _)]]; [|by destruct (Hdb d)|done].
      rewrite Hv2 in E. by destruct op.
  - intros [= <- <-].
    split; [|done]. split; [by eexists|]. by split; [|simpl; rewrite Hv2].
Qed.

Lemma delete_mgmt i c r c' :
  store_wf (c_store c) → reliable (c_store c) → mgmt_delete_sandbox (hyphenated i) c = (r, c') →
  mgmt_outcome ODelete i c (match r with Ok _ => Ok () | Err e => Err e end) c'.
Proof.
  intros Hwf Hrel. unfold mgmt_delete_sandbox, mgmt_outcome, parse_id. rewrite parse_hyphenated.
  change (as_u32 (SANDBOX_STOP_TIMEOUT / 1000)) with 10%Z.
  ctl_step r1 c1 E. apply find_entry_reliable in E as (w1 & -> & Hwf1 & Hv1 & Hrel1 & ->); [|done..].
  destruct (as_routes (view (c_store c)) !! i) as [a|]; simpl; [|by intros [= <- <-]].
  ctl_step r2 c2 E. apply or_status_inv in E as (r0 & E & ->).
  apply (send_outcome ODelete i) in E. unfold sent_outcome in E. unfold command_outcome.
  change (reach a (with_store w1 c)) with (reach a c) in E. destruct (reach a c).
  - destruct E as [-> ->]. by intros [= <- <-].
  - destruct E as [[d ->] ->]. intros [= <- <-]. split; [by exists d|done].
  - destruct E as (-> & Hd & Hst). cbn [map_err]. ctl_step r3 c3 E. apply or_status_inv in E as (r4 & E & ->).
    apply lift_inv in E as (w3 & E & ->). rewrite Hst in E.
    apply release_spec in E as [_ E]; [|done].
    cbn in E. rewrite Hv1 in E. unfold recorded.
    destruct (as_resv (view (c_store c)) !! i) as [rs|].
    + destruct E as [[-> E]|(d & -> & E)]; intros [= <- <-]; (split; [exact Hd|]); [by left|right].
      split; [done|]. split; [by exists d|done].
    + destruct E as [[->|[d ->]] E]; intros [= <- <-]; (split; [exact Hd|]); [by left|right].
      split; [done|]. split; [by exists d|by left].
Qed.

(** A request that is let through is answered by what the controller makes of it. *)
Lemma rest_op_admitted op hs id i c resp c' :
  store_wf (c_store c) → reliable (c_store c) → check_rest_auth hs api_key = true →
  parse_str id = Some i → rest_op op hs id c = (resp, c') → ∃ r, mgmt_outcome op i c r c' ∧
    resp = match r with
           | Ok _ => op_success op
           | Err e => (api_error_status (grpc_to_api e), LError (grpc_to_api e))
           end.
Proof.
  intros Hwf Hrel Ha Hi. unfold rest_op.
  destruct op; unfold rest_delete_sandbox, rest_pause_sandbox, rest_unpause_sandbox, with_id, with_key;
    rewrite Ha, Hi; cbn [negb]; unfold respond, svc_delete, svc_pause, svc_unpause, st_bind_ok, st_bind, st_ret;
    rewrite call_admitted.
  - destruct (mgmt_delete_sandbox (hyphenated i) c) as [r c1] eqn:E. apply delete_mgmt in E; [|done..].
    destruct r; intros [= <- <-]; (eexists; split; [exact E|done]).
  - destruct (mgmt_pause_sandbox (hyphenated i) c) as [r c1] eqn:E.
    apply (transition_mgmt OPause) in E as [E Hs]; [|done..].
    destruct r; intros [= <- <-]; (eexists; split; [exact E|]); [|done]. by rewrite (Hs _ eq_refl).
  - destruct (mgmt_unpause_sandbox (hyphenated i) c) as [r c1] eqn:E.
    apply (transition_mgmt OUnpause) in E as [E Hs]; [|done..].
    destruct r; intros [= <- <-]; (eexists; split; [exact E|]); [|done]. by rewrite (Hs _ eq_refl).
Qed.

(** One that is not does not reach it. *)
Lemma with_key_refused hs k c resp c' :
  check_rest_auth hs api_key = false → with_key (W := W) api_key hs k c = (resp, c') →
  resp.1 = 401%Z ∧ c' = c.
Proof. intros Ha. unfold with_key. rewrite Ha. by intros [= <- <-]. Qed.
Lemma with_id_refused hs id k c resp c' :
  check_rest_auth hs api_key = true → parse_str id = None →
  with_id (W := W) api_key hs id k c = (resp, c') → resp.1 = 400%Z ∧ c' = c.
Proof. intros Ha Hp. unfold with_id, with_key. rewrite Ha, Hp. by intros [= <- <-]. Qed.

(** C25: A REST request to delete, pause or unpause a sandbox, with the right key, an id that
    parses and the controller's database up, is answered by what the controller's state says:
    404 for a sandbox without a route, 409 in a state that does not permit it, 503 when the
    owner has no stream and 500 when its stream has ended, all with no command queued and the
    records untouched; otherwise exactly one command is queued on the owner's channel and the
    answer is the success of the operation, with the records changed accordingly: a delete has
    given the reserved amounts back and removed the route and the reservation, a pause or
    unpause has recorded the state the sandbox goes to. Only a delete can still fail then, with
    500 when the database refuses the release. A request
    with a wrong key or an id that does not parse does not reach the controller. *)
Theorem rest_commands_end_to_end op hs id c resp c' :
  store_wf (c_store c) → reliable (c_store c) → rest_op op hs id c = (resp, c') →
  (check_rest_auth hs api_key = false → resp.1 = 401%Z ∧ c' = c) ∧
  (check_rest_auth hs api_key = true → parse_str id = None → resp.1 = 400%Z ∧ c' = c) ∧
  (∀ i, check_rest_auth hs api_key = true → parse_str id = Some i →
     match as_routes (view (c_store c)) !! i with
     | None => resp = (404%Z, LError (ApiSandboxNotFound (hyphenated i))) ∧ untouched c c'
     | Some a =>
         if op_permitted op (as_states (view (c_store c)) !! i) then
           match reach a c with
           | Listening => delivered a (op_command op (hyphenated i)) c c' ∧
               let v := view (c_store c) in let v' := view (c_store c') in
               (resp = op_success op ∧ recorded op i v v' ∨
                op = ODelete ∧ resp.1 = 500%Z ∧ (v' = v ∨ recorded op i v v'))
           | NoStream => resp.1 = 503%Z ∧ untouched c c'
           | StreamEnded => resp.1 = 500%Z ∧ untouched c c'
           end
         else resp.1 = 409%Z ∧ untouched c c'
     end).
Proof.
  intros Hwf Hrel Hrun. split; [|split].
  - intros Ha. destruct op; revert Hrun; apply with_key_refused; exact Ha.
  - intros Ha Hp. destruct op; revert Hrun; apply with_id_refused; assumption.
  - intros i Ha Hp. destruct (rest_op_admitted op hs id i c resp c' Hwf Hrel Ha Hp Hrun) as (r & Hm & ->).
    unfold mgmt_outcome in Hm. destruct (as_routes (view (c_store c)) !! i) as [a|];
      [|destruct Hm as [-> ?]; done].
    destruct (op_permitted op _); [|destruct Hm as [[m ->] ?]; done].
    unfold command_outcome in Hm. destruct (reach a c).
    + destruct Hm as [-> ?]. done.
    + destruct Hm as [[d ->] ?]. done.
    + destruct Hm as [? [[-> ?]|(-> & [d ->] & ?)]]; (split; [done|]); [by left|by right].
Qed.
End end_to_end.

(** ** Creating a sandbox over REST *)

(** Zero and a missing field both mean the default. *)
Definition or_default (d : Z) (v : option Z) : Z := default_if_zero d (default d v).

(** The request the controller schedules. *)
Definition scheduled `{UuidLib} (fresh : SandboxId) (j : CreateJson) : CreateSandboxRequest :=
  {| cr_sandbox_id := fresh;
     cr_image := cj_image j;
     cr_requirements :=
       {| req_cpu_millicores := or_default DEFAULT_SANDBOX_CPU_MILLICORES (cj_cpu_millicores j);
          req_memory_bytes := or_default DEFAULT_SANDBOX_MEMORY_BYTES (cj_memory_bytes j) |};
     cr_env_vars := default ∅ (cj_env_vars j);
     cr_exposed_port := or_default DEFAULT_SANDBOX_EXPOSED_PORT (cj_exposed_port j);
     cr_pull_policy := default IfNotPresent (cj_pull_policy j) |}.

Section create.
Context `{UuidLib} {LU : UuidLaws _} {W : Type} `{!ControllerStore W} `{!StoreSpec W} `{!StoreReliable W}.
Context (api_key : string) (token : string) (metadata_value : string → result string string).
Hypothesis Htoken : metadata_value ("Bearer " +:+ token) = Ok ("Bearer " +:+ token).
Implicit Types (c : Ctl W) (j : CreateJson).

Lemma internal_request_scheduled fresh j :
  let r := create_request j in
  internal_request fresh
    {| acr_image := crq_image r; acr_cpu_millicores := crq_cpu_millicores r;
       acr_memory_bytes := crq_memory_bytes r; acr_env_vars := crq_env_vars r;
       acr_exposed_port := crq_exposed_port r;
       acr_pull_policy := wire_pull_policy_as_i32 (to_wire (crq_pull_policy r)) |}
    (crq_pull_policy r) = scheduled fresh j.
Proof.
  cbn. unfold internal_request, scheduled, create_request, or_default. cbn.
  f_equal. by destruct (cj_exposed_port j).
Qed.

(** C7: A REST create with the right key schedules exactly what the JSON asks for, with the
    defaults for what is missing or zero, and never a pull policy the controller refuses.
    Answered with 201, it carries the new sandbox's id, subdomain and agent, that agent's
    channel has exactly the start command of that request, the sandbox has its route and its
    reservation on that agent, which had room, and its state is recorded unless the database
    failed at that, which the controller ignores. Any other answer is the HTTP form of the
    scheduler's failure, with nothing queued and the store as it was, unless the database
    failed in the creation or its rollback and the reservation stayed. A wrong key changes
    nothing. *)
Theorem rest_create_end_to_end fresh hs j c resp c' :
  create_pre (scheduled fresh j) c → agents_bounded (view (c_store c)) →
  rest_create_sandbox api_key (Some token) metadata_value token fresh hs (Ok j) c = (resp, c') →
  (check_rest_auth hs api_key = false → resp.1 = 401%Z ∧ c' = c) ∧
  (check_rest_auth hs api_key = true →
     (∃ a w, resp = (201%Z, LInfo {| si_sandbox_id := fresh; si_subdomain := subdomain fresh;
                        si_agent_id := hyphenated a; si_status := "creating"; si_error := None |}) ∧
        delivered a (start_command (scheduled fresh j)) c c' ∧
        assigned (scheduled fresh j) a (view (c_store c)) (view w) ∧
        (eff_sandbox_state fresh "creating" None (view w) (view (c_store c')) ∨
         ∃ d, save_sandbox_state fresh a "creating" None w = (Err (Database d), c_store c') ∧
           view (c_store c') = view w)) ∨
     (∃ e, (create_sandbox (scheduled fresh j) c).1 = Err e ∧ c_chans c' = c_chans c ∧
        failed_store (scheduled fresh j) e c c' ∧
        let api := grpc_to_api (controller_error_to_status e) in
        resp = (api_error_status api, LError api) ∧ (resp.1 = 503 ∨ resp.1 = 500 ∨ resp.1 = 404 ∨ resp.1 = 401)%Z)).
Proof.
  intros Hpre Hbound Hrun. unfold rest_create_sandbox, with_key in Hrun. split.
  { intros Ha. rewrite Ha in Hrun. by injection Hrun as <- <-. }
  intros Ha. rewrite Ha in Hrun. cbn [negb] in Hrun. revert Hrun.
  unfold respond, svc_create, st_bind_ok, st_bind, st_ret. rewrite call_admitted by done.
  unfold mgmt_create_sandbox. cbn [acr_pull_policy]. rewrite pull_policy_wire_roundtrip.
  rewrite internal_request_scheduled. set (req := scheduled fresh j) in *.
  unfold st_bind_ok, or_status, st_bind, st_ret.
  destruct (create_sandbox req c) as [r c1] eqn:E. pose proof E as Hc.
  apply create_sandbox_inv in E as (_ & Hwf & Hr); [|done]. destruct r as [asg|e]; cbn [map_err].
  - destruct Hr as (Hid & Hd & Has).
    destruct (lift _ c1) as [r2 c2] eqn:E2. apply lift_inv in E2 as (w2 & E2 & ->).
    cbn. unfold controller_sandbox_id. rewrite parse_hyphenated. cbn. intros [= <- <-]. left.
    exists (sa_agent_id asg), (c_store c1). split; [done|]. split; [exact Hd|]. split; [done|]. pose proof E2 as Hsave.
    apply save_sandbox_state_spec in E2 as [_ Hw]; [|done]. cbn.
    destruct Hw as [[_ ?]|(d & -> & [?|?])]; [by left| |by left]. right. exists d. split; [|done]. exact Hsave.
  - cbn. intros [= <- <-]. right. exists e. split; [done|]. apply create_failed in Hc as [Hch Hf]; [|done..].
    split; [done|]. split; [done|]. split; [done|]. destruct e; cbn; auto.
Qed.
End create.

Module LifecycleExamples.
Definition keyed : HeaderMap := [("authorization", Some "Bearer key")].

(** Agent 2 owns sandbox 77 and listens. *)
Lemma rest_commands_end_to_end_witness :
  let run := rest_op "key" "t" Ok OPause keyed (hyphenated (uid 77)) fleet_ctl in
  run.1 = (202%Z, LTransition "pausing") ∧
  delivered (uid 2) (PauseSandbox (hyphenated (uid 77))) fleet_ctl run.2.
Proof.
  intros run. assert (run.1 = (202%Z, LTransition "pausing")) as E by evaluate. split; [exact E|].
  destruct (rest_commands_end_to_end (StoreSpec0 := InMemoryStoreSpec) (StoreReliable0 := InMemoryStoreReliable) "key" "t" Ok eq_refl OPause keyed (hyphenated (uid 77)) fleet_ctl
    run.1 run.2 busy_fleet_wf I (surjective_pairing run)) as (_ & _ & Hx).
  specialize (Hx (uid 77) ltac:(evaluate) (parse_hyphenated _)).
  assert (as_routes (view (c_store fleet_ctl)) !! uid 77 = Some (uid 2)) as Er by evaluate.
  rewrite Er in Hx.
  assert (op_permitted OPause (as_states (view (c_store fleet_ctl)) !! uid 77) = true) as Ep by evaluate.
  rewrite Ep in Hx. assert (reach (uid 2) fleet_ctl = Listening) as El by evaluate.
  rewrite El in Hx. exact (proj1 Hx).
Defined.

Definition small : CreateJson :=
  {| cj_image := "alpine"; cj_cpu_millicores := Some 200%Z; cj_memory_bytes := Some 200%Z;
     cj_env_vars := None; cj_exposed_port := None; cj_pull_policy := Some Always |}.
Lemma small_pre : create_pre (scheduled (uid 99) small) fleet_ctl.
Proof.
  split; [exact busy_fleet_wf|by vm_compute|by vm_compute|evaluate|evaluate].
Qed.

Lemma rest_create_end_to_end_witness :
  let run := rest_create_sandbox "key" (Some "t") Ok "t" (uid 99) keyed (Ok small) fleet_ctl in
  run.1.1 = 201%Z ∧ ∃ a, delivered a (start_command (scheduled (uid 99) small)) fleet_ctl run.2.
Proof.
  intros run. assert (run.1.1 = 201%Z) as E by evaluate. split; [exact E|].
  destruct (rest_create_end_to_end (StoreSpec0 := InMemoryStoreSpec) "key" "t" Ok eq_refl (uid 99) keyed
    small fleet_ctl run.1 run.2 small_pre ltac:(apply (bool_decide_unpack _); vm_compute; exact I)
    (surjective_pairing run)) as [_ Hx].
  destruct (Hx ltac:(evaluate)) as [(a & v & _ & Hd & _)|(e & _ & _ & _ & _ & Hc)]; [by exists a|].
  exfalso. rewrite E in Hc. lia.
Defined.
End LifecycleExamples.
