(* ===== verification/GatewayFiles.v ===== *)
(** * The gateway's file operations (crates/api/src/{handlers,proxy_client,service}.rs)

    The REST file handlers, the IO session each opens through the proxy, and what becomes of
    the frames that come back. The proxy's [OpenIoStream] RPC is an argument [rpc]; the last
    section composes it from the proxy's relay (IoStream.v) and the agent's session
    (AgentIo.v), for the theorem about the whole path. *)

From S2P Require Import Prelude Contracts UuidRef ControllerCore IoFrames Routing Tunnels ProxyGrpc IoStream Downlink HttpServer AgentSandbox AgentIo Api.

(** ** proxy_client.rs *)

(** What the RPC gives a call with these request frames: refused, or the messages of its
    response stream. The first argument is the authorization metadata. *)
Abbreviation Rpc :=
  (option string → list IoClientFrame → result (list (result IoServerFrame Status)) Status)
  (only parsing).

Definition open_status (st : Status) : ApiError :=
  match code st with
  | NotFound => SandboxGone (message st)
  | Unauthenticated => IoStreamFailed ("proxy auth: " +:+ message st)
  | Unavailable => ProxyUnavailable (message st)
  | _ => IoStreamFailed (message st)
  end.

Definition stream_status (st : Status) : ApiError :=
  match code st with
  | NotFound => SandboxGone (message st)
  | Unavailable => ProxyUnavailable (message st)
  | _ => IoStreamFailed (message st)
  end.

(** The pump: it stops after an error. *)
Fixpoint pump_inbound (items : list (result IoServerFrame Status))
    : list (result IoServerFrame ApiError) :=
  match items with
  | [] => []
  | Ok f :: items' => Ok f :: pump_inbound items'
  | Err st :: _ => [Err (stream_status st)]
  end.

(** ** handlers.rs: sessions *)

Record UnaryFileMeta := { um_revision : string; um_size : Z }.
Record ReadFileResult := { rf_bytes : bytes; rf_meta : option UnaryFileMeta }.
Record ListDirEntryJson := {
  lj_name : string; lj_kind : string; lj_size : Z; lj_revision : string; lj_mode : string;
  lj_target : string }.
Record ListDirResultJson := {
  lj_path : string; lj_entries : list ListDirEntryJson; lj_truncated : bool;
  lj_total_entries : Z }.
Record WaitPortListeningResultJson := { wj_ready : bool; wj_elapsed_ms : Z }.

Definition map_io_error (code detail : string) : ApiError :=
  match IoErrorCode.from code with
  | IoErrorCode.FileNotFound => FileNotFound detail
  | IoErrorCode.SandboxGone => SandboxGone detail
  | IoErrorCode.RevisionMismatch => RevisionMismatch detail
  | IoErrorCode.NotImplemented => NotImplemented detail
  | IoErrorCode.DirectoryNotEmpty => DirectoryNotEmpty detail
  | other => IoStreamFailed (IoErrorCode.as_str other +:+ ": " +:+ detail)
  end.

Definition bool_to_string (b : bool) : string := if b then "true" else "false".
Definition no_terminal : ApiError := IoStreamFailed "proxy stream ended without terminal frame".

(** The loop of [unary_via_io_stream]. *)
Fixpoint unary_loop (captured_meta : option UnaryFileMeta)
    (server_rx : list (result IoServerFrame ApiError)) : result (option UnaryFileMeta) ApiError :=
  match server_rx with
  | [] => Err no_terminal
  | Err e :: _ => Err e
  | Ok f :: rest =>
      match isf_payload f with
      | Some (SExited exit_code command_not_found) =>
          if bool_decide (exit_code = 0)%Z && negb command_not_found then Ok captured_meta
          else Err (IoStreamFailed ("exit=" +:+ pretty exit_code +:+ " command_not_found=" +:+
                      bool_to_string command_not_found))
      | Some (SError code detail) => Err (map_io_error code detail)
      | Some (SFileMeta revision size) =>
          unary_loop (Some {| um_revision := revision; um_size := size |}) rest
      | _ => unary_loop captured_meta rest
      end
  end.

(** The loop of [stream_via_io_stream]. *)
Fixpoint stream_loop (buf : bytes) (captured_meta : option UnaryFileMeta)
    (server_rx : list (result IoServerFrame ApiError)) : result ReadFileResult ApiError :=
  match server_rx with
  | [] => Err no_terminal
  | Err e :: _ => Err e
  | Ok f :: rest =>
      match isf_payload f with
      | Some (SStdout chunk) => stream_loop (buf +:+ chunk) captured_meta rest
      | Some (SExited exit_code _) =>
          if decide (exit_code ≠ 0)%Z
          then Err (IoStreamFailed ("read_file exited with " +:+ pretty exit_code))
          else Ok {| rf_bytes := buf; rf_meta := captured_meta |}
      | Some (SError code detail) => Err (map_io_error code detail)
      | Some (SFileMeta revision size) =>
          stream_loop buf (Some {| um_revision := revision; um_size := size |}) rest
      | _ => stream_loop buf captured_meta rest
      end
  end.

Definition entry_to_json (e : ListDirEntry) : ListDirEntryJson :=
  {| lj_name := lde_name e;
     lj_kind := match lde_type e with
                | TyFile => "file" | TyDir => "dir" | TySymlink => "symlink"
                | TyOther | TyUnspecified => "other" end;
     lj_size := lde_size e; lj_revision := lde_revision e; lj_mode := lde_mode e;
     lj_target := lde_target e |}.

(** The loop of [list_dir_via_io_stream]. *)
Fixpoint list_dir_loop (captured : option ListDirResultJson)
    (server_rx : list (result IoServerFrame ApiError)) : result ListDirResultJson ApiError :=
  match server_rx with
  | [] => Err no_terminal
  | Err e :: _ => Err e
  | Ok f :: rest =>
      match isf_payload f with
      | Some (SListDirResult path entries truncated total) =>
          list_dir_loop (Some {| lj_path := path; lj_entries := entry_to_json <$> entries;
                                 lj_truncated := truncated; lj_total_entries := total |}) rest
      | Some (SExited exit_code _) =>
          if decide (exit_code ≠ 0)%Z
          then Err (IoStreamFailed ("list_dir exited with " +:+ pretty exit_code))
          else ok_or captured (IoStreamFailed "list_dir session ended without ListDirResult")
      | Some (SError code detail) => Err (map_io_error code detail)
      | _ => list_dir_loop captured rest
      end
  end.

(** The loop of [wait_port_via_io_stream]. *)
Fixpoint wait_port_loop (captured : option WaitPortListeningResultJson)
    (server_rx : list (result IoServerFrame ApiError))
    : result WaitPortListeningResultJson ApiError :=
  match server_rx with
  | [] => Err no_terminal
  | Err e :: _ => Err e
  | Ok f :: rest =>
      match isf_payload f with
      | Some (SWaitPortListeningResult ready elapsed_ms) =>
          wait_port_loop (Some {| wj_ready := ready; wj_elapsed_ms := elapsed_ms |}) rest
      | Some (SExited exit_code _) =>
          if decide (exit_code ≠ 0)%Z
          then Err (IoStreamFailed ("wait_port_listening exited with " +:+ pretty exit_code))
          else ok_or captured (IoStreamFailed "wait_port_listening session ended without result")
      | Some (SError code detail) => Err (map_io_error code detail)
      | _ => wait_port_loop captured rest
      end
  end.

Definition STDIN_CHUNK_BYTES : nat := 64 * 1024.
#[global] Arguments STDIN_CHUNK_BYTES : simpl never.

(** The frames the producer task sends after the start frame. *)
Definition producer (content : option bytes) : list IoClientFrame :=
  build_client_frame <$>
    ((match content with Some b => CStdin <$> chunks STDIN_CHUNK_BYTES b | None => [] end) ++
     [CClose true]).

(** A REST answer: status, body and the headers the handler sets. *)
Inductive Body :=
| BEmpty
| BError (e : ApiError)
| BRefused (error error_code : string)
| BWritten (success : bool) (revision : option string)
| BBytes (b : bytes)
| BListing (l : ListDirResultJson)
| BPort (r : WaitPortListeningResultJson).
Record Response := { rp_status : Z; rp_body : Body; rp_headers : list (string * string) }.

Definition answer (status : Z) (b : Body) : Response :=
  {| rp_status := status; rp_body := b; rp_headers := [] |}.
Definition api_error (e : ApiError) : Response := answer (api_error_status e) (BError e).
Definition unauthorized : Response := answer 401 (BRefused "missing or invalid API key" "UNAUTHORIZED").
Definition invalid_request (msg : string) : Response := answer 400 (BRefused msg "INVALID_REQUEST").

Record WriteFileRequest := {
  wf_path : string; wf_content : option string; wf_content_b64 : option string;
  wf_cwd : option string; wf_expected_revision : option string; wf_force : bool }.

Section handlers.
Context `{UuidLib}.
(** The RPC, the gateway's token for it and tonic's parse of a metadata value; base64's
    decoder; http's test of a header value. *)
Context (rpc : Rpc) (internal_token : option string) (metadata_value : string → result string string).
Context (b64decode : string → result bytes string) (header_value_ok : string → bool).
Context (api_key : string).

Definition open_io_stream (client_rx : list IoClientFrame)
    : result (list (result IoServerFrame ApiError)) ApiError :=
  let? header := match internal_token with
    | Some tok =>
        match metadata_value ("Bearer " +:+ tok) with
        | Ok v => Ok (Some v)
        | Err e => Err (ApiInternal ("invalid internal-token: " +:+ e))
        end
    | None => Ok None
    end in
  match rpc header client_rx with
  | Err st => Err (open_status st)
  | Ok inbound => Ok (pump_inbound inbound)
  end.

Definition unary_via_io_stream (start : IoStart) (content : option bytes)
    : result (option UnaryFileMeta) ApiError :=
  let? server_rx := open_io_stream (build_client_frame (CStart start) :: producer content) in
  unary_loop None server_rx.

Definition stream_via_io_stream (start : IoStart) : result ReadFileResult ApiError :=
  let? server_rx := open_io_stream [build_client_frame (CStart start)] in
  stream_loop "" None server_rx.

Definition list_dir_via_io_stream (start : IoStart) : result ListDirResultJson ApiError :=
  let? server_rx := open_io_stream [build_client_frame (CStart start)] in
  list_dir_loop None server_rx.

Definition wait_port_via_io_stream (start : IoStart) : result WaitPortListeningResultJson ApiError :=
  let? server_rx := open_io_stream [build_client_frame (CStart start)] in
  wait_port_loop None server_rx.

(** ** handlers.rs: the endpoints *)

Definition parse_sandbox_id (id : string) : result SandboxId Response :=
  ok_or (parse_str id) (invalid_request "invalid sandbox_id").

(** [check_rest_auth], then [parse_sandbox_id], with which every handler begins. *)
Definition authed (hs : HeaderMap) (id : string) (k : SandboxId → Response) : Response :=
  if negb (check_rest_auth hs api_key) then unauthorized else
  match parse_sandbox_id id with Ok s => k s | Err r => r end.

Definition checked_path (empty_msg path : string) (k : Response) : Response :=
  if decide (path = "") then invalid_request empty_msg else
  match validate_sandbox_path path with Err msg => invalid_request msg | Ok _ => k end.

Definition io_start (s : SandboxId) (p : IoParams) : IoStart :=
  {| is_sandbox_id := hyphenated s; is_params := Some p |}.

(** [ValidJson]: a body that does not parse is refused before the handler runs. *)
Definition valid_json {A} (body : result A string) (k : A → Response) : Response :=
  match body with Ok a => k a | Err text => invalid_request text end.

Definition is_gzip (body : bytes) : bool :=
  match body with
  | String a (String b _) => bool_decide (kind_of a = 0x1f ∧ kind_of b = 0x8b)%Z
  | _ => false
  end.

Definition write_files (hs : HeaderMap) (id : string) (body : bytes) : Response :=
  authed hs id (λ s,
    if negb (is_gzip body) then
      api_error (InvalidUpload "request body is not a gzip stream (expected magic 1f 8b)")
    else
      let cwd := default "" (mjoin (header_get "x-cwd" hs)) in
      match unary_via_io_stream (io_start s (PWriteFilesTargz cwd)) (Some body) with
      | Ok _ => answer 200 (BWritten true None)
      | Err e => api_error e
      end).

Definition content_bytes (r : WriteFileRequest) : result bytes ApiError :=
  match wf_content r, wf_content_b64 r with
  | Some _, Some _ | None, None =>
      Err (InvalidRequest "exactly one of content or content_b64 must be set")
  | Some s, None => Ok s
  | None, Some b =>
      map_err (λ e, InvalidRequest ("content_b64 is not valid base64: " +:+ e)) (b64decode b)
  end.

Definition write_file (hs : HeaderMap) (id : string) (body : result WriteFileRequest string)
    : Response :=
  valid_json body (λ r, authed hs id (λ s,
    checked_path "path must not be empty" (wf_path r)
      match content_bytes r with
      | Err e => api_error e
      | Ok content =>
          match unary_via_io_stream (io_start s (PWriteFile (wf_path r) (default "" (wf_cwd r))
                  (default "" (wf_expected_revision r)) (wf_force r))) (Some content) with
          | Ok meta => answer 200 (BWritten true (um_revision <$> meta))
          | Err e => api_error e
          end
      end)).

Definition read_file (hs : HeaderMap) (id path : string) (cwd : option string) : Response :=
  authed hs id (λ s,
    checked_path "path query parameter is required" path
      match stream_via_io_stream (io_start s (PReadFile path (default "" cwd))) with
      | Ok r => {| rp_status := 200; rp_body := BBytes (rf_bytes r);
                   rp_headers := filter (λ h, header_value_ok h.2)
                     (("content-type", "application/octet-stream") ::
                      match rf_meta r with
                      | Some m => [("x-file-revision", um_revision m)]
                      | None => []
                      end) |}
      | Err e => api_error e
      end).

Definition list_dir (hs : HeaderMap) (id path : string) (cwd : option string) : Response :=
  authed hs id (λ s,
    checked_path "path query parameter is required" path
      match list_dir_via_io_stream (io_start s (PListDir path (default "" cwd))) with
      | Ok l => answer 200 (BListing l)
      | Err e => api_error e
      end).

Definition delete_file (hs : HeaderMap) (id path : string) (cwd : option string)
    (recursive : bool) : Response :=
  authed hs id (λ s,
    checked_path "path query parameter is required" path
      match unary_via_io_stream (io_start s (PDeleteFile path (default "" cwd) recursive)) None with
      | Ok _ => answer 204 BEmpty
      | Err e => api_error e
      end).

Definition wait_port_listening (hs : HeaderMap) (id : string) (body : result (Z * Z) string)
    : Response :=
  valid_json body (λ '(port, timeout_ms), authed hs id (λ s,
    let clamped_timeout := Z.min timeout_ms WAIT_PORT_LISTENING_MAX_TIMEOUT_MS in
    match wait_port_via_io_stream (io_start s (PWaitPortListening port clamped_timeout)) with
    | Ok r => answer 200 (BPort r)
    | Err e => api_error e
    end)).
End handlers.

(** ** Through the proxy to the agent and back *)

Section whole_path.
Context `{UuidLib} {R : Type} `{!RoutingStore R} {W : Type} `{!ContainerFiles W}.
(** The proxy as the stream finds it, the gateway's channel, the stream's pump, the agent's
    request channel and what the tunnel's task knows, the sandbox's container, and the order
    in which the agent's frames arrive at the proxy and are taken by the gateway. *)
Context (px : Proxy R) (tx : nat) (pu : Pump) (sender : nat) (l : TunnelLocal) (cid : ContainerId).
Context (sched : list DownEvent).

Definition queued (px : Proxy R) : list TunnelRequest :=
  from_option fst [] (px_tunnels px !! sender).
Definition io_client_frame (r : TunnelRequest) : option IoClientFrame :=
  match tq_payload r with Some (QIoClient f) => Some f | _ => None end.

(** The proxy sends the start frame on and pumps the rest. *)
Definition uplink (frames : list IoClientFrame) : Proxy R :=
  match frames with
  | f :: rest =>
      match icf_payload f with
      | Some (CStart start) => pump_task pu rest (dispatch_start tx (pu_stream_id pu) sender start px).2
      | _ => px
      end
  | [] => px
  end.

(** What it queues for the agent. *)
Definition through_proxy (frames : list IoClientFrame) : list IoClientFrame :=
  omap io_client_frame (drop (length (queued px)) (queued (uplink frames))).

(** The agent's session on them, while the gateway listens. *)
Definition agent_session (w : W) (frames : list IoClientFrame) : Sess W :=
  match drive_io_session (pu_stream_id pu) cid (Ok <$> frames)
          {| ss_runtime := w; ss_sent := []; ss_room := None; ss_draining := false |} with
  | Ended s | ExecSession _ s => s
  end.

(** The RPC: the proxy's gate, then the session; the response is what the gateway takes from
    the stream's channel. *)
Definition whole_rpc (proxy_token : option string) (w : W) : Rpc := λ authorization frames,
  match open_io_stream_gate RoleInternal proxy_token (px_draining px) (Some <$> authorization) with
  | Err st => Err st
  | Ok _ => Ok (got tx (downlink sender l (pu_stream_id pu) tx sched
              (ss_sent (agent_session w (through_proxy frames))) (uplink frames)))
  end.
End whole_path.

Section loops.
Implicit Types (fs : list IoServerFrame).

Lemma pump_inbound_ok fs : pump_inbound (Ok <$> fs) = Ok <$> fs.
Proof. induction fs as [|f fs IH]; [done|]. rewrite !fmap_cons. cbn [pump_inbound]. by rewrite IH. Qed.

(** Reassembly of the stdout chunks of a read. *)
Lemma stream_loop_chunks sid cs buf meta rest :
  stream_loop buf meta ((Ok <$> ((λ c, frame sid (SStdout c)) <$> cs)) ++ rest) =
  stream_loop (buf +:+ flatten cs) meta rest.
Proof.
  revert buf. induction cs as [|c cs IH]; intros buf; [by rewrite append_nil|].
  rewrite !fmap_cons, <- app_comm_cons. cbn [stream_loop frame isf_payload]. rewrite IH.
  f_equal. apply append_assoc.
Qed.

Definition captured (stat : result FileRevision AgentError) : option UnaryFileMeta :=
  match stat with
  | Ok rev => Some {| um_revision := fr_revision rev; um_size := fr_size rev |}
  | Err _ => None
  end.

Lemma stream_loop_meta sid stat buf rest :
  stream_loop buf None ((Ok <$> meta_frames sid stat) ++ rest) = stream_loop buf (captured stat) rest.
Proof. by destruct stat. Qed.

(** A read that is taken as complete has seen an exit, and its bytes are those of the stdout
    frames it saw. *)
Lemma stream_loop_complete fs buf meta r :
  stream_loop buf meta (Ok <$> fs) = Ok r →
  (∃ f cnf, f ∈ fs ∧ isf_payload f = Some (SExited 0 cnf)) ∧
  ∃ cs, cs `sublist_of` omap stdout_of fs ∧ rf_bytes r = buf +:+ flatten cs.
Proof.
  revert buf meta. induction fs as [|f fs IH]; intros buf meta; [done|].
  assert (∀ buf' meta' c, stdout_of f = c → buf' = buf +:+ default "" c →
    stream_loop buf' meta' (Ok <$> fs) = Ok r →
    (∃ g cnf, g ∈ f :: fs ∧ isf_payload g = Some (SExited 0 cnf)) ∧
    ∃ cs, cs `sublist_of` omap stdout_of (f :: fs) ∧ rf_bytes r = buf +:+ flatten cs) as Hgo.
  { intros buf' meta' c Hc -> ((g & cnf & Hg & Hx) & cs & Hcs & Hb)%IH. split.
    - exists g, cnf. split; [by right|done].
    - cbn [omap list_omap]. rewrite Hc. destruct c as [c|]; cbn [default from_option id] in Hb.
      + exists (c :: cs). split; [by constructor|]. rewrite Hb. apply append_assoc.
      + exists cs. split; [done|]. by rewrite append_nil in Hb. }
  rewrite fmap_cons. cbn [stream_loop]. unfold stdout_of in Hgo.
  destruct (isf_payload f) as [[]|] eqn:Ep; try (by eapply Hgo; [done|by rewrite append_nil]);
    try (by eapply Hgo); [|done].
  case_decide; [done|]. intros [= <-]. split; [|exists []; split; [apply sublist_nil_l|by rewrite append_nil]].
  assert (exit_code = 0%Z) as -> by (destruct (decide (exit_code = 0)%Z); tauto).
  eexists f, _. split; [by left|done].
Qed.

Lemma sublist_omap {A B} (g : A → option B) (l l' : list A) :
  l `sublist_of` l' → omap g l `sublist_of` omap g l'.
Proof.
  induction 1 as [|x l l' _ IH|x l l' _ IH]; [done|..]; cbn; destruct (g x); [by constructor|done|by constructor|done].
Qed.

(** The stdout frames of a read are its chunks. *)
Lemma read_chunks sid stat cs code cnf :
  omap stdout_of (meta_frames sid stat ++ ((λ c, frame sid (SStdout c)) <$> cs) ++
    [frame sid (SExited code cnf)]) = cs.
Proof.
  rewrite !omap_app. assert (omap stdout_of (meta_frames sid stat) = []) as -> by by destruct stat.
  cbn. rewrite app_nil_r. induction cs as [|c cs IH]; [done|]. cbn. by rewrite IH.
Qed.

Lemma unary_loop_meta sid stat rest :
  unary_loop None ((Ok <$> meta_frames sid stat) ++ rest) = unary_loop (captured stat) rest.
Proof. by destruct stat. Qed.
End loops.

(** A client frame under a stream id. *)
Definition client_frame (sid : string) (p : IoClientPayload) : IoClientFrame :=
  {| icf_stream_id := sid; icf_payload := Some p |}.

Lemma uploaded_stdin sid cs rest :
  uploaded (((λ c, Ok (client_frame sid (CStdin c))) <$> cs) ++ rest) = cs ++ uploaded rest ∧
  misused (((λ c, Ok (client_frame sid (CStdin c))) <$> cs) ++ rest) = misused rest.
Proof.
  induction cs as [|c cs [IH1 IH2]]; [done|]. rewrite fmap_cons, <- app_comm_cons.
  cbn [uploaded misused client_frame icf_payload]. by rewrite IH1, IH2.
Qed.

Section end_to_end.
Context `{UuidLib} {R : Type} `{!RoutingStore R} {W : Type} `{!ContainerFiles W}.
Context (px : Proxy R) (tx : nat) (pu : Pump) (cid : ContainerId).
Context (tn : TunnelPool.AgentTunnel) (backlog : list TunnelRequest).
(** The agent's tunnel is up and the gateway has not closed the stream. *)
Hypothesis Hpool : TunnelPool.tunnels (px_pool px) !! pu_agent_id pu = Some tn.
Hypothesis Hopen : px_tunnels px !! TunnelPool.request_tx tn = Some (backlog, true).
Hypothesis Hsaw : saw_explicit_close pu = false.
(** The stream is in the proxy's table, with an empty channel to the gateway. *)
Context (l : TunnelLocal).
Hypothesis Hstream : stream_open l (pu_stream_id pu) tx (pu_agent_id pu) px fresh_gateway.

#[local] Abbreviation relay := (through_proxy px tx pu (TunnelPool.request_tx tn)).
#[local] Abbreviation sid := (pu_stream_id pu).

(** The agent sees the start frame, the payloads in order under the stream's id, and a
    synthetic full close when the gateway did not send one. *)
Lemma relay_frames start ps :
  relay (build_client_frame (CStart start) :: (build_client_frame <$> ps)) =
  client_frame sid (CStart start) :: (client_frame sid <$> ps) ++
    (if existsb (λ p, is_full_close (Some p)) ps then [] else [client_frame sid (CClose false)]).
Proof.
  unfold through_proxy, uplink, dispatch_start. cbn [build_client_frame icf_payload].
  rewrite (tunnel_send_open _ _ _ _ Hopen). cbn [snd].
  set (px1 := with_tunnels _ px).
  unfold queued at 1. rewrite Hopen. cbn [from_option fst].
  unfold queued. rewrite (pump_task_relays pu _ px1 tn
    (backlog ++ [wrap sid (Some (CStart start))])); [|done|apply lookup_insert_eq].
  rewrite lookup_insert_eq. cbn [from_option fst]. rewrite <- app_assoc, drop_app_length.
  cbn [app omap list_omap]. f_equal. unfold relayed. rewrite Hsaw, omap_app. f_equal.
  - clear. induction ps as [|p ps IH]; [done|]. cbn. by f_equal.
  - assert (existsb (λ f, is_full_close (icf_payload f)) (build_client_frame <$> ps) =
      existsb (λ p, is_full_close (Some p)) ps) as ->.
    { clear. induction ps as [|p ps IH]; [done|]. exact (f_equal (orb (is_full_close (Some p))) IH). }
    cbn [orb]. by destruct (existsb _ ps).
Qed.

(** Sending towards the agent leaves the sessions alone. *)
Lemma tunnel_send_sessions sender req px0 :
  px_sessions (tunnel_send (R := R) sender req px0).2 = px_sessions px0.
Proof. unfold tunnel_send. by destruct (px_tunnels px0 !! sender) as [[? []]|]. Qed.

Lemma pump_task_sessions pu0 fs px0 : px_sessions (pump_task (R := R) pu0 fs px0) = px_sessions px0.
Proof.
  revert pu0 px0. induction fs as [|f fs IH]; intros pu0 px0; cbn [pump_task].
  - unfold pump_end. destruct (saw_explicit_close pu0); [done|].
    destruct (TunnelPool.get_sender _ _); [apply tunnel_send_sessions|done].
  - unfold pump_frame. destruct (TunnelPool.get_sender _ _) as [sender|]; [|done].
    pose proof (tunnel_send_sessions sender (wrap (pu_stream_id pu0) (icf_payload f)) px0) as Hs.
    destruct (tunnel_send _ _ _) as [[] px1]; [by rewrite IH|done].
Qed.

Lemma uplink_stream fs :
  stream_open l sid tx (pu_agent_id pu) (uplink px tx pu (TunnelPool.request_tx tn) fs) fresh_gateway.
Proof.
  assert (px_sessions (uplink px tx pu (TunnelPool.request_tx tn) fs) = px_sessions px) as Hs.
  { unfold uplink. destruct fs as [|f fs]; [done|]. destruct (icf_payload f) as [[]|]; try done.
    rewrite pump_task_sessions. unfold dispatch_start. by rewrite (tunnel_send_open _ _ _ _ Hopen). }
  destruct Hstream as [H1 H2 H3]. split; [done|by rewrite Hs..].
Qed.

(** The gateway and the proxy share the internal token, and the proxy is not draining. *)
Context (token : option string) (metadata_value : string → result string string).
Context (b64decode : string → result bytes string) (header_value_ok : string → bool).
Context (api_key : string).
Hypothesis Htoken : ∀ tok, token = Some tok →
  metadata_value ("Bearer " +:+ tok) = Ok ("Bearer " +:+ tok).
Hypothesis Hdraining : px_draining px = false.

(** The order in which frames arrive and are taken. *)
Context (sched : list DownEvent).
#[local] Abbreviation rpc := (whole_rpc px tx pu (TunnelPool.request_tx tn) l cid sched token).
#[local] Abbreviation answered w fs := (ss_sent (agent_session pu cid w (relay fs))).

(** The proxy lets the gateway in, and the gateway reads frames of the session in their order:
    all of them if it keeps up. *)
Lemma open_some w fs :
  ∃ kept, open_io_stream (rpc w) token metadata_value fs = Ok (Ok <$> kept) ∧
    kept `sublist_of` answered w fs ∧
    (keeps_up 0 (length (answered w fs)) sched = true → kept = answered w fs).
Proof.
  destruct (downlink_some (TunnelPool.request_tx tn) l sid tx _ sched (answered w fs) _
    (uplink_stream fs)) as (kept & Hgot & Hsub & Hall). exists kept. split; [|done].
  assert (∀ a, (Some <$> a) = (λ tok, Some ("Bearer " +:+ tok)) <$> token →
    rpc w a fs = Ok (Ok <$> kept)) as Hrpc.
  { intros a Ha. rewrite <- Hgot. unfold whole_rpc, open_io_stream_gate. rewrite Hdraining.
    cbn [accepts_open_io_stream negb].
    assert (token_ok token (Some <$> a) = true) as ->; [|done].
    unfold token_ok. destruct token as [tok|]; [|done]. apply bool_decide_eq_true. rewrite Ha.
    unfold bearer. cbn [fmap option_fmap option_map mjoin option_join mbind option_bind].
    apply strip_prefix_app. }
  unfold open_io_stream. destruct token as [tok|] eqn:Et.
  - rewrite (Htoken tok eq_refl). cbn [bind_result]. rewrite Hrpc by done. by rewrite pump_inbound_ok.
  - cbn [bind_result]. rewrite Hrpc by done. by rewrite pump_inbound_ok.
Qed.

Lemma open_whole w fs :
  keeps_up 0 (length (answered w fs)) sched = true →
  open_io_stream (rpc w) token metadata_value fs = Ok (Ok <$> answered w fs).
Proof. intros Hk. destruct (open_some w fs) as (kept & H1 & _ & H2). by rewrite H1, (H2 Hk). Qed.

(** The frames of an upload, as the agent's write session gets them. *)
Lemma relay_upload start content :
  ∃ fs, Ok <$> relay (build_client_frame (CStart start) :: producer (Some content)) =
          Ok (client_frame sid (CStart start)) :: fs ∧
    flatten (uploaded fs) = content ∧ misused fs = false.
Proof.
  unfold producer. rewrite relay_frames, fmap_cons. eexists. split; [reflexivity|].
  rewrite !fmap_app, <- !list_fmap_compose. unfold compose.
  rewrite <- app_assoc.
  destruct (uploaded_stdin sid (chunks STDIN_CHUNK_BYTES content)
    ((Ok <$> (client_frame sid <$> [CClose true])) ++
     (Ok <$> (if existsb (λ p, is_full_close (Some p))
                   ((CStdin <$> chunks STDIN_CHUNK_BYTES content) ++ [CClose true])
              then [] else [client_frame sid (CClose false)])))) as [Hu Hm].
  setoid_rewrite Hu. setoid_rewrite Hm. cbn [fmap list_fmap app uploaded misused client_frame icf_payload].
  split; [|done]. rewrite app_nil_r.
  apply (chunks_spec STDIN_CHUNK_BYTES content). unfold STDIN_CHUNK_BYTES. lia.
Qed.

(** A request that passes the checks every handler makes. *)
Definition admitted (hs : HeaderMap) (id : string) (s : SandboxId) (path : string) : Prop :=
  header_get "authorization" hs = Some (Some ("Bearer " +:+ api_key)) ∧ parse_str id = Some s ∧
  path ≠ "" ∧ validate_sandbox_path path = Ok ().

Lemma authed_admitted hs id s path k msg :
  admitted hs id s path → authed api_key hs id (λ s, checked_path msg path (k s)) = k s.
Proof.
  intros (Ha & Hi & Hp & Hv). unfold authed, check_rest_auth.
  rewrite (proj2 (bearer_matches_spec hs api_key) Ha). cbn [negb].
  unfold parse_sandbox_id. rewrite Hi. cbn [ok_or]. unfold checked_path.
  by rewrite decide_False, Hv by done.
Qed.

(** C3: a REST write reaches the file. An admitted request whose body carries [content] of at
    most 256 MiB, sent by the gateway in 64 KiB frames, relayed by the proxy with its
    synthetic close and collected by the agent, calls the runtime's write with exactly
    [content] when the precondition holds, and the answer is 200 with the revision of the
    written file, or 500 with the runtime's failure; with a stale expected revision the answer
    is 409 with the current one and the file is not written. The agent's answer passes the
    stream's bounded channel; the gateway takes each frame before the channel is full. *)
Theorem rest_write_reaches_file w hs id s r content :
  admitted hs id s (wf_path r) → content_bytes b64decode r = Ok content →
  (size content ≤ MAX_WRITE_BYTES)%Z →
  let path := wf_path r in
  let cwd := default "" (wf_cwd r) in
  let rev := default "" (wf_expected_revision r) in
  let start := io_start s (PWriteFile path cwd rev (wf_force r)) in
  let request := build_client_frame (CStart start) :: producer (Some content) in
  keeps_up 0 (length (answered w request)) sched = true →
  let response := write_file (rpc w) token metadata_value b64decode api_key hs id (Ok r) in
  let final := ss_runtime (agent_session pu cid w (relay request)) in
  let stat := stat_revision cid path (cwd_opt cwd) w in
  (∀ fr, precondition_checked rev (wf_force r) = true → stat.1 = Ok fr → fr_revision fr ≠ rev →
     response = answer 409 (BError (RevisionMismatch (fr_revision fr))) ∧ final = stat.2) ∧
  (∀ w1 res w2,
     (if precondition_checked rev (wf_force r)
      then ∃ fr, stat = (Ok fr, w1) ∧ fr_revision fr = rev else w1 = w) →
     AgentIo.write_file cid path (cwd_opt cwd) content w1 = (res, w2) →
     match res with
     | Ok _ => response = answer 200 (BWritten true
                 (fr_revision <$> result_ok (stat_revision cid path (cwd_opt cwd) w2).1)) ∧
               final = (stat_revision cid path (cwd_opt cwd) w2).2
     | Err e => response = answer 500
                  (BError (IoStreamFailed ("WRITE_FAILED: " +:+ AgentError_to_string e))) ∧
                final = w2
     end).
Proof.
  intros Hadm Hcont Hsz path cwd rev start request Hk response final stat.
  destruct (relay_upload start content) as (fs & Hfs & Hup & Hmis).
  set (s0 := {| ss_runtime := w; ss_sent := []; ss_room := None; ss_draining := false |}).
  set (s' := drive_write_file sid cid path cwd rev (wf_force r) fs s0).
  assert (agent_session pu cid w (relay request) = s') as Hses
    by (unfold agent_session, request; by rewrite Hfs).
  assert (response = match unary_loop None (Ok <$> ss_sent s') with
                     | Ok meta => answer 200 (BWritten true (um_revision <$> meta))
                     | Err e => api_error e
                     end) as ->.
  { unfold response, write_file, valid_json. rewrite (authed_admitted _ _ s) by done.
    rewrite Hcont. unfold unary_via_io_stream. change (build_client_frame _ :: _) with request.
    rewrite open_whole by done. cbn [bind_result]. by rewrite Hses. }
  unfold final. rewrite Hses. clear final.
  destruct (drive_write_file_open sid cid path cwd rev (wf_force r) fs s0 content
    eq_refl Hup Hsz Hmis) as [Hstale Hgo]. fold s' in Hstale, Hgo. split.
  - intros fr Hc Hst Hne. destruct (Hstale fr Hc Hst Hne) as [-> ->]. done.
  - intros w1 res w2 Hpre Hwr. specialize (Hgo w1 res w2 Hpre Hwr).
    destruct res as [[]|e]; destruct Hgo as [-> ->]; [|done]. split; [|done].
    cbn [ss_sent s0 app]. rewrite fmap_app, unary_loop_meta. cbn.
    by destruct (stat_revision cid path (cwd_opt cwd) w2) as [[fr|e] w3].
Qed.

(** C16: what a REST read returns. For an admitted request, if the stream's bounded channel to
    the gateway is never full when a frame arrives, the answer is 200 with exactly the bytes
    the runtime read, however many frames they took, and the revision it reported in
    X-File-Revision; a missing file is 404 and any other failure of the runtime 500. If the
    gateway falls behind and frames are dropped, an answer of 200 still means that the runtime
    read the file, and it holds some of the file's 64 KiB chunks, in their order, but not
    always all ([lost_chunk_unnoticed]). *)
Theorem rest_read_returns_file w hs id s path cwd res w1 :
  admitted hs id s path →
  AgentIo.read_file cid path (cwd_opt (default "" cwd)) w = (res, w1) →
  let request := [build_client_frame (CStart (io_start s (PReadFile path (default "" cwd))))] in
  let response := read_file (rpc w) token metadata_value header_value_ok api_key hs id path cwd in
  (keeps_up 0 (length (answered w request)) sched = true →
   match res with
   | Ok content =>
       response = {| rp_status := 200; rp_body := BBytes content;
         rp_headers := filter (λ h, header_value_ok h.2)
           (("content-type", "application/octet-stream") ::
            match (stat_revision cid path (cwd_opt (default "" cwd)) w1).1 with
            | Ok fr => [("x-file-revision", fr_revision fr)]
            | Err _ => []
            end) |}
   | Err e =>
       if match e with Runtime d => contains d "No such file" | _ => false end
       then response = answer 404 (BError (FileNotFound (AgentError_to_string e)))
       else response = answer 500
              (BError (IoStreamFailed ("READ_FAILED: " +:+ AgentError_to_string e)))
   end) ∧
  (rp_status response = 200%Z →
   ∃ content cs, res = Ok content ∧ cs `sublist_of` chunks READ_FILE_CHUNK_BYTES content ∧
     rp_body response = BBytes (flatten cs)).
Proof.
  intros Hadm Hread request response.
  set (start := io_start s (PReadFile path (default "" cwd))).
  set (s0 := {| ss_runtime := w; ss_sent := []; ss_room := None; ss_draining := false |}).
  pose proof (drive_read_file_sent sid cid path (default "" cwd) s0 res w1 eq_refl Hread) as Hs.
  destruct (open_some w request) as (kept & Hopen' & Hsub & Hall).
  assert (answered w request = ss_sent (drive_read_file sid cid path (default "" cwd) s0)) as Hans.
  { pose proof (relay_frames start []) as Hf. cbn [fmap list_fmap app existsb] in Hf.
    unfold start in Hf. unfold agent_session, request. by rewrite Hf. }
  assert (response =
    match stream_loop "" None (Ok <$> kept) with
    | Ok r => {| rp_status := 200; rp_body := BBytes (rf_bytes r);
                 rp_headers := filter (λ h, header_value_ok h.2)
                   (("content-type", "application/octet-stream") ::
                    match rf_meta r with
                    | Some m => [("x-file-revision", um_revision m)]
                    | None => []
                    end) |}
    | Err e => api_error e
    end) as ->.
  { unfold response, read_file. rewrite (authed_admitted _ _ s) by done.
    unfold stream_via_io_stream. change ([build_client_frame _]) with request.
    rewrite Hopen'. done. }
  rewrite Hans, Hs in Hsub, Hall. cbn [ss_sent s0 app] in Hsub, Hall. rewrite Hans, Hs. split.
  - intros Hk. rewrite (Hall Hk). clear Hs Hall Hsub Hopen' Hans. destruct res as [content|e].
    + rewrite !fmap_app, stream_loop_meta, stream_loop_chunks.
      rewrite (proj1 (chunks_spec READ_FILE_CHUNK_BYTES content ltac:(unfold READ_FILE_CHUNK_BYTES; lia))).
      cbn. by destruct (stat_revision cid path _ w1) as [[fr|e] w2].
    + destruct e; try done. by destruct (contains _ _).
  - destruct (stream_loop "" None (Ok <$> kept)) as [r|e] eqn:Er; [|by destruct e]. intros _.
    apply stream_loop_complete in Er as ((f & cnf & Hf & Hx) & cs & Hcs & Hb).
    destruct res as [content|e].
    + exists content, cs. split; [done|]. split; [|by rewrite Hb].
      etrans; [exact Hcs|]. etrans; [by apply sublist_omap, Hsub|]. by rewrite read_chunks.
    + apply sublist_submseteq in Hsub. apply (elem_of_submseteq _ _ f) in Hsub; [|done].
      apply list_elem_of_singleton in Hsub as ->. done.
Qed.
End end_to_end.

Module GatewayExamples.
Import ProxyExamples IoStreamExamples AgentIoExamples.
#[local] Existing Instance AgentIoExamples.SmallFiles.

Definition files : gmap string bytes := {["/motd" := "hello"]}.
Definition keyed : HeaderMap := [("authorization", Some "Bearer key")].
Definition put : WriteFileRequest :=
  {| wf_path := "/motd"; wf_content := Some "bye"; wf_content_b64 := None; wf_cwd := None;
     wf_expected_revision := Some "hello"; wf_force := false |}.
Definition local1 : TunnelLocal := {| registered := Some (uid 1); my_generation := Some 2%Z |}.
(** Each frame is taken when it arrives. *)
Definition prompt (n : nat) : list DownEvent := flat_map (λ _, [Arrives; Taken]) (seq 0 n).
Abbreviation rpc1 sched := (whole_rpc reconnected 8 pump1 2 local1 "c" sched (Some "t")).

Lemma stream1 : stream_open local1 "io-1" 8 (uid 1) reconnected fresh_gateway.
Proof.
  split; [done| |evaluate].
  exists {| IoSessions.agent_id := uid 1; IoSessions.server_tx := 8; IoSessions.generation := 2 |}.
  by split; [evaluate|].
Qed.

Definition no_b64 (s : string) : result bytes string := Err "invalid".

Lemma admitted1 : admitted "key" keyed (hyphenated sb1) sb1 "/motd".
Proof. split; [done|]. split; [evaluate|]. split; [done|]. vm_compute. reflexivity. Qed.

(** The write replaces the file when the caller knows its revision. *)
Lemma rest_write_reaches_file_witness :
  write_file (rpc1 (prompt 2) files) (Some "t") Ok no_b64 "key" keyed (hyphenated sb1) (Ok put) =
    answer 200 (BWritten true (Some "bye")).
Proof.
  pose proof (rest_write_reaches_file reconnected 8 pump1 "c"
    {| TunnelPool.request_tx := 2; TunnelPool.generation := 2 |} [] ltac:(evaluate) ltac:(evaluate)
    eq_refl local1 stream1 (Some "t") Ok no_b64 "key" (λ tok E, eq_refl) eq_refl (prompt 2) files keyed
    (hyphenated sb1) sb1 put "bye" admitted1 eq_refl ltac:(done) ltac:(evaluate)) as [_ Hgo].
  exact (proj1 (Hgo files (Ok ()) _ (ex_intro _ _ (conj eq_refl eq_refl)) eq_refl)).
Defined.

Lemma rest_read_returns_file_witness :
  read_file (rpc1 (prompt 3) files) (Some "t") Ok (λ _, true) "key" keyed (hyphenated sb1) "/motd" None =
    {| rp_status := 200; rp_body := BBytes "hello";
       rp_headers := [("content-type", "application/octet-stream"); ("x-file-revision", "hello")] |}.
Proof.
  pose proof (rest_read_returns_file reconnected 8 pump1 "c"
    {| TunnelPool.request_tx := 2; TunnelPool.generation := 2 |} [] ltac:(evaluate) ltac:(evaluate)
    eq_refl local1 stream1 (Some "t") Ok (λ _, true) "key" (λ tok E, eq_refl) eq_refl (prompt 3) files keyed
    (hyphenated sb1) sb1 "/motd" None (Ok "hello") files admitted1 eq_refl) as [Hkept _].
  apply Hkept. evaluate.
Defined.

(** A gateway that falls 256 frames behind loses the next one without noticing: of 257 chunks
    and an exit, it reads 256 chunks and a successful end. *)
Definition burst : list IoServerFrame :=
  replicate 257 {| isf_stream_id := "io-1"; isf_payload := Some (SStdout "x") |} ++
  [{| isf_stream_id := "io-1"; isf_payload := Some (SExited 0 false) |}].
Definition slow : list DownEvent := replicate 257 Arrives ++ [Taken; Arrives] ++ replicate 256 Taken.
Example lost_chunk_unnoticed :
  let items := got 8 (downlink 2 local1 "io-1" 8 slow burst reconnected) in
  (λ r, String.length (rf_bytes r)) <$> result_ok (stream_loop "" None (pump_inbound items)) = Some 256 ∧
  keeps_up 0 (length burst) slow = false ∧
  stream_loop "" None (pump_inbound (Ok <$> burst)) =
    Ok {| rf_bytes := flatten (replicate 257 "x"); rf_meta := None |}.
Proof. split; [evaluate|]. split; evaluate. Qed.
End GatewayExamples.
