(* ===== verification/ProxyPool.v ===== *)
(** * The gateway's connections to the proxy and the controller
      (crates/api/src/proxy_client.rs, crates/api/src/grpc_service.rs)

    The pool of channels the gateway keeps to the proxy: dialling it when the gateway starts,
    and the choice of a channel for each session by a shared counter of machine width. The
    calls of all handlers go through one atomic counter, so a run of the gateway is, for the
    pool, a list of calls in the order of their increments. *)

From S2P Require Import Prelude Contracts IoFrames ControllerCore Api GatewayFiles.

Definition usize_modulus : N := 2 ^ 64.
Definition DEFAULT_POOL_SIZE : nat := 4.

Record ProxyClientPool (C : Type) := {
  pool_channels : list C; pool_rr : N; pool_internal_token : option string }.
Arguments pool_channels {_} _.
Arguments pool_rr {_} _.
Arguments pool_internal_token {_} _.

Section pool.
(** tonic's Channel, its parse of an address, and a dial in the state [W] of the network. *)
Context {C W : Type} (from_shared : string → result () string) (dial : string → ST W (result C string)).
Implicit Types (p : ProxyClientPool C).

Definition dial_channel (unavailable : string → ApiError) (url : string) : ST W (result C ApiError) :=
  match from_shared url with
  | Err e => st_ret (Err (unavailable e))
  | Ok _ =>
      let! r := dial url in
      st_ret (match r with Ok c => Ok c | Err e => Err (unavailable e) end)
  end.

(** The loop of [connect]: the channels it still has to dial, and those it has. *)
Fixpoint dial_loop (url : string) (n : nat) (channels : list C) : ST W (result (list C) ApiError) :=
  match n with
  | O => st_ret (Ok channels)
  | S n =>
      let!? c := dial_channel ProxyUnavailable url in
      dial_loop url n (channels ++ [c])
  end.

Definition pool_connect (proxy_url : string) (size : nat) (internal_token : option string)
    : ST W (result (ProxyClientPool C) ApiError) :=
  let!? channels := dial_loop proxy_url (size `max` 1) [] in
  st_ret (Ok {| pool_channels := channels; pool_rr := 0; pool_internal_token := internal_token |}).

(** [self.channels[i]] panics out of range: [None]. *)
Definition next_channel p : option C * ProxyClientPool C :=
  let i := (pool_rr p `mod` N.of_nat (length (pool_channels p)))%N in
  (pool_channels p !! N.to_nat i,
   {| pool_channels := pool_channels p; pool_rr := ((pool_rr p + 1) `mod` usize_modulus)%N;
      pool_internal_token := pool_internal_token p |}).

(** The channels of the next [k] calls. *)
Fixpoint next_channels (k : nat) p : list (option C) * ProxyClientPool C :=
  match k with
  | O => ([], p)
  | S k =>
      let '(c, p1) := next_channel p in
      let '(cs, p2) := next_channels k p1 in (c :: cs, p2)
  end.

(** A session opened over the pool: the next channel's RPC. *)
Definition pool_open_io_stream (rpc_of : C → Rpc) (metadata_value : string → result string string)
    (client_rx : list IoClientFrame) p
    : option (result (list (result IoServerFrame ApiError)) ApiError) * ProxyClientPool C :=
  let '(c, p') := next_channel p in
  ((λ c, open_io_stream (rpc_of c) (pool_internal_token p) metadata_value client_rx) <$> c, p').

(** grpc_service.rs: one channel to the controller, and the token of the environment. *)
Definition grpc_connect (controller_url : string) (admin_token_env : option string)
    : ST W (result (C * option string) ApiError) :=
  let!? channel := dial_channel ControllerUnavailable controller_url in
  st_ret (Ok (channel, admin_token_env)).

(** ** Lemmas *)

Lemma dial_loop_spec url n cs w :
  match dial_loop url n cs w with
  | (Ok l, _) => ∃ new, l = cs ++ new ∧ length new = n
  | (Err e, _) => ∃ d, e = ProxyUnavailable d
  end.
Proof.
  revert cs w. induction n as [|n IH]; intros cs w; cbn.
  { exists []. by rewrite app_nil_r. }
  unfold st_bind_ok, st_bind, dial_channel. destruct (from_shared url); cbn; [|by eexists].
  unfold st_bind. destruct (dial url w) as [[c|e] w']; cbn; [|by eexists].
  specialize (IH (cs ++ [c]) w'). destruct (dial_loop url n (cs ++ [c]) w') as [[l|e] w2]; [|done].
  destruct IH as (new & -> & Hl). exists (c :: new). rewrite <- app_assoc. cbn. by rewrite Hl.
Qed.

(** A pool as [pool_connect] makes it and every call keeps it: not empty, its counter a usize. *)
Definition pool_wf p : Prop := pool_channels p ≠ [] ∧ (pool_rr p < usize_modulus)%N.

(** The pool has as many channels as were asked for and at least one, or there is none and the
    error is the one the gateway retries on. *)
Lemma pool_connect_spec url size tok w :
  match pool_connect url size tok w with
  | (Ok p, _) => length (pool_channels p) = size `max` 1 ∧ pool_internal_token p = tok ∧ pool_wf p
  | (Err e, _) => ∃ d, e = ProxyUnavailable d
  end.
Proof.
  unfold pool_connect, st_bind_ok, st_bind. pose proof (dial_loop_spec url (size `max` 1) [] w) as Hd.
  destruct (dial_loop url (size `max` 1) [] w) as [[l|e] w']; [|done].
  destruct Hd as (new & -> & Hl). cbn. rewrite Hl. repeat split; try done.
  intros E. cbn in E. subst new. cbn in Hl. lia.
Qed.

Lemma next_channel_in_range p :
  pool_wf p → ∃ c, (next_channel p).1 = Some c ∧ c ∈ pool_channels p ∧ pool_wf (next_channel p).2.
Proof.
  intros [Hne Hrr]. unfold next_channel; cbn.
  assert (Hl : (0 < N.of_nat (length (pool_channels p)))%N) by (destruct (pool_channels p); cbn; [done|lia]).
  destruct (lookup_lt_is_Some_2 (pool_channels p)
    (N.to_nat (pool_rr p `mod` N.of_nat (length (pool_channels p))))) as [c Hc].
  { pose proof (N.mod_lt (pool_rr p) (N.of_nat (length (pool_channels p)))). lia. }
  exists c. split; [done|]. split; [by eapply list_elem_of_lookup_2|].
  split; [done|]. cbn. apply N.mod_lt. done.
Qed.

(** The counter after a call selects the channel after the one selected, at the wrap of the
    counter too when the number of channels divides it. *)
Lemma counter_step (r n : N) :
  (r < usize_modulus)%N → (n ≠ 0)%N → (usize_modulus `mod` n = 0)%N →
  (((r + 1) `mod` usize_modulus) `mod` n = (r + 1) `mod` n)%N.
Proof.
  intros Hr Hn Hd. destruct (decide (r + 1 = usize_modulus)%N) as [->|].
  - by rewrite N.Div0.mod_same, N.Div0.mod_0_l, Hd.
  - rewrite (N.mod_small (r + 1)); [done|lia].
Qed.

Lemma next_channels_spec k p :
  pool_wf p → (usize_modulus `mod` N.of_nat (length (pool_channels p)) = 0)%N →
  (next_channels k p).1 =
    (λ j, pool_channels p !! N.to_nat ((pool_rr p + N.of_nat j) `mod` N.of_nat (length (pool_channels p)))%N)
      <$> seq 0 k.
Proof.
  revert p. induction k as [|k IH]; intros p Hwf Hd; [done|].
  destruct (next_channel_in_range p Hwf) as (c & _ & _ & Hwf').
  specialize (IH (next_channel p).2 Hwf' Hd). cbn [next_channels].
  unfold next_channel in *. cbn [fst snd] in *.
  destruct (next_channels k _) as [cs p2]. cbn in IH |- *. subst cs.
  rewrite N.add_0_r. f_equal. rewrite <- seq_shift, <- list_fmap_compose. apply list_fmap_ext.
  intros i j Hj. cbn. do 2 f_equal.
  destruct Hwf as [Hne Hrr].
  assert (N.of_nat (length (pool_channels p)) ≠ 0)%N by (destruct (pool_channels p); cbn; [done|lia]).
  rewrite <- N.Div0.add_mod_idemp_l, counter_step, N.Div0.add_mod_idemp_l by done. f_equal. lia.
Qed.

End pool.

(** A window of [n] consecutive counters takes every residue once. *)
Lemma window_residues (r n : nat) :
  n ≠ 0 → (λ j, (r + j) `mod` n) <$> seq 0 n ≡ₚ seq 0 n.
Proof.
  intros Hn. symmetry. apply submseteq_length_Permutation; [|by rewrite length_fmap].
  apply NoDup_submseteq; [apply NoDup_seq|]. intros x Hx%elem_of_seq.
  apply list_elem_of_fmap.
  exists ((x + n - r `mod` n) `mod` n). split.
  - rewrite Nat.Div0.add_mod_idemp_r, <- Nat.Div0.add_mod_idemp_l.
    pose proof (Nat.mod_upper_bound r n Hn).
    replace (r `mod` n + (x + n - r `mod` n)) with (x + 1 * n) by lia.
    rewrite Nat.Div0.mod_add, Nat.mod_small; lia.
  - apply elem_of_seq. pose proof (Nat.mod_upper_bound (x + n - r `mod` n) n Hn). lia.
Qed.

Lemma all_channels {C} (l : list C) : (λ i, l !! i) <$> seq 0 (length l) = Some <$> l.
Proof.
  apply list_eq. intros i. rewrite !list_lookup_fmap. destruct (decide (i < length l)).
  - rewrite lookup_seq_lt by done. destruct (lookup_lt_is_Some_2 l i) as [c Hc]; [done|].
    cbn. by rewrite Hc.
  - rewrite lookup_seq_ge, (lookup_ge_None_2 l) by lia. done.
Qed.

(** The sessions are spread evenly: of any [n] consecutive calls on a pool of [n] channels each
    channel serves exactly one, at the wrap of the counter too when [n] divides 2^64, as the
    size the gateway uses does. *)
Theorem pool_round_robin {C} (p : ProxyClientPool C) :
  pool_wf p → (usize_modulus `mod` N.of_nat (length (pool_channels p)) = 0)%N →
  (next_channels (length (pool_channels p)) p).1 ≡ₚ Some <$> pool_channels p.
Proof.
  intros Hwf Hd. rewrite next_channels_spec by done. destruct Hwf as [Hne _].
  set (l := pool_channels p) in *. set (n := length l).
  assert (Hn : n ≠ 0) by (unfold n; destruct l; cbn; [done|lia]).
  rewrite <- (all_channels l). fold n.
  transitivity ((λ i, l !! i) <$> ((λ j, (N.to_nat (pool_rr p) + j) `mod` n) <$> seq 0 n));
    [|by rewrite (window_residues _ n Hn)].
  rewrite <- list_fmap_compose. apply reflexive_eq, list_fmap_ext. intros i j _. cbn. f_equal.
  by rewrite N2Nat.inj_mod, N2Nat.inj_add, !Nat2N.id.
Qed.

(** When every channel leads to the same proxy the pool is one connection: which channel
    serves a session makes no difference to it, and none is refused for want of a channel. *)
Theorem pool_transparent {C} (rpc : Rpc) metadata_value fs (p : ProxyClientPool C) :
  pool_wf p →
  (pool_open_io_stream (λ _, rpc) metadata_value fs p).1 =
    Some (open_io_stream rpc (pool_internal_token p) metadata_value fs).
Proof.
  intros Hwf. destruct (next_channel_in_range p Hwf) as (c & Hc & _).
  unfold pool_open_io_stream. destruct (next_channel p). cbn in *. by subst.
Qed.

Module PoolExamples.

Definition dials (url : string) : ST (list (result nat string)) (result nat string) := λ w,
  match w with [] => (Err "refused", []) | r :: w => (r, w) end.
Definition parse (url : string) : result () string := if bool_decide (url = "") then Err "empty" else Ok ().

Definition the_pool : ProxyClientPool nat :=
  {| pool_channels := [10; 11; 12; 13]; pool_rr := usize_modulus - 2; pool_internal_token := Some "t" |}.

Example connects_four :
  (pool_connect parse dials "http://proxy" DEFAULT_POOL_SIZE (Some "t") [Ok 10; Ok 11; Ok 12; Ok 13]).1 =
    Ok {| pool_channels := [10; 11; 12; 13]; pool_rr := 0; pool_internal_token := Some "t" |}.
Proof. reflexivity. Qed.

Example at_least_one :
  (pool_connect parse dials "http://proxy" 0 None [Ok 10]).1 =
    Ok {| pool_channels := [10]; pool_rr := 0; pool_internal_token := None |}.
Proof. reflexivity. Qed.

(** The first dial that fails ends the attempt; the rest is not dialled. *)
Example stops_at_failure :
  pool_connect parse dials "http://proxy" 3 None [Ok 10; Err "refused"; Ok 12] =
    (Err (ProxyUnavailable "refused"), [Ok 12]).
Proof. reflexivity. Qed.

Example across_the_wrap : (next_channels 4 the_pool).1 = [Some 12; Some 13; Some 10; Some 11].
Proof. vm_compute. reflexivity. Qed.

(** With three channels the wrap repeats one. *)
Example three_at_the_wrap :
  (next_channels 2 {| pool_channels := [10; 11; 12]; pool_rr := usize_modulus - 1;
     pool_internal_token := None |}).1 = [Some 10; Some 10].
Proof. vm_compute. reflexivity. Qed.

End PoolExamples.
