(* ===== verification/GatewayWs.v ===== *)
(** * The gateway's WebSockets (crates/api/src/{ws_exec,ws_read_file}.rs)

    The upgrade checks of both endpoints; an exec session as the system of its two tasks, the
    reader of the socket and the loop that relays the proxy's frames and keeps the peer alive,
    driven by a list of events; and the read stream, which turns the frames of a file read
    into messages. Times are in ms. *)

From S2P Require Import Prelude RustText Contracts UuidRef ControllerCore IoFrames Routing Tunnels ProxyGrpc IoStream HttpServer AgentSandbox AgentIo Api GatewayFiles.

Definition ApiError_to_string (e : ApiError) : string :=
  match e with
  | Unauthorized d => "unauthorized: " +:+ d
  | ApiSandboxNotFound id => "sandbox " +:+ id +:+ " not found"
  | ControllerUnavailable d => "controller unavailable: " +:+ d
  | ProxyUnavailable d => "proxy unavailable: " +:+ d
  | InvalidRequest d => "invalid request: " +:+ d
  | InvalidUpload d => "invalid upload: " +:+ d
  | IoStreamFailed d => "I/O stream failed: " +:+ d
  | SandboxGone id =>
      "sandbox " +:+ id +:+ " no longer exists (was deleted or its agent disconnected)"
  | FileNotFound p => "file not found: " +:+ p
  | InvalidState d => "invalid state transition: " +:+ d
  | RevisionMismatch r => "revision mismatch (current revision: " +:+ str_debug r +:+ ")"
  | NotImplemented d => "not implemented: " +:+ d
  | DirectoryNotEmpty d => "directory not empty: " +:+ d
  | ApiInternal d => "internal error: " +:+ d
  end.

(** ** Messages *)

Inductive Message :=
| MText (t : string)
| MBinary (b : bytes)
| MPing
| MPong
| MClose (frame : option (Z * string)).

Definition binary_of (m : Message) : option bytes := match m with MBinary b => Some b | _ => None end.
Definition text_of (m : Message) : option string := match m with MText t => Some t | _ => None end.
Definition is_close (m : Message) : bool := match m with MClose _ => true | _ => false end.

(** ** The upgrade *)

Section upgrade.
Context `{UuidLib} (b64url : string → string) (api_key : string).

(** What is to be echoed as the subprotocol, and the sandbox. *)
Definition ws_exec (hs : HeaderMap) (id : string) : result (option string * SandboxId) Response :=
  let? sandbox_id := parse_sandbox_id id in
  let? echo_protocol := ok_or (check_ws_auth b64url hs api_key) unauthorized in
  Ok (echo_protocol, sandbox_id).

(** The start frame in place of the sandbox: the session sends it by itself. *)
Definition ws_read_file (hs : HeaderMap) (id path : string) (cwd : option string)
    : result (option string * IoStart) Response :=
  let? sandbox_id := parse_sandbox_id id in
  if decide (path = "") then Err (invalid_request "path query parameter is required") else
  let? _ := map_err invalid_request (validate_sandbox_path path) in
  let? _ := match cwd with
            | Some c => if decide (c = "") then Ok () else map_err invalid_request (validate_sandbox_path c)
            | None => Ok ()
            end in
  let? echo_protocol := ok_or (check_ws_auth b64url hs api_key) unauthorized in
  Ok (echo_protocol, io_start sandbox_id (PReadFile path (default "" cwd))).
End upgrade.

(** ** The exec session *)

Definition WS_IDLE_PING_INTERVAL : Z := 30 * 1000.
Definition WS_IDLE_PING_TIMEOUT : Z := 60 * 1000.

(** The close frame of a session the proxy refuses. *)
Definition exec_refused (e : ApiError) : Message :=
  MClose (Some (match e with SandboxGone _ => 4404 | ProxyUnavailable _ => 4503 | _ => 4500 end%Z,
                ApiError_to_string e)).

Record WsSession := {
  (** the task that reads the socket is running *)
  ws_reading : bool;
  ws_last_pong : Z;
  (** sent to the proxy and to the client *)
  ws_upstream : list IoClientFrame;
  ws_sent : list Message;
  (** the loop is running *)
  ws_open : bool;
}.

Definition ws_begin (now : Z) : WsSession :=
  {| ws_reading := true; ws_last_pong := now; ws_upstream := []; ws_sent := []; ws_open := true |}.

(** One wake-up of a task. [up]: the proxy still takes frames; [sock], [sock']: the socket
    takes the first message, and the close frame after it. *)
Inductive WsEvent :=
| EvSocket (up : bool) (now : Z) (msg : option (result Message string))
| EvJoin
| EvServer (sock sock' : bool) (item : option (result IoServerFrame ApiError))
| EvTick (sock sock' : bool) (now : Z).

Section exec_session.
Context `{Prost}.

Definition stop_reading (s : WsSession) : WsSession :=
  {| ws_reading := false; ws_last_pong := ws_last_pong s; ws_upstream := ws_upstream s;
     ws_sent := ws_sent s; ws_open := ws_open s |}.
Definition send_message (m : Message) (s : WsSession) : WsSession :=
  {| ws_reading := ws_reading s; ws_last_pong := ws_last_pong s; ws_upstream := ws_upstream s;
     ws_sent := ws_sent s ++ [m]; ws_open := ws_open s |}.
Definition leave (s : WsSession) : WsSession :=
  {| ws_reading := ws_reading s; ws_last_pong := ws_last_pong s; ws_upstream := ws_upstream s;
     ws_sent := ws_sent s; ws_open := false |}.
Definition send_close (sock : bool) (frame : option (Z * string)) (s : WsSession) : WsSession :=
  leave (if sock then send_message (MClose frame) s else s).

(** Task A: one message of the client. *)
Definition recv_message (up : bool) (now : Z) (msg : option (result Message string))
    (s : WsSession) : WsSession :=
  match msg with
  | None | Some (Err _) => stop_reading s
  | Some (Ok (MBinary bs)) =>
      match decode_client bs with
      | Ok payload =>
          if up then
            {| ws_reading := ws_reading s; ws_last_pong := ws_last_pong s;
               ws_upstream := ws_upstream s ++ [build_client_frame payload];
               ws_sent := ws_sent s; ws_open := ws_open s |}
          else stop_reading s
      | Err _ => stop_reading s
      end
  | Some (Ok (MText _)) | Some (Ok (MClose _)) => stop_reading s
  | Some (Ok MPong) =>
      {| ws_reading := ws_reading s; ws_last_pong := now; ws_upstream := ws_upstream s;
         ws_sent := ws_sent s; ws_open := ws_open s |}
  | Some (Ok MPing) => s
  end.

(** Task B: one item of the proxy. *)
Definition server_item (sock sock' : bool) (item : option (result IoServerFrame ApiError))
    (s : WsSession) : WsSession :=
  match item with
  | None => leave s
  | Some (Err e) => send_close sock (Some (4500%Z, ApiError_to_string e)) s
  | Some (Ok server_frame) =>
      match encode_server server_frame with
      | Err _ => leave s
      | Ok bytes =>
          if sock then
            let s := send_message (MBinary bytes) s in
            match isf_payload server_frame with
            | Some (SExited _ _) | Some (SError _ _) => send_close sock' None s
            | _ => s
            end
          else leave s
      end
  end.

(** Task B: the keepalive timer. *)
Definition ping_tick (sock sock' : bool) (now : Z) (s : WsSession) : WsSession :=
  if sock then
    let s := send_message MPing s in
    if decide (now - ws_last_pong s > WS_IDLE_PING_TIMEOUT)%Z
    then send_close sock' (Some (4408%Z, "ping timeout")) s else s
  else leave s.

(** The loop looks first whether the reader has ended. The reader is not stopped with it. *)
Definition ws_step (s : WsSession) (ev : WsEvent) : WsSession :=
  match ev with
  | EvSocket up now msg => if ws_reading s then recv_message up now msg s else s
  | EvJoin => if ws_open s && negb (ws_reading s) then leave s else s
  | EvServer sock sock' item =>
      if negb (ws_open s) then s else if negb (ws_reading s) then leave s
      else server_item sock sock' item s
  | EvTick sock sock' now =>
      if negb (ws_open s) then s else if negb (ws_reading s) then leave s
      else ping_tick sock sock' now s
  end.

Definition pump_ws_session (now : Z) (evs : list WsEvent) : WsSession :=
  foldl ws_step (ws_begin now) evs.
End exec_session.

(** ** The read stream *)

Definition close_for_api_error (e : ApiError) : Z * string :=
  match e with
  | FileNotFound resolved_path => (4404, "FILE_NOT_FOUND: " +:+ resolved_path)
  | SandboxGone sandbox_id => (4404, "SANDBOX_GONE: " +:+ sandbox_id)
  | ProxyUnavailable _ => (4503, ApiError_to_string e)
  | RevisionMismatch actual => (4409, "REVISION_MISMATCH: " +:+ actual)
  | NotImplemented detail => (4501, "NOT_IMPLEMENTED: " +:+ detail)
  | DirectoryNotEmpty detail => (4409, "DIRECTORY_NOT_EMPTY: " +:+ detail)
  | _ => (4500, ApiError_to_string e)
  end%Z.

Section read_stream.
(** serde_json's text of the revision and the size. *)
Variable meta_json : string → Z → string.

(** What is sent; [room] is how many more messages the client takes, [None] when it takes all. *)
Definition sent_if (room : option nat) (m : Message) (k : option nat → list Message) : list Message :=
  match room with
  | None => m :: k None
  | Some O => []
  | Some (S n) => m :: k (Some n)
  end.
Definition close_with (room : option nat) (frame : Z * string) : list Message :=
  sent_if room (MClose (Some frame)) (λ _, []).

Fixpoint read_pump (room : option nat) (server_rx : list (result IoServerFrame ApiError))
    : list Message :=
  match server_rx with
  | [] => close_with room (4503%Z, "proxy stream ended without terminal frame")
  | Err e :: _ => close_with room (close_for_api_error e)
  | Ok f :: rest =>
      match isf_payload f with
      | Some (SStdout chunk) => sent_if room (MBinary chunk) (λ room, read_pump room rest)
      | Some (SFileMeta revision size) =>
          sent_if room (MText (meta_json revision size)) (λ room, read_pump room rest)
      | Some (SExited exit_code _) =>
          if decide (exit_code = 0)%Z then close_with room (1000%Z, "EOF")
          else close_with room (4500%Z, "read exited with " +:+ pretty exit_code)
      | Some (SError code detail) => close_with room (close_for_api_error (map_io_error code detail))
      | _ => read_pump room rest
      end
  end.

(** The start frame always has room in the channel, so its send does not fail. *)
Definition run_read_session (rpc : Rpc) (internal_token : option string)
    (metadata_value : string → result string string) (room : option nat) (start : IoStart)
    : list Message :=
  match open_io_stream rpc internal_token metadata_value [build_client_frame (CStart start)] with
  | Err e => close_with room (close_for_api_error e)
  | Ok server_rx => read_pump room server_rx
  end.
End read_stream.

(** ** The two ways to read a file agree *)

Section read_theorem.
Variable meta_json : string → Z → string.

Definition meta_text (m : UnaryFileMeta) : string := meta_json (um_revision m) (um_size m).

(** [msgs] is [body] and one close frame. *)
Definition closed_by (frame : Z * string) (body msgs : list Message) : Prop :=
  msgs = body ++ [MClose (Some frame)] ∧ existsb is_close body = false.

(** What the unary read answers, given what the loop has gathered, and the messages of the
    stream from there on. *)
Definition agrees (buf : bytes) (meta : option UnaryFileMeta) (r : result ReadFileResult ApiError)
    (msgs : list Message) : Prop :=
  match r with
  | Ok r => ∃ body, closed_by (1000%Z, "EOF") body msgs ∧
      rf_bytes r = buf +:+ flatten (omap binary_of body) ∧
      match last (omap text_of body) with
      | Some t => ∃ m, rf_meta r = Some m ∧ t = meta_text m
      | None => rf_meta r = meta
      end
  | Err e => ∃ body code reason, closed_by (code, reason) body msgs ∧
      (code = 4000 + api_error_status e ∨ e = no_terminal ∧ code = 4503)%Z
  end.

Lemma agrees_binary buf meta chunk r msgs :
  agrees (buf +:+ chunk) meta r msgs → agrees buf meta r (MBinary chunk :: msgs).
Proof.
  destruct r as [r|e]; cbn.
  - intros (body & [-> Hc] & -> & Hm). exists (MBinary chunk :: body).
    split; [done|]. split; [|done]. cbn. apply append_assoc.
  - intros (body & code & reason & [-> Hc] & H). by exists (MBinary chunk :: body), code, reason.
Qed.

Lemma agrees_text buf meta m r msgs :
  agrees buf (Some m) r msgs → agrees buf meta r (MText (meta_text m) :: msgs).
Proof.
  destruct r as [r|e]; cbn.
  - intros (body & [-> Hc] & Hb & Hm). exists (MText (meta_text m) :: body).
    split; [done|]. split; [done|]. cbn [omap list_omap text_of]. rewrite last_cons.
    destruct (last (omap text_of body)); [done|by exists m].
  - intros (body & code & reason & [-> Hc] & H). by exists (MText (meta_text m) :: body), code, reason.
Qed.

Lemma agrees_close buf meta e code reason :
  (code = 4000 + api_error_status e ∨ e = no_terminal ∧ code = 4503)%Z →
  agrees buf meta (Err e) (close_with None (code, reason)).
Proof. intros Hc. by exists [], code, reason. Qed.

(** The errors a session can meet are the ones the close codes distinguish. *)
Lemma close_code_io code detail :
  ((close_for_api_error (map_io_error code detail)).1 =
   4000 + api_error_status (map_io_error code detail))%Z.
Proof. unfold map_io_error. by destruct (IoErrorCode.from code). Qed.

Lemma close_code_status st :
  ((close_for_api_error (stream_status st)).1 = 4000 + api_error_status (stream_status st))%Z.
Proof. unfold stream_status. by destruct (code st). Qed.

Lemma read_pump_agrees items buf meta :
  agrees buf meta (stream_loop buf meta (pump_inbound items))
    (read_pump meta_json None (pump_inbound items)).
Proof.
  revert buf meta. induction items as [|[f|st] items IH]; intros buf meta; cbn [pump_inbound].
  - apply agrees_close. by right.
  - cbn [stream_loop read_pump]. destruct (isf_payload f) as [p|]; [|apply IH].
    destruct p; try apply IH.
    + apply agrees_binary, IH.
    + case_decide as Hx; [rewrite decide_False by tauto|rewrite decide_True by tauto].
      * apply agrees_close. by left.
      * exists []. split; [done|]. split; [by rewrite append_nil|done].
    + pose proof (close_code_io code detail) as Hc.
      destruct (close_for_api_error _) as [c reason]. apply agrees_close. by left.
    + apply (agrees_text buf meta {| um_revision := revision; um_size := size |}), IH.
  - cbn [stream_loop read_pump]. pose proof (close_code_status st) as Hc.
    destruct (close_for_api_error _) as [c reason]. apply agrees_close. by left.
Qed.

Lemma read_stream_agreement rpc token metadata_value start :
  let msgs := run_read_session meta_json rpc token metadata_value None start in
  match stream_via_io_stream rpc token metadata_value start with
  | Ok r => ∃ body, closed_by (1000%Z, "EOF") body msgs ∧ rf_bytes r = flatten (omap binary_of body) ∧
      last (omap text_of body) = meta_text <$> rf_meta r
  | Err e => ∃ body code reason, closed_by (code, reason) body msgs ∧
      (code = 4000 + api_error_status e ∨ e = no_terminal ∧ code = 4503)%Z
  end.
Proof.
  intros msgs. unfold msgs, run_read_session, stream_via_io_stream, open_io_stream.
  set (frames := [build_client_frame (CStart start)]).
  destruct (match token with Some _ => _ | None => _ end) as [header|e] eqn:Et; cbn [bind_result].
  - destruct (rpc header frames) as [inbound|st]; cbn [bind_result].
    + pose proof (read_pump_agrees inbound "" None) as Ha.
      destruct (stream_loop "" None (pump_inbound inbound)) as [r|e]; cbn in Ha.
      * destruct Ha as (body & Hc & Hb & Hm). exists body. split; [done|]. split; [done|].
        destruct (last (omap text_of body)); [by destruct Hm as (m & -> & ->)|by rewrite Hm].
      * destruct Ha as (body & code & reason & Hc & Hs). by exists body, code, reason.
    + exists [], (close_for_api_error (open_status st)).1, (close_for_api_error (open_status st)).2.
      split; [by destruct (close_for_api_error _)|]. left. unfold open_status. by destruct (code st).
  - exists [], 4500%Z, (ApiError_to_string e).
    destruct token; [|done]. destruct (metadata_value _); [done|]. simplify_eq/=.
    split; [done|]. left. done.
Qed.

(** C37: Reading a file over a WebSocket and over REST agree, whatever the proxy sends: where
    the unary read answers with a file, the stream sends exactly its bytes, in order, with its
    revision as the last text message, and closes with 1000; where the unary read answers with
    an error, the stream closes with 4000 plus the HTTP status of that error, except that a
    stream that ends without a terminal frame is 4503 where the unary read is 500. There is
    one close frame, and it is the last message. *)
Theorem read_stream_agrees_with_rest rpc token metadata_value start :
  let msgs := run_read_session meta_json rpc token metadata_value None start in
  match stream_via_io_stream rpc token metadata_value start with
  | Ok r => ∃ body, closed_by (1000%Z, "EOF") body msgs ∧ rf_bytes r = flatten (omap binary_of body) ∧
      last (omap text_of body) = meta_text <$> rf_meta r
  | Err e => ∃ body code reason, closed_by (code, reason) body msgs ∧
      (code = 4000 + api_error_status e ∨ e = no_terminal ∧ code = 4503)%Z
  end.
Proof. apply read_stream_agreement. Qed.
End read_theorem.

(** ** The client crate's streaming read (crates/ws-client/src/lib.rs) *)

Inductive WsClientError :=
| WsConnect (e : string)
| WsIo (e : string)
| WsProtocol (e : string)
| WsClosed
| WsReadTimeout (timeout : Z).
Definition text_rejected : WsClientError := WsProtocol "received text frame; expected binary".

(** One message for [ReadFileSession::next_chunk]: it goes on, has a chunk, or is at the end. *)
Definition next_chunk (m : Message) : option (result (option bytes) WsClientError) :=
  match m with
  | MBinary b => Some (Ok (Some b))
  | MClose (Some (code, reason)) =>
      Some (if decide (code = 1000)%Z then Ok None
            else Err (WsProtocol ("server closed with code " +:+ pretty code +:+ " reason: " +:+ reason)))
  | MClose None => Some (Ok None)
  | MPing | MPong => None
  | MText _ => Some (Err text_rejected)
  end.

(** A caller that reads until the end. *)
Fixpoint client_read (buf : bytes) (msgs : list Message) : result bytes WsClientError :=
  match msgs with
  | [] => Err WsClosed
  | m :: msgs =>
      match next_chunk m with
      | None => client_read buf msgs
      | Some (Ok (Some b)) => client_read (buf +:+ b) msgs
      | Some (Ok None) => Ok buf
      | Some (Err e) => Err e
      end
  end.

(** Up to the close frame, a text message is an error and everything else is read. *)
Lemma client_read_body buf body tail :
  existsb is_close body = false →
  client_read buf (body ++ tail) =
  match omap text_of body with
  | [] => client_read (buf +:+ flatten (omap binary_of body)) tail
  | _ :: _ => Err text_rejected
  end.
Proof.
  revert buf. induction body as [|m body IH]; intros buf; cbn [app existsb].
  { intros _. by rewrite append_nil. }
  intros [Hm Hb]%orb_false_iff. cbn [client_read]. destruct m; try done; cbn.
  - rewrite IH by done. cbn [flatten foldr]. by rewrite append_assoc.
  - by rewrite IH.
  - by rewrite IH.
Qed.

(** What the client crate makes of a streaming read, whatever the proxy sends: it fails
    when the unary read fails, and otherwise gets exactly the bytes of the file when there is
    no revision to report; but when there is one, the text message that carries it makes the
    client fail, although the gateway takes clients to skip it. *)
Theorem sdk_read_stream meta_json rpc token metadata_value start :
  let got := client_read "" (run_read_session meta_json rpc token metadata_value None start) in
  match stream_via_io_stream rpc token metadata_value start with
  | Ok r => got = match rf_meta r with None => Ok (rf_bytes r) | Some _ => Err text_rejected end
  | Err _ => ∃ e, got = Err e
  end.
Proof.
  intros got. unfold got.
  pose proof (read_stream_agreement meta_json rpc token metadata_value start) as Ha.
  destruct (stream_via_io_stream rpc token metadata_value start) as [r|e].
  - destruct Ha as (body & [-> Hc] & Hb & Hm). rewrite client_read_body by done.
    destruct (omap text_of body) as [|t ts] eqn:Et.
    + cbn in Hm. destruct (rf_meta r); [done|]. by rewrite Hb.
    + assert (is_Some (last (t :: ts))) as [x Hx] by by apply last_is_Some.
      rewrite Hx in Hm. by destruct (rf_meta r).
  - destruct Ha as (body & code & reason & [-> Hc] & Hcode). rewrite client_read_body by done.
    destruct (omap text_of body); [|by eexists]. cbn.
    rewrite decide_False; [by eexists|]. destruct Hcode as [->|[_ ->]]; [|done]. destruct e; done.
Qed.

(** ** The exec session relays *)

Section exec_theorem.
Context (P : Prost) (utf8 : string → Prop) `{!ProstLaws P utf8}.
Implicit Types (s : WsSession) (evs : list WsEvent).

(** The payloads the proxy sends, and what the client sends that can be decoded. *)
Definition served1 (ev : WsEvent) : option IoServerPayload :=
  match ev with EvServer _ _ (Some (Ok f)) => isf_payload f | _ => None end.
Definition served (evs : list WsEvent) : list IoServerPayload := omap served1 evs.
Definition asked1 (ev : WsEvent) : option IoClientPayload :=
  match ev with EvSocket _ _ (Some (Ok (MBinary b))) => result_ok (decode_client b) | _ => None end.
Definition asked (evs : list WsEvent) : list IoClientPayload := omap asked1 evs.

(** What the client crate makes of the messages it gets. *)
Definition client_view (msgs : list Message) : list (result ServerFrame string) :=
  ws_decode_server <$> omap binary_of msgs.

#[local] Arguments client_view : simpl never.

(** An event that does not end a session whose last pong came at [pong]. *)
Definition harmless (pong : Z) (ev : WsEvent) : bool :=
  match ev with
  | EvSocket up _ (Some (Ok (MBinary b))) => up && bool_decide (is_Some (result_ok (decode_client b)))
  | EvSocket _ _ (Some (Ok MPing)) | EvSocket _ _ (Some (Ok MPong)) => true
  | EvSocket _ _ _ => false
  | EvJoin => true
  | EvServer sock _ (Some (Ok f)) =>
      sock && match isf_payload f with Some p => negb (is_terminal_payload p) | None => false end
  | EvServer _ _ _ => false
  | EvTick sock _ now => sock && bool_decide (now - pong ≤ WS_IDLE_PING_TIMEOUT)%Z
  end.
Definition pong_after (pong : Z) (ev : WsEvent) : Z :=
  match ev with EvSocket _ now (Some (Ok MPong)) => now | _ => pong end.
Fixpoint undisturbed (pong : Z) (evs : list WsEvent) : bool :=
  match evs with
  | [] => true
  | ev :: evs => harmless pong ev && undisturbed (pong_after pong ev) evs
  end.

(** While the loop runs, the client has got exactly the payloads [fs], none of them terminal,
    and no close frame; afterwards at most one close frame, the last message, and a terminal
    payload only as the last of [fs]. *)
Definition relayed_ok (fs : list IoServerPayload) s : Prop :=
  client_view (ws_sent s) = Ok ∘ server_frame <$> fs ∧
  if ws_open s then Forall (λ p, is_terminal_payload p = false) fs ∧ existsb is_close (ws_sent s) = false
  else ∃ body tail, ws_sent s = body ++ tail ∧ existsb is_close body = false ∧
    ((tail = [] ∨ ∃ code reason, tail = [MClose (Some (code, reason))]) ∧
       Forall (λ p, is_terminal_payload p = false) fs ∨
     (tail = [] ∨ tail = [MClose None]) ∧
       ∃ fs' p, fs = fs' ++ [p] ∧ is_terminal_payload p = true ∧ Forall (λ p, is_terminal_payload p = false) fs').

Lemma client_view_app l1 l2 : client_view (l1 ++ l2) = client_view l1 ++ client_view l2.
Proof. unfold client_view. by rewrite omap_app, fmap_app. Qed.

Lemma existsb_close_app l1 l2 : existsb is_close (l1 ++ l2) = existsb is_close l1 || existsb is_close l2.
Proof. apply existsb_app. Qed.

(** Leaving the loop while nothing terminal was relayed. *)
Lemma relayed_leave fs s : ws_open s = true → relayed_ok fs s → relayed_ok fs (leave s).
Proof.
  intros Ho [Hv H]. rewrite Ho in H. destruct H as [Hf Hc]. split; [done|]. cbn.
  exists (ws_sent s), []. rewrite app_nil_r. split; [done|]. split; [done|]. left. by split; [left|].
Qed.

Lemma relayed_close sock code reason fs s :
  ws_open s = true → relayed_ok fs s → relayed_ok fs (send_close sock (Some (code, reason)) s).
Proof.
  intros Ho Hr. destruct sock; [|by apply relayed_leave]. destruct Hr as [Hv H]. rewrite Ho in H.
  destruct H as [Hf Hc]. split.
  - cbn. rewrite client_view_app, Hv. apply app_nil_r.
  - cbn. exists (ws_sent s), [MClose (Some (code, reason))]. split; [done|]. split; [done|].
    left. split; [|done]. right. by exists code, reason.
Qed.

(** A payload that is encoded for the client. *)
Lemma relayed_send fs s f p :
  isf_payload f = Some p → payload_ok utf8 p → relayed_ok fs s → ws_open s = true →
  ∃ b, encode_server f = Ok b ∧
    client_view (ws_sent (send_message (MBinary b) s)) = Ok ∘ server_frame <$> (fs ++ [p]).
Proof.
  intros Hf Hp [Hv _] Ho. destruct f as [id q]. cbn in Hf. subst q.
  destruct (encode_server_roundtrip P utf8 id p Hp) as (b & Hb & _ & Hd). exists b. split; [done|].
  cbn. rewrite client_view_app, Hv, fmap_app. f_equal. unfold client_view. cbn. by rewrite Hd.
Qed.

Lemma relayed_server sock sock' item fs s :
  ws_open s = true → relayed_ok fs s →
  Forall (payload_ok utf8) (option_list (served1 (EvServer sock sock' item))) →
  let s' := server_item sock sock' item s in
  ∃ fs', relayed_ok (fs ++ fs') s' ∧ fs' `prefix_of` option_list (served1 (EvServer sock sock' item)) ∧
    (ws_open s' = true → fs' = option_list (served1 (EvServer sock sock' item))).
Proof.
  intros Ho Hr Hp. destruct item as [[f|e]|]; cbn [server_item served1] in *.
  - destruct (isf_payload f) as [p|] eqn:Hf.
    + assert (payload_ok utf8 p) as Hok by by inversion Hp.
      destruct (relayed_send fs s f p Hf Hok Hr Ho) as (b & -> & Hv).
      destruct sock; cbn zeta.
      * exists [p]. split; [|done]. destruct Hr as [_ H]. rewrite Ho in H. destruct H as [Hn Hc].
        assert (existsb is_close (ws_sent s ++ [MBinary b]) = false) as Hc2
          by (rewrite existsb_close_app, Hc; done).
        assert (is_terminal_payload p = false → relayed_ok (fs ++ [p]) (send_message (MBinary b) s)) as Hgo.
        { intros Ht. split; [done|]. cbn. rewrite Ho. split; [|done].
          apply Forall_app_2; [done|]. by constructor. }
        assert (is_terminal_payload p = true →
          relayed_ok (fs ++ [p]) (send_close sock' None (send_message (MBinary b) s))) as Hend.
        { intros Ht. destruct sock'.
          - split; [cbn; rewrite client_view_app; cbn in Hv; rewrite Hv; apply app_nil_r|].
            cbn. exists (ws_sent s ++ [MBinary b]), [MClose None]. split; [done|]. split; [done|].
            right. split; [by right|]. by exists fs, p.
          - split; [done|]. cbn. exists (ws_sent s ++ [MBinary b]), []. rewrite app_nil_r.
            split; [done|]. split; [done|]. right. split; [by left|]. by exists fs, p. }
        destruct p; try (by apply Hgo); by apply Hend.
      * exists []. rewrite app_nil_r. split; [by apply relayed_leave|]. split; [apply prefix_nil|done].
    + exists []. unfold encode_server. rewrite Hf, app_nil_r. split; [by apply relayed_leave|done].
  - exists []. rewrite app_nil_r. split; [by apply relayed_close|done].
  - exists []. rewrite app_nil_r. split; [by apply relayed_leave|done].
Qed.

Lemma relayed_tick sock sock' now fs s :
  ws_open s = true → relayed_ok fs s → relayed_ok fs (ping_tick sock sock' now s).
Proof.
  intros Ho Hr. unfold ping_tick. destruct sock; [|by apply relayed_leave].
  assert (relayed_ok fs (send_message MPing s)) as Hp.
  { destruct Hr as [Hv H]. rewrite Ho in H. destruct H as [Hn Hc]. split.
    - cbn. rewrite client_view_app, Hv. apply app_nil_r.
    - cbn. rewrite Ho. split; [done|]. by rewrite existsb_close_app, Hc. }
  case_decide; [by apply relayed_close|done].
Qed.

(** The reader leaves what was sent to the client alone. *)
Lemma recv_message_sent up now msg s :
  ws_sent (recv_message up now msg s) = ws_sent s ∧ ws_open (recv_message up now msg s) = ws_open s.
Proof.
  destruct msg as [[m|e]|]; [|done..]. destruct m; try done. cbn.
  destruct (decode_client b); [by destruct up|done].
Qed.

Lemma relayed_ext fs s s' :
  ws_sent s' = ws_sent s → ws_open s' = ws_open s → relayed_ok fs s → relayed_ok fs s'.
Proof. unfold relayed_ok. by intros -> ->. Qed.

(** A loop that was left sends nothing more. *)
Lemma closed_stays evs s :
  ws_open s = false →
  ws_sent (foldl ws_step s evs) = ws_sent s ∧ ws_open (foldl ws_step s evs) = false.
Proof.
  revert s. induction evs as [|ev evs IH]; intros s Ho; [done|].
  assert (ws_sent (ws_step s ev) = ws_sent s ∧ ws_open (ws_step s ev) = false) as [H1 H2].
  { destruct ev; cbn; rewrite ?Ho; try done. destruct (ws_reading s); [|done].
    destruct (recv_message_sent up now msg s) as [-> ->]. done. }
  cbn. destruct (IH _ H2) as [-> ->]. by rewrite H1.
Qed.

Lemma step_relays ev s fs :
  ws_open s = true → relayed_ok fs s → Forall (payload_ok utf8) (option_list (served1 ev)) →
  ∃ fs', relayed_ok (fs ++ fs') (ws_step s ev) ∧ fs' `prefix_of` option_list (served1 ev) ∧
    (ws_open (ws_step s ev) = true → fs' = option_list (served1 ev)).
Proof.
  intros Ho Hr Hp.
  destruct ev as [up now msg| |sock sock' item|sock sock' now]; cbn [ws_step]; rewrite ?Ho; cbn [negb andb].
  - exists []. rewrite app_nil_r. split; [|done]. destruct (ws_reading s); [|done].
    destruct (recv_message_sent up now msg s). by eapply relayed_ext.
  - exists []. rewrite app_nil_r. split; [|done]. destruct (ws_reading s); [done|by apply relayed_leave].
  - destruct (ws_reading s); cbn [negb]; [by apply relayed_server|].
    exists []. rewrite app_nil_r. split; [by apply relayed_leave|]. split; [apply prefix_nil|done].
  - exists []. rewrite app_nil_r. split; [|done].
    destruct (ws_reading s); cbn [negb]; [by apply relayed_tick|by apply relayed_leave].
Qed.

Lemma served_cons ev evs : served (ev :: evs) = option_list (served1 ev) ++ served evs.
Proof. unfold served. cbn. by destruct (served1 ev). Qed.

Lemma run_relays evs s fs :
  ws_open s = true → relayed_ok fs s → Forall (payload_ok utf8) (served evs) →
  ∃ fs', relayed_ok (fs ++ fs') (foldl ws_step s evs) ∧ fs' `prefix_of` served evs ∧
    (ws_open (foldl ws_step s evs) = true → fs' = served evs).
Proof.
  revert s fs. induction evs as [|ev evs IH]; intros s fs Ho Hr Hp.
  - exists []. by rewrite app_nil_r.
  - rewrite served_cons in Hp. apply Forall_app in Hp as [Hp1 Hp2].
    destruct (step_relays ev s fs Ho Hr Hp1) as (f1 & Hr1 & Hpre1 & Heq1). cbn [foldl].
    rewrite served_cons. destruct (ws_open (ws_step s ev)) eqn:Ho1.
    + rewrite (Heq1 eq_refl) in Hr1.
      destruct (IH _ _ Ho1 Hr1 Hp2) as (f2 & Hr2 & Hpre2 & Heq2). exists (option_list (served1 ev) ++ f2).
      rewrite app_assoc. split; [done|]. split; [by apply prefix_app|].
      intros Hopen. by rewrite (Heq2 Hopen).
    + exists f1. destruct (closed_stays evs _ Ho1) as [Hs Ho2].
      split; [eapply relayed_ext; [exact Hs|by rewrite Ho2, Ho1|done]|].
      split; [by apply prefix_app_r|]. by rewrite Ho2.
Qed.

(** Only the reader sends to the proxy. *)
Lemma loop_upstream ev s :
  match ev with EvSocket _ _ _ => True | _ =>
    ws_upstream (ws_step s ev) = ws_upstream s ∧ ws_reading (ws_step s ev) = ws_reading s ∧
    ws_last_pong (ws_step s ev) = ws_last_pong s end.
Proof.
  destruct ev as [up now msg| |sock sock' item|sock sock' now]; [done|..]; cbn [ws_step].
  - by destruct (_ && _).
  - destruct (ws_open s), (ws_reading s) eqn:Er; cbn [negb]; try (by rewrite ?Er); unfold server_item.
    destruct item as [[f|e]|]; [|by destruct sock|done]. destruct (encode_server f); [|done].
    destruct sock; [|done]. destruct (isf_payload f) as [[]|]; try done; by destruct sock'.
  - destruct (ws_open s), (ws_reading s) eqn:Er; cbn [negb]; try (by rewrite ?Er); unfold ping_tick.
    destruct sock; [|done]. case_decide; [by destruct sock'|done].
Qed.

Lemma asked_cons ev evs : asked (ev :: evs) = option_list (asked1 ev) ++ asked evs.
Proof. unfold asked. cbn. by destruct (asked1 ev). Qed.

Lemma step_upstream ev s :
  ∃ ps, ws_upstream (ws_step s ev) = ws_upstream s ++ (build_client_frame <$> ps) ∧
    ps `prefix_of` option_list (asked1 ev) ∧
    (ws_reading (ws_step s ev) = true → ws_reading s = true ∧ ps = option_list (asked1 ev)).
Proof.
  pose proof (loop_upstream ev s) as Hl. destruct ev as [up now msg| | |]; cbn [asked1 option_list];
    [|destruct Hl as (-> & -> & _); exists []; by rewrite app_nil_r..].
  assert (∀ s' l, ws_upstream s' = ws_upstream s → ws_reading s' = false →
    ∃ ps, ws_upstream s' = ws_upstream s ++ (build_client_frame <$> ps) ∧
      ps `prefix_of` l ∧ (ws_reading s' = true → ws_reading s = true ∧ ps = l)) as Hstop.
  { intros s' l H1 H2. exists []. rewrite app_nil_r. split; [done|]. split; [apply prefix_nil|]. by rewrite H2. }
  cbn [ws_step]. destruct (ws_reading s) eqn:Er; [|by apply Hstop].
  destruct msg as [[m|e]|]; cbn [recv_message]; [|by apply Hstop..].
  destruct m; try (by apply Hstop); try (exists []; by rewrite app_nil_r).
  cbn [asked1]. destruct (decode_client b) as [p|e]; cbn [result_ok option_list]; [|by apply Hstop].
  destruct up; [|by apply Hstop]. by exists [p].
Qed.

Lemma run_upstream evs s :
  ∃ ps, ws_upstream (foldl ws_step s evs) = ws_upstream s ++ (build_client_frame <$> ps) ∧
    ps `prefix_of` asked evs ∧
    (ws_reading (foldl ws_step s evs) = true → ws_reading s = true ∧ ps = asked evs).
Proof.
  revert s. induction evs as [|ev evs IH]; intros s; [exists []; by rewrite app_nil_r|].
  destruct (step_upstream ev s) as (p1 & Hu1 & Hpre1 & Heq1). cbn [foldl]. rewrite asked_cons.
  destruct (IH (ws_step s ev)) as (p2 & Hu2 & Hpre2 & Heq2).
  destruct (ws_reading (ws_step s ev)) eqn:Er.
  - destruct (Heq1 eq_refl) as [Hs ->]. exists (option_list (asked1 ev) ++ p2).
    rewrite Hu2, Hu1, fmap_app, app_assoc. split; [done|]. split; [by apply prefix_app|].
    intros Hr. by destruct (Heq2 Hr) as [_ ->].
  - exists p1. assert (ws_upstream (foldl ws_step (ws_step s ev) evs) = ws_upstream (ws_step s ev) ∧
      ws_reading (foldl ws_step (ws_step s ev) evs) = false) as [-> Hf].
    { clear -Er. revert Er. generalize (ws_step s ev) as t. induction evs as [|e evs IH]; intros t Ht; [done|].
      cbn. assert (ws_upstream (ws_step t e) = ws_upstream t ∧ ws_reading (ws_step t e) = false) as [<- H2].
      { pose proof (loop_upstream e t) as Hl. destruct e; [by cbn; rewrite Ht| | |];
          destruct Hl as (-> & -> & _); by rewrite Ht. }
      by apply IH. }
    split; [done|]. split; [by apply prefix_app_r|]. by rewrite Hf.
Qed.

(** Nothing but the listed events ends a session. *)
Lemma undisturbed_step ev s :
  ws_open s = true → ws_reading s = true → harmless (ws_last_pong s) ev = true →
  ws_open (ws_step s ev) = true ∧ ws_reading (ws_step s ev) = true ∧
  ws_last_pong (ws_step s ev) = pong_after (ws_last_pong s) ev.
Proof.
  intros Ho Hr Hh. destruct ev as [up now msg| |sock sock' item|sock sock' now];
    cbn [ws_step harmless pong_after] in *; rewrite ?Ho, ?Hr; cbn [andb negb].
  - destruct msg as [[m|]|]; [|done..]. destruct m; try done. cbn [recv_message].
    apply andb_true_iff in Hh as [-> [p Hd]%bool_decide_eq_true].
    destruct (decode_client b); [done|discriminate].
  - done.
  - destruct item as [[f|e]|]; [|done..]. apply andb_true_iff in Hh as [-> Hf]. cbn [server_item].
    destruct f as [id [p|]]; [|done]. cbn in Hf. unfold encode_server. cbn [isf_payload].
    destruct p; done.
  - apply andb_true_iff in Hh as [-> Ht%bool_decide_eq_true]. unfold ping_tick. cbn [send_message ws_last_pong].
    by rewrite decide_False by lia.
Qed.

Lemma undisturbed_open evs s :
  ws_open s = true → ws_reading s = true → undisturbed (ws_last_pong s) evs = true →
  ws_open (foldl ws_step s evs) = true ∧ ws_reading (foldl ws_step s evs) = true.
Proof.
  revert s. induction evs as [|ev evs IH]; intros s Ho Hr Hu; [done|].
  cbn in Hu. apply andb_true_iff in Hu as [Hh Hu].
  destruct (undisturbed_step ev s Ho Hr Hh) as (Ho' & Hr' & Hp'). cbn. apply IH; [done..|].
  by rewrite Hp'.
Qed.

(** C26: The exec socket relays, in every interleaving of client messages, proxy frames and
    timer ticks. The client crate decodes what it gets to exactly the proxy's payloads in
    order, all of them while the session is open; a terminal payload is the last one it gets;
    there is at most one close frame, the last message, without a code exactly after a
    terminal payload. The proxy gets exactly the client's frames in order, up to the first
    thing that stops the reader. Nothing but such a thing, a frame or a send that fails, a
    terminal payload or a silence of more than a minute ends the session, and a tick after
    such a silence always does. *)
Theorem exec_socket_relays now evs :
  Forall (payload_ok utf8) (served evs) →
  let s := pump_ws_session now evs in
  (∃ fs, relayed_ok fs s ∧ fs `prefix_of` served evs ∧ (ws_open s = true → fs = served evs)) ∧
  (∃ ps, ws_upstream s = build_client_frame <$> ps ∧ ps `prefix_of` asked evs ∧
     (ws_reading s = true → ps = asked evs)) ∧
  (undisturbed now evs = true → ws_open s = true ∧ ws_reading s = true) ∧
  (∀ sock sock' t, (t - ws_last_pong s > WS_IDLE_PING_TIMEOUT)%Z →
     ws_open (ws_step s (EvTick sock sock' t)) = false).
Proof.
  intros Hp s. split; [|split; [|split]].
  - exact (run_relays evs (ws_begin now) [] eq_refl (conj eq_refl (conj (Forall_nil_2 _) eq_refl)) Hp).
  - destruct (run_upstream evs (ws_begin now)) as (ps & Hu & Hpre & Heq). exists ps.
    split; [exact Hu|]. split; [done|]. intros Hr. by destruct (Heq Hr).
  - intros Hu. by apply undisturbed_open.
  - intros sock sock' t Ht. cbn [ws_step]. destruct (ws_open s) eqn:Ho; [|done]. cbn [negb].
    destruct (ws_reading s); [|done]. cbn [negb]. unfold ping_tick. destruct sock; [|done].
    cbn [send_message ws_last_pong]. by rewrite decide_True by lia; destruct sock'.
Qed.
End exec_theorem.

Module GatewayWsExamples.
Import ApiExamples.
#[local] Existing Instance bits_prost.

Definition frame_of (p : IoServerPayload) : IoServerFrame :=
  {| isf_stream_id := "io-1"; isf_payload := Some p |}.
Definition from_proxy (p : IoServerPayload) : WsEvent := EvServer true true (Some (Ok (frame_of p))).
Definition from_client (m : Message) : WsEvent := EvSocket true 0 (Some (Ok m)).

(** A command, its input, its output and its end, around a ping. *)
Definition echo : list WsEvent :=
  [from_client (MBinary (ws_start "s" ["cat"] None ∅)); from_proxy (SStarted "e" 7);
   from_client (MBinary (ws_stdin "hi")); EvTick true true 30000;
   EvSocket true 30001 (Some (Ok MPong)); from_proxy (SStdout "hi");
   from_client (MBinary ws_close_stdin); from_proxy (SExited 0 false);
   from_proxy (SStdout "late")].

Lemma exec_socket_relays_witness :
  let s := pump_ws_session 0 echo in
  (∃ fs, relayed_ok bits_prost fs s ∧ fs `prefix_of` served echo) ∧
  ws_open s = false ∧ length (client_view bits_prost (ws_sent s)) = 3 ∧ last (ws_sent s) = Some (MClose None).
Proof.
  destruct (@exec_socket_relays bits_prost (λ _, True) bits_laws 0 echo) as ((fs & H1 & H2 & _) & _).
  { unfold echo, served. cbn. repeat constructor; cbn; unfold in_i32; lia. }
  split; [by exists fs|]. split; [evaluate|]. split; evaluate.
Defined.

(** The socket of one sandbox carries a start frame for any other one, and for any operation
    and path, also one the file endpoints refuse. *)
Definition other_read : IoStart :=
  {| is_sandbox_id := "another sandbox"; is_params := Some (PReadFile "../../etc/shadow" "") |}.
Example exec_socket_unchecked :
  let s := pump_ws_session 0
    [from_client (MBinary (String (byte_of FRAME_KIND_START) (encode_msg other_read)))] in
  ws_upstream s = [build_client_frame (CStart other_read)] ∧ ws_open s = true ∧
  validate_sandbox_path "../../etc/shadow" = Err "path must not contain '..' segments".
Proof. split; [evaluate|]. split; evaluate. Qed.

(** With a tick every interval, a peer that never answers is let go at the third, and one that
    answers each ping within the interval never. *)
Definition tick (n : Z) : WsEvent := EvTick true true (n * WS_IDLE_PING_INTERVAL).
Example silent_peer_let_go :
  ws_open (pump_ws_session 0 [tick 1; tick 2]) = true ∧
  last (ws_sent (pump_ws_session 0 [tick 1; tick 2; tick 3])) =
    Some (MClose (Some (4408%Z, "ping timeout"))).
Proof. split; evaluate. Qed.
Example answering_peer_kept :
  undisturbed bits_prost 0
    [tick 1; EvSocket true 59999 (Some (Ok MPong)); tick 2; EvSocket true 89999 (Some (Ok MPong));
     tick 3; EvSocket true 119999 (Some (Ok MPong)); tick 4] = true.
Proof. evaluate. Qed.
End GatewayWsExamples.
