(* ===== verification/GatewayRouter.v ===== *)
(** * The gateway's router (crates/api/src/router.rs)

    The table of routes and the development CORS layer, and the gateway as one function from a
    request to its answer: the route's extractors and the handler of GatewayLifecycle.v,
    GatewayFiles.v or GatewayWs.v. axum matches a path segment by segment, runs a route's
    extractors before its handler, serves HEAD by GET, and answers 404 for an unknown path and
    405 for a known one with another method. *)

From S2P Require Import Prelude RustText Contracts UuidRef Store MemStore ControllerCore ControllerGrpc Management IoFrames Routing Tunnels ProxyGrpc IoStream HttpServer AgentSandbox AgentIo Api GatewayLifecycle GatewayFiles GatewayWs.

(** ** The CORS layer *)

Inductive AllowOrigin := AnyOrigin | OriginList (origins : list string).
Record CorsLayer := {
  cl_allow_methods : list string;
  cl_allow_headers : list string;
  cl_expose_headers : list string;
  cl_allow_origin : AllowOrigin;
}.

Definition strip_suffix_char (c : ascii) (s : string) : option string :=
  match string_rev s with
  | String a s' => if decide (a = c) then Some (string_rev s') else None
  | EmptyString => None
  end.
Definition strip_quotes (c : ascii) (s : string) : option string :=
  s ← strip_prefix (String c "") s; strip_suffix_char c s.

(** One entry of the variable: without blanks around it and one pair of quotes. *)
Definition cors_entry (s : string) : string :=
  let s := str_trim s in
  default s (match strip_quotes (ascii_of_N 34) s with Some t => Some t | None => strip_quotes "'" s end).

Definition cors_entries (raw : string) : list string :=
  filter (λ s, s ≠ "") (cors_entry <$> str_split "," raw).

(** [header_value_ok] is http's test of a header value. *)
Definition dev_cors_layer (header_value_ok : string → bool) (var : option string) : option CorsLayer :=
  match var with
  | None => None
  | Some raw =>
      let entries := cors_entries raw in
      if decide (entries = []) then None else
      let layer origin :=
        {| cl_allow_methods := ["GET"; "POST"; "DELETE"; "OPTIONS"];
           cl_allow_headers := ["authorization"; "content-type"; "x-cwd"];
           cl_expose_headers := ["content-type"; "x-file-revision"];
           cl_allow_origin := origin |} in
      let has_wildcard := bool_decide ("*" ∈ entries) in
      let explicit := filter (λ s, s ≠ "*") entries in
      if has_wildcard && bool_decide (explicit = []) then Some (layer AnyOrigin) else
      let parsed := filter (λ s, header_value_ok s = true) explicit in
      if decide (parsed = []) then None else Some (layer (OriginList parsed))
  end.

(** ** The routes *)

Inductive Handler :=
| HHealthz | HCreate | HList | HGet | HDelete | HPause | HUnpause
| HWriteFiles | HWriteFile | HRead | HReadStream | HListDir | HDeleteFile | HWaitPort | HExec.

#[global] Instance handler_eq_dec : EqDecision Handler.
Proof. solve_decision. Defined.

(** A literal segment, or the parameter [{id}]. *)
Inductive Seg := Lit (s : string) | Param.

Definition sandbox_route (rest : list string) : list Seg := [Lit "v1"; Lit "sandboxes"; Param] ++ (Lit <$> rest).

Definition route_table : list (list Seg * list (string * Handler)) :=
  [([Lit "healthz"], [("GET", HHealthz)]);
   ([Lit "v1"; Lit "sandboxes"], [("POST", HCreate); ("GET", HList)]);
   (sandbox_route [], [("GET", HGet); ("DELETE", HDelete)]);
   (sandbox_route ["pause"], [("POST", HPause)]);
   (sandbox_route ["unpause"], [("POST", HUnpause)]);
   (sandbox_route ["files"; "write_files"], [("POST", HWriteFiles)]);
   (sandbox_route ["files"; "write_file"], [("POST", HWriteFile)]);
   (sandbox_route ["files"; "read"], [("GET", HRead)]);
   (sandbox_route ["files"; "read-stream"], [("GET", HReadStream)]);
   (sandbox_route ["files"; "list"], [("GET", HListDir)]);
   (sandbox_route ["files"], [("DELETE", HDeleteFile)]);
   (sandbox_route ["wait_port_listening"], [("POST", HWaitPort)]);
   (sandbox_route ["exec"], [("GET", HExec)])].

(** The parameter's text when the segments match; a parameter is not empty. *)
Fixpoint match_segs (pat : list Seg) (segs : list string) : option (option string) :=
  match pat, segs with
  | [], [] => Some None
  | Lit l :: pat, s :: segs => if decide (l = s) then match_segs pat segs else None
  | Param :: pat, s :: segs =>
      if decide (s = "") then None else (λ r, Some (default s r)) <$> match_segs pat segs
  | _, _ => None
  end.

Fixpoint find_route (routes : list (list Seg * list (string * Handler))) (segs : list string)
    : option (list (string * Handler) * option string) :=
  match routes with
  | [] => None
  | (pat, ms) :: routes =>
      match match_segs pat segs with
      | Some id => Some (ms, id)
      | None => find_route routes segs
      end
  end.

Fixpoint find_method (ms : list (string * Handler)) (method : string) : option Handler :=
  match ms with
  | [] => None
  | (m, h) :: ms => if decide (m = method) then Some h else find_method ms method
  end.

Inductive Dispatch := Routed (h : Handler) (id : string) | UnknownPath | WrongMethod.

(** A path starts with a slash. *)
Definition dispatch (method path : string) : Dispatch :=
  match str_split "/" path with
  | "" :: segs =>
      match find_route route_table segs with
      | None => UnknownPath
      | Some (ms, id) =>
          match find_method ms (if decide (method = "HEAD") then "GET" else method) with
          | Some h => Routed h (default "" id)
          | None => WrongMethod
          end
      end
  | _ => UnknownPath
  end.

Definition FILE_UPLOAD_BODY_LIMIT_BYTES : Z := 64 * 1024 * 1024.
(** axum's default. *)
Definition DEFAULT_BODY_LIMIT_BYTES : Z := 2 * 1024 * 1024.

Definition body_limit (h : Handler) : Z :=
  match h with HWriteFiles | HWriteFile => FILE_UPLOAD_BODY_LIMIT_BYTES | _ => DEFAULT_BODY_LIMIT_BYTES end.

(** ** The gateway *)

Record ApiRequest := {
  aq_method : string;
  aq_path : string;
  aq_query : string;
  aq_headers : HeaderMap;
  aq_body : bytes;
}.

(** What becomes of an upgraded connection. *)
Inductive Session `{UuidLib} := ExecSession (sandbox_id : SandboxId) | ReadSession (start : IoStart).

Inductive GatewayResponse `{UuidLib} :=
| GText (status : Z) (text : string)
| GLifecycle (r : LifecycleResponse)
| GFile (r : Response)
| GSession (echo_protocol : option string) (s : Session).

(** axum's extractors: the percent-decoding of a path's parameter, the parse of a query string
    and of a JSON body (with the body, or the text of its refusal), the test of an upgrade
    request (the status of its refusal), and the texts of its own answers. *)
Class Extractors := {
  percent_decode : string → option string;
  read_query : string → option (string * option string);
  delete_query : string → option (string * option string * bool);
  create_json : HeaderMap → result bytes string → result CreateJson string;
  write_json : HeaderMap → result bytes string → result WriteFileRequest string;
  wait_json : HeaderMap → result bytes string → result (Z * Z) string;
  upgrade_refused : string → HeaderMap → option Z;
  axum_text : Z → string;
}.

Section gateway.
Context `{UuidLib, Extractors} {W : Type} `{!ControllerStore W}.
Context (api_key : string) (admin_token : option string) (expected_token : string).
Context (rpc : Rpc) (internal_token : option string) (metadata_value : string → result string string).
Context (b64url : string → string) (b64decode : string → result bytes string).
Context (header_value_ok : string → bool).

Definition refused (status : Z) : GatewayResponse := GText status (axum_text status).

(** The body as an extractor gets it. *)
Definition extracted (h : Handler) (body : bytes) : result bytes string :=
  if decide (body_limit h < Z.of_nat (String.length body))%Z then Err (axum_text 413) else Ok body.

Definition lifecycle (m : ST (Ctl W) LifecycleResponse) : ST (Ctl W) GatewayResponse :=
  let! r := m in st_ret (GLifecycle r).
Definition file (r : Response) : ST (Ctl W) GatewayResponse := st_ret (GFile r).

Definition with_query {A} (q : option A) (k : A → ST (Ctl W) GatewayResponse)
    : ST (Ctl W) GatewayResponse :=
  match q with Some a => k a | None => st_ret (refused 400) end.
Definition upgraded {A} (req : ApiRequest) (r : result A Response) (k : A → GatewayResponse)
    : ST (Ctl W) GatewayResponse :=
  match upgrade_refused (aq_method req) (aq_headers req) with
  | Some status => st_ret (refused status)
  | None => match r with Ok a => st_ret (k a) | Err resp => file resp end
  end.

(** [fresh] is the id the controller draws for a new sandbox. *)
Definition handle (fresh : SandboxId) (h : Handler) (id : string) (req : ApiRequest)
    : ST (Ctl W) GatewayResponse :=
  let hs := aq_headers req in
  let body := extracted h (aq_body req) in
  match h with
  | HHealthz => st_ret (GText 200 "ok")
  | HCreate => lifecycle (rest_create_sandbox api_key admin_token metadata_value expected_token fresh hs
                            (create_json hs body))
  | HList => lifecycle (rest_list_sandboxes api_key admin_token metadata_value expected_token hs)
  | HGet => lifecycle (rest_get_sandbox api_key admin_token metadata_value expected_token hs id)
  | HDelete => lifecycle (rest_delete_sandbox api_key admin_token metadata_value expected_token hs id)
  | HPause => lifecycle (rest_pause_sandbox api_key admin_token metadata_value expected_token hs id)
  | HUnpause => lifecycle (rest_unpause_sandbox api_key admin_token metadata_value expected_token hs id)
  | HWriteFiles =>
      match body with
      | Err _ => st_ret (refused 413)
      | Ok body => file (write_files rpc internal_token metadata_value api_key hs id body)
      end
  | HWriteFile => file (write_file rpc internal_token metadata_value b64decode api_key hs id (write_json hs body))
  | HRead => with_query (read_query (aq_query req)) (λ '(path, cwd),
      file (read_file rpc internal_token metadata_value header_value_ok api_key hs id path cwd))
  | HReadStream => with_query (read_query (aq_query req)) (λ '(path, cwd),
      upgraded req (ws_read_file b64url api_key hs id path cwd)
        (λ '(echo, start), GSession echo (ReadSession start)))
  | HListDir => with_query (read_query (aq_query req)) (λ '(path, cwd),
      file (list_dir rpc internal_token metadata_value api_key hs id path cwd))
  | HDeleteFile => with_query (delete_query (aq_query req)) (λ '(path, cwd, recursive),
      file (delete_file rpc internal_token metadata_value api_key hs id path cwd recursive))
  | HWaitPort => file (wait_port_listening rpc internal_token metadata_value api_key hs id (wait_json hs body))
  | HExec => upgraded req (ws_exec b64url api_key hs id) (λ '(echo, s), GSession echo (ExecSession s))
  end.

(** The answer to HEAD has no body. *)
Definition without_body (r : GatewayResponse) : GatewayResponse :=
  match r with
  | GText status _ => GText status ""
  | GLifecycle (status, _) => GLifecycle (status, LEmpty)
  | GFile r => GFile {| rp_status := rp_status r; rp_body := BEmpty; rp_headers := rp_headers r |}
  | GSession _ _ => r
  end.

Definition router (fresh : SandboxId) (req : ApiRequest) : ST (Ctl W) GatewayResponse :=
  match dispatch (aq_method req) (aq_path req) with
  | UnknownPath => st_ret (GText 404 "")
  | WrongMethod => st_ret (GText 405 "")
  | Routed h id =>
      match percent_decode id with
      | None => st_ret (refused 400)
      | Some id =>
          let! r := handle fresh h id req in
          st_ret (if decide (aq_method req = "HEAD") then without_body r else r)
      end
  end.

(** With the layer, preflight requests do not reach the router. *)
Definition build_router (cors : option CorsLayer) (fresh : SandboxId) (req : ApiRequest)
    : ST (Ctl W) GatewayResponse :=
  if bool_decide (is_Some cors) && bool_decide (aq_method req = "OPTIONS") then st_ret (GText 200 "")
  else router fresh req.
End gateway.

(** ** The table says which requests reach which handler *)

Definition has_id (h : Handler) : bool :=
  match h with HHealthz | HCreate | HList => false | _ => true end.
Definition segments_of (h : Handler) (id : string) : list string :=
  match h with
  | HHealthz => ["healthz"]
  | HCreate | HList => ["v1"; "sandboxes"]
  | HGet | HDelete => ["v1"; "sandboxes"; id]
  | HPause => ["v1"; "sandboxes"; id; "pause"]
  | HUnpause => ["v1"; "sandboxes"; id; "unpause"]
  | HWriteFiles => ["v1"; "sandboxes"; id; "files"; "write_files"]
  | HWriteFile => ["v1"; "sandboxes"; id; "files"; "write_file"]
  | HRead => ["v1"; "sandboxes"; id; "files"; "read"]
  | HReadStream => ["v1"; "sandboxes"; id; "files"; "read-stream"]
  | HListDir => ["v1"; "sandboxes"; id; "files"; "list"]
  | HDeleteFile => ["v1"; "sandboxes"; id; "files"]
  | HWaitPort => ["v1"; "sandboxes"; id; "wait_port_listening"]
  | HExec => ["v1"; "sandboxes"; id; "exec"]
  end.
Definition path_of (h : Handler) (id : string) : string := join_with "/" (segments_of h id).
Definition method_of (h : Handler) : string :=
  match h with
  | HCreate | HPause | HUnpause | HWriteFiles | HWriteFile | HWaitPort => "POST"
  | HDelete | HDeleteFile => "DELETE"
  | _ => "GET"
  end.
(** An id that is a path segment; none for the routes without one. *)
Definition id_ok (h : Handler) (id : string) : Prop :=
  if has_id h then id ≠ "" ∧ free_of "/" id = true else id = "".
Definition method_ok (h : Handler) (method : string) : Prop :=
  method = method_of h ∨ method = "HEAD" ∧ method_of h = "GET".

Lemma find_method_ok ms m h :
  find_method ms m = Some h → (m, h) ∈ ms.
Proof.
  induction ms as [|[m' h'] ms IH]; [done|]. cbn. case_decide as E; [|intros ?%IH; by right].
  intros [= ->]. subst. by left.
Qed.

Lemma match_lits ls segs r : match_segs (Lit <$> ls) segs = Some r → segs = ls ∧ r = None.
Proof.
  revert segs. induction ls as [|l ls IH]; intros [|s segs]; cbn; try done; [by intros [= <-]|].
  case_decide; [|done]. subst. by intros [-> ->]%IH.
Qed.

Lemma match_sandbox_route rest segs r :
  match_segs (sandbox_route rest) segs = Some r →
  ∃ id, id ≠ "" ∧ segs = "v1" :: "sandboxes" :: id :: rest ∧ r = Some id.
Proof.
  destruct segs as [|a [|b [|id segs]]]; cbn [sandbox_route app match_segs]; try (by repeat case_decide).
  case_decide; [|done]. case_decide; [|done]. case_decide; [done|].
  destruct (match_segs _ segs) as [r'|] eqn:E; [|done]. apply match_lits in E as [-> ->].
  intros [= <-]. subst. by exists id.
Qed.

Lemma find_route_in routes segs ms r :
  find_route routes segs = Some (ms, r) → ∃ pat, (pat, ms) ∈ routes ∧ match_segs pat segs = Some r.
Proof.
  induction routes as [|[pat ms'] routes IH]; [done|]. cbn. destruct (match_segs pat segs) as [r'|] eqn:E.
  - intros [= -> ->]. exists pat. split; [by left|done].
  - intros (pat' & ? & ?)%IH. exists pat'. split; [by right|done].
Qed.

(** What the handlers of a row have in common. *)
Definition row_ok (row : list Seg * list (string * Handler)) : Prop :=
  ∀ m h segs r, (m, h) ∈ row.2 → match_segs row.1 segs = Some r →
    m = method_of h ∧ segs = segments_of h (default "" r) ∧
    (if has_id h then default "" r ≠ "" else r = None).

Lemma lits_row ls ms :
  Forall (λ mh, mh.1 = method_of mh.2 ∧ has_id mh.2 = false ∧ segments_of mh.2 "" = ls) ms →
  row_ok (Lit <$> ls, ms).
Proof.
  intros Hms m h segs r Hin [-> ->]%match_lits. rewrite Forall_forall in Hms.
  destruct (Hms _ Hin) as (? & Hid & Hs). cbn in *. by rewrite Hid, Hs.
Qed.

Lemma sandbox_row rest ms :
  Forall (λ mh, mh.1 = method_of mh.2 ∧ has_id mh.2 = true ∧
                ∀ id, segments_of mh.2 id = "v1" :: "sandboxes" :: id :: rest) ms →
  row_ok (sandbox_route rest, ms).
Proof.
  intros Hms m h segs r Hin (id & Hid & -> & ->)%match_sandbox_route. rewrite Forall_forall in Hms.
  destruct (Hms _ Hin) as (? & Hh & Hs). cbn in *. by rewrite Hh, Hs.
Qed.

Lemma route_table_ok : Forall row_ok route_table.
Proof.
  unfold route_table. repeat first [apply Forall_nil_2 | apply Forall_cons_2].
  all: first [apply sandbox_row | apply (lits_row ["healthz"]) | apply (lits_row ["v1"; "sandboxes"])].
  all: by repeat constructor.
Qed.

Lemma find_route_complete h id :
  id_ok h id → ∃ ms, find_route route_table (segments_of h id) =
    Some (ms, if has_id h then Some id else None) ∧ find_method ms (method_of h) = Some h ∧
    (method_of h = "GET" → find_method ms "GET" = Some h).
Proof.
  unfold id_ok. destruct h; cbn [has_id]; intros Hid; try (by eexists);
    destruct Hid as [Hid _]; cbn; (destruct (decide (id = "")); [done|]); by eexists.
Qed.

Lemma segments_free h id : id_ok h id → Forall (λ w, free_of "/" w = true) (segments_of h id).
Proof. unfold id_ok. destruct h; cbn; intros Hid; repeat constructor; by try apply Hid. Qed.

(** The router's table is exact: a request reaches a handler, with an id, exactly when its
    path is the handler's path with that id as one non-empty segment and its method is the
    handler's, or HEAD where that is GET. Every handler is reachable, and no other path, with
    a slash too many or too few, reaches any. *)
Lemma dispatch_exact method path h id :
  dispatch method path = Routed h id ↔ path = path_of h id ∧ id_ok h id ∧ method_ok h method.
Proof.
  unfold dispatch, method_ok. split.
  - destruct (str_split "/" path) as [|w segs] eqn:E; [done|]. destruct w; [|done].
    destruct (find_route _ segs) as [[ms r]|] eqn:F; [|done]. destruct (find_method ms _) as [h'|] eqn:G; [|done].
    intros [= -> <-]. apply find_route_in in F as (pat & Hin & Hm). apply find_method_ok in G.
    pose proof route_table_ok as Ht. rewrite Forall_forall in Ht.
    destruct (Ht _ Hin _ _ _ _ G Hm) as (Hmeth & Hsegs & Hid).
    assert (path = path_of h (default "" r)) as Hpath.
    { rewrite (str_split_join "/" path), E, Hsegs. done. }
    split; [done|]. split; [|case_decide; [by right|by left]].
    unfold id_ok. destruct (has_id h) eqn:Eh; [|by subst r]. split; [done|].
    apply (str_split_free _ path). rewrite E, Hsegs. apply elem_of_cons. right.
    destruct h; try done; cbn; rewrite !elem_of_cons; tauto.
  - intros (-> & Hid & Hm). unfold path_of. rewrite str_split_joined by by apply segments_free.
    destruct (find_route_complete h id Hid) as (ms & -> & Hf & Hg).
    assert (find_method ms (if decide (method = "HEAD") then "GET" else method) = Some h) as ->.
    { destruct Hm as [->|[-> Hget]]; [|rewrite decide_True by done; by apply Hg].
      rewrite decide_False; [done|]. by destruct h. }
    f_equal. unfold id_ok in Hid. by destruct (has_id h).
Qed.

(** ** Nothing without the key *)

Section needs_key.
Context `{UuidLib, Extractors} {W : Type} `{!ControllerStore W}.
Context (api_key : string) (admin_token : option string) (expected_token : string).
Context (internal_token : option string) (metadata_value : string → result string string).
Context (b64url : string → string) (b64decode : string → result bytes string).
Context (header_value_ok : string → bool).

Abbreviation gateway rpc := (build_router (W := W) api_key admin_token expected_token rpc
  internal_token metadata_value b64url b64decode header_value_ok).

Definition gateway_status (r : GatewayResponse) : Z :=
  match r with
  | GText status _ | GLifecycle (status, _) => status
  | GFile r => rp_status r
  | GSession _ _ => 101
  end.

(** The answers a caller without the key may get. *)
Definition refusal (req : ApiRequest) (status : Z) : Prop :=
  status ∈ [400; 401; 404; 405; 413]%Z ∨
  upgrade_refused (aq_method req) (aq_headers req) = Some status.
Definition harmless_request (cors : option CorsLayer) (req : ApiRequest) : Prop :=
  is_Some cors ∧ aq_method req = "OPTIONS" ∨
  aq_path req = "/healthz" ∧ (aq_method req = "GET" ∨ aq_method req = "HEAD").

Lemma no_ws_key hs : check_ws_auth b64url hs api_key = None → check_rest_auth hs api_key = false.
Proof. unfold check_ws_auth, check_rest_auth. by destruct (bearer_matches hs api_key). Qed.

(** A computation that is settled without the proxy and leaves the controller alone. *)
Definition settled (req : ApiRequest) (m : Rpc → ST (Ctl W) GatewayResponse) : Prop :=
  ∃ resp, refusal req (gateway_status resp) ∧ (∀ echo s, resp ≠ GSession echo s) ∧
    ∀ rpc c, m rpc c = (resp, c).

Ltac settle := eexists; split; cycle 1; [split; cycle 1; [intros; cbn; reflexivity|done]|left; cbn; set_solver].

Lemma settled_valid_json {A} req (body : result A string) (k : Rpc → A → Response) :
  (∀ a, settled req (λ rpc, file (k rpc a))) → settled req (λ rpc, file (valid_json body (k rpc))).
Proof. destruct body; [by intros Hk; apply Hk|]. intros _. settle. Qed.

Lemma settled_authed req id (k : Rpc → SandboxId → Response) :
  check_rest_auth (aq_headers req) api_key = false →
  settled req (λ rpc, file (authed api_key (aq_headers req) id (k rpc))).
Proof. intros E. unfold authed. rewrite E. settle. Qed.

Lemma settled_with_key req (k : ST (Ctl W) LifecycleResponse) :
  check_rest_auth (aq_headers req) api_key = false →
  settled req (λ _, lifecycle (with_key api_key (aq_headers req) k)).
Proof.
  intros E. unfold with_key. rewrite E. settle.
Qed.

Lemma settled_query {A} req (q : option A) (k : Rpc → A → ST (Ctl W) GatewayResponse) :
  (∀ a, settled req (λ rpc, k rpc a)) → settled req (λ rpc, with_query q (k rpc)).
Proof. destruct q; [by intros Hk; apply Hk|]. intros _. settle. Qed.

Lemma settled_upgrade {A} req (r : result A Response) k :
  (∀ resp, r = Err resp → refusal req (rp_status resp)) → (∀ a, r ≠ Ok a) →
  settled req (λ _, upgraded req r k).
Proof.
  intros Hr Hno. unfold upgraded. destruct (upgrade_refused _ _) as [st|] eqn:E.
  - exists (refused st). split; [by right|done].
  - destruct r as [a|resp]; [by destruct (Hno a)|]. exists (GFile resp). split; [by apply Hr|done].
Qed.

(** The upgrade of a caller without the key. *)
Lemma ws_exec_refused req id :
  check_ws_auth b64url (aq_headers req) api_key = None →
  ∃ resp, ws_exec b64url api_key (aq_headers req) id = Err resp ∧ refusal req (rp_status resp).
Proof.
  intros E. unfold ws_exec, GatewayFiles.parse_sandbox_id. rewrite E.
  destruct (parse_str id); cbn; eexists; (split; [done|]); left; cbn; set_solver.
Qed.

Lemma ws_read_file_refused req id path cwd :
  check_ws_auth b64url (aq_headers req) api_key = None →
  ∃ resp, ws_read_file b64url api_key (aq_headers req) id path cwd = Err resp ∧ refusal req (rp_status resp).
Proof.
  intros E. unfold ws_read_file, GatewayFiles.parse_sandbox_id. rewrite E.
  assert (∀ msg, refusal req (rp_status (invalid_request msg))) as Hi by (intros; left; cbn; set_solver).
  destruct (parse_str id); cbn; [|by eexists]. case_decide; [by eexists|].
  destruct (validate_sandbox_path path); cbn; [|by eexists].
  assert (refusal req (rp_status unauthorized)) as Hu by (left; cbn; set_solver).
  destruct cwd as [c|]; cbn; [|by eexists]. case_decide; cbn; [by eexists|].
  destruct (validate_sandbox_path c); cbn; by eexists.
Qed.

Lemma handle_settled fresh h id req :
  check_ws_auth b64url (aq_headers req) api_key = None → h ≠ HHealthz →
  settled req (λ rpc, handle (W := W) api_key admin_token expected_token rpc internal_token
    metadata_value b64url b64decode header_value_ok fresh h id req).
Proof.
  intros Hws Hh. pose proof (no_ws_key _ Hws) as Hk.
  destruct h; cbn [handle]; [done|..]; try by apply settled_with_key.
  - unfold rest_create_sandbox. destruct (create_json _ _); [by apply settled_with_key|].
    settle.
  - unfold extracted. case_decide; [settle|by apply settled_authed].
  - apply settled_valid_json. intros a. by apply settled_authed.
  - apply settled_query. intros [path cwd]. by apply settled_authed.
  - apply settled_query. intros [path cwd].
    destruct (ws_read_file_refused req id path cwd Hws) as (resp & -> & Hr).
    apply settled_upgrade; [by intros ? [= <-]|done].
  - apply settled_query. intros [path cwd]. by apply settled_authed.
  - apply settled_query. intros [[path cwd] recursive]. by apply settled_authed.
  - apply settled_valid_json. intros [port timeout]. by apply settled_authed.
  - destruct (ws_exec_refused req id Hws) as (resp & -> & Hr). apply settled_upgrade; [by intros ? [= <-]|done].
Qed.

(** C10: Nothing happens without the key. A request whose headers carry the API key neither as
    a bearer token nor as a WebSocket protocol is answered without reading or changing the
    controller's state and without a session through the proxy, no matter what the proxy
    would answer; it opens no WebSocket; and the answer is a refusal, unless the request is the
    health check or a preflight for the CORS layer. *)
Theorem gateway_needs_key cors fresh req :
  check_ws_auth b64url (aq_headers req) api_key = None →
  ∃ resp, (∀ rpc c, gateway rpc cors fresh req c = (resp, c)) ∧
    (refusal req (gateway_status resp) ∨ harmless_request cors req) ∧
    ∀ echo s, resp ≠ GSession echo s.
Proof.
  intros Hws. unfold build_router. destruct (bool_decide (is_Some cors) && _) eqn:Ec.
  { apply andb_true_iff in Ec as [?%bool_decide_eq_true ?%bool_decide_eq_true].
    eexists. split; [done|]. split; [|done]. right. by left. }
  unfold router. destruct (dispatch _ _) as [h id| |] eqn:Ed;
    [|eexists; split; [done|]; split; [left; left; cbn; set_solver|done]..].
  apply dispatch_exact in Ed as (Hpath & _ & Hmeth).
  destruct (percent_decode id) as [id'|];
    [|eexists; split; [done|]; split; [left; left; cbn; set_solver|done]].
  destruct (decide (h = HHealthz)) as [->|Hh].
  { exists (if decide (aq_method req = "HEAD") then GText 200 "" else GText 200 "ok").
    split; [by intros rpc c; cbn; case_decide|]. split; [|intros echo s; by destruct (decide (aq_method req = "HEAD"))].
    right. right. split; [done|]. by destruct Hmeth as [|[]]; [left|right]. }
  destruct (handle_settled fresh h id' req Hws Hh) as (resp & Hr & Hns & Hm).
  exists (if decide (aq_method req = "HEAD") then without_body resp else resp).
  split; [intros rpc c; unfold st_bind; by rewrite Hm|]. split; [left|].
  - destruct (decide (aq_method req = "HEAD")); [|done]. by destruct resp as [| [] | |].
  - destruct (decide (aq_method req = "HEAD")); [|done]. by destruct resp as [| [] | |].
Qed.
End needs_key.

(** ** The allowed origins are the configured ones *)

(** A single star, alone among the entries, allows every origin; otherwise exactly the other
    entries that are header values are allowed, and there is no layer when there are none. *)
Lemma cors_as_configured header_value_ok raw :
  let entries := cors_entries raw in
  let explicit := filter (λ s, s ≠ "*" ∧ header_value_ok s = true) entries in
  match cl_allow_origin <$> dev_cors_layer header_value_ok (Some raw) with
  | Some AnyOrigin => entries ≠ [] ∧ ∀ e, e ∈ entries → e = "*"
  | Some (OriginList origins) => origins = explicit ∧ explicit ≠ []
  | None => explicit = [] ∧ (entries ≠ [] → ∃ e, e ∈ entries ∧ e ≠ "*")
  end.
Proof.
  intros entries explicit. unfold dev_cors_layer. fold entries.
  assert (filter (λ s, header_value_ok s = true) (filter (λ s, s ≠ "*") entries) = explicit) as Hf.
  { unfold explicit. rewrite list_filter_filter. apply list_filter_iff. tauto. }
  case_decide as He; cbn [fmap option_fmap option_map].
  { split; [unfold explicit; by rewrite He|done]. }
  destruct (filter (λ s, s ≠ "*") entries) as [|e es] eqn:Ee.
  - assert (∀ e, e ∈ entries → e = "*") as Hall.
    { intros e Hin. destruct (decide (e = "*")); [done|].
      assert (e ∈ filter (λ s, s ≠ "*") entries) as H by (apply list_elem_of_filter; done).
      rewrite Ee in H. by apply not_elem_of_nil in H. }
    assert ("*" ∈ entries) as Hstar.
    { destruct entries as [|e es]; [done|]. rewrite <- (Hall e) at 1; by left. }
    rewrite bool_decide_true by done. done.
  - rewrite (bool_decide_false (e :: es = [])) by done. rewrite andb_false_r.
    assert (∃ e, e ∈ entries ∧ e ≠ "*") as Hex.
    { exists e. assert (e ∈ filter (λ s, s ≠ "*") entries) as H by (rewrite Ee; by left).
      apply list_elem_of_filter in H. tauto. }
    rewrite Hf. case_decide as Hx; cbn [fmap option_fmap option_map cl_allow_origin]; done.
Qed.

Module RouterExamples.
#[export] Instance demo_extractors : Extractors := {
  percent_decode s := Some s;
  read_query q := Some (q, None);
  delete_query q := Some (q, None, false);
  create_json _ _ := Err "no body";
  write_json _ _ := Err "no body";
  wait_json _ _ := Err "no body";
  upgrade_refused m hs := if decide (header_get "upgrade" hs = None) then Some 400%Z else None;
  axum_text _ := "";
}.
Definition demo_gateway := build_router (W := @MemStore RefUuid) "key" (Some "t") "t" (λ _ _, Ok []) None Ok
  (λ s, s) Err (λ _, true).
Definition delete_77 (hs : HeaderMap) : ApiRequest :=
  {| aq_method := "DELETE"; aq_path := "/v1/sandboxes/" +:+ hyphenated (uid 77); aq_query := "";
     aq_headers := hs; aq_body := "" |}.

(** The right key deletes sandbox 77; another one is refused. *)
Example keyed_delete :
  (demo_gateway None (uid 99) (delete_77 [("authorization", Some "Bearer key")]) fleet_ctl).1 =
    GLifecycle (204%Z, LEmpty).
Proof. evaluate. Qed.

Lemma gateway_needs_key_witness :
  let hs := [("authorization", Some "Bearer wrong")] in
  ∃ resp, demo_gateway None (uid 99) (delete_77 hs) fleet_ctl = (resp, fleet_ctl) ∧ gateway_status resp = 401%Z.
Proof.
  intros hs. destruct (gateway_needs_key (W := @MemStore RefUuid) "key" (Some "t") "t" None Ok (λ s, s) Err
    (λ _, true) None (uid 99) (delete_77 hs) ltac:(evaluate)) as (resp & Hr & _).
  exists resp. split; [exact (Hr _ _)|].
  assert (resp = GLifecycle refused_key) as ->; [|reflexivity].
  assert ((demo_gateway None (uid 99) (delete_77 hs) fleet_ctl).1 = GLifecycle refused_key) as E by evaluate.
  unfold demo_gateway in E. rewrite Hr in E. exact E.
Defined.
End RouterExamples.
