(* ===== verification/WsClient.v ===== *)
(** * The WebSocket client (crates/ws-client/src/lib.rs)

    How the client crate opens a session at the gateway and reads its frames. tungstenite and
    urlencoding are parameters: the upgrade request of a URL, the test of a header value, the
    encoding of a query, and the connection. Times are in ms. *)

From S2P Require Import Prelude RustText Contracts UuidRef Store MemStore ControllerCore ControllerGrpc Management IoFrames Routing Tunnels ProxyGrpc IoStream HttpServer AgentSandbox AgentIo Api GatewayLifecycle GatewayFiles GatewayWs GatewayRouter.

(** ** The parameters of a session *)

Record ExecParams := {
  xp_command : list string;
  xp_cwd : option string;
  xp_env : gmap string string;
}.

Definition ExecParams_new (command : list string) : ExecParams :=
  {| xp_command := command; xp_cwd := None; xp_env := ∅ |}.
Definition ExecParams_cwd (cwd : string) (p : ExecParams) : ExecParams :=
  {| xp_command := xp_command p; xp_cwd := Some cwd; xp_env := xp_env p |}.
Definition ExecParams_env (key value : string) (p : ExecParams) : ExecParams :=
  {| xp_command := xp_command p; xp_cwd := xp_cwd p; xp_env := <[key := value]> (xp_env p) |}.

Definition DEFAULT_MAX_FRAME_BYTES : Z := 4 * 1024 * 1024.
Definition DEFAULT_READ_TIMEOUT : option Z := None.

(** [Display]; [debug] is a duration's. *)
Definition WsClientError_to_string (debug : Z → string) (e : WsClientError) : string :=
  match e with
  | WsConnect e => "connect failed: " +:+ e
  | WsIo e => "websocket I/O: " +:+ e
  | WsProtocol e => "protocol: " +:+ e
  | WsClosed => "session closed by peer"
  | WsReadTimeout t => "read timeout (no server frame within " +:+ debug t +:+ ")"
  end.

(** ** Opening a session *)

(** tungstenite's upgrade request for a URL, with the server it goes to, http's header value
    of a text, and the encoding of a query parameter. *)
Class WsLib := {
  into_client_request : string → result (string * ApiRequest) string;
  header_value_of : string → result HeaderValue string;
  url_encode : string → string;
}.

(** A connection: opened by a request, with the largest frame it accepts, and sent to. *)
Class WsNet (N : Type) := {
  WsConn : Type;
  connect_async : option Z → string * ApiRequest → ST N (result WsConn string);
  conn_send : WsConn → Message → ST N (result () string);
}.

Record ExecSession {N} `{!WsNet N} := { xs_ws : WsConn; xs_read_timeout : option Z }.
Record ReadFileSession {N} `{!WsNet N} := { rs_ws : WsConn; rs_closed_ok : bool }.
Arguments ExecSession N {_}.
Arguments ReadFileSession N {_}.

(** [headers_mut().insert]: the only value of that name. *)
Definition insert_header (name : string) (v : HeaderValue) (req : ApiRequest) : ApiRequest :=
  {| aq_method := aq_method req; aq_path := aq_path req; aq_query := aq_query req;
     aq_headers := filter (λ h, h.1 ≠ name) (aq_headers req) ++ [(name, v)];
     aq_body := aq_body req |}.

Section opening.
Context `{WsLib}.

(** The upgrade request for a URL, with the key. *)
Definition authorized_request (url api_key : string) : result (string * ApiRequest) WsClientError :=
  let? (server, request) := map_err WsConnect (into_client_request url) in
  let? v := map_err WsConnect (header_value_of ("Bearer " +:+ api_key)) in
  Ok (server, insert_header "authorization" v request).

Definition exec_url (base_url sandbox_id : string) : string :=
  base_url +:+ "/v1/sandboxes/" +:+ sandbox_id +:+ "/exec".
Definition read_url (base_url sandbox_id path : string) (cwd : option string) : string :=
  base_url +:+ "/v1/sandboxes/" +:+ sandbox_id +:+ "/files/read-stream?path=" +:+ url_encode path +:+
  match cwd with Some c => "&cwd=" +:+ url_encode c | None => "" end.

Context {N : Type} `{!WsNet N, Prost}.

Definition ExecSession_connect (base_url sandbox_id api_key : string) (params : ExecParams)
    : ST N (result (ExecSession N) WsClientError) :=
  match authorized_request (exec_url base_url sandbox_id) api_key with
  | Err e => st_ret (Err e)
  | Ok request =>
      let! r := connect_async (Some DEFAULT_MAX_FRAME_BYTES) request in
      match r with
      | Err e => st_ret (Err (WsConnect e))
      | Ok ws =>
          let! sent := conn_send ws (MBinary (ws_start sandbox_id (xp_command params) (xp_cwd params)
                                                (xp_env params))) in
          st_ret (let? _ := map_err WsIo sent in
                  Ok {| xs_ws := ws; xs_read_timeout := DEFAULT_READ_TIMEOUT |})
      end
  end.

Definition ReadFileSession_connect (base_url sandbox_id api_key path : string) (cwd : option string)
    : ST N (result (ReadFileSession N) WsClientError) :=
  match authorized_request (read_url base_url sandbox_id path cwd) api_key with
  | Err e => st_ret (Err e)
  | Ok request =>
      let! r := connect_async None request in
      st_ret (let? ws := map_err WsConnect r in Ok {| rs_ws := ws; rs_closed_ok := false |})
  end.

Definition set_read_timeout (t : option Z) (s : ExecSession N) : ExecSession N :=
  {| xs_ws := xs_ws s; xs_read_timeout := t |}.

Definition send_frame (s : ExecSession N) (b : bytes) : ST N (result () WsClientError) :=
  let! r := conn_send (xs_ws s) (MBinary b) in st_ret (map_err WsIo r).
Definition send_stdin (s : ExecSession N) (b : bytes) := send_frame s (ws_stdin b).
Definition send_signal (s : ExecSession N) (signum : Z) := send_frame s (ws_signal signum).
Definition close_stdin (s : ExecSession N) := send_frame s ws_close_stdin.

(** What the loop of a session asks for, by what it sends. *)
Definition send_payload (s : ExecSession N) (p : IoClientPayload) : ST N (result () WsClientError) :=
  match p with
  | CStdin b => send_stdin s b
  | CSignal signum => send_signal s signum
  | CClose _ => close_stdin s
  | CStart _ => st_ret (Ok ())
  end.
Fixpoint send_payloads (s : ExecSession N) (ps : list IoClientPayload) : ST N (result () WsClientError) :=
  match ps with
  | [] => st_ret (Ok ())
  | p :: ps =>
      let! r := send_payload s p in
      match r with Ok _ => send_payloads s ps | Err e => st_ret (Err e) end
  end.
End opening.

(** ** Reading frames *)

(** What the connection yields next, and how long after the one before; [None]: it is at its
    end. *)
Record Arrival := { ar_after : Z; ar_item : option (result Message string) }.

Section reading.
Context `{Prost}.

(** One item: it is skipped, or [next_frame] returns. *)
Definition frame_item (item : option (result Message string))
    : option (result (option ServerFrame) WsClientError) :=
  match item with
  | None => Some (Ok None)
  | Some (Err e) => Some (Err (WsIo e))
  | Some (Ok (MBinary b)) => Some (let? f := map_err WsProtocol (ws_decode_server b) in Ok (Some f))
  | Some (Ok (MClose _)) => Some (Ok None)
  | Some (Ok MPing) | Some (Ok MPong) => None
  | Some (Ok (MText _)) => Some (Err text_rejected)
  end.

(** What [next_frame] returns and what is still to arrive; [None]: it waits. *)
Fixpoint next_frame (timeout : option Z) (arrivals : list Arrival)
    : option (result (option ServerFrame) WsClientError) * list Arrival :=
  match arrivals with
  | [] => (match timeout with Some t => Some (Err (WsReadTimeout t)) | None => None end, [])
  | a :: rest =>
      let late := match timeout with Some t => bool_decide (t < ar_after a)%Z | None => false end in
      if late then
        let t := default 0%Z timeout in
        (Some (Err (WsReadTimeout t)), {| ar_after := ar_after a - t; ar_item := ar_item a |} :: rest)
      else match frame_item (ar_item a) with
           | Some r => (Some r, rest)
           | None => next_frame timeout rest
           end
  end.

(** Without a timeout, how long things take does not matter. *)
Lemma next_frame_items arrivals arrivals' :
  ar_item <$> arrivals = ar_item <$> arrivals' →
  (next_frame None arrivals).1 = (next_frame None arrivals').1 ∧
  ar_item <$> (next_frame None arrivals).2 = ar_item <$> (next_frame None arrivals').2.
Proof.
  revert arrivals'. induction arrivals as [|a l IH]; intros [|a' l']; cbn; try done.
  intros [= -> Hl]. destruct (frame_item (ar_item a')); [done|]. by apply IH.
Qed.

(** A caller that reads again after a timeout, at most [n] times. *)
Fixpoint read_again (n : nat) (t : Z) (arrivals : list Arrival)
    : option (result (option ServerFrame) WsClientError) * list Arrival :=
  match next_frame (Some t) arrivals with
  | (Some (Err (WsReadTimeout t')), rest) =>
      match n with O => (Some (Err (WsReadTimeout t')), rest) | S n => read_again n t rest end
  | r => r
  end.

(** No item is a timeout. *)
Lemma frame_item_no_timeout item t : frame_item item ≠ Some (Err (WsReadTimeout t)).
Proof.
  destruct item as [[m|]|]; [|done..]. destruct m; try done. cbn. by destruct (ws_decode_server b).
Qed.

Lemma read_again_item n t a rest :
  (ar_after a ≤ t)%Z →
  read_again n t (a :: rest) =
  match frame_item (ar_item a) with Some r => (Some r, rest) | None => read_again n t rest end.
Proof.
  intros Hle.
  assert (next_frame (Some t) (a :: rest) =
    match frame_item (ar_item a) with Some r => (Some r, rest) | None => next_frame (Some t) rest end) as E.
  { cbn [next_frame]. by rewrite bool_decide_false by lia. }
  pose proof (frame_item_no_timeout (ar_item a)) as Hn.
  destruct n as [|n]; cbn [read_again]; rewrite E; destruct (frame_item (ar_item a)) as [[|[]]|]; try done;
    by edestruct Hn.
Qed.

Lemma read_again_late n t a rest :
  (t < ar_after a)%Z →
  read_again (S n) t (a :: rest) =
  read_again n t ({| ar_after := ar_after a - t; ar_item := ar_item a |} :: rest).
Proof. intros Hlt. cbn [read_again next_frame]. by rewrite bool_decide_true by lia. Qed.

(** Some number of retries outlasts a gap. *)
Lemma read_again_gap t a rest :
  (0 < t)%Z → ∃ k, ∀ n, read_again (k + n) t (a :: rest) =
  match frame_item (ar_item a) with Some r => (Some r, rest) | None => read_again n t rest end.
Proof.
  intros Ht. remember (Z.to_nat (ar_after a)) as m eqn:Em. revert a Em.
  induction m as [m IH] using lt_wf_ind. intros a ->.
  destruct (decide (ar_after a ≤ t)%Z) as [Hle|Hgt]; [exists 0; intros n; by apply read_again_item|].
  destruct (IH (Z.to_nat (ar_after a - t)) ltac:(lia) {| ar_after := ar_after a - t; ar_item := ar_item a |} eq_refl)
    as [k Hk].
  exists (S k). intros n. cbn [Nat.add]. rewrite read_again_late by lia. apply Hk.
Qed.

(** A read timeout loses nothing: a caller that reads again after timeouts gets, after enough
    of them, exactly what one without a timeout gets, and the same is left to arrive. *)
Lemma read_timeout_lossless t arrivals r rest :
  (0 < t)%Z → next_frame None arrivals = (Some r, rest) →
  ∃ k, ∀ n, read_again (k + n) t arrivals = (Some r, rest).
Proof.
  intros Ht. induction arrivals as [|a arrivals IH]; [done|]. cbn [next_frame].
  destruct (read_again_gap t a arrivals Ht) as [k Hk].
  destruct (frame_item (ar_item a)) as [r'|].
  - intros [= -> ->]. by exists k.
  - intros [k' Hk']%IH. exists (k + k'). intros n. rewrite <- Nat.add_assoc, Hk. apply Hk'.
Qed.

(** The messages of a connection that is never slow, and everything a caller reads until the
    session is at its end or breaks. *)
Definition at_once (msgs : list Message) : list Arrival :=
  (λ m, {| ar_after := 0; ar_item := Some (Ok m) |}) <$> msgs.

Fixpoint read_all (fuel : nat) (arrivals : list Arrival) : list (result (option ServerFrame) WsClientError) :=
  match fuel with
  | O => []
  | S fuel =>
      match next_frame None arrivals with
      | (Some (Ok (Some f)), rest) => Ok (Some f) :: read_all fuel rest
      | (Some r, _) => [r]
      | (None, _) => []
      end
  end.

Lemma read_all_items fuel arrivals arrivals' :
  ar_item <$> arrivals = ar_item <$> arrivals' → read_all fuel arrivals = read_all fuel arrivals'.
Proof.
  revert arrivals arrivals'. induction fuel as [|fuel IH]; intros l l' Hl; [done|]. cbn [read_all].
  destruct (next_frame_items l l' Hl) as [Hr Hrest]. destruct (next_frame None l) as [r rest], (next_frame None l') as [r' rest'].
  cbn in Hr, Hrest. subst r'. destruct r as [[[f|]|]|]; try done. f_equal. by apply IH.
Qed.
End reading.

(** Everything before the close frame is read as what the client makes of its messages. *)
Lemma read_all_body (P : Prost) body fs tail fuel :
  existsb is_close body = false → omap text_of body = [] → client_view P body = Ok <$> fs →
  read_all (length fs + fuel) (at_once (body ++ tail)) =
    ((λ f, Ok (Some f)) <$> fs) ++ read_all fuel (at_once tail).
Proof.
  revert fs. induction body as [|m body IH]; intros fs; cbn [existsb app].
  { intros _ _ Hv. destruct fs; [done|discriminate]. }
  intros [Hm Hb]%orb_false_iff Ht Hv.
  assert (binary_of m = None → text_of m = None →
    read_all (length fs + fuel) (at_once (m :: body ++ tail)) =
    read_all (length fs + fuel) (at_once (body ++ tail))) as Hskip.
  { intros H1 H2. destruct (length fs + fuel); [done|]. by destruct m. }
  destruct m as [t|b| | |]; try done; cbn in Ht.
  - unfold client_view in Hv. cbn in Hv. destruct fs as [|f fs]; [done|]. injection Hv as Hf Hv.
    cbn [length Nat.add at_once fmap list_fmap read_all next_frame ar_item frame_item]. rewrite Hf. cbn. f_equal.
    by apply IH.
  - rewrite Hskip by done. apply IH; done.
  - rewrite Hskip by done. apply IH; done.
Qed.

(** ** A session at the gateway *)

(** The unreserved characters of a URL and the slash; those of an encoded query; and the
    characters a header's text can have. *)
Definition url_char (a : ascii) : bool :=
  let n := Ascii.N_of_ascii a in
  bool_decide (48 ≤ n ≤ 57)%N || bool_decide (65 ≤ n ≤ 90)%N || bool_decide (97 ≤ n ≤ 122)%N ||
  bool_decide (a ∈ ["-"; "."; "_"; "~"; "/"]%char).
Definition query_char (a : ascii) : bool := url_char a || bool_decide (a ∈ ["%"; "="; "&"]%char).
Definition visible_char (a : ascii) : bool :=
  bool_decide (32 ≤ Ascii.N_of_ascii a ≤ 126)%N.

Lemma url_char_plain a : is_uuid_char a = true → url_char a = true.
Proof.
  unfold is_uuid_char, url_char, is_lower_hexdigit. rewrite !orb_true_iff, !bool_decide_eq_true.
  intros [[?|?]| ->]; [left; left; left; lia|left; right; lia|right; set_solver].
Qed.

Definition with_cwd `{WsLib} (path : string) (cwd : option string) : string :=
  "path=" +:+ url_encode path +:+ match cwd with Some c => "&cwd=" +:+ url_encode c | None => "" end.

(** What the client and the gateway's libraries do with what the other sends: the request of
    a URL at a server, with tungstenite's headers, which axum takes for an upgrade; a text as
    a header's value; a query's encoding, read back; and a path's parameter, where nothing is
    encoded. *)
Class WsLaws (L : WsLib) (E : Extractors) := {
  ws_server : string → option string;
  upgrade_headers : string → HeaderMap;
  request_of_url : ∀ base server path query,
    ws_server base = Some server →
    string_forallb url_char path = true → string_forallb query_char query = true →
    into_client_request (base +:+ "/" +:+ path +:+ if decide (query = "") then "" else "?" +:+ query) =
    Ok (server, {| aq_method := "GET"; aq_path := "/" +:+ path; aq_query := query;
                   aq_headers := upgrade_headers server; aq_body := "" |});
  upgrade_accepted : ∀ server v,
    upgrade_refused "GET" (upgrade_headers server ++ [("authorization", v)]) = None;
  upgrade_names : ∀ server,
    Forall (λ h, h.1 ≠ "authorization" ∧ h.1 ≠ "sec-websocket-protocol") (upgrade_headers server);
  text_header : ∀ s, string_forallb visible_char s = true → header_value_of s = Ok (Some s);
  encoded_query : ∀ s, string_forallb query_char (url_encode s) = true;
  query_read_back : ∀ path cwd, read_query (with_cwd path cwd) = Some (path, cwd);
  plain_param : ∀ s, string_forallb is_uuid_char s = true → percent_decode s = Some s;
}.

(** The gateway as the client's network: the sessions that were opened, each with what the
    client sent on it. A refused upgrade is an error with some text. *)
Section gateway_net.
Context `{UuidLib, Extractors} {P : Prost} {W : Type} `{!ControllerStore W}.
Context (api_key : string) (admin_token : option string) (expected_token : string).
Context (rpc : Rpc) (internal_token : option string) (metadata_value : string → result string string).
Context (b64url : string → string) (b64decode : string → result bytes string).
Context (header_value_ok : string → bool) (cors : option CorsLayer) (fresh : SandboxId).
Context (refused_text : GatewayResponse → string).

Definition gateway_at (req : ApiRequest) : ST (Ctl W) GatewayResponse :=
  build_router api_key admin_token expected_token rpc internal_token metadata_value b64url b64decode
    header_value_ok cors fresh req.

Definition Net : Type := Ctl W * list (Session * list Message).

Definition gateway_net : WsNet Net := {|
  WsConn := nat;
  connect_async _ request := λ '(c, conns),
    match gateway_at request.2 c with
    | (GSession _ s, c) => (Ok (length conns), (c, conns ++ [(s, [])]))
    | (resp, c) => (Err (refused_text resp), (c, conns))
    end;
  conn_send ws m := λ '(c, conns), (Ok (), (c, alter (λ '(s, msgs), (s, msgs ++ [m])) ws conns));
|}.
#[local] Existing Instance gateway_net.

Context `{!UuidLaws _, L : WsLib} `{!WsLaws L _}.

Lemma filter_headers server : filter (λ h, h.1 ≠ "authorization") (upgrade_headers server) = upgrade_headers server.
Proof.
  pose proof (upgrade_names server) as Hn. induction Hn as [|h hs [Hh _] _ IH]; [done|].
  by rewrite filter_cons_True, IH by done.
Qed.

(** The request as the gateway gets it. *)
Definition upgrade_request (server path query key : string) : ApiRequest :=
  {| aq_method := "GET"; aq_path := "/" +:+ path; aq_query := query;
     aq_headers := upgrade_headers server ++ [("authorization", Some ("Bearer " +:+ key))]; aq_body := "" |}.

Lemma authorized_ok base server path query key :
  ws_server base = Some server → string_forallb visible_char key = true →
  string_forallb url_char path = true → string_forallb query_char query = true →
  authorized_request (base +:+ "/" +:+ path +:+ if decide (query = "") then "" else "?" +:+ query) key =
    Ok (server, upgrade_request server path query key).
Proof.
  intros Hs Hk Hp Hq. unfold authorized_request. rewrite (request_of_url base server path query) by done. cbn.
  rewrite (text_header ("Bearer " +:+ key)) by (rewrite string_forallb_app, Hk; done). cbn.
  unfold insert_header. cbn. by rewrite filter_headers.
Qed.

Lemma header_get_upgrade server v name :
  name = "authorization" → header_get name (upgrade_headers server ++ [(name, v)]) = Some v.
Proof.
  intros ->. pose proof (upgrade_names server) as Hn. induction (upgrade_headers server) as [|[k w] hs IH]; [done|].
  apply Forall_cons in Hn as [[Hk _] Hn]. cbn. rewrite decide_False by done. by apply IH.
Qed.

(** The key is looked for nowhere else. *)
Lemma upgrade_auth server path query key :
  check_ws_auth b64url (aq_headers (upgrade_request server path query key)) api_key =
    if decide (key = api_key) then Some None else None.
Proof.
  unfold check_ws_auth. assert (bearer_matches (aq_headers (upgrade_request server path query key)) api_key =
    bool_decide (key = api_key)) as ->.
  { apply eq_bool_prop_intro. rewrite bool_decide_spec, Is_true_true, bearer_matches_spec.
    cbn [aq_headers upgrade_request]. rewrite header_get_upgrade by done. split; [|by intros ->].
    intros [= Hk]. apply (string_app_inv_l "") in Hk. done. }
  destruct (decide (key = api_key)) as [->|Hne]; [by rewrite bool_decide_true|]. rewrite bool_decide_false by done.
  assert (offered_protocols (aq_headers (upgrade_request server path query key)) = []) as ->; [|done].
  unfold offered_protocols. cbn [aq_headers upgrade_request]. rewrite omap_app. cbn. rewrite app_nil_r.
  pose proof (upgrade_names server) as Hn. induction (upgrade_headers server) as [|[k w] hs IH]; [done|].
  apply Forall_cons in Hn as [[_ Hk] Hn]. cbn. rewrite decide_False by done. by apply IH.
Qed.

Lemma sandbox_url_chars (s : SandboxId) : string_forallb url_char (hyphenated s) = true.
Proof. exact (string_forallb_impl _ _ _ url_char_plain (hyphenated_chars s)). Qed.

Lemma sandbox_id_ok h (s : SandboxId) : has_id h = true → id_ok h (hyphenated s).
Proof.
  intros Hh. unfold id_ok. rewrite Hh. split.
  - intros E. pose proof (simple_hyphenated s) as Hs.
    rewrite E in Hs. cbn in Hs. pose proof (simple_length s) as Hl. by rewrite <- Hs in Hl.
  - refine (string_forallb_impl _ _ _ _ (hyphenated_chars s)). intros a Ha.
    rewrite negb_true_iff, bool_decide_eq_false. by intros ->.
Qed.

Lemma with_cwd_chars path cwd :
  string_forallb query_char (with_cwd path cwd) = true ∧ with_cwd path cwd ≠ "".
Proof.
  split; [|done]. unfold with_cwd. rewrite !string_forallb_app, encoded_query. destruct cwd; [|done].
  by rewrite string_forallb_app, encoded_query.
Qed.

(** Where the client's requests lead. *)
Lemma upgrade_routed h s server path query key c :
  has_id h = true → method_of h = "GET" → "/" +:+ path = path_of h (hyphenated s) →
  let req := upgrade_request server path query key in
  gateway_at req c = handle api_key admin_token expected_token rpc internal_token metadata_value b64url
    b64decode header_value_ok fresh h (hyphenated s) req c.
Proof.
  intros Hid Hm Hp req. unfold gateway_at, build_router, router. cbn [req aq_method aq_path upgrade_request].
  rewrite (bool_decide_false ("GET" = "OPTIONS")), andb_false_r by done.
  rewrite (proj2 (dispatch_exact "GET" ("/" +:+ path) h (hyphenated s)))
    by (split; [done|]; split; [by apply sandbox_id_ok|by left]).
  rewrite plain_param by apply hyphenated_chars. unfold st_bind. by destruct (handle _ _ _ _ _ _ _ _ _ _ _ _ _ c).
Qed.

Lemma exec_routed s server path key c :
  "/" +:+ path = path_of HExec (hyphenated s) →
  gateway_at (upgrade_request server path "" key) c =
    (if decide (key = api_key) then GSession None (GatewayRouter.ExecSession s) else GFile unauthorized, c).
Proof.
  intros Hp. rewrite (upgrade_routed HExec s) by done. cbn [handle].
  unfold upgraded, ws_exec, GatewayFiles.parse_sandbox_id. rewrite upgrade_auth.
  cbn [aq_method aq_headers upgrade_request]. rewrite upgrade_accepted, parse_hyphenated.
  by destruct (decide (key = api_key)).
Qed.

(** A path the file endpoints take. *)
Definition readable (path : string) (cwd : option string) : Prop :=
  path ≠ "" ∧ validate_sandbox_path path = Ok () ∧
  match cwd with Some c => c = "" ∨ validate_sandbox_path c = Ok () | None => True end.

Lemma read_routed s server rest path cwd key c :
  readable path cwd → "/" +:+ rest = path_of HReadStream (hyphenated s) →
  gateway_at (upgrade_request server rest (with_cwd path cwd) key) c =
    (if decide (key = api_key)
     then GSession None (ReadSession (io_start s (PReadFile path (default "" cwd)))) else GFile unauthorized, c).
Proof.
  intros (Hne & Hv & Hc) Hp. rewrite (upgrade_routed HReadStream s) by done. cbn [handle aq_query upgrade_request].
  rewrite query_read_back. unfold with_query, upgraded, ws_read_file, GatewayFiles.parse_sandbox_id.
  rewrite upgrade_auth. cbn [aq_method aq_headers upgrade_request]. rewrite upgrade_accepted, parse_hyphenated.
  cbn [ok_or bind_result]. rewrite decide_False by done. rewrite Hv. cbn [map_err bind_result].
  assert (match cwd with
          | Some c => if decide (c = "") then Ok () else map_err invalid_request (validate_sandbox_path c)
          | None => Ok () end = Ok ()) as ->.
  { destruct cwd as [d|]; [|done]. case_decide; [done|]. by destruct Hc as [| ->]. }
  cbn [bind_result]. by destruct (decide (key = api_key)).
Qed.

(** The first message of an exec session. *)
Definition start_message (id : string) (params : ExecParams) : Message :=
  MBinary (ws_start id (xp_command params) (xp_cwd params) (xp_env params)).

Lemma exec_connects base server s key params c conns :
  ws_server base = Some server → string_forallb visible_char key = true →
  ExecSession_connect base (hyphenated s) key params (c, conns) =
    (if decide (key = api_key)
     then (Ok {| xs_ws := length conns : WsConn; xs_read_timeout := None |},
           (c, conns ++ [(GatewayRouter.ExecSession s, [start_message (hyphenated s) params])]))
     else (Err (WsConnect (refused_text (GFile unauthorized))), (c, conns))).
Proof.
  intros Hs Hk. set (id := hyphenated s). unfold ExecSession_connect. set (rest := "v1/sandboxes/" +:+ id +:+ "/exec").
  assert (exec_url base id = base +:+ "/" +:+ rest +:+ if decide ("" = "") then "" else "?" +:+ "") as ->.
  { by rewrite decide_True, string_app_nil_r. }
  rewrite (authorized_ok base server rest "");
    [|done..|unfold rest, id; by rewrite !string_forallb_app, sandbox_url_chars|done].
  unfold st_bind. cbn [connect_async gateway_net snd]. rewrite (exec_routed s) by done.
  destruct (decide (key = api_key)); cbn; [|done]. by rewrite alter_app_r_alt, Nat.sub_diag by done.
Qed.

(** The client and the gateway agree on how a session is opened. For a sandbox, a server
    and a key that is text: with the gateway's key, an exec session is open at that sandbox's
    exec endpoint, nothing else has changed, and its first message is taken by the gateway as
    the start of exactly the requested command in that sandbox; a read session is open with
    the start of exactly the requested read. With any other key both fail to connect and
    nothing changes. *)
Theorem client_opens_session (utf8 : string → Prop) `{!ProstLaws P utf8}
    base server s key params path cwd c conns now :
  ws_server base = Some server → string_forallb visible_char key = true → readable path cwd →
  let id := hyphenated s in
  let start := {| is_sandbox_id := id; is_params := Some (PExec {| ex_command := xp_command params;
                    ex_cwd := default "" (xp_cwd params); ex_env := xp_env params |}) |} in
  let read := io_start s (PReadFile path (default "" cwd)) in
  let refused := WsConnect (refused_text (GFile unauthorized)) in
  start_ok utf8 start →
  ∃ m, ws_upstream (ws_step (ws_begin now) (EvSocket true now (Some (Ok m)))) =
         [build_client_frame (CStart start)] ∧
  ExecSession_connect base id key params (c, conns) =
    (if decide (key = api_key)
     then (Ok {| xs_ws := length conns : WsConn; xs_read_timeout := None |},
           (c, conns ++ [(GatewayRouter.ExecSession s, [m])]))
     else (Err refused, (c, conns))) ∧
  ReadFileSession_connect base id key path cwd (c, conns) =
    (if decide (key = api_key)
     then (Ok {| rs_ws := length conns : WsConn; rs_closed_ok := false |}, (c, conns ++ [(ReadSession read, [])]))
     else (Err refused, (c, conns))).
Proof.
  intros Hs Hk Hr id start read refused Hstart.
  exists (start_message id params). split; [|split].
  - cbn [ws_step ws_begin ws_reading recv_message start_message].
    assert (decode_client (ws_start id (xp_command params) (xp_cwd params) (xp_env params)) = Ok (CStart start)) as ->;
      [|done]. refine (decoded_encode _ _ _ _ Hstart).
  - by apply (exec_connects base server).
  - unfold ReadFileSession_connect. set (rest := "v1/sandboxes/" +:+ id +:+ "/files/read-stream").
    destruct (with_cwd_chars path cwd) as [Hq Hne].
    assert (read_url base id path cwd =
      base +:+ "/" +:+ rest +:+ if decide (with_cwd path cwd = "") then "" else "?" +:+ with_cwd path cwd) as ->.
    { rewrite decide_False by done. unfold read_url, rest. rewrite !string_app_assoc. done. }
    rewrite (authorized_ok base server rest (with_cwd path cwd));
      [|done..|unfold rest, id; by rewrite !string_forallb_app, sandbox_url_chars|done].
    unfold st_bind. cbn [connect_async gateway_net snd]. rewrite (read_routed s) by done.
    by destruct (decide (key = api_key)).
Qed.
End gateway_net.

(** ** Libraries that behave as documented *)

Module WsClientExamples.
(** The text before a character, and the text after it when it is there. *)
Fixpoint cut (c : ascii) (s : string) : string * option string :=
  match s with
  | EmptyString => ("", None)
  | String a s => if decide (a = c) then ("", Some s) else let '(l, r) := cut c s in (String a l, r)
  end.

Lemma cut_free c s : free_of c s = true → cut c s = (s, None).
Proof.
  induction s as [|a s IH]; [done|]. unfold free_of. cbn. rewrite andb_true_iff, negb_true_iff, bool_decide_eq_false.
  intros [Ha Hs]. destruct (decide (a = c)); [done|]. by rewrite IH.
Qed.
Lemma cut_app c s t : free_of c s = true → cut c (s +:+ String c t) = (s, Some t).
Proof.
  induction s as [|a s IH].
  { intros _. rewrite string_app_nil. cbn. by destruct (decide (c = c)). }
  unfold free_of. rewrite string_app_cons. cbn.
  rewrite andb_true_iff, negb_true_iff, bool_decide_eq_false. intros [Ha Hs].
  destruct (decide (a = c)); [done|]. by rewrite IH.
Qed.

(** Every byte as [%xx]. *)
Fixpoint percent_encode (s : string) : string :=
  match s with
  | EmptyString => ""
  | String a s =>
      let n := Ascii.N_of_ascii a in
      String "%" (String (UuidRef.hex_digit (n / 16)) (String (UuidRef.hex_digit (n `mod` 16)) (percent_encode s)))
  end.
Fixpoint percent_decoded (s : string) : option string :=
  match s with
  | EmptyString => Some ""
  | String a r =>
      if decide (a = "%"%char) then
        match r with
        | String h (String l r) =>
            h ← hex_value h; l ← hex_value l; String (Ascii.ascii_of_N (16 * h + l)) <$> percent_decoded r
        | _ => None
        end
      else String a <$> percent_decoded r
  end.

Lemma nibbles a : (Ascii.N_of_ascii a / 16 < 16 ∧ Ascii.N_of_ascii a `mod` 16 < 16)%N.
Proof.
  pose proof (Ascii.N_ascii_bounded a). split; [apply N.Div0.div_lt_upper_bound; lia|by apply N.mod_lt].
Qed.

Lemma percent_roundtrip s : percent_decoded (percent_encode s) = Some s.
Proof.
  induction s as [|a s IH]; [done|]. cbn [percent_encode percent_decoded].
  destruct (decide ("%" = "%")%char); [|done]. destruct (nibbles a).
  rewrite !hex_digit_value by done. cbn. rewrite IH. cbn.
  rewrite <- N.div_mod by done. by rewrite Ascii.ascii_N_embedding.
Qed.

Lemma hex_digit_query d : (d < 16)%N → query_char (UuidRef.hex_digit d) = true.
Proof.
  intros Hd. pose proof (hex_digit_lower d Hd) as Hl. unfold query_char. rewrite url_char_plain; [done|].
  unfold is_uuid_char. by rewrite Hl.
Qed.

Lemma percent_encode_chars s : string_forallb query_char (percent_encode s) = true.
Proof.
  induction s as [|a s IH]; [done|]. cbn [percent_encode string_forallb]. destruct (nibbles a).
  by rewrite !hex_digit_query, IH.
Qed.

Lemma percent_encode_free s : free_of "&" (percent_encode s) = true.
Proof.
  induction s as [|a s IH]; [done|]. unfold free_of. cbn [percent_encode string_forallb].
  destruct (nibbles a).
  assert (∀ d, (d < 16)%N → negb (bool_decide (UuidRef.hex_digit d = "&"%char)) = true) as Hd.
  { intros d Hd. rewrite negb_true_iff, bool_decide_eq_false. intros E.
    pose proof (hex_digit_lower d Hd) as Hl. by rewrite E in Hl. }
  by rewrite !Hd.
Qed.

Definition parse_query (q : string) : option (string * option string) :=
  let '(p, c) := cut "&" q in
  p ← strip_prefix "path=" p; p ← percent_decoded p;
  match c with
  | None => Some (p, None)
  | Some c => c ← strip_prefix "cwd=" c; c ← percent_decoded c; Some (p, Some c)
  end.

Definition parse_url (url : string) : result (string * ApiRequest) string :=
  match strip_prefix "ws://" url with
  | None => Err "URL scheme not supported"
  | Some rest =>
      let '(server, path) := cut "/" rest in
      let '(path, query) := cut "?" (default "" path) in
      Ok (server, {| aq_method := "GET"; aq_path := "/" +:+ path; aq_query := default "" query;
                     aq_headers := [("host", Some server); ("upgrade", Some "websocket")]; aq_body := "" |})
  end.

#[export] Instance demo_ws : WsLib := {
  into_client_request := parse_url;
  header_value_of s := if string_forallb visible_char s then Ok (Some s) else Err "invalid";
  url_encode := percent_encode;
}.
#[export] Instance demo_axum : Extractors := {
  percent_decode := percent_decoded;
  read_query := parse_query;
  delete_query q := (λ pc, (pc, false)) <$> parse_query q;
  create_json _ _ := Err "no body";
  write_json _ _ := Err "no body";
  wait_json _ _ := Err "no body";
  upgrade_refused m hs := if decide (header_get "upgrade" hs = None) then Some 400%Z else None;
  axum_text _ := "";
}.
Lemma query_free path : string_forallb url_char path = true → free_of "?" path = true.
Proof.
  apply string_forallb_impl. intros a Ha. rewrite negb_true_iff, bool_decide_eq_false. by intros ->.
Qed.

Lemma parse_url_ok server path query :
  free_of "/" server = true → string_forallb url_char path = true →
  parse_url (("ws://" +:+ server) +:+ "/" +:+ path +:+ if decide (query = "") then "" else "?" +:+ query) =
  Ok (server, {| aq_method := "GET"; aq_path := "/" +:+ path; aq_query := query;
                 aq_headers := [("host", Some server); ("upgrade", Some "websocket")]; aq_body := "" |}).
Proof.
  intros Hs Hp%query_free. unfold parse_url. rewrite string_app_assoc, strip_prefix_app.
  change ("/" +:+ ?x) with (String "/" x). rewrite cut_app by done. change (default "" (Some ?x)) with x.
  destruct (decide (query = "")) as [->|Hq].
  - by rewrite string_app_nil_r, cut_free.
  - change ("?" +:+ query) with (String "?" query). rewrite (cut_app "?") by done. done.
Qed.

Lemma parse_query_ok path cwd : parse_query (with_cwd path cwd) = Some (path, cwd).
Proof.
  unfold parse_query, with_cwd. cbn [url_encode demo_ws].
  assert (free_of "&" ("path=" +:+ percent_encode path) = true) as Hf.
  { unfold free_of. rewrite string_forallb_app. exact (percent_encode_free path). }
  destruct cwd as [c|].
  - change ("&cwd=" +:+ ?x) with (String "&" ("cwd=" +:+ x)).
    rewrite <- (string_app_assoc "path="), cut_app by done. rewrite !strip_prefix_app. cbn.
    rewrite percent_roundtrip. cbn. by rewrite percent_roundtrip.
  - rewrite string_app_nil_r, cut_free by done. rewrite strip_prefix_app. cbn. by rewrite percent_roundtrip.
Qed.

Lemma percent_decoded_plain s : string_forallb is_uuid_char s = true → percent_decoded s = Some s.
Proof.
  induction s as [|a s IH]; [done|]. cbn [string_forallb percent_decoded]. rewrite andb_true_iff. intros [Ha Hs].
  rewrite decide_False by (by intros ->). by rewrite IH.
Qed.

#[export] Instance demo_ws_laws : WsLaws demo_ws demo_axum.
Proof.
  refine {| ws_server base := s ← strip_prefix "ws://" base; if free_of "/" s then Some s else None;
            upgrade_headers server := [("host", Some server); ("upgrade", Some "websocket")] |}.
  - intros base server path query Hb Hp _. destruct (strip_prefix "ws://" base) as [r|] eqn:E; [|done].
    apply strip_prefix_Some in E as ->. cbn in Hb. destruct (free_of "/" r) eqn:Hf; [|done].
    injection Hb as <-. by apply parse_url_ok.
  - done.
  - intros server. by repeat constructor.
  - intros s Hs. cbn. by rewrite Hs.
  - exact percent_encode_chars.
  - exact parse_query_ok.
  - exact percent_decoded_plain.
Defined.

#[local] Existing Instance ApiExamples.bits_prost.
#[local] Existing Instance ApiExamples.bits_laws.
Definition demo_params : ExecParams := ExecParams_env "A" "1" (ExecParams_cwd "/work" (ExecParams_new ["ls"])).

(** The right key opens both sessions; another one opens none. *)
Lemma client_opens_session_witness :
  let net := gateway_net (W := @MemStore RefUuid) "key" (Some "t") "t" (λ _ _, Ok []) None Ok (λ s, s) Err (λ _, true) None (uid 99)
               (λ _, "HTTP error: 401 Unauthorized") in
  let try key := ExecSession_connect (N := Net) (WsNet0 := net) "ws://api:8081" (hyphenated (uid 77)) key demo_params
                   (fleet_ctl, []) in
  (∃ m, (try "key").2 = (fleet_ctl, [(GatewayRouter.ExecSession (uid 77), [m])])) ∧
  (try "other").1 = Err (WsConnect "HTTP error: 401 Unauthorized") ∧ (try "other").2 = (fleet_ctl, []).
Proof.
  intros net try.
  pose proof (λ key, client_opens_session (P := ApiExamples.bits_prost) (L := demo_ws) (W := @MemStore RefUuid)
    "key" (Some "t") "t" (λ _ _, Ok []) None Ok (λ s, s) Err (λ _, true) None (uid 99)
    (λ _, "HTTP error: 401 Unauthorized") (λ _, True) "ws://api:8081" "api:8081" (uid 77) key demo_params
    "/etc/hosts" None fleet_ctl [] 0) as Hall.
  destruct (Hall "key") as (m & _ & He & _); [evaluate|evaluate|by repeat split|by repeat constructor|].
  destruct (Hall "other") as (m' & _ & Ho & _); [evaluate|evaluate|by repeat split|by repeat constructor|].
  split; [exists m; exact (f_equal snd He)|]. split; [exact (f_equal fst Ho)|exact (f_equal snd Ho)].
Defined.

(** A session the gateway refuses, with its code and reason, looks to the caller like one that
    was closed cleanly. *)
Example refused_looks_clean :
  next_frame None (at_once [exec_refused (SandboxGone "s")]) = (Some (Ok None), []) ∧
  next_frame None (at_once [MClose (Some (1000%Z, ""))]) = (Some (Ok None), []).
Proof. done. Qed.
End WsClientExamples.
