(* ===== verification/Retry.v ===== *)
(** * Retrying

    The two loops of crates/cli/src/{run,run_subcommand}.rs that try again: a number of times
    with a fixed pause, and until a deadline with a doubling one. Times are in ms. *)

From S2P Require Import Prelude.

Section retry.
Context {W : Type} (now : W → Z) (sleep : Z → ST W ()).

(** [action], then up to [n] times more after a failure. *)
Fixpoint retry_times {A E} (n : nat) (interval : Z) (action : ST W (result A E)) : ST W (result A E) :=
  match n with
  | O => action
  | S n =>
      let! r := action in
      match r with
      | Ok a => st_ret (Ok a)
      | Err _ => let! _ := sleep interval in retry_times n interval action
      end
  end.

(** [step] is done ([inl]), or says what the loop returns when it is late. [None]: the fuel did
    not suffice. *)
Fixpoint retry_until {A} (fuel : nat) (step : ST W (A + A)) (deadline delay cap : Z) : ST W (option A) :=
  match fuel with
  | O => st_ret None
  | S fuel =>
      let! r := step in
      match r with
      | inl a => st_ret (Some a)
      | inr late => λ w,
          if decide (deadline ≤ now w)%Z then (Some late, w) else
          (let! _ := sleep (Z.min delay (deadline - now w)) in
           retry_until fuel step deadline (Z.min (delay * 2) cap) cap) w
      end
  end.

(** Enough fuel for a time [budget]: every pause but the last is at least the first. *)
Definition retry_fuel (budget start : Z) : nat := Z.to_nat (budget / start + 3).

(** What the loop returns, [step] has just returned: as final, or after the deadline. *)
Definition last_step {A} (step : ST W (A + A)) (deadline : Z) (a : A) (w' : W) : Prop :=
  ∃ w, step w = (inl a, w') ∨ step w = (inr a, w') ∧ (deadline ≤ now w')%Z.

Context (sleep_time : ∀ d w, (now w + d ≤ now (sleep d w).2)%Z).

Lemma retry_until_loop {A} fuel (step : ST W (A + A)) deadline start delay cap w :
  (∀ w, now w ≤ now (step w).2)%Z → (0 < start ≤ cap)%Z → (start ≤ delay)%Z →
  (0 < fuel)%nat → (deadline - now w ≤ (Z.of_nat fuel - 1) * start)%Z →
  ∃ a w', retry_until fuel step deadline delay cap w = (Some a, w') ∧ (now w ≤ now w')%Z ∧
    last_step step deadline a w'.
Proof.
  intros Hstep Hstart. revert delay w. induction fuel as [|fuel IH]; intros delay w Hdelay Hf Hd; [lia|].
  cbn [retry_until]. unfold st_bind, st_ret.
  pose proof (Hstep w) as Hw. destruct (step w) as [r w1] eqn:E; cbn [snd] in Hw.
  destruct r as [a|late]; [exists a, w1; split; [done|]; split; [done|]; exists w; by left|].
  case_decide; [exists late, w1; split; [done|]; split; [done|]; exists w; by right|].
  set (d := Z.min delay _). pose proof (sleep_time d w1) as Hsl.
  destruct (sleep d w1) as [u w2]; cbn [snd] in Hsl.
  replace (Z.of_nat (S fuel) - 1)%Z with (Z.of_nat fuel) in Hd by lia.
  destruct fuel as [|n]; [lia|]. replace (Z.of_nat (S n)) with (Z.of_nat n + 1)%Z in Hd by lia.
  destruct (IH (Z.min (delay * 2) cap) w2) as (a & w' & E' & Hn & Hl);
    [lia|lia| |exists a, w'; split; [done|]; split; [lia|done]].
  replace (Z.of_nat (S n) - 1)%Z with (Z.of_nat n) by lia. unfold d in *. nia.
Qed.

Lemma retry_until_ends {A} (step : ST W (A + A)) budget start cap w :
  (∀ w, now w ≤ now (step w).2)%Z → (0 < start ≤ cap)%Z → (0 ≤ budget)%Z →
  ∃ a w', retry_until (retry_fuel budget start) step (now w + budget) start cap w = (Some a, w') ∧
    (now w ≤ now w')%Z ∧ last_step step (now w + budget) a w'.
Proof.
  intros Hstep Hstart Hb. unfold retry_fuel.
  pose proof (Z.div_pos budget start ltac:(lia) ltac:(lia)).
  pose proof (Z.mod_pos_bound budget start ltac:(lia)).
  pose proof (Z.div_mod budget start ltac:(lia)).
  apply (retry_until_loop _ _ _ start); [done|done|lia|lia|]. rewrite Z2Nat.id by lia. nia.
Qed.

Lemma retry_times_last {A E} n interval (action : ST W (result A E)) w :
  ∃ w0, retry_times n interval action w = action w0.
Proof.
  revert w. induction n as [|n IH]; intros w; cbn [retry_times]; [by exists w|].
  unfold st_bind, st_ret. destruct (action w) as [[a|e] w1] eqn:Ea; [by exists w|].
  destruct (sleep interval w1) as [u w2]. apply IH.
Qed.
End retry.
