(* ===== verification/Startup.v ===== *)
(** * Starting and stopping the processes (crates/cli/src/run.rs)

    What each process checks before it serves: the mandatory tokens, the roles of the proxy's
    listeners, the retries of migrations, cache and upstream dials; what the agent reports of
    its host; and how it stops its sandboxes. The database, the sockets, the environment and
    the dials are parameters ([ProcessHost]); the servers themselves are tonic's and axum's. *)

From S2P Require Import Prelude RustText Contracts UuidRef Store ControllerCore ControllerGrpc IoFrames Routing Tunnels ProxyGrpc HttpServer AgentSandbox Api Retry.

Definition INTERNAL_TOKEN_ENV : string := "OPEN_SANDBOX_INTERNAL_TOKEN".
Definition PROXY_STARTUP_RETRY_ATTEMPTS : Z := 15.
Definition PROXY_STARTUP_RETRY_INTERVAL : Z := 2000.

(** [StaticTokenValidator::validate]. *)
Definition static_token_validate (expected token : string) : bool := bool_decide (token = expected).

(** Errors are [Box<dyn Error>]: their text. *)
Class ProcessHost (W : Type) := {
  (** [std::env::var(..).ok()] *)
  env_var : string → option string;
  db_connect : string → ST W (result () string);
  controller_migrate : ST W (result () string);
  proxy_migrate : ST W (result () string);
  cache_refresh : ST W (result () string);
  tcp_bind : Z → ST W (result () string);
  dial_controller : string → ST W (result () string);
  dial_proxy : string → option string → ST W (result () string);
  host_now : W → Z;
  host_sleep : Z → ST W ();
}.

Record ControllerArgs := {
  ca_database_url : string;
  ca_auto_migrate : bool;
  ca_grpc_port : Z;
  ca_sweep_interval : Z;
}.
Record ProxyArgs := {
  pxa_http_port : Z;
  pxa_grpc_port : Z;
  pxa_internal_grpc_port : Z;
  pxa_database_url : string;
  pxa_auto_migrate : bool;
  pxa_shutdown_drain_timeout : Z;
}.
Record ApiArgs := {
  aa_port : Z;
  aa_controller_url : string;
  aa_proxy_url : string;
  aa_api_key : string;
}.

(** What a started controller serves with. *)
Record ControllerServing := { cs_join_token : string; cs_admin_token : string }.

(** One gRPC listener of the proxy. *)
Record Listener := {
  ln_port : Z;
  ln_role : ProxyRole;
  ln_internal_token : option string;
  ln_tunnel_token : option string;
}.

Section processes.
Context {W : Type} `{!ProcessHost W}.

(** [auth_init_error] is the text of a refused admin token. *)
Definition run_controller (auth_init_error : AuthInitError → string) (args : ControllerArgs)
    : ST W (result ControllerServing string) :=
  let!? _ := db_connect (ca_database_url args) in
  let!? _ := if ca_auto_migrate args then controller_migrate else st_ret (Ok ()) in
  match env_var "OPEN_SANDBOX_JOIN_TOKEN" with
  | None => st_ret (Err
      "OPEN_SANDBOX_JOIN_TOKEN must be set for the controller to validate agent registrations")
  | Some join_token =>
      match from_env (env_var "CONTROLLER_ADMIN_TOKEN") with
      | Err e => st_ret (Err ("CONTROLLER_ADMIN_TOKEN required for management gRPC: " +:+ auth_init_error e))
      | Ok admin_token =>
          let!? _ := tcp_bind (ca_grpc_port args) in
          st_ret (Ok {| cs_join_token := join_token; cs_admin_token := admin_token |})
      end
  end.

(** The first attempt and those after it. *)
Definition startup_retry (what : string) (action : ST W (result () string)) : ST W (result () string) :=
  let! r := retry_times host_sleep (Z.to_nat (PROXY_STARTUP_RETRY_ATTEMPTS - 1))
              PROXY_STARTUP_RETRY_INTERVAL action in
  st_ret (map_err (λ e, what +:+ " failed after " +:+ pretty PROXY_STARTUP_RETRY_ATTEMPTS +:+
                        " attempts: " +:+ e) r).

Definition apply_proxy_migrations_with_retry : ST W (result () string) :=
  startup_retry "proxy migration" proxy_migrate.
Definition load_cache : ST W (result () string) := startup_retry "routing cache" cache_refresh.

Definition run_migrate (database_url : string) : ST W (result () string) :=
  let!? _ := db_connect database_url in
  let!? _ := controller_migrate in
  apply_proxy_migrations_with_retry.

Definition combined_without_token : string :=
  INTERNAL_TOKEN_ENV +:+ " must be set when running the proxy in Combined mode (grpc_port == internal_grpc_port); without it OpenIoStream has zero authentication and any caller on the listener can execute commands in any sandbox".
Definition no_tunnel_token : string :=
  "TUNNEL_JOIN_TOKEN must be set so agents calling OpenTunnel are authenticated; without it any network-reachable caller can register as any agent_id and hijack routing for that agent's sandboxes".

(** The gRPC listeners of a started proxy. *)
Definition run_proxy (args : ProxyArgs) : ST W (result (list Listener) string) :=
  let!? _ := db_connect (pxa_database_url args) in
  let!? _ := if pxa_auto_migrate args then apply_proxy_migrations_with_retry else st_ret (Ok ()) in
  let!? _ := load_cache in
  let internal_token := env_var INTERNAL_TOKEN_ENV in
  let split_listeners := negb (bool_decide (pxa_grpc_port args = pxa_internal_grpc_port args)) in
  if negb split_listeners && bool_decide (internal_token = None) then st_ret (Err combined_without_token) else
  let tunnel_token := env_var "TUNNEL_JOIN_TOKEN" in
  if bool_decide (tunnel_token = None) then st_ret (Err no_tunnel_token) else
  let '(public_role, internal_role) :=
    if split_listeners then (Public, RoleInternal) else (Combined, Combined) in
  let public := {| ln_port := pxa_grpc_port args; ln_role := public_role;
                   ln_internal_token := internal_token; ln_tunnel_token := tunnel_token |} in
  let!? _ := tcp_bind (pxa_grpc_port args) in
  let!? _ := tcp_bind (pxa_http_port args) in
  if split_listeners then
    let!? _ := tcp_bind (pxa_internal_grpc_port args) in
    st_ret (Ok [public; {| ln_port := pxa_internal_grpc_port args; ln_role := internal_role;
                           ln_internal_token := internal_token; ln_tunnel_token := None |}])
  else st_ret (Ok [public]).

Definition STARTUP_DIAL_BUDGET : Z := 60 * 1000.
Definition STARTUP_DIAL_INITIAL : Z := 250.
Definition STARTUP_DIAL_CAP : Z := 5 * 1000.

(** [None]: the fuel did not suffice. *)
Definition dial_step (dial : ST W (result () string)) : ST W (result () string + result () string) :=
  let! r := dial in st_ret (match r with Ok v => inl (Ok v) | Err e => inr (Err e) end).
Definition connect_upstream_with_retry (dial : ST W (result () string)) : ST W (option (result () string)) := λ w,
  retry_until host_now host_sleep (retry_fuel STARTUP_DIAL_BUDGET STARTUP_DIAL_INITIAL) (dial_step dial)
    (host_now w + STARTUP_DIAL_BUDGET)%Z STARTUP_DIAL_INITIAL STARTUP_DIAL_CAP w.

(** The dials, and then [k]. *)
Definition dialled {A} (what : string) (dial : ST W (result () string))
    (k : ST W (option (result A string))) : ST W (option (result A string)) :=
  let! r := connect_upstream_with_retry dial in
  match r with
  | None => st_ret None
  | Some (Err e) => st_ret (Some (Err ("failed to connect to " +:+ what +:+ ": " +:+ e)))
  | Some (Ok _) => k
  end.

(** The key a started gateway serves with. *)
Definition run_api (args : ApiArgs) : ST W (option (result string string)) :=
  dialled "controller" (dial_controller (aa_controller_url args))
    (dialled "proxy" (dial_proxy (aa_proxy_url args) (env_var INTERNAL_TOKEN_ENV))
       (if decide (aa_api_key args = "") then
          st_ret (Some (Err "OPEN_SANDBOX_API_KEY must be set to a non-empty value; refusing to start with empty key"))
        else
          let! r := tcp_bind (aa_port args) in
          st_ret (Some (match r with Ok _ => Ok (aa_api_key args) | Err e => Err e end)))).
End processes.

(** ** The agent's host *)

Definition DEFAULT_MEMORY_BYTES : Z := 4 * 1024 * 1024 * 1024.

(** [str::trim_end_matches] with a string. *)
Definition trim_end_text (t s : string) : string :=
  string_rev (strip_all (String.length s) [string_rev t] (string_rev s)).

Fixpoint mem_total (lines : list string) : Z :=
  match lines with
  | [] => DEFAULT_MEMORY_BYTES
  | line :: lines =>
      match strip_prefix "MemTotal:" line with
      | Some rest =>
          match parse_u64 (str_trim (trim_end_text " kB" (str_trim rest))) with
          | Some kb => Z.min (kb * 1024) u64_max
          | None => mem_total lines
          end
      | None => mem_total lines
      end
  end.

(** The text of /proc/meminfo, if there is one to read. *)
Definition total_memory_bytes (meminfo : option string) : Z :=
  match meminfo with Some contents => mem_total (str_lines contents) | None => DEFAULT_MEMORY_BYTES end.

(** [available_parallelism]. *)
Definition num_cpus (parallelism : option Z) : Z := default 1%Z parallelism.

(** The number of the enum's value. *)
Definition host_architecture (arch : string) : Z :=
  if decide (arch = "x86_64") then 1 else if decide (arch = "aarch64") then 2 else 0.

Definition host_resources (parallelism : option Z) (meminfo : option string) : AgentResources :=
  {| res_cpu_cores := as_u32 (num_cpus parallelism); res_memory_bytes := total_memory_bytes meminfo |}.

Lemma mem_total_bounds lines : (0 ≤ mem_total lines ≤ u64_max)%Z.
Proof.
  assert (0 ≤ DEFAULT_MEMORY_BYTES ≤ u64_max)%Z by (unfold DEFAULT_MEMORY_BYTES, u64_max; lia).
  induction lines as [|line lines IH]; cbn [mem_total]; [done|].
  destruct (strip_prefix _ _); [|done]. destruct (parse_u64 _) as [kb|] eqn:E; [|done].
  apply parse_u64_bounds in E. unfold u64_max in *. lia.
Qed.

Example meminfo_read :
  total_memory_bytes (Some ("MemTotal:       16384256 kB" +:+ String "010" "MemFree: 1 kB")) = (16384256 * 1024)%Z.
Proof. evaluate. Qed.

(** ** Stopping the agent *)

Section shutdown.
Context `{UuidLib} {W : Type} `{!ContainerRuntime W}.
Variable uuid_error : string → string.

(** The listed sandboxes one after the other; a failure is only logged. *)
Fixpoint stop_all (ids : list SandboxId) : ST (Agent W) (list (SandboxId * result SandboxState AgentError)) :=
  match ids with
  | [] => st_ret []
  | id :: ids =>
      let! r := stop_sandbox uuid_error (hyphenated id) (as_u32 (SANDBOX_STOP_TIMEOUT / 1000)) in
      let! rs := stop_all ids in
      st_ret ((id, r) :: rs)
  end.

Context `{!UuidLaws _}.

Lemma stop_one id (ag : Agent W) r ag' :
  stop_sandbox uuid_error (hyphenated id) (as_u32 (SANDBOX_STOP_TIMEOUT / 1000)) ag = (r, ag') →
  (∃ e, r = Err e ∧ ag_sandboxes ag' = ag_sandboxes ag) ∨
  (r = Ok Stopped ∧ ag_sandboxes ag' = delete id (ag_sandboxes ag)).
Proof.
  unfold stop_sandbox, parse_sandbox_id. rewrite parse_hyphenated. cbn [ok_or].
  destruct (ag_sandboxes ag !! id) as [entry|]; [|intros [= <- <-]; left; by eexists].
  unfold AgentSandbox.call. destruct (stop_and_remove _ _ _) as [[u|e] w]; intros [= <- <-];
    [by right|left; by eexists].
Qed.

(** Every sandbox the agent has is stopped once, in whatever order they are listed; what is
    left is what the runtime could not stop, unchanged. *)
Lemma stop_all_outcome ids (ag : Agent W) rs ag' :
  stop_all ids ag = (rs, ag') →
  rs.*1 = ids ∧
  ∀ id, ((∃ st, (id, Ok st) ∈ rs) ∧ ag_sandboxes ag' !! id = None) ∨
        ((∀ st, (id, Ok st) ∉ rs) ∧ ag_sandboxes ag' !! id = ag_sandboxes ag !! id).
Proof.
  revert ag rs ag'. induction ids as [|i ids IH]; intros ag rs ag'; cbn [stop_all].
  { intros [= <- <-]. split; [done|]. intros id. right. split; [|done]. intros st. apply not_elem_of_nil. }
  unfold st_bind, st_ret. destruct (stop_sandbox _ _ _ ag) as [r ag1] eqn:E1.
  destruct (stop_all ids ag1) as [rs1 ag2] eqn:E2. intros [= <- <-].
  apply IH in E2 as [Hids Hout]. split; [by cbn; rewrite Hids|]. intros id.
  apply stop_one in E1 as [(e & -> & E1)|[-> E1]]; destruct (Hout id) as [[[st Hin] H2]|[Hno H2]].
  - left. split; [|done]. exists st. by apply list_elem_of_further.
  - right. rewrite H2, E1. split; [|done]. intros st [[=]|?]%elem_of_cons. by eapply Hno.
  - left. split; [|done]. exists st. by apply list_elem_of_further.
  - destruct (decide (id = i)) as [->|Hne].
    + left. split; [exists Stopped; by left|]. by rewrite H2, E1, lookup_delete_eq.
    + right. rewrite H2, E1, lookup_delete_ne by done. split; [|done].
      intros st [[=]|?]%elem_of_cons; [done|]. by eapply Hno.
Qed.
End shutdown.

(** ** A started proxy is guarded *)

Section guarded.
Context {W : Type} `{!ProcessHost W}.

Lemma bind_ok_inv {A B} (c : ST W (result A string)) (k : A → ST W (result B string)) b w w' :
  st_bind_ok c k w = (Ok b, w') → ∃ a w1, k a w1 = (Ok b, w').
Proof. unfold st_bind_ok, st_bind. destruct (c w) as [[a|e] w1]; [by exists a, w1|done]. Qed.

Lemma run_proxy_listeners args w ls w' :
  run_proxy args w = (Ok ls, w') →
  ∃ t, env_var "TUNNEL_JOIN_TOKEN" = Some t ∧
  let public role := {| ln_port := pxa_grpc_port args; ln_role := role;
    ln_internal_token := env_var INTERNAL_TOKEN_ENV; ln_tunnel_token := Some t |} in
  (pxa_grpc_port args ≠ pxa_internal_grpc_port args ∧
   ls = [public Public; {| ln_port := pxa_internal_grpc_port args; ln_role := RoleInternal;
           ln_internal_token := env_var INTERNAL_TOKEN_ENV; ln_tunnel_token := None |}]) ∨
  (pxa_grpc_port args = pxa_internal_grpc_port args ∧
   is_Some (env_var INTERNAL_TOKEN_ENV) ∧ ls = [public Combined]).
Proof.
  intros (_ & w1 & (_ & w2 & (_ & w3 & E)%bind_ok_inv)%bind_ok_inv)%bind_ok_inv. cbv zeta in E.
  case_bool_decide as Hp; case_bool_decide as Hi; cbn [negb andb] in E; try done;
    case_bool_decide as Ht; try done;
    (destruct (env_var "TUNNEL_JOIN_TOKEN") as [t|]; [|done]); exists t; (split; [done|]).
  - apply bind_ok_inv in E as (_ & w4 & (_ & w5 & [= <- _])%bind_ok_inv). right.
    split; [done|]. split; [|done]. by destruct (env_var INTERNAL_TOKEN_ENV); [eexists|].
  - apply bind_ok_inv in E as (_ & w4 & (_ & w5 & (_ & w6 & [= <- _])%bind_ok_inv)%bind_ok_inv). by left.
  - apply bind_ok_inv in E as (_ & w4 & (_ & w5 & (_ & w6 & [= <- _])%bind_ok_inv)%bind_ok_inv). by left.
Qed.

Definition tunnel_gate (l : Listener) := open_tunnel_gate (ln_role l) (ln_tunnel_token l).
Definition io_gate (l : Listener) := open_io_stream_gate (ln_role l) (ln_internal_token l).
Definition bearing (t : string) : option (option string) := Some (Some ("Bearer " +:+ t)).

(** C28: A proxy that has started is guarded. There is a join token, and an agent's tunnel is
    accepted only on the agents' port and only with that token; an IO session is accepted
    only on the gateway's port, and with the internal token when one is set; when both ports
    are the same there is one. While it does not drain, both kinds of callers with the right
    tokens are accepted on their port. *)
Theorem started_proxy_guarded args w ls w' :
  run_proxy args w = (Ok ls, w') →
  ∃ t, env_var "TUNNEL_JOIN_TOKEN" = Some t ∧
  (∀ l draining auth, l ∈ ls → tunnel_gate l draining auth = Ok () →
     ln_port l = pxa_grpc_port args ∧ auth = bearing t) ∧
  (∀ l draining auth, l ∈ ls → io_gate l draining auth = Ok () →
     ln_port l = pxa_internal_grpc_port args ∧
     (∀ i, env_var INTERNAL_TOKEN_ENV = Some i → auth = bearing i) ∧
     (pxa_internal_grpc_port args = pxa_grpc_port args → is_Some (env_var INTERNAL_TOKEN_ENV))) ∧
  (∃ l, l ∈ ls ∧ ln_port l = pxa_grpc_port args ∧ tunnel_gate l false (bearing t) = Ok ()) ∧
  (∃ l, l ∈ ls ∧ ln_port l = pxa_internal_grpc_port args ∧
     ∀ auth, (∀ i, env_var INTERNAL_TOKEN_ENV = Some i → auth = bearing i) → io_gate l false auth = Ok ()).
Proof.
  intros (t & Ht & Hls)%run_proxy_listeners. exists t. split; [done|].
  assert (∀ role token draining auth, open_tunnel_gate role token draining auth = Ok () ↔
    role ≠ RoleInternal ∧ draining = false ∧ ∀ t, token = Some t → auth = bearing t) as Htg
    by (intros; apply proxy_gates_exact).
  assert (∀ role token draining auth, open_io_stream_gate role token draining auth = Ok () ↔
    role ≠ Public ∧ draining = false ∧ ∀ t, token = Some t → auth = bearing t) as Hig
    by (intros; apply proxy_gates_exact).
  unfold tunnel_gate, io_gate. setoid_rewrite Htg. setoid_rewrite Hig.
  destruct Hls as [[Hne ->]|(He & Hi & ->)].
  - split_and!.
    + intros l d auth [->|[->|[]%not_elem_of_nil]%elem_of_cons]%elem_of_cons; cbn; naive_solver.
    + intros l d auth [->|[->|[]%not_elem_of_nil]%elem_of_cons]%elem_of_cons; cbn; naive_solver.
    + eexists. split; [left|]. cbn. naive_solver.
    + eexists. split; [right; left|]. cbn. naive_solver.
  - split_and!.
    + intros l d auth ->%list_elem_of_singleton; cbn; naive_solver.
    + intros l d auth ->%list_elem_of_singleton; cbn; naive_solver.
    + eexists. split; [left|]. cbn. naive_solver.
    + eexists. split; [left|]. cbn. naive_solver.
Qed.
End guarded.

(** ** The gateway starts, or says why not, in time *)

(** Sleeping and dialling take time. *)
Class HostTime (W : Type) `{!ProcessHost W} := {
  ht_sleep : ∀ d (w : W), (host_now w + d ≤ host_now (host_sleep d w).2)%Z;
  ht_controller : ∀ url (w : W), (host_now w ≤ host_now (dial_controller url w).2)%Z;
  ht_proxy : ∀ url token (w : W), (host_now w ≤ host_now (dial_proxy url token w).2)%Z;
}.

Section gateway.
Context {W : Type} `{!ProcessHost W, !HostTime W}.

Lemma dial_ends (dial : ST W (result () string)) w :
  (∀ w, host_now w ≤ host_now (dial w).2)%Z →
  ∃ r w', connect_upstream_with_retry dial w = (Some r, w') ∧ (host_now w ≤ host_now w')%Z ∧
    (∃ w0, dial w0 = (r, w')) ∧
    ((∃ e, r = Err e) → host_now w + STARTUP_DIAL_BUDGET ≤ host_now w')%Z.
Proof.
  intros Hd. unfold connect_upstream_with_retry.
  destruct (retry_until_ends host_now host_sleep ht_sleep (dial_step dial) STARTUP_DIAL_BUDGET
    STARTUP_DIAL_INITIAL STARTUP_DIAL_CAP w) as (r & w' & -> & Hn & w0 & Hl); [|done|done|].
  { intros w1. unfold dial_step, st_bind. specialize (Hd w1). by destruct (dial w1). }
  exists r, w'. split; [done|]. split; [done|]. unfold dial_step, st_bind, st_ret in Hl.
  destruct (dial w0) as [[u|e] w1] eqn:E; destruct Hl as [[= <- <-]|[[= <- <-] Hl]].
  - split; [by exists w0|]. by intros [].
  - split; [by exists w0|done].
Qed.

(** The gateway's start-up ends whatever its upstreams do. When it serves, controller and
    proxy have been reached and the key is the configured one and not empty; when it gives up,
    the key was empty, its port was taken, or a minute has passed since it began: it does not
    give up early on an upstream that is not there yet. *)
Theorem gateway_start args w :
  ∃ r w', run_api args w = (Some r, w') ∧
  match r with
  | Ok key => key = aa_api_key args ∧ key ≠ "" ∧
      (∃ w1 w2, dial_controller (aa_controller_url args) w1 = (Ok (), w2)) ∧
      (∃ w1 w2, dial_proxy (aa_proxy_url args) (env_var INTERNAL_TOKEN_ENV) w1 = (Ok (), w2))
  | Err e => aa_api_key args = "" ∨ (∃ w1, tcp_bind (aa_port args) w1 = (Err e, w')) ∨
      (host_now w + STARTUP_DIAL_BUDGET ≤ host_now w')%Z
  end.
Proof.
  unfold run_api, dialled, st_bind, st_ret.
  destruct (dial_ends (dial_controller (aa_controller_url args)) w (ht_controller _))
    as (r1 & w1 & -> & Hn1 & [w01 Hd1] & He1).
  destruct r1 as [[]|e1]; [|eexists _, _; split; [done|]; right; right; apply He1; by eexists].
  destruct (dial_ends (dial_proxy (aa_proxy_url args) (env_var INTERNAL_TOKEN_ENV)) w1 (ht_proxy _ _))
    as (r2 & w2 & -> & Hn2 & [w02 Hd2] & He2).
  destruct r2 as [[]|e2];
    [|eexists _, _; split; [done|]; right; right; specialize (He2 ltac:(by eexists)); lia].
  case_decide; [eexists _, _; split; [done|]; by left|].
  destruct (tcp_bind (aa_port args) w2) as [[u|e] w3] eqn:Eb; eexists _, _; (split; [done|]).
  - split; [done|]. split; [done|]. split; [by exists w01, w1|by exists w02, w2].
  - right. left. by exists w2.
Qed.
End gateway.

Module StartupExamples.
(** A world is its clock; the controller comes up after two seconds. *)
#[local] Instance demo_host : ProcessHost Z := {
  env_var v := if decide (v = "TUNNEL_JOIN_TOKEN") then Some "join" else None;
  db_connect _ w := (Ok (), w);
  controller_migrate w := (Ok (), w);
  proxy_migrate w := (if decide (w < 6000)%Z then Err "no table" else Ok (), w);
  cache_refresh w := (Ok (), w);
  tcp_bind _ w := (Ok (), w);
  dial_controller _ w := (if decide (w < 2000)%Z then Err "refused" else Ok (), w);
  dial_proxy _ _ w := (Ok (), w);
  host_now w := w;
  host_sleep d w := ((), (w + d)%Z);
}.
#[local] Instance demo_host_time : HostTime Z.
Proof. split; intros; cbn; lia. Qed.

Definition demo_proxy (internal : Z) : ProxyArgs :=
  {| pxa_http_port := 8080; pxa_grpc_port := 50052; pxa_internal_grpc_port := internal;
     pxa_database_url := "postgres://db"; pxa_auto_migrate := true;
     pxa_shutdown_drain_timeout := 30 |}.

Lemma started_proxy_guarded_witness :
  ∃ ls, run_proxy (demo_proxy 50053) 0%Z = (Ok ls, 6000%Z) ∧ length ls = 2 ∧
    ∀ l draining auth, l ∈ ls → tunnel_gate l draining auth = Ok () → auth = bearing "join".
Proof.
  eexists. split; [vm_compute; reflexivity|]. split; [reflexivity|].
  intros l draining auth Hl Hg.
  edestruct (@started_proxy_guarded Z demo_host (demo_proxy 50053) 0%Z) as (t & Et & Ht & _);
    [vm_compute; reflexivity|].
  destruct (Ht l draining auth Hl Hg) as [_ ->]. by injection Et as <-.
Defined.

(** One port for both without an internal token is refused. *)
Example combined_needs_token : run_proxy (demo_proxy 50052) 0%Z = (Err combined_without_token, 6000%Z).
Proof. evaluate. Qed.

(** The example's gateway starts after the controller has come up. *)
Definition demo_api : ApiArgs :=
  {| aa_port := 8081; aa_controller_url := "http://c"; aa_proxy_url := "http://p"; aa_api_key := "k" |}.
Lemma gateway_start_witness :
  ∃ r w', run_api demo_api 0%Z = (Some r, w') ∧ r = Ok "k" ∧
    ∃ w1 w2, dial_controller "http://c" w1 = (Ok (), w2).
Proof.
  destruct (@gateway_start Z demo_host demo_host_time demo_api 0%Z) as (r & w' & E & H).
  exists r, w'. split; [exact E|].
  assert (r = Ok "k") as -> by (pose proof E as E'; vm_compute in E'; by injection E').
  split; [reflexivity|]. by destruct H as (_ & _ & Hc & _).
Defined.
Example gateway_waits : run_api demo_api 0%Z = (Some (Ok "k"), 3750%Z).
Proof. evaluate. Qed.
End StartupExamples.

Module EmptyTokens.
(** An empty join token counts as set, for the proxy and for the controller: a caller with an
    empty token is let in. *)
#[local] Instance empty_host : ProcessHost Z := {
  env_var v := if decide (v = "CONTROLLER_ADMIN_TOKEN") then Some "admin" else Some "";
  db_connect _ w := (Ok (), w);
  controller_migrate w := (Ok (), w);
  proxy_migrate w := (Ok (), w);
  cache_refresh w := (Ok (), w);
  tcp_bind _ w := (Ok (), w);
  dial_controller _ w := (Ok (), w);
  dial_proxy _ _ w := (Ok (), w);
  host_now w := w;
  host_sleep d w := ((), (w + d)%Z);
}.
Example empty_tokens_accepted :
  (∃ l, run_proxy (StartupExamples.demo_proxy 50052) 0%Z = (Ok [l], 0%Z) ∧
     tunnel_gate l false (bearing "") = Ok () ∧ io_gate l false (bearing "") = Ok ()) ∧
  (∃ s, run_controller (λ _, "") {| ca_database_url := ""; ca_auto_migrate := false; ca_grpc_port := 50051; ca_sweep_interval := 30 |} 0%Z
          = (Ok s, 0%Z) ∧ static_token_validate (cs_join_token s) "" = true).
Proof. split; eexists; (split; [vm_compute; reflexivity|]); [split|]; evaluate. Qed.
End EmptyTokens.
