(* ===== verification/Cli.v ===== *)
(** * The command line (crates/cli/src/{cli,run_subcommand,ssh}.rs)

    [open-sandbox run]: create a sandbox, wait until it runs, stream a command, and delete it;
    and [open-sandbox ssh]: the command line handed to the local ssh client, whose
    ProxyCommand calls [ssh-pipe] back through a shell. The REST API and the WebSocket session
    are parameters; times are in ms. *)

From S2P Require Import Prelude RustText Contracts UuidRef ControllerCore IoFrames Routing Tunnels ProxyGrpc HttpServer AgentIo Api Retry.

(** ** cli.rs *)

Definition parse_env_kv (s : string) : result (string * string) string :=
  match split_once "=" s with
  | Some (k, v) => if decide (k ≠ "") then Ok (k, v)
                   else Err ("expected KEY=VAL with non-empty KEY, got `" +:+ s +:+ "`")
  | None => Err ("expected KEY=VAL with non-empty KEY, got `" +:+ s +:+ "`")
  end.

Definition parse_pull_policy (s : string) : result PullPolicy string :=
  if decide (s = "if-not-present") then Ok IfNotPresent
  else if decide (s = "always") then Ok Always
  else if decide (s = "never") then Ok Never
  else Err ("unknown pull policy `" +:+ s +:+ "`; expected if-not-present, always, or never").

(** ** ssh.rs: the command line of the local client *)

Definition ws_base (base : string) : string :=
  match strip_prefix "https://" base with
  | Some rest => "wss://" +:+ rest
  | None => match strip_prefix "http://" base with
            | Some rest => "ws://" +:+ rest
            | None => base
            end
  end.

Definition quote : ascii := "'"%char.
Definition backslash : ascii := "\"%char.

Fixpoint quote_chars (s : string) : string :=
  match s with
  | EmptyString => ""
  | String a s => (if decide (a = quote) then String quote (String backslash (String quote (String quote "")))
                   else String a "") +:+ quote_chars s
  end.
Definition shell_quote (s : string) : string :=
  String quote (quote_chars s +:+ String quote "").

Record SshArgs := {
  sa_sandbox_id : string;
  sa_no_install : bool;
  sa_ssh_key : option string;
  sa_api_base : string;
  sa_api_key : string;
  sa_command : list string;
}.

Record SshPipeArgs := {
  pa_sandbox_id : string;
  pa_no_install : bool;
  pa_api_base : string;
  pa_api_key : string;
}.

Definition proxy_command (self_path : string) (args : SshArgs) : string :=
  shell_quote self_path +:+ " ssh-pipe " +:+ shell_quote (sa_sandbox_id args) +:+ " --api-base " +:+
  shell_quote (sa_api_base args) +:+ (if sa_no_install args then " --no-install" else "").

Definition EXIT_CREATE_FAILED : Z := 120.
Definition EXIT_START_TIMEOUT : Z := 121.
Definition EXIT_SANDBOX_FAILED : Z := 122.
Definition EXIT_CONNECT_FAILED : Z := 124.
Definition EXIT_REMOTE_ERROR : Z := 125.
Definition EXIT_SESSION_BROKEN : Z := 126.
Definition EXIT_IO_ERROR : Z := 127.

(** The command run in the sandbox; [dq] puts a double quote. *)
Definition dq (s : string) : string := String (ascii_of_N 34) s.
Definition SSHD_INETD_LAUNCHER : string := "
if ! command -v sshd >/dev/null 2>&1; then
  if command -v apk >/dev/null 2>&1; then
    apk add --no-cache openssh-server >&2 || exit 127
  elif command -v apt-get >/dev/null 2>&1; then
    # Recover from any prior interrupted install (Ctrl-C during the
    # apt-get path leaves /var/lib/dpkg/lock-frontend held and the
    # package half-configured; without this every subsequent connect
    # fails with `Could not get lock`).
    dpkg --configure -a >&2 2>/dev/null || true
    apt-get update >&2 && apt-get install -y openssh-server >&2 || exit 127
  else
    echo " +:+ dq ("open-sandbox ssh: no supported package manager (apk / apt-get); rerun with --no-install on an image that already bundles sshd" +:+ dq (" >&2
    exit 127
  fi
  ssh-keygen -A >&2 || exit 127
  passwd -d root >&2 || true
  # Set PermitRootLogin / PermitEmptyPasswords. Replace the line if
  # present (commented or not); APPEND if absent — some minimal
  # sshd_configs omit them entirely and we'd otherwise inherit the
  # compile-time defaults (`prohibit-password` + `no`) which break
  # the empty-password auth this bootstrap promises.
  if [ -f /etc/ssh/sshd_config ]; then
    for kv in 'PermitRootLogin yes' 'PermitEmptyPasswords yes'; do
      k=" +:+ dq ("${kv%% *}" +:+ dq ("
      if grep -qE " +:+ dq ("^[[:space:]]*#?[[:space:]]*${k}([[:space:]]|\$)" +:+ dq (" /etc/ssh/sshd_config; then
        sed -i -E " +:+ dq ("s|^[[:space:]]*#?[[:space:]]*${k}.*|${kv}|" +:+ dq (" /etc/ssh/sshd_config
      else
        printf '%s\n' " +:+ dq ("${kv}" +:+ dq (" >> /etc/ssh/sshd_config
      fi
    done
  fi
fi
exec " +:+ dq ("$(command -v sshd)" +:+ dq (" -i -e
")))))))))))).
Definition SSHD_INETD_LAUNCHER_NO_INSTALL : string := "exec " +:+ dq ("$(command -v sshd)" +:+ dq (" -i -e")).

(** The process [ssh] runs: its variables and arguments. *)
Record Spawned := { sp_env : gmap string string; sp_argv : list string }.
Definition ssh_client (self_path : string) (args : SshArgs) : Spawned :=
  let auth_pref := match sa_ssh_key args with Some _ => "publickey" | None => "publickey,password" end in
  {| sp_env := {["OPEN_SANDBOX_API_KEY" := sa_api_key args]};
     sp_argv :=
       ["ssh"; "-o"; "ProxyCommand=" +:+ proxy_command self_path args;
        "-o"; "StrictHostKeyChecking=no"; "-o"; "UserKnownHostsFile=/dev/null";
        "-o"; "PreferredAuthentications=" +:+ auth_pref; "-o"; "LogLevel=ERROR"] ++
       (match sa_ssh_key args with Some key => ["-i"; key] | None => [] end) ++
       ["root@" +:+ sa_sandbox_id args] ++ sa_command args |}.

(** [current_exe] and the run of the client: its exit code, if it has one. *)
Definition ssh {W} (current_exe : result string string) (status : Spawned → ST W (result (option Z) string))
    (args : SshArgs) : ST W Z :=
  if decide (sa_api_key args = "") then st_ret EXIT_CONNECT_FAILED else
  match current_exe with
  | Err _ => st_ret EXIT_CONNECT_FAILED
  | Ok self_path =>
      let! r := status (ssh_client self_path args) in
      st_ret (match r with
              | Err _ => EXIT_CONNECT_FAILED
              | Ok (Some c) => Z.land c 255
              | Ok None => 1%Z
              end)
  end.

(** ** The loop of a session

    An event is what [select!] takes next: local input, Ctrl-C, or what the session yields.
    [pipe] is [ssh-pipe]'s loop, which does not catch Ctrl-C (there is no such event for it) and
    gives up when it cannot pass bytes on. *)

Inductive ClientEvent :=
| KInput (chunk : result (option bytes) string) (sent : bool)
| KSigint (sent : bool)
| KFrame (f : result (option ServerFrame) string) (written : bool).

Record Streaming := {
  st_stdin_done : bool;
  st_sent : list IoClientPayload;
  st_out : list bytes;
  st_err : list bytes;
}.
Definition streaming_start (forward_stdin : bool) : Streaming :=
  {| st_stdin_done := negb forward_stdin; st_sent := []; st_out := []; st_err := [] |}.

Definition sending (p : IoClientPayload) (s : Streaming) : Streaming :=
  {| st_stdin_done := st_stdin_done s; st_sent := st_sent s ++ [p]; st_out := st_out s; st_err := st_err s |}.
Definition input_over (s : Streaming) : Streaming :=
  {| st_stdin_done := true; st_sent := st_sent s; st_out := st_out s; st_err := st_err s |}.
Definition showing (out err : list bytes) (s : Streaming) : Streaming :=
  {| st_stdin_done := st_stdin_done s; st_sent := st_sent s; st_out := st_out s ++ out;
     st_err := st_err s ++ err |}.

(** What the local input yields; the exit code when the loop is left. *)
Definition on_input (pipe : bool) (chunk : result (option bytes) string) (sent : bool) (s : Streaming)
    : Streaming * option Z :=
  if st_stdin_done s then (s, None) else
  match chunk with
  | Ok (Some b) =>
      if sent then (sending (CStdin b) s, None)
      else (s, if pipe then Some EXIT_IO_ERROR else None)
  | Ok None => (input_over (if sent then sending (CClose true) s else s), None)
  | Err _ => if pipe then (s, Some EXIT_IO_ERROR)
             else (input_over (if sent then sending (CClose true) s else s), None)
  end.

Definition on_frame (pipe : bool) (f : result (option ServerFrame) string) (written : bool) (s : Streaming)
    : Streaming * option Z :=
  match f with
  | Ok (Some (Stdout b)) =>
      if written then (showing [b] [] s, None)
      else (s, if pipe then Some EXIT_IO_ERROR else None)
  | Ok (Some (Stderr b)) => (if written then showing [] [b] s else s, None)
  | Ok (Some (Exited exit_code _)) => (s, Some (Z.land exit_code 255))
  | Ok (Some (WsError _ _)) => (s, Some EXIT_REMOTE_ERROR)
  | Ok (Some _) => (s, None)
  | Ok None => (s, Some EXIT_SESSION_BROKEN)
  | Err _ => (s, Some EXIT_IO_ERROR)
  end.

Definition on_event (pipe : bool) (ev : ClientEvent) (s : Streaming) : Streaming * option Z :=
  match ev with
  | KInput chunk sent => on_input pipe chunk sent s
  | KSigint sent => (if negb pipe && sent then sending (CSignal 2) s else s, None)
  | KFrame f written => on_frame pipe f written s
  end.

(** [None]: the session goes on. *)
Fixpoint stream_events (pipe : bool) (evs : list ClientEvent) (s : Streaming) : Streaming * option Z :=
  match evs with
  | [] => (s, None)
  | ev :: evs =>
      match on_event pipe ev s with
      | (s, None) => stream_events pipe evs s
      | (s, Some code) => (s, Some code)
      end
  end.

(** ** run_subcommand.rs *)

Record CreateBody := {
  cb_image : string;
  cb_cpu_millicores : Z;
  cb_memory_bytes : Z;
  cb_env_vars : gmap string string;
  cb_exposed_port : Z;
  cb_pull_policy : PullPolicy;
}.

Record RunArgs := {
  ra_image : string;
  ra_cpu_millicores : Z;
  ra_memory_bytes : Z;
  ra_env : list (string * string);
  ra_pull_policy : option PullPolicy;
  ra_cwd : option string;
  ra_api_base : string;
  ra_api_key : string;
  ra_start_timeout_secs : Z;
  ra_command : list string;
}.

(** An HTTP answer: its status and its text, if that could be read. *)
Definition HttpAnswer : Type := Z * result string string.
Definition is_success (status : Z) : bool := bool_decide (200 ≤ status < 300)%Z.

(** The calls, each with the URL and the key: [Err] when there is no answer. *)
Class RestApi (W : Type) := {
  http_client : W → result () string;
  http_post : string → string → CreateBody → ST W (result HttpAnswer string);
  http_get : string → string → ST W (result HttpAnswer string);
  http_delete : string → string → ST W (result Z string);
  json_sandbox_id : string → result string string;
  (** the status, empty when missing, and the error *)
  json_sandbox : string → result (string * option string) string;
  status_text : Z → string;
  cli_now : W → Z;
  cli_sleep : Z → ST W ();
  (** the WebSocket session at a URL, for a sandbox and a command, until the loop is left *)
  exec_connect : string → string → string → list string → option string →
    ST W (result (list ClientEvent) string);
  stdin_is_tty : W → bool;
}.

Inductive WaitError := WaitTimeout | WaitFailed (detail : string) | WaitHttp (e : string).

Section run.
Context {W : Type} `{!RestApi W}.

Definition create_sandbox (api_base api_key : string) (body : CreateBody)
    : ST W (result string string) :=
  let! r := http_post (api_base +:+ "/v1/sandboxes") api_key body in
  st_ret (
    let? (status, text) := r in
    let? text := text in
    if negb (is_success status) then Err ("HTTP " +:+ status_text status +:+ ": " +:+ text) else
    map_err (λ e, "malformed create response: " +:+ e +:+ ": " +:+ text) (json_sandbox_id text)).

(** One poll: what the sandbox's state says, or [None] to wait. *)
Definition poll (answer : result HttpAnswer string) : option (result () WaitError) :=
  match answer with
  | Err e => Some (Err (WaitHttp e))
  | Ok (_, Err e) => Some (Err (WaitHttp e))
  | Ok (status, Ok text) =>
      if negb (is_success status) then
        Some (Err (WaitHttp ("HTTP " +:+ status_text status +:+ ": " +:+ text)))
      else
      match json_sandbox text with
      | Err e => Some (Err (WaitHttp ("malformed get response: " +:+ e +:+ ": " +:+ text)))
      | Ok (status, error) =>
          if decide (status = "running") then Some (Ok ())
          else if decide (status = "failed" ∨ status = "stopped") then
            Some (Err (WaitFailed (default status error)))
          else None
      end
  end.

Definition POLL_CAP : Z := 2000.
Definition POLL_START : Z := 250.

(** One turn of the loop: [Err WaitTimeout] when it is late. *)
Definition wait_step (url api_key : string) : ST W (result () WaitError + result () WaitError) :=
  let! answer := http_get url api_key in
  st_ret (match poll answer with Some r => inl r | None => inr (Err WaitTimeout) end).

Definition wait_for_running (api_base api_key sandbox_id : string) (budget : Z)
    : ST W (option (result () WaitError)) := λ w,
  retry_until cli_now cli_sleep (retry_fuel budget POLL_START)
    (wait_step (api_base +:+ "/v1/sandboxes/" +:+ sandbox_id) api_key)
    (cli_now w + budget)%Z POLL_START POLL_CAP w.

(** Failures are only warned about. *)
Definition cleanup (api_base api_key sandbox_id : string) : ST W () :=
  let! _ := http_delete (api_base +:+ "/v1/sandboxes/" +:+ sandbox_id) api_key in st_ret ().

(** The exit code; [None] while the session goes on. *)
Definition stream_exec (api_base api_key sandbox_id : string) (command : list string)
    (cwd : option string) : ST W (option Z) :=
  let! r := exec_connect (ws_base api_base) sandbox_id api_key command cwd in
  λ w, (match r with
        | Err _ => Some EXIT_CONNECT_FAILED
        | Ok evs => (stream_events false evs (streaming_start (negb (stdin_is_tty w)))).2
        end, w).

Definition ssh_pipe (args : SshPipeArgs) : ST W (option Z) :=
  let api_base := ws_base (trim_end_matches "/" (pa_api_base args)) in
  if decide (pa_api_key args = "") then st_ret (Some EXIT_CONNECT_FAILED) else
  let launcher := if pa_no_install args then SSHD_INETD_LAUNCHER_NO_INSTALL else SSHD_INETD_LAUNCHER in
  let! r := exec_connect api_base (pa_sandbox_id args) (pa_api_key args) ["sh"; "-c"; launcher] None in
  st_ret (match r with
          | Err _ => Some EXIT_CONNECT_FAILED
          | Ok evs => (stream_events true evs (streaming_start true)).2
          end).

Definition create_body (args : RunArgs) : CreateBody :=
  {| cb_image := ra_image args;
     cb_cpu_millicores := ra_cpu_millicores args;
     cb_memory_bytes := ra_memory_bytes args;
     (** [collect]: a later value of a variable replaces an earlier one *)
     cb_env_vars := list_to_map (reverse (ra_env args));
     cb_exposed_port := 0;
     cb_pull_policy := default IfNotPresent (ra_pull_policy args) |}.

Definition cli_run (args : RunArgs) : ST W (option Z) := λ w,
  let api_base := trim_end_matches "/" (ra_api_base args) in
  let api_key := ra_api_key args in
  if decide (api_key = "") then (Some EXIT_CREATE_FAILED, w) else
  match http_client w with
  | Err _ => (Some EXIT_CREATE_FAILED, w)
  | Ok _ =>
      (let! created := create_sandbox api_base api_key (create_body args) in
       match created with
       | Err _ => st_ret (Some EXIT_CREATE_FAILED)
       | Ok sandbox_id =>
           let! waited := wait_for_running api_base api_key sandbox_id
                            (ra_start_timeout_secs args * 1000) in
           match waited with
           | None => st_ret None
           | Some (Err e) =>
               let! _ := cleanup api_base api_key sandbox_id in
               st_ret (Some match e with
                            | WaitTimeout => EXIT_START_TIMEOUT
                            | WaitFailed _ => EXIT_SANDBOX_FAILED
                            | WaitHttp _ => EXIT_CREATE_FAILED
                            end)
           | Some (Ok _) =>
               let! exit := stream_exec api_base api_key sandbox_id (ra_command args) (ra_cwd args) in
               match exit with
               | None => st_ret None
               | Some code => let! _ := cleanup api_base api_key sandbox_id in st_ret (Some code)
               end
           end
       end) w
  end.
End run.

(** ** The ProxyCommand is read back as the intended words

    The words a POSIX shell makes of a command line of quoted and plain text; a character that
    means anything else to it gives [None]. *)

Inductive ShMode := Between | InWord (acc : string) | InQuote (acc : string).

Definition snoc (s : string) (a : ascii) : string := s +:+ String a "".
Definition plain_char (a : ascii) : bool :=
  let n := Ascii.N_of_ascii a in
  bool_decide ((48 ≤ n ≤ 57) ∨ (65 ≤ n ≤ 90) ∨ (97 ≤ n ≤ 122) ∨ n = 45 ∨ n = 46 ∨ n = 47 ∨ n = 95)%N.

Fixpoint sh_split (m : ShMode) (s : string) : option (list string) :=
  match s with
  | EmptyString => match m with Between => Some [] | InWord acc => Some [acc] | InQuote _ => None end
  | String a rest =>
      match m with
      | InQuote acc =>
          if decide (a = quote) then sh_split (InWord acc) rest else sh_split (InQuote (snoc acc a)) rest
      | Between | InWord _ =>
          let acc := match m with InWord acc => acc | _ => "" end in
          if decide (a = quote) then sh_split (InQuote acc) rest
          else if decide (a = backslash) then
            match rest with
            | String b rest => sh_split (InWord (snoc acc b)) rest
            | EmptyString => None
            end
          else if decide (a = " "%char) then
            match m with InWord acc => cons acc <$> sh_split Between rest | _ => sh_split Between rest end
          else if plain_char a then sh_split (InWord (snoc acc a)) rest
          else None
      end
  end.

Lemma string_app_snoc acc a s : acc +:+ String a s = snoc acc a +:+ s.
Proof. unfold snoc. by rewrite string_app_assoc. Qed.

Lemma sh_split_quoted acc a x :
  a ≠ quote → sh_split (InQuote acc) (String a x) = sh_split (InQuote (snoc acc a)) x.
Proof. intros Ha. cbn. by destruct (decide (a = quote)). Qed.

Lemma quote_chars_split acc s rest :
  sh_split (InQuote acc) (quote_chars s +:+ String quote rest) = sh_split (InWord (acc +:+ s)) rest.
Proof.
  revert acc. induction s as [|a s IH]; intros acc.
  - by rewrite string_app_nil_r.
  - cbn [quote_chars]. rewrite string_app_assoc, (string_app_snoc acc). destruct (decide (a = quote)) as [->|Ha].
    + etrans; [|exact (IH (snoc acc quote))]. done.
    + etrans; [exact (sh_split_quoted acc a _ Ha)|exact (IH (snoc acc a))].
Qed.

Lemma shell_quote_split s rest : sh_split Between (shell_quote s +:+ rest) = sh_split (InWord s) rest.
Proof.
  unfold shell_quote. rewrite string_app_cons, string_app_assoc.
  change (String quote "" +:+ rest) with (String quote rest). exact (quote_chars_split "" s rest).
Qed.

(** The ProxyCommand of [open-sandbox ssh] is read by the shell as exactly the intended
    words, whatever characters the path of the binary, the sandbox id and the API's address
    have; and the API key reaches the client only through its environment: neither it nor
    anything computed from it is an argument. *)
Theorem proxy_command_words self_path args :
  sh_split Between (proxy_command self_path args) =
    Some ([self_path; "ssh-pipe"; sa_sandbox_id args; "--api-base"; sa_api_base args] ++
          if sa_no_install args then ["--no-install"] else []) ∧
  (∀ key', sp_argv (ssh_client self_path
     {| sa_sandbox_id := sa_sandbox_id args; sa_no_install := sa_no_install args;
        sa_ssh_key := sa_ssh_key args; sa_api_base := sa_api_base args; sa_api_key := key';
        sa_command := sa_command args |}) = sp_argv (ssh_client self_path args)) ∧
  sp_env (ssh_client self_path args) !! "OPEN_SANDBOX_API_KEY" = Some (sa_api_key args).
Proof.
  split; [|split; [done|apply lookup_insert_eq]].
  unfold proxy_command. rewrite shell_quote_split.
  change (sh_split (InWord self_path) (" ssh-pipe " +:+ ?x)) with
    (cons self_path <$> (cons "ssh-pipe" <$> sh_split Between x)).
  rewrite shell_quote_split.
  change (sh_split (InWord (sa_sandbox_id args)) (" --api-base " +:+ ?x)) with
    (cons (sa_sandbox_id args) <$> (cons "--api-base" <$> sh_split Between x)).
  rewrite shell_quote_split. by destruct (sa_no_install args).
Qed.

(** ** The pipe loses nothing *)

(** What the local client sends until its end, and what the session yields for it. *)
Fixpoint read_in (evs : list ClientEvent) : list bytes :=
  match evs with
  | [] => []
  | KInput (Ok (Some b)) _ :: evs => b :: read_in evs
  | KInput _ _ :: _ => []
  | _ :: evs => read_in evs
  end.
Definition yielded (evs : list ClientEvent) : list bytes :=
  omap (λ ev, match ev with KFrame (Ok (Some (Stdout b))) _ => Some b | _ => None end) evs.
Definition stdin_bytes (s : Streaming) : list bytes :=
  omap (λ p, match p with CStdin b => Some b | _ => None end) (st_sent s).

Lemma stdin_bytes_sending p s :
  stdin_bytes (sending p s) = stdin_bytes s ++ match p with CStdin b => [b] | _ => [] end.
Proof. unfold stdin_bytes. cbn. rewrite omap_app. by destruct p. Qed.

(** [s'] after [s]: [i] was passed to the session and [o] to the client. *)
Definition passed (s s' : Streaming) (i o : list bytes) : Prop :=
  stdin_bytes s' = stdin_bytes s ++ i ∧ st_out s' = st_out s ++ o.

Lemma passed_trans s1 s2 s3 i o i' o' :
  passed s1 s2 i o → passed s2 s3 i' o' → passed s1 s3 (i ++ i') (o ++ o').
Proof. intros [H1 H2] [H3 H4]. split; [by rewrite H3, H1, app_assoc|by rewrite H4, H2, app_assoc]. Qed.

(** One event: what it asks for is passed on, or the pipe ends. *)
Lemma pipe_event ev s s' exit :
  on_event true ev s = (s', exit) →
  (exit ≠ None ∧ passed s s' [] []) ∨
  (exit = None ∧ ∃ i o, passed s s' i o ∧
     (∀ evs, (if st_stdin_done s then [] else read_in (ev :: evs)) =
             i ++ (if st_stdin_done s' then [] else read_in evs)) ∧
     (∀ evs, yielded (ev :: evs) = o ++ yielded evs)).
Proof.
  assert (∀ t, passed t t [] []) as Hid by (intros t; split; by rewrite app_nil_r).
  assert (∀ t p, (∀ b, p ≠ CStdin b) → passed t (sending p t) [] []) as Hp.
  { intros t p Hp. split; [|by rewrite app_nil_r]. rewrite stdin_bytes_sending.
    destruct p; try done. by edestruct Hp. }
  destruct ev as [chunk sent|sent|f written]; cbn [on_event].
  - unfold on_input. destruct (st_stdin_done s) eqn:Ed.
    { intros [= <- <-]. right. split; [done|]. exists [], []. rewrite Ed. done. }
    destruct chunk as [[b|]|e]; [| |by intros [= <- <-]; left].
    + destruct sent; intros [= <- <-]; [|by left]. right. split; [done|]. exists [b], [].
      cbn [st_stdin_done sending]. rewrite Ed. split; [|done]. split; [apply stdin_bytes_sending|].
      by rewrite app_nil_r.
    + intros [= <- <-]. right. split; [done|]. exists [], []. split; [|done].
      destruct sent; [exact (Hp s (CClose true) ltac:(done))|exact (Hid s)].
  - cbn [negb andb]. intros [= <- <-]. right. split; [done|]. exists [], []. split; [done|].
    by destruct (st_stdin_done s).
  - destruct f as [[f|]|e]; cbn [on_frame]; [|by intros [= <- <-]; left..].
    assert (∀ t, s = t ∧ @None Z = exit → (∀ evs, yielded (KFrame (Ok (Some f)) written :: evs) = yielded evs) →
      exit = None ∧ ∃ i o, passed s t i o ∧
        (∀ evs, (if st_stdin_done s then [] else read_in evs) =
                i ++ (if st_stdin_done t then [] else read_in evs)) ∧
        (∀ evs, yielded (KFrame (Ok (Some f)) written :: evs) = o ++ yielded evs)) as Hskip.
    { intros t [<- <-] Hy. split; [done|]. exists [], []. done. }
    destruct f; try (intros [= <- <-]; by left); try (intros [= <- <-]; right; by apply Hskip).
    + destruct written; intros [= <- <-]; [|by left]. right. split; [done|]. exists [], [b].
      split; [|done]. split; [by rewrite app_nil_r|done].
    + destruct written; intros [= <- <-]; right; (split; [done|]); exists [], []; split; try done.
      split; cbn; by rewrite app_nil_r.
Qed.

(** The pipe under an ssh connection loses nothing: in every run of its loop, what was
    passed to the session is an unbroken initial part of what the local client sent, and what
    was passed to the client one of what the session yielded; while the loop runs they are
    all of it. A chunk that cannot be passed on ends the pipe instead of being dropped. *)
Theorem ssh_pipe_lossless evs s exit :
  stream_events true evs (streaming_start true) = (s, exit) →
  stdin_bytes s `prefix_of` read_in evs ∧ st_out s `prefix_of` yielded evs ∧
  (exit = None → stdin_bytes s = read_in evs ∧ st_out s = yielded evs).
Proof.
  assert (∀ s0, stream_events true evs s0 = (s, exit) → ∃ i o, passed s0 s i o ∧
    i `prefix_of` (if st_stdin_done s0 then [] else read_in evs) ∧ o `prefix_of` yielded evs ∧
    (exit = None → i = (if st_stdin_done s0 then [] else read_in evs) ∧ o = yielded evs)) as Hgen.
  { induction evs as [|ev evs IH]; intros s0; cbn [stream_events].
    - intros [= <- <-]. exists [], []. split; [split; by rewrite app_nil_r|]. by destruct (st_stdin_done s0).
    - destruct (on_event true ev s0) as [s1 exit1] eqn:E.
      destruct (pipe_event _ _ _ _ E) as [[Hx Hp]|[-> (i & o & Hp & Hi & Ho)]].
      + destruct exit1; [|done]. intros [= <- <-]. exists [], [].
        split; [done|]. split; [apply prefix_nil|]. by split; [apply prefix_nil|].
      + intros (i' & o' & Hp' & Hi' & Ho' & He)%IH. exists (i ++ i'), (o ++ o').
        split; [by eapply passed_trans|]. rewrite Hi, Ho. split; [by apply prefix_app|].
        split; [by apply prefix_app|]. by intros [-> ->]%He. }
  intros (i & o & [-> ->] & H)%Hgen. exact H.
Qed.

(** ** Variables and policies *)

(** ** Waiting ends *)

(** Calls take time and a sleep lasts at least as long as it was asked to. *)
Class CliTime (W : Type) `{!RestApi W} := {
  ct_get : ∀ url key w, (cli_now w ≤ cli_now (http_get url key w).2)%Z;
  ct_sleep : ∀ d w, (cli_now w + d ≤ cli_now (cli_sleep d w).2)%Z;
}.

Section waiting.
Context {W : Type} `{!RestApi W, !CliTime W}.

(** Waiting for a sandbox always ends: after at most three polls more than the first delay
    fits into the time allowed, and by a timeout only when that time has passed. *)
Lemma wait_for_running_ends base key id budget (w : W) :
  (0 ≤ budget)%Z →
  ∃ r w', wait_for_running base key id budget w = (Some r, w') ∧
    (r = Err WaitTimeout → budget ≤ cli_now w' - cli_now w)%Z.
Proof.
  intros Hb. unfold wait_for_running. set (url := base +:+ _).
  destruct (retry_until_ends cli_now cli_sleep ct_sleep (wait_step url key) budget POLL_START POLL_CAP w)
    as (r & w' & -> & _ & w0 & Hl); [|done|done|].
  { intros w1. unfold wait_step, st_bind. pose proof (ct_get url key w1). by destruct (http_get url key w1). }
  exists r, w'. split; [done|]. intros ->. destruct Hl as [Hl|[_ Hl]]; [|lia].
  unfold wait_step, st_bind, st_ret in Hl. destruct (http_get url key w0) as [answer w1].
  destruct (poll answer) as [r|] eqn:Ep; [|done]. injection Hl as -> _.
  unfold poll in Ep. repeat case_match; done.
Qed.
End waiting.

(** ** Cleaning up

    The same calls, with the URLs of the deletions written down. *)

#[export] Instance logged W `{!RestApi W} : RestApi (W * list string) := {
  http_client w := http_client w.1;
  http_post url key body w := let '(r, w') := http_post url key body w.1 in (r, (w', w.2));
  http_get url key w := let '(r, w') := http_get url key w.1 in (r, (w', w.2));
  http_delete url key w := let '(r, w') := http_delete url key w.1 in (r, (w', w.2 ++ [url]));
  json_sandbox_id := json_sandbox_id;
  json_sandbox := json_sandbox;
  status_text := status_text;
  cli_now w := cli_now w.1;
  cli_sleep d w := let '(r, w') := cli_sleep d w.1 in (r, (w', w.2));
  exec_connect base id key cmd cwd w :=
    let '(r, w') := exec_connect base id key cmd cwd w.1 in (r, (w', w.2));
  stdin_is_tty w := stdin_is_tty w.1;
}.

Section cleaning_up.
Context {W : Type} `{!RestApi W, !CliTime W}.

(** A computation that deletes nothing runs the same with the log. *)
Definition keeps_log {A} (c : ST (W * list string) A) (c0 : ST W A) : Prop :=
  ∀ w l, c (w, l) = ((c0 w).1, ((c0 w).2, l)).

Lemma keeps_log_bind {A B} (c : ST _ A) c0 (k : A → ST _ B) k0 :
  keeps_log c c0 → (∀ a, keeps_log (k a) (k0 a)) → keeps_log (st_bind c k) (st_bind c0 k0).
Proof.
  intros Hc Hk w l. unfold st_bind. rewrite Hc. destruct (c0 w) as [a w']. apply Hk.
Qed.

Lemma keeps_log_ret {A} (a : A) : keeps_log (st_ret a) (st_ret a).
Proof. by intros w l. Qed.

Lemma create_sandbox_log base key body :
  keeps_log (create_sandbox base key body) (create_sandbox base key body).
Proof.
  apply keeps_log_bind; [|intros; apply keeps_log_ret].
  intros w l. cbn. by destruct (http_post _ _ _ w).
Qed.

Lemma retry_until_log {A} fuel (step : ST (W * list string) (A + A)) (step0 : ST W (A + A)) deadline delay cap :
  keeps_log step step0 →
  keeps_log (retry_until cli_now cli_sleep fuel step deadline delay cap)
    (retry_until cli_now cli_sleep fuel step0 deadline delay cap).
Proof.
  intros Hs. revert delay. induction fuel as [|fuel IH]; intros delay; [apply keeps_log_ret|].
  apply keeps_log_bind; [done|]. intros [a|late]; [apply keeps_log_ret|]. intros w l.
  cbn [cli_now logged fst]. case_decide; [done|]. apply keeps_log_bind; [|intros; apply IH].
  intros w1 l1. cbn. by destruct (cli_sleep _ w1).
Qed.

Lemma wait_for_running_log base key id budget :
  keeps_log (wait_for_running base key id budget) (wait_for_running base key id budget).
Proof.
  intros w l. unfold wait_for_running. apply retry_until_log. apply keeps_log_bind.
  - intros w1 l1. cbn. by destruct (http_get _ _ w1).
  - intros answer. change (poll (W := W * list string) answer) with (poll (W := W) answer). apply keeps_log_ret.
Qed.

Lemma stream_exec_log base key id command cwd :
  keeps_log (stream_exec base key id command cwd) (stream_exec base key id command cwd).
Proof.
  apply keeps_log_bind; [intros w l; cbn; by destruct (exec_connect _ _ _ _ _ w)|]. by intros r w l.
Qed.

Lemma cleanup_log base key id (w : W) l :
  ∃ w', cleanup base key id (w, l) = ((), (w', l ++ [base +:+ "/v1/sandboxes/" +:+ id])).
Proof. unfold cleanup, st_bind. cbn. destruct (http_delete _ _ w). by eexists. Qed.

(** The sandbox a run creates, if it creates one. *)
Definition run_created (args : RunArgs) (w : W) : option string :=
  if decide (ra_api_key args = "") then None else
  match http_client w with
  | Err _ => None
  | Ok _ => match (create_sandbox (trim_end_matches "/" (ra_api_base args)) (ra_api_key args)
                     (create_body args) w).1 with
            | Ok id => Some id
            | Err _ => None
            end
  end.

(** Every session ends: its events make the loop return. *)
Definition sessions_end : Prop :=
  ∀ base id key command cwd (w : W) evs,
    (exec_connect base id key command cwd w).1 = Ok evs →
    ∀ stdin, (stream_events false evs (streaming_start stdin)).2 ≠ None.

(** C27: A run that has created a sandbox deletes it, exactly once and whatever happens between:
    a failed poll, a sandbox that fails or does not start in time, a session that cannot be
    opened or breaks. A run that created none deletes nothing and exits with its own code. The
    run returns as soon as its session does: waiting for the sandbox cannot hang it. *)
Theorem run_cleans_up args (w : W) :
  (0 ≤ ra_start_timeout_secs args)%Z →
  ∃ exit w' deletes, cli_run args (w, []) = (exit, (w', deletes)) ∧
    deletes = (match exit, run_created args w with
               | Some _, Some id => [trim_end_matches "/" (ra_api_base args) +:+ "/v1/sandboxes/" +:+ id]
               | _, _ => []
               end) ∧
    (run_created args w = None → exit = Some EXIT_CREATE_FAILED) ∧
    (sessions_end → exit ≠ None).
Proof.
  intros Hs. unfold cli_run, run_created. set (base := trim_end_matches _ _).
  case_decide; [by eexists _, _, _|]. cbn [http_client logged fst].
  destruct (http_client w); [|by eexists _, _, _]. unfold st_bind at 1. rewrite create_sandbox_log.
  destruct (create_sandbox _ _ _ w) as [[id|] w1]; cbn [fst snd]; [|by eexists _, _, _].
  unfold st_bind at 1. rewrite wait_for_running_log.
  destruct (wait_for_running_ends base (ra_api_key args) id (ra_start_timeout_secs args * 1000) w1)
    as (r & w2 & -> & _); [lia|]. cbn [fst snd]. destruct r as [u|e].
  - unfold st_bind at 1. rewrite stream_exec_log.
    destruct (stream_exec _ _ _ _ _ w2) as [[code|] w3] eqn:Ex; cbn [fst snd].
    + unfold st_bind. destruct (cleanup_log base (ra_api_key args) id w3 []) as [w4 ->].
      by eexists _, _, _.
    + eexists _, _, _. split; [done|]. split; [done|]. split; [done|]. intros He.
      unfold stream_exec, st_bind in Ex.
      specialize (He (ws_base base) id (ra_api_key args) (ra_command args) (ra_cwd args) w2).
      destruct (exec_connect _ _ _ _ _ w2) as [[evs|] w5]; [|done]. simplify_eq/=.
      by destruct (He _ eq_refl (negb (stdin_is_tty w3))).
  - unfold st_bind. destruct (cleanup_log base (ra_api_key args) id w2 []) as [w4 ->].
    by eexists _, _, _.
Qed.
End cleaning_up.

Module CliExamples.
(** A world is its clock: the sandbox is pending for two seconds, then runs [exit 7]. *)
#[export] Instance demo : RestApi Z := {
  http_client _ := Ok ();
  http_post _ _ _ w := (Ok (201, Ok "sb-1")%Z, w);
  http_get _ _ w := (Ok (200, Ok (if decide (w < 2000)%Z then "pending" else "running"))%Z, w);
  http_delete _ _ w := (Ok 204%Z, w);
  json_sandbox_id text := Ok text;
  json_sandbox text := Ok (text, None);
  status_text _ := "";
  cli_now w := w;
  cli_sleep d w := ((), (w + d)%Z);
  exec_connect _ _ _ _ _ w := (Ok [KFrame (Ok (Some (Exited 263 false))) true], w);
  stdin_is_tty _ := false;
}.
#[export] Instance demo_time : CliTime Z.
Proof. by split; intros; cbn. Qed.

Definition demo_args : RunArgs :=
  {| ra_image := "alpine"; ra_cpu_millicores := 500; ra_memory_bytes := 1024; ra_env := [];
     ra_pull_policy := None; ra_cwd := None; ra_api_base := "http://api/"; ra_api_key := "k";
     ra_start_timeout_secs := 60; ra_command := ["exit"; "7"] |}.

Example demo_run : cli_run demo_args (0%Z, []) = (Some 7%Z, (3750%Z, ["http://api/v1/sandboxes/sb-1"])).
Proof. evaluate. Qed.

Lemma run_cleans_up_witness :
  ∃ exit w' deletes, cli_run demo_args (0%Z, []) = (exit, (w', deletes)) ∧
    deletes = ["http://api/v1/sandboxes/sb-1"] ∧ exit ≠ None.
Proof.
  destruct (run_cleans_up demo_args 0%Z) as (exit & w' & deletes & E & Hd & _ & Hx); [done|].
  exists exit, w', deletes. split; [exact E|].
  assert (exit ≠ None) as Hn.
  { apply Hx. intros base id key command cwd w evs [= <-] stdin. done. }
  destruct exit; [|done]. split; [|done]. rewrite Hd. vm_compute. reflexivity.
Defined.

(** A banner, a key exchange and the end of input; then the local client goes away. *)
Definition piped : list ClientEvent :=
  [KInput (Ok (Some "SSH-2.0-a")) true; KFrame (Ok (Some (Stdout "SSH-2.0-b"))) true;
   KInput (Ok (Some "kex")) true; KInput (Ok None) true; KFrame (Ok (Some (Stdout "kex"))) false;
   KFrame (Ok (Some (Stdout "late"))) true].
Lemma ssh_pipe_lossless_witness :
  let r := stream_events true piped (streaming_start true) in
  stdin_bytes r.1 = read_in piped ∧ st_out r.1 `prefix_of` yielded piped ∧ r.2 = Some EXIT_IO_ERROR.
Proof.
  intros r. destruct (ssh_pipe_lossless piped r.1 r.2) as (_ & Ho & _); [evaluate|].
  split; [evaluate|]. split; [exact Ho|evaluate].
Defined.

(** [run] goes on after a chunk it could not pass on. *)
Example run_drops_input :
  stdin_bytes (stream_events false
    [KInput (Ok (Some "a")) false; KInput (Ok (Some "b")) true] (streaming_start true)).1 = ["b"].
Proof. evaluate. Qed.
End CliExamples.
