(* ===== verification/ExecCli.v ===== *)
(** * opensandbox-exec (crates/ws-client/src/bin/opensandbox-exec.rs)

    The stand-alone client of an exec session: its arguments, the thread that reads the local
    input, and its loop, which is the one of [open-sandbox run] with a deadline. The lines it
    prints about itself on standard error are left out. *)

From S2P Require Import Prelude RustText Contracts IoFrames HttpServer Api GatewayWs GatewayRouter WsClient Cli.

Inductive StdinMode := Auto | Always | Never.

Record Args := {
  ag_base : string;
  ag_sandbox : string;
  ag_api_key : string;
  ag_cwd : option string;
  ag_read_for_secs : Z;
  ag_stdin : StdinMode;
  ag_command : list string;
}.

Inductive StdinMsg := Chunk (b : bytes) | Eof.

(** The thread: what its reads yield, up to the end or a failure. *)
Fixpoint stdin_thread (reads : list (result bytes string)) : list StdinMsg :=
  match reads with
  | [] => []
  | Ok b :: reads => if decide (b = "") then [Eof] else Chunk b :: stdin_thread reads
  | Err _ :: _ => [Eof]
  end.

Definition forward_stdin (mode : StdinMode) (is_terminal : bool) : bool :=
  match mode with Always => true | Never => false | Auto => negb is_terminal end.

Definition exec_params (args : Args) : ExecParams :=
  let params := ExecParams_new (ag_command args) in
  match ag_cwd args with Some cwd => ExecParams_cwd cwd params | None => params end.

(** What [select!] takes next: the deadline, or what the loop of a session takes. *)
Inductive BinEvent := BDeadline | BEvent (ev : ClientEvent).

Fixpoint exec_loop (deadline : bool) (evs : list BinEvent) (s : Streaming) : Streaming * option Z :=
  match evs with
  | [] => (s, None)
  | BDeadline :: evs => if deadline then (s, Some 0%Z) else exec_loop deadline evs s
  | BEvent ev :: evs =>
      match on_event false ev s with
      | (s, None) => exec_loop deadline evs s
      | (s, Some code) => (s, Some code)
      end
  end.

(** The exit code; [None] while the session goes on. *)
Definition exec_main {N} `{!WsNet N, WsLib, Prost} (args : Args) (is_terminal : bool) (evs : list BinEvent)
    : ST N (option Z) :=
  let! r := ExecSession_connect (ag_base args) (ag_sandbox args) (ag_api_key args) (exec_params args) in
  st_ret (match r with
          | Err _ => Some 124%Z
          | Ok _ => (exec_loop (bool_decide (0 < ag_read_for_secs args)%Z) evs
                       (streaming_start (forward_stdin (ag_stdin args) is_terminal))).2
          end).

(** Without a deadline it is the loop of [open-sandbox run]. *)
Lemma exec_loop_stream deadline evs s :
  exec_loop deadline (BEvent <$> evs) s = stream_events false evs s.
Proof.
  revert s. induction evs as [|ev evs IH]; intros s; [done|]. cbn. destruct (on_event false ev s) as [s' [code|]]; [done|].
  apply IH.
Qed.

(** The codes of the client are also codes a process can exit with. *)
Example exit_codes_collide :
  (exec_loop false [BEvent (KFrame (Ok (Some (Exited 125 false))) true)] (streaming_start false)).2 =
  (exec_loop false [BEvent (KFrame (Ok (Some (WsError "RUNTIME_ERROR" ""))) true)] (streaming_start false)).2.
Proof. done. Qed.
