(* ===== verification/ExecPath.v ===== *)
(** * A command, from the agent to the caller

    The path of what a command prints and of its exit: the agent's session (AgentExec.v), the
    tunnel and the proxy's channel (Downlink.v), the gateway's socket (GatewayWs.v), the client
    crate (WsClient.v) and the loop of the two command lines (Cli.v, ExecCli.v). *)

From S2P Require Import Prelude RustText Contracts UuidRef ControllerCore IoFrames Routing Tunnels ProxyGrpc IoStream Downlink HttpServer AgentSandbox AgentIo AgentExec Api GatewayFiles GatewayWs GatewayRouter WsClient Retry Cli ExecCli.

(** What a process prints, by stream, and what else a running session sends. *)
Definition printed (k : OutputKind) (ps : list IoServerPayload) : list bytes :=
  omap (λ p, match k, p with KStdout, SStdout b | KStderr, SStderr b => Some b | _, _ => None end) ps.
Definition running_payload (exec_id : string) (pid : Z) (p : IoServerPayload) : Prop :=
  match p with SStarted i n => i = exec_id ∧ n = pid | SStdout _ | SStderr _ => True | _ => False end.

(** ** The gateway *)

(** The items of the proxy's stream the loop took. *)
Definition taken (evs : list WsEvent) : list (result IoServerFrame ApiError) :=
  omap (λ ev, match ev with EvServer _ _ (Some r) => Some r | _ => None end) evs.

Lemma taken_served evs fs : taken evs = Ok <$> fs → served evs = omap isf_payload fs.
Proof.
  revert fs. induction evs as [|ev evs IH]; intros fs.
  - intros H. by destruct fs.
  - unfold taken, served. destruct ev as [| |sock sock' [[f|]|]|]; cbn; try (by apply IH).
    + destruct fs as [|f' fs]; [done|]. intros [= <- Hf]. cbn. pose proof (IH fs Hf) as <-. by destruct (isf_payload f).
    + by destruct fs.
Qed.

Section gateway.
Context (P : Prost) (utf8 : string → Prop) `{!ProstLaws P utf8}.

(** The loop never sends text. *)
Lemma step_no_text s ev : omap text_of (ws_sent s) = [] → omap text_of (ws_sent (ws_step s ev)) = [].
Proof.
  intros Hs. assert (∀ m t, text_of m = None → omap text_of (ws_sent t) = [] →
    omap text_of (ws_sent (send_message m t)) = []) as Hsend.
  { intros m t Hm Ht. cbn. rewrite omap_app, Ht. cbn. by rewrite Hm. }
  assert (∀ b f t, omap text_of (ws_sent t) = [] → omap text_of (ws_sent (send_close b f t)) = []) as Hclose.
  { intros [] f t Ht; [|done]. by apply Hsend. }
  destruct ev as [up now msg| |sock sock' item|sock sock' now]; cbn [ws_step].
  - destruct (ws_reading s); [|done]. by destruct (recv_message_sent P up now msg s) as [-> _].
  - by destruct (_ && _).
  - destruct (ws_open s), (ws_reading s); cbn [negb]; try done. unfold server_item.
    destruct item as [[f|e]|]; [|by apply Hclose|done]. destruct (encode_server f) as [b|]; [|done].
    destruct sock; [|done]. destruct (isf_payload f) as [[]|]; try (by apply Hsend); by apply Hclose, Hsend.
  - destruct (ws_open s), (ws_reading s); cbn [negb]; try done. unfold ping_tick.
    destruct sock; [|done]. case_decide; [by apply Hclose, Hsend|by apply Hsend].
Qed.

Lemma run_no_text evs s : omap text_of (ws_sent s) = [] → omap text_of (ws_sent (foldl ws_step s evs)) = [].
Proof. revert s. induction evs as [|ev evs IH]; intros s Hs; [done|]. by apply IH, step_no_text. Qed.

(** A session that is not disturbed until it relays a terminal payload. *)
Lemma relayed_to_the_end now before sock' id p after :
  undisturbed P now before = true → is_terminal_payload p = true → Forall (payload_ok utf8) (served before ++ [p]) →
  let s := pump_ws_session now
    (before ++ EvServer true sock' (Some (Ok {| isf_stream_id := id; isf_payload := Some p |})) :: after) in
  ∃ body tail, ws_sent s = body ++ tail ∧ existsb is_close body = false ∧ omap text_of body = [] ∧
    client_view P body = Ok ∘ server_frame <$> (served before ++ [p]).
Proof.
  intros Hu Ht Hp s. apply Forall_app in Hp as [Hp Hp1]. unfold s, pump_ws_session. rewrite foldl_app. cbn [foldl].
  destruct (undisturbed_open P before (ws_begin now) eq_refl eq_refl Hu) as [Ho Hr].
  destruct (run_relays P utf8 before (ws_begin now) [] eq_refl (conj eq_refl (conj (Forall_nil_2 _) eq_refl)) Hp)
    as (fs & Hrel & _ & Hfs). rewrite (Hfs Ho) in Hrel. cbn [app] in Hrel.
  set (s1 := foldl ws_step (ws_begin now) before) in *.
  set (f := {| isf_stream_id := id; isf_payload := Some p |}).
  destruct (relayed_send P utf8 (served before) s1 f p eq_refl ltac:(by inversion Hp1) Hrel Ho) as (b & Hb & Hv).
  assert (ws_step s1 (EvServer true sock' (Some (Ok f))) = send_close sock' None (send_message (MBinary b) s1)) as ->.
  { cbn [ws_step]. rewrite Ho, Hr. cbn [negb server_item]. rewrite Hb. cbn [f isf_payload]. by destruct p. }
  destruct (closed_stays P after (send_close sock' None (send_message (MBinary b) s1)) ltac:(by destruct sock')) as [-> _].
  destruct Hrel as [_ Hrel]. rewrite Ho in Hrel. destruct Hrel as [_ Hcl].
  exists (ws_sent s1 ++ [MBinary b]), (if sock' then [MClose None] else []).
  split; [destruct sock'; cbn; by rewrite ?app_nil_r|]. split; [by rewrite existsb_close_app, Hcl|].
  split; [|exact Hv]. rewrite omap_app. cbn. rewrite app_nil_r. by apply run_no_text.
Qed.
End gateway.

(** ** The client *)

Definition frames_of (evs : list ClientEvent) : list (result (option ServerFrame) string * bool) :=
  omap (λ ev, match ev with KFrame f written => Some (f, written) | _ => None end) evs.

(** Local input and signals leave the output alone and never end the loop. *)
Lemma other_event ev s :
  frames_of [ev] = [] →
  ∃ s', on_event false ev s = (s', None) ∧ st_out s' = st_out s ∧ st_err s' = st_err s.
Proof.
  destruct ev as [chunk sent|sent|f w]; [..|done]; intros _; cbn.
  - unfold on_input. destruct (st_stdin_done s); [by eexists|]. destruct chunk as [[b|]|e], sent; by eexists.
  - destruct sent; by eexists.
Qed.

Lemma stream_to_exit exec_id pid ps code cnf tail kevs s :
  Forall (running_payload exec_id pid) ps →
  frames_of kevs = ((λ p, (Ok (Some (server_frame p)), true)) <$> ps) ++ (Ok (Some (Exited code cnf)), true) :: tail →
  ∃ s', stream_events false kevs s = (s', Some (Z.land code 255)) ∧
    st_out s' = st_out s ++ printed KStdout ps ∧ st_err s' = st_err s ++ printed KStderr ps.
Proof.
  revert ps s. induction kevs as [|ev kevs IH]; intros ps s Hq Hf; [by destruct ps|].
  destruct (decide (frames_of [ev] = [])) as [He|He].
  - destruct (other_event ev s He) as (s1 & E & Ho & Hr). cbn [stream_events]. rewrite E.
    destruct (IH ps s1 Hq) as (s' & Es & Hso & Hse); [by destruct ev|].
    exists s'. by rewrite Es, Hso, Hse, Ho, Hr.
  - destruct ev as [| |f w]; [done..|]. cbn [stream_events on_event].
    destruct ps as [|p ps]; injection Hf as Hf Hw Htl; subst f w.
    { exists s. cbn. by rewrite !app_nil_r. }
    apply Forall_cons in Hq as [Hp Hq].
    destruct p; try done; cbn [server_frame on_frame]; edestruct (IH ps) as (s' & -> & Hso & Hse); try done;
      exists s'; rewrite Hso, Hse; cbn; by rewrite <- ?app_assoc, ?app_nil_r.
Qed.

(** ** The whole path *)

Lemma frame_payloads stream_id (ps : list IoServerPayload) : omap isf_payload (frame stream_id <$> ps) = ps.
Proof. induction ps as [|p ps IH]; [done|]. cbn. by rewrite IH. Qed.

Section agent.
Context `{UuidLib}.

(** The frames of a session that ended by itself, as payloads. *)
Lemma natural_payloads stream_id sandbox_id container_id exec_id pid reg xevs :
  let x := exec_run stream_id xevs
             (drive_exec stream_id (Ok (exec_id, pid)) sandbox_id container_id true reg) in
  x_control x = Finished true → x_listening x = true →
  ∃ ps info, x_exit x = Some (Some info) ∧ Forall (running_payload exec_id pid) ps ∧
    x_out x = frame stream_id <$> (ps ++ [SExited (xi_exit_code info) (xi_command_not_found info)]) ∧
    printed KStdout ps = op_produced (x_stdout x) ∧ printed KStderr ps = op_produced (x_stderr x).
Proof.
  intros x Hc Hl.
  destruct (natural_end stream_id sandbox_id container_id exec_id pid reg xevs Hc Hl)
    as (pre & info & He & Ho & Ht & Hk). fold x in He, Ho, Hk.
  destruct (exec_run_honest stream_id sandbox_id container_id exec_id pid reg xevs) as [Hh _].
  pose proof (xi_ids _ _ _ _ (exec_run_inv stream_id _ _ xevs _
    (drive_exec_inv stream_id sandbox_id container_id exec_id pid reg))) as Hids.
  fold x in Hh, Hids. rewrite Ho in Hh, Hids. apply Forall_app in Hh as [Hh _]. apply Forall_app in Hids as [Hids _].
  assert (∃ ps, pre = frame stream_id <$> ps ∧ Forall (running_payload exec_id pid) ps ∧
    ∀ k, printed k ps = chunks_of k pre) as (ps & -> & Hr & Hp).
  { clear Ho Hk. induction pre as [|[id q] pre IH]; [by exists []|].
    apply Forall_cons in Hh as [(p & Hq & Hp) Hh]. apply Forall_cons in Hids as [Hid Hids]. cbn in Hq, Hid. subst q id.
    unfold terminals in Ht. cbn in Ht. destruct (is_terminal_payload p) eqn:Et; [done|].
    destruct (IH Ht Hh Hids) as (ps & -> & Hr & Hc'). exists (p :: ps). split; [done|].
    split; [constructor; [by destruct p|done]|]. intros k. specialize (Hc' k). unfold chunks_of, printed in *. cbn.
    rewrite <- Hc'. by destruct k, p. }
  exists ps, info. split; [done|]. split; [done|]. split; [by rewrite fmap_app|].
  rewrite !Hp. split; [apply (Hk KStdout)|apply (Hk KStderr)].
Qed.
End agent.

Section path.
Context `{UuidLib} {R : Type} `{!RoutingStore R}.
Context (P : Prost) (utf8 : string → Prop) `{!ProstLaws P utf8} (debug : Z → string).

(** The messages the gateway sends for payloads it took undisturbed, as the caller reads them. *)
Lemma caller_reads now before sock' id ps p after arrivals fuel :
  undisturbed P now before = true → served before = ps → is_terminal_payload p = true →
  Forall (payload_ok utf8) (ps ++ [p]) →
  let msgs := ws_sent (pump_ws_session now
    (before ++ EvServer true sock' (Some (Ok {| isf_stream_id := id; isf_payload := Some p |})) :: after)) in
  ar_item <$> arrivals = (λ m, Some (Ok m)) <$> msgs → (length msgs ≤ fuel)%nat →
  ∃ tail, read_all fuel arrivals = ((λ p, Ok (Some (server_frame p))) <$> (ps ++ [p])) ++ tail.
Proof.
  intros Hu <- Ht Hp msgs Hm Hf.
  destruct (relayed_to_the_end P utf8 now before sock' id p after Hu Ht Hp) as (body & tail & Hs & Hc & Htx & Hv).
  fold msgs in Hs. rewrite (read_all_items fuel arrivals (at_once msgs)).
  2:{ rewrite Hm. unfold at_once. by rewrite <- list_fmap_compose. }
  rewrite Hs. set (fs := server_frame <$> (served before ++ [p])).
  assert (client_view P body = Ok <$> fs) as Hv' by (unfold fs; rewrite Hv; by rewrite <- list_fmap_compose).
  assert (length fs ≤ fuel)%nat as Hlen.
  { etrans; [|exact Hf]. rewrite Hs, length_app.
    assert (length (client_view P body) ≤ length body)%nat as Hle.
    { unfold client_view. rewrite length_fmap. clear. induction body as [|m body IH]; [done|]. cbn.
      destruct (binary_of m); cbn; lia. }
    rewrite Hv', length_fmap in Hle. lia. }
  replace fuel with (length fs + (fuel - length fs))%nat by lia.
  rewrite (read_all_body P body fs tail) by done. eexists. unfold fs. by rewrite <- list_fmap_compose.
Qed.

(** Some of a session's payloads, up to its last: that one and some of those before. *)
Lemma kept_to_the_end (qs ps : list IoServerPayload) p q :
  qs ++ [q] `sublist_of` ps ++ [p] → Forall (λ p, is_terminal_payload p = false) ps →
  is_terminal_payload q = true → q = p ∧ qs `sublist_of` ps.
Proof.
  intros (l1 & l2 & E & H1 & H2)%sublist_app_r Hps Hq.
  apply sublist_cons_r in H2 as [->%sublist_nil_r|(l & -> & ->%sublist_nil_r)].
  - rewrite app_nil_r in E. subst l1. exfalso.
    apply sublist_submseteq in H1. apply (elem_of_submseteq _ _ q) in H1; [|set_solver].
    rewrite Forall_forall in Hps. rewrite (Hps q H1) in Hq. done.
  - apply app_inj_tail in E as [-> ->]. done.
Qed.

Lemma sublist_fmap_inv {A B} (g : A → B) l k :
  l `sublist_of` g <$> k → ∃ k', l = g <$> k' ∧ k' `sublist_of` k.
Proof.
  revert l. induction k as [|x k IH]; intros l.
  - intros ->%sublist_nil_r. by exists [].
  - rewrite fmap_cons. intros [Hl|(l' & -> & Hl)]%sublist_cons_r; destruct (IH _ Hl) as (k' & -> & Hk).
    + exists k'. split; [done|by constructor].
    + exists (x :: k'). split; [done|by constructor].
Qed.

(** What the loop took of a session's frames, the last of them being terminal. *)
Lemma kept_frames stream_id ps exited kept item before (whole : Prop) :
  Forall (λ p, is_terminal_payload p = false) ps →
  kept `sublist_of` frame stream_id <$> (ps ++ [exited]) → taken before ++ [Ok item] = Ok <$> kept →
  is_terminal_frame item = true → (whole → kept = frame stream_id <$> (ps ++ [exited])) →
  ∃ qs, taken before = Ok <$> (frame stream_id <$> qs) ∧ item = frame stream_id exited ∧
    qs `sublist_of` ps ∧ (whole → qs = ps).
Proof.
  intros Hps (k & -> & Hk)%sublist_fmap_inv Ht Hitem Hw.
  assert (k = [] ∨ ∃ qs q, k = qs ++ [q]) as [->|(qs & q & ->)].
  { destruct k as [|q qs _] using rev_ind; eauto. }
  { by destruct (taken before). }
  rewrite !fmap_app in Ht. cbn in Ht. apply app_inj_tail in Ht as [Ht [= ->]].
  destruct (kept_to_the_end qs ps exited q Hk Hps Hitem) as [-> Hqs].
  exists qs. split; [done|]. split; [done|]. split; [done|]. intros Hwh.
  specialize (Hw Hwh). apply (list_fmap_eq_inj (frame stream_id)) in Hw; [|by intros ?? [=]].
  by apply app_inj_tail in Hw as [-> _].
Qed.

Lemma printed_sublist k (qs ps : list IoServerPayload) :
  qs `sublist_of` ps → printed k qs `sublist_of` printed k ps.
Proof. apply sublist_omap. Qed.

(** C4: A command's output and exit reach the caller. When the process has exited by itself and
    its session is over, and the gateway's loop took the session's last frame, undisturbed
    until then (no socket error, close or idle timeout): then the caller of either command
    line, whenever messages arrive and whatever local input and signals come between, exits
    with the low byte of the process's exit code and has printed, in order on each stream,
    chunks the process wrote; and exactly all it wrote, if the proxy's channel of 256 frames
    was never full when a frame arrived. *)
Theorem exec_end_to_end stream_id sandbox_id container_id exec_id pid reg xevs
    request_tx l gtx agent (px : Proxy R) sched now before sock' item after arrivals fuel kevs forward deadline :
  let x := exec_run stream_id xevs
             (drive_exec stream_id (Ok (exec_id, pid)) sandbox_id container_id true reg) in
  x_control x = Finished true → x_listening x = true →
  started_ok utf8 {| sd_exec_id := exec_id; sd_in_container_pid := pid |} →
  (∀ info, x_exit x = Some (Some info) → in_i32 (xi_exit_code info)) →
  stream_open l stream_id gtx agent px fresh_gateway →
  taken before ++ [Ok item] = pump_inbound (got gtx (downlink request_tx l stream_id gtx sched (x_out x) px)) →
  is_terminal_frame item = true →
  undisturbed P now before = true →
  let msgs := ws_sent (pump_ws_session now (before ++ EvServer true sock' (Some (Ok item)) :: after)) in
  ar_item <$> arrivals = (λ m, Some (Ok m)) <$> msgs → (length msgs ≤ fuel)%nat →
  frames_of kevs = (λ f, (map_err (WsClientError_to_string debug) f, true)) <$> read_all fuel arrivals →
  ∃ info s, x_exit x = Some (Some info) ∧
    let exit := (s, Some (Z.land (xi_exit_code info) 255)) in
    stream_events false kevs (streaming_start forward) = exit ∧
    exec_loop deadline (BEvent <$> kevs) (streaming_start forward) = exit ∧
    st_out s `sublist_of` op_produced (x_stdout x) ∧ st_err s `sublist_of` op_produced (x_stderr x) ∧
    (keeps_up 0 (length (x_out x)) sched = true →
       st_out s = op_produced (x_stdout x) ∧ st_err s = op_produced (x_stderr x)).
Proof.
  intros x Hc Hl Hst Hcode Hso Htaken Hterm Hu msgs Hm Hf Hframes.
  destruct (natural_payloads stream_id sandbox_id container_id exec_id pid reg xevs Hc Hl)
    as (ps & info & He & Hr & Ho & Hout & Herr). fold x in He, Ho, Hout, Herr.
  set (exited := SExited (xi_exit_code info) (xi_command_not_found info)) in *.
  destruct (downlink_some request_tx l stream_id gtx agent sched (x_out x) px Hso) as (kept & Hgot & Hsub & Hall).
  rewrite Hgot, pump_inbound_ok in Htaken.
  assert (Forall (λ p, is_terminal_payload p = false) ps) as Hnt
    by (eapply Forall_impl; [exact Hr|]; by intros []).
  rewrite Ho in Hsub. rewrite Ho in Hall at 2.
  destruct (kept_frames stream_id ps exited kept item before _ Hnt Hsub Htaken Hterm Hall)
    as (qs & Htk & -> & Hqs & Hqall).
  apply taken_served in Htk. rewrite frame_payloads in Htk.
  assert (Forall (running_payload exec_id pid) qs) as Hrq.
  { apply sublist_submseteq in Hqs. rewrite Forall_forall in *. intros p Hp. apply Hr. by eapply elem_of_submseteq. }
  assert (Forall (payload_ok utf8) (qs ++ [exited])) as Hp.
  { apply Forall_app_2; [|by repeat constructor; apply Hcode].
    eapply Forall_impl; [exact Hrq|]. intros p Hp. destruct p; try done. destruct Hp as [-> ->]. exact Hst. }
  destruct (caller_reads now before sock' stream_id qs exited after arrivals fuel Hu Htk eq_refl Hp Hm Hf)
    as [tail Hread].
  rewrite Hread, fmap_app in Hframes.
  destruct (stream_to_exit exec_id pid qs (xi_exit_code info) (xi_command_not_found info)
    ((λ f, (map_err (WsClientError_to_string debug) f, true)) <$> tail) kevs (streaming_start forward) Hrq)
    as (s & Hs & Hso' & Hse).
  { rewrite Hframes, fmap_app, fmap_app, <- !list_fmap_compose, <- app_assoc. done. }
  exists info, s. split; [done|]. split; [done|]. rewrite exec_loop_stream. split; [done|].
  cbn in Hso', Hse. rewrite Hso', Hse, <- Hout, <- Herr.
  split; [by apply printed_sublist|]. split; [by apply printed_sublist|]. intros Hk. by rewrite (Hqall Hk).
Qed.
End path.

Module ExecPathExamples.
Import ProxyExamples IoStreamExamples GatewayExamples.
#[local] Existing Instance ApiExamples.bits_prost.
#[local] Existing Instance ApiExamples.bits_laws.

(** A process that writes to both streams and exits with 259, whose low byte is 3. *)
Definition info : ExecExitInfo := {| xi_exit_code := 259; xi_command_not_found := false |}.
Definition life : list ExecEvent :=
  [EvProduce KStdout "hi"; EvProduce KStderr "oops"; EvExit (Some info); EvPump KStderr;
   EvSelectExit; EvPump KStdout; EvOutputClosed KStdout; EvOutputClosed KStderr; EvPump KStdout; EvPump KStderr;
   EvControl].
Definition ended : Exec :=
  exec_run "io-1" life (drive_exec "io-1" (Ok ("e1", 42%Z)) sb1 "c1" true ∅).

Definition relayed (p : IoServerPayload) : WsEvent := EvServer true true (Some (Ok (frame "io-1" p))).
Definition before : list WsEvent :=
  [relayed (SStarted "e1" 42); EvTick true true 30000; relayed (SStderr "oops");
   EvSocket true 30001 (Some (Ok MPong)); relayed (SStdout "hi")].
Definition last_item : IoServerFrame := frame "io-1" (SExited 259 false).
Definition sent : list Message :=
  ws_sent (pump_ws_session 0 (before ++ EvServer true true (Some (Ok last_item)) :: [])).
Definition arrived : list Arrival := (λ m, {| ar_after := 100; ar_item := Some (Ok m) |}) <$> sent.
(** Ctrl-C and the end of the local input come between. *)
Definition kevs : list ClientEvent :=
  KSigint true :: KInput (Ok None) true ::
  ((λ f, KFrame (map_err (WsClientError_to_string pretty) f) true) <$> read_all 10 arrived).

Lemma exec_end_to_end_witness :
  ∃ s, exec_loop false (BEvent <$> kevs) (streaming_start true) = (s, Some 3%Z) ∧
    st_out s = ["hi"] ∧ st_err s = ["oops"].
Proof.
  destruct (exec_end_to_end ApiExamples.bits_prost (λ _, True) pretty "io-1" sb1 "c1" "e1" 42 ∅ life 2 local1 8 (uid 1)
    reconnected (prompt 4) 0 before true last_item [] arrived 10 kevs true false)
    as (i & s & Hi & _ & Hs & _ & _ & Hall).
  - evaluate.
  - evaluate.
  - split; [done|]. cbn. unfold in_i32. lia.
  - intros i Hi. assert (i = info) as -> by (vm_compute in Hi; injection Hi as <-; done). unfold in_i32. cbn. lia.
  - exact stream1.
  - evaluate.
  - evaluate.
  - evaluate.
  - evaluate.
  - vm_compute. lia.
  - evaluate.
  - assert (i = info) as -> by (vm_compute in Hi; injection Hi as <-; done). exists s.
    destruct Hall as [Ho He]; [evaluate|].
    split; [rewrite Hs; f_equal|]. split; [rewrite Ho; evaluate|rewrite He; evaluate].
Defined.
End ExecPathExamples.
