(* ===== verification/InputPath.v ===== *)
(** * What a user types, from the command line to the process

    The other direction of ExecPath.v: local input and Ctrl-C in the loop of a session (Cli.v),
    the client crate's messages (WsClient.v), the gateway's socket (GatewayWs.v), the proxy's
    pump (IoStream.v), the tunnel and the session of the agent (AgentTunnel.v, AgentInput.v). *)

From S2P Require Import Prelude RustText Contracts UuidRef Store MemStore ControllerCore ControllerGrpc Management IoFrames Routing Tunnels ProxyGrpc IoStream Downlink HttpServer AgentSandbox AgentIo AgentExec AgentTunnel AgentInput Api GatewayLifecycle GatewayFiles GatewayWs GatewayRouter WsClient Retry Cli ExecCli.

(** ** The client *)

Definition event_sent (ev : ClientEvent) : bool :=
  match ev with KInput _ sent | KSigint sent => sent | KFrame _ _ => true end.
(** Every send of the client succeeds. *)
Definition all_sent (evs : list ClientEvent) : bool := forallb event_sent evs.

(** What the loop sends for what it takes; [over]: the local input is at its end. *)
Fixpoint typed (pipe over : bool) (evs : list ClientEvent) : list IoClientPayload :=
  match evs with
  | [] => []
  | KInput chunk _ :: evs =>
      if over then typed pipe over evs else
      match chunk with
      | Ok (Some b) => CStdin b :: typed pipe over evs
      | Ok None => CClose true :: typed pipe true evs
      | Err _ => if pipe then [] else CClose true :: typed pipe true evs
      end
  | KSigint _ :: evs => if pipe then typed pipe over evs else CSignal 2 :: typed pipe over evs
  | KFrame _ _ :: evs => typed pipe over evs
  end.

Definition interrupts (evs : list ClientEvent) : list Z :=
  omap (λ ev, match ev with KSigint _ => Some 2%Z | _ => None end) evs.

Lemma loop_sends pipe evs s s' exit :
  stream_events pipe evs s = (s', exit) → all_sent evs = true →
  ∃ n, st_sent s' = st_sent s ++ typed pipe (st_stdin_done s) (take n evs) ∧
    (exit = None → (length evs ≤ n)%nat).
Proof.
  revert s. induction evs as [|ev evs IH]; intros s; cbn [stream_events all_sent forallb].
  - intros [= <- <-] _. exists 0%nat. by rewrite app_nil_r.
  - rewrite andb_true_iff. intros E [Hs Hall]. destruct (on_event pipe ev s) as [s1 [code|]] eqn:Ev.
    + injection E as <- <-. destruct ev as [chunk sent|sent|f w]; cbn in Ev, Hs.
      * unfold on_input in Ev. subst sent. destruct (st_stdin_done s); [done|]. destruct chunk as [[b|]|e]; try done.
        destruct pipe; [|done]. injection Ev as <- <-. exists 0%nat. cbn. by rewrite app_nil_r.
      * by destruct (negb pipe && sent).
      * exists 0%nat. cbn. rewrite app_nil_r. split; [|done].
        destruct f as [[[]|]|]; try (by injection Ev as <- <-); destruct w, pipe; try done; by injection Ev as <- <-.
    + destruct (IH s1 E Hall) as (n & Hn & Hex). exists (S n). cbn [take typed length].
      assert (∀ ps d, st_sent s1 = st_sent s ++ ps → st_stdin_done s1 = d →
        st_sent s' = st_sent s ++ ps ++ typed pipe d (take n evs)) as Hgo.
      { intros ps d Hps <-. by rewrite Hn, Hps, app_assoc. }
      split; [|intros Hx; specialize (Hex Hx); lia].
      destruct ev as [chunk sent|sent|f w]; cbn in Ev, Hs.
      * unfold on_input in Ev. subst sent. destruct (st_stdin_done s) eqn:Ed.
        { injection Ev as <-. rewrite (Hgo [] true); [done|by rewrite app_nil_r|done]. }
        destruct chunk as [[b|]|e]; [..|destruct pipe; [done|]]; injection Ev as <-.
        -- by rewrite (Hgo [CStdin b] false).
        -- by rewrite (Hgo [CClose true] true).
        -- by rewrite (Hgo [CClose true] true).
      * injection Ev as <-. subst sent. destruct pipe; cbn in *.
        -- by rewrite (Hgo [] (st_stdin_done s)); [|rewrite app_nil_r|].
        -- by rewrite (Hgo [CSignal 2] (st_stdin_done s)).
      * rewrite (Hgo [] (st_stdin_done s)); [done|..]; rewrite ?app_nil_r;
          destruct f as [[[]|]|]; try done; try (by injection Ev as <-); destruct w, pipe; try done; by injection Ev as <-.
Qed.

(** Every payload a client sends once a session is open. *)
Definition from_user (p : IoClientPayload) : bool :=
  match p with CStdin _ | CClose true => true | CSignal n => bool_decide (n = 2%Z) | _ => false end.

Lemma typed_from_user pipe over evs : Forall (λ p, from_user p = true) (typed pipe over evs).
Proof.
  revert over. induction evs as [|[chunk sent|sent|f w] evs IH]; intros over; cbn; [done|..].
  - destruct over; [done|]. destruct chunk as [[b|]|e]; [by constructor..|]. destruct pipe; by constructor.
  - destruct pipe; [done|]. by constructor.
  - done.
Qed.

Lemma typed_stdin sid pipe over evs :
  stdin_of (client_frame sid <$> typed pipe over evs) = if over then [] else read_in evs.
Proof.
  revert over. induction evs as [|[chunk sent|sent|f w] evs IH]; intros over; cbn; [by destruct over|..].
  - destruct over; [apply IH|]. destruct chunk as [[b|]|e]; cbn; [by rewrite IH|done|by destruct pipe].
  - destruct pipe; cbn; by rewrite IH; destruct over.
  - by rewrite IH; destruct over.
Qed.

Lemma typed_signals sid pipe over evs :
  signals_of (client_frame sid <$> typed pipe over evs) = if pipe then [] else interrupts evs.
Proof.
  revert over. induction evs as [|[chunk sent|sent|f w] evs IH]; intros o; cbn; [by destruct pipe|..].
  - destruct o; [by rewrite IH|]. destruct chunk as [[b|]|e]; cbn; rewrite ?IH; try done. destruct pipe; cbn; by rewrite ?IH.
  - destruct pipe; cbn; by rewrite IH.
  - by rewrite IH.
Qed.

Lemma interrupts_take n evs : interrupts (take n evs) `prefix_of` interrupts evs.
Proof.
  revert n. induction evs as [|[chunk sent|sent|f w] evs IH]; intros [|n]; cbn; try apply prefix_nil; try apply IH.
  apply prefix_cons, IH.
Qed.

Lemma read_in_take n evs : read_in (take n evs) `prefix_of` read_in evs.
Proof.
  revert n. induction evs as [|[[[b|]|e] sent|sent|f w] evs IH]; intros [|n]; cbn; try apply prefix_nil; try done.
  apply prefix_cons, IH.
Qed.

(** After the end of the input nothing more is read. *)
Lemma read_in_ended pipe n evs :
  CClose true ∈ typed pipe false (take n evs) → read_in (take n evs) = read_in evs.
Proof.
  revert n. induction evs as [|[[[b|]|e] sent|sent|f w] evs IH]; intros [|n]; cbn; try done; try (by inversion 1).
  - intros [?|Hin]%elem_of_cons; [done|]. by rewrite (IH n Hin).
  - intros Hin. apply IH. destruct pipe; [done|]. by apply elem_of_cons in Hin as [?|Hin].
  - apply IH.
Qed.

(** ** The client's messages *)

Section messages.
Context `{Prost}.

Definition payload_message (p : IoClientPayload) : Message :=
  MBinary (match p with CStdin b => ws_stdin b | CSignal n => ws_signal n | _ => ws_close_stdin end).
End messages.

Section net.
Context `{UuidLib, Extractors} {P : Prost} {W : Type} `{!ControllerStore W}.
Context (api_key : string) (admin_token : option string) (expected_token : string).
Context (rpc : Rpc) (internal_token : option string) (metadata_value : string → result string string).
Context (b64url : string → string) (b64decode : string → result bytes string).
Context (header_value_ok : string → bool) (cors : option CorsLayer) (fresh : SandboxId).
Context (refused_text : GatewayResponse → string).

#[local] Instance the_gateway : WsNet (Net (W := W)) :=
  gateway_net api_key admin_token expected_token rpc internal_token metadata_value b64url b64decode
    header_value_ok cors fresh refused_text.

(** What a client sends on its connection arrives there in order. *)
Lemma sends_recorded (sess : ExecSession (Net (W := W))) ps c conns s msgs :
  (xs_ws sess : nat) = length conns → Forall (λ p, from_user p = true) ps →
  send_payloads sess ps (c, conns ++ [(s, msgs)]) =
    (Ok (), (c, conns ++ [(s, msgs ++ (payload_message <$> ps))])).
Proof.
  intros Hs. revert msgs. induction ps as [|p ps IH]; intros msgs Hp; [by rewrite app_nil_r|].
  apply Forall_cons in Hp as [Hp Hps]. cbn [send_payloads fmap list_fmap].
  assert (send_payload sess p (c, conns ++ [(s, msgs)]) =
    (Ok (), (c, conns ++ [(s, msgs ++ [payload_message p])]))) as E.
  { assert (∀ b, send_frame sess b (c, conns ++ [(s, msgs)]) =
      (Ok (), (c, conns ++ [(s, msgs ++ [MBinary b])]))) as Hf.
    { intros b. unfold send_frame, st_bind. cbn. rewrite Hs. by rewrite alter_app_r_alt, Nat.sub_diag by done. }
    destruct p as [|b|n|[]]; try done; apply Hf. }
  unfold st_bind. rewrite E, IH by done. by rewrite <- app_assoc.
Qed.
End net.

(** ** The gateway *)

Section gateway.
Context (P : Prost) (utf8 : string → Prop) `{!ProstLaws P utf8}.

Lemma payload_decoded p : from_user p = true → ∃ b, payload_message p = MBinary b ∧ decode_client b = Ok p.
Proof.
  destruct p as [|b|n|[]]; try done; cbn; intros Hp; eexists; split; try done.
  apply bool_decide_eq_true in Hp as ->.
  refine (decoded_encode signal_ok _ {| sg_signum := 2 |} _ _). cbn. by unfold signal_ok, in_u32.
Qed.

(** The binary messages the reader got. *)
Definition heard (evs : list WsEvent) : list Message :=
  omap (λ ev, match ev with EvSocket _ _ (Some (Ok (MBinary b))) => Some (MBinary b) | _ => None end) evs.

Lemma heard_asked evs : asked P evs = omap (λ m, b ← binary_of m; result_ok (decode_client b)) (heard evs).
Proof.
  induction evs as [|[up now [[[]|]|]| |sock sock' item|sock sock' now] evs IH]; try done; cbn; try exact IH.
  unfold asked in IH. cbn. destruct (decode_client b); cbn; by rewrite IH.
Qed.

Lemma start_decoded id params :
  let start := {| is_sandbox_id := id; is_params := Some (PExec {| ex_command := xp_command params;
                    ex_cwd := default "" (xp_cwd params); ex_env := xp_env params |}) |} in
  start_ok utf8 start →
  ∃ b, start_message id params = MBinary b ∧ decode_client b = Ok (CStart start).
Proof. intros start Hs. eexists. split; [done|]. refine (decoded_encode _ _ _ _ Hs). Qed.

(** What the gateway asks the proxy for is a part of what the user sent. *)
Lemma asked_typed id params ps evs :
  let start := {| is_sandbox_id := id; is_params := Some (PExec {| ex_command := xp_command params;
                    ex_cwd := default "" (xp_cwd params); ex_env := xp_env params |}) |} in
  start_ok utf8 start → Forall (λ p, from_user p = true) ps →
  heard evs `prefix_of` start_message id params :: (payload_message <$> ps) →
  asked P evs `prefix_of` CStart start :: ps.
Proof.
  intros start Hs Hp [tail Ht].
  assert (omap (λ m, b ← binary_of m; result_ok (decode_client b)) (start_message id params :: (payload_message <$> ps)) =
    CStart start :: ps) as Hall.
  { destruct (start_decoded id params Hs) as (b & Hb & Hd). cbn [omap list_omap]. rewrite Hb. cbn. rewrite Hd. cbn. f_equal.
    clear -Hp ProstLaws0. induction Hp as [|p ps Hp Hps IH]; [done|]. destruct (payload_decoded p Hp) as (b & Hb & Hd).
    cbn [fmap list_fmap omap list_omap]. rewrite Hb. cbn. rewrite Hd. cbn. by rewrite IH. }
  rewrite heard_asked, <- Hall, Ht, omap_app. by apply prefix_app_r.
Qed.
End gateway.

(** ** The whole path *)

Lemma Forall_part {T} (Q : T → Prop) l l' : l `prefix_of` l' → Forall Q l' → Forall Q l.
Proof. intros [m ->]. by intros [? _]%Forall_app. Qed.

(** Once the input is over, more frames do not change it. *)
Lemma stdin_ended sid q sent :
  q `prefix_of` sent → CClose true ∈ q → stdin_of (client_frame sid <$> q) = stdin_of (client_frame sid <$> sent).
Proof.
  intros [l ->] Hq. rewrite fmap_app, stdin_of_app.
  assert (existsb ends_stdin (client_frame sid <$> q) = true) as ->; [|by rewrite app_nil_r].
  apply existsb_exists. exists (client_frame sid (CClose true)). split; [|done].
  apply list_elem_of_In, list_elem_of_fmap. by eexists.
Qed.

(** What arrives of what was sent, with the close the proxy adds when the gateway is gone. *)
Lemma arrived_part sid fs ps sent close :
  fs `prefix_of` (client_frame sid <$> ps) ++ close → ps `prefix_of` sent →
  close = [] ∨ close = [client_frame sid (CClose false)] → Forall (λ p, from_user p = true) sent →
  ∃ q, q `prefix_of` sent ∧ stdin_of fs = stdin_of (client_frame sid <$> q) ∧
    signals_of fs = signals_of (client_frame sid <$> q) ∧
    (client_frame sid <$> sent `prefix_of` fs → q = sent) ∧
    (∀ f, f ∈ fs → icf_payload f = Some (CClose true) → CClose true ∈ q).
Proof.
  intros Hfs Hps Hc Hu. exists (take (length fs) ps).
  assert (fs = (client_frame sid <$> take (length fs) ps) ++ take (length fs - length ps) close) as E.
  { destruct Hfs as [l Hl]. rewrite <- (take_app_length fs l) at 1. rewrite <- Hl, take_app, fmap_take. by rewrite length_fmap. }
  set (q := take (length fs) ps) in *. set (close' := take (length fs - length ps) close) in *.
  assert (q `prefix_of` sent) as Hq by (etrans; [apply prefix_take|done]).
  assert (stdin_of close' = [] ∧ signals_of close' = [] ∧
    ∀ f, f ∈ close' → icf_payload f = Some (CClose true) → False) as (Hs & Hg & Hn).
  { unfold close'. destruct Hc as [-> | ->]; destruct (length fs - length ps)%nat; cbn; split_and!; try done; try (by inversion 1).
    all: try (by rewrite take_nil). intros f. rewrite take_nil. intros [-> |Hin]%elem_of_cons; [done|by inversion Hin]. }
  split; [done|]. rewrite E, stdin_of_app, signals_of_app, Hs, Hg.
  split; [by destruct (existsb _ _); rewrite app_nil_r|]. split; [by destruct (existsb _ _); rewrite app_nil_r|].
  split.
  - intros Hall. apply (prefix_length_eq _ _ Hq). destruct (decide (length q < length sent)%nat) as [Hlt|]; [|lia].
    exfalso. destruct (lookup_lt_is_Some_2 sent (length q) Hlt) as [p Hp].
    assert ((client_frame sid <$> sent) !! length q = Some (client_frame sid p)) as Hl by by rewrite list_lookup_fmap, Hp.
    apply (prefix_lookup_Some _ _ _ _ Hl) in Hall.
    rewrite lookup_app_r, length_fmap, Nat.sub_diag in Hall by (by rewrite length_fmap).
    assert (client_frame sid p = client_frame sid (CClose false)) as [= ->].
    { unfold close' in Hall. apply lookup_take_Some in Hall as [Hall _]. destruct Hc as [-> | ->]; [done|]. cbn in Hall. congruence. }
    by apply (Forall_lookup_1 _ _ _ _ Hu) in Hp.
  - intros f [Hf|Hf]%elem_of_app Hp; [|by destruct (Hn f Hf Hp)].
    apply list_elem_of_fmap in Hf as (p & -> & Hin). cbn in Hp. by injection Hp as ->.
Qed.

Section path.
Context `{U : UuidLib, !UuidLaws U, Extractors} {P : Prost} {W : Type} `{!ControllerStore W}.
Context `{L : WsLib} `{!WsLaws L _} (utf8 : string → Prop) `{!ProstLaws P utf8}.
Context (api_key : string) (admin_token : option string) (expected_token : string).
Context (rpc : Rpc) (internal_token : option string) (metadata_value : string → result string string).
Context (b64url : string → string) (b64decode : string → result bytes string).
Context (header_value_ok : string → bool) (cors : option CorsLayer) (fresh : SandboxId).
Context (refused_text : GatewayResponse → string).
Context {R : Type} `{!RoutingStore R} {A : Type} `{!ContainerRuntime A} {F : Type} `{!ContainerFiles F}.

#[local] Instance gateway_server : WsNet (Net (W := W)) :=
  the_gateway api_key admin_token expected_token rpc internal_token metadata_value b64url b64decode
    header_value_ok cors fresh refused_text.

(** The start frame of a command. *)
Definition exec_start (sb : SandboxId) (params : WsClient.ExecParams) : IoStart :=
  {| is_sandbox_id := hyphenated sb; is_params := Some (PExec {| ex_command := xp_command params;
       ex_cwd := default "" (xp_cwd params); ex_env := xp_env params |}) |}.

(** What the proxy queues for the agent, for a user that sent [sent]. *)
Lemma relayed_typed (px : Proxy R) tx pu tn backlog sb params sent now gevs :
  TunnelPool.tunnels (px_pool px) !! pu_agent_id pu = Some tn →
  px_tunnels px !! TunnelPool.request_tx tn = Some (backlog, true) → saw_explicit_close pu = false →
  start_ok utf8 (exec_start sb params) → Forall (λ p, from_user p = true) sent →
  heard gevs `prefix_of` start_message (hyphenated sb) params :: (payload_message <$> sent) →
  let frames := through_proxy px tx pu (TunnelPool.request_tx tn) (ws_upstream (pump_ws_session now gevs)) in
  let sid := pu_stream_id pu in
  frames = [] ∨ ∃ ps close, frames = client_frame sid (CStart (exec_start sb params)) :: (client_frame sid <$> ps) ++ close ∧
    ps `prefix_of` sent ∧ (close = [] ∨ close = [client_frame sid (CClose false)]).
Proof.
  intros Hpool Hopen Hsaw Hst Hu Hh frames sid.
  destruct (run_upstream P gevs (ws_begin now)) as (ps & Hup & Hpre & _). cbn [ws_upstream ws_begin app] in Hup.
  assert (ps `prefix_of` CStart (exec_start sb params) :: sent) as Hps.
  { etrans; [exact Hpre|]. by apply (asked_typed P utf8). }
  unfold frames, pump_ws_session. rewrite Hup. destruct ps as [|p ps].
  { left. cbn. unfold through_proxy. cbn. by rewrite drop_all. }
  right. apply prefix_cons_inv_1 in Hps as Hp. apply prefix_cons_inv_2 in Hps. subst p.
  exists ps, (if existsb (λ p, is_full_close (Some p)) ps then [] else [client_frame sid (CClose false)]).
  split; [|split; [done|destruct (existsb _ _); auto]].
  rewrite fmap_cons. by rewrite (relay_frames px tx pu tn backlog).
Qed.

(** What the driver takes, for a start and the frames after it. *)
Lemma agent_takes sid (ag : Agent A) before f evs fs start ps sent close :
  let t := session_run before (connected ag) in
  icf_stream_id f = sid → refuse_start sid start t = None →
  ps `prefix_of` sent → Forall (λ p, from_user p = true) sent →
  close = [] ∨ close = [client_frame sid (CClose false)] →
  delivered sid (EvFrame f :: evs) `prefix_of`
    client_frame sid (CStart start) :: (client_frame sid <$> ps) ++ close →
  taken_by sid evs (session_step t (EvFrame f)) = f :: fs →
  f = client_frame sid (CStart start) ∧ fs `prefix_of` (client_frame sid <$> ps) ++ close.
Proof.
  intros t Hid Hrefuse Hps Hu Hclose Hdel Htaken. cbn in Hdel. rewrite decide_True in Hdel by done.
  apply prefix_cons_inv_1 in Hdel as Hf. apply prefix_cons_inv_2 in Hdel. subst f. split; [done|].
  assert (Forall (λ f, is_start f = false) (delivered sid evs)) as Hns.
  { eapply Forall_part; [exact Hdel|]. apply Forall_app_2; [|destruct Hclose as [-> | ->]; by repeat constructor].
    apply Forall_fmap, (Forall_part _ _ _ Hps). eapply Forall_impl; [exact Hu|]. intros [] Hp; done. }
  pose proof (session_input sid ag before _ start evs Hid eq_refl Hrefuse Hns) as Hin.
  fold t in Hin. rewrite Htaken in Hin. apply prefix_cons_inv_2 in Hin. by etrans.
Qed.

(** C5: A command gets what its user types. A client connects with the gateway's key and its
    loop, of either command line or of the ssh pipe, sends what it takes; the gateway, the
    proxy and the agent's tunnel, which other sessions share, pass on any part of it in order.
    Then the session the agent drives is an exec of exactly the requested command; at every
    moment, in every schedule of the session's tasks, the process has been given an unbroken
    initial part of the bytes the user typed and of the interrupts the user sent, followed by
    at most the SIGTERM and SIGKILL of the close hook; it sees the end of its input only after
    all of it; and once every frame has arrived, while the session goes on and the process
    reads, as many rounds of the session as frames wait deliver everything. *)
Theorem exec_input_end_to_end base server sb params c conns sess net pipe forward kevs s exit
    c' conns' session msgs (px : Proxy R) tx (pu : @Pump U) tn backlog now gevs
    (ag : Agent A) before f evs fs cid (sess0 : Sess F) exec_id pid listening reg ts n :
  let sid := pu_stream_id pu in
  ws_server base = Some server → string_forallb visible_char api_key = true →
  start_ok utf8 (exec_start sb params) →
  ExecSession_connect base (hyphenated sb) api_key params (c, conns) = (Ok sess, net) →
  stream_events pipe kevs (streaming_start forward) = (s, exit) → all_sent kevs = true →
  send_payloads sess (st_sent s) net = (Ok (), (c', conns')) → conns' !! (xs_ws sess : nat) = Some (session, msgs) →
  heard gevs `prefix_of` msgs →
  TunnelPool.tunnels (px_pool px) !! pu_agent_id pu = Some tn →
  px_tunnels px !! TunnelPool.request_tx tn = Some (backlog, true) → saw_explicit_close pu = false →
  icf_stream_id f = sid →
  delivered sid (EvFrame f :: evs) `prefix_of`
    through_proxy px tx pu (TunnelPool.request_tx tn) (ws_upstream (pump_ws_session now gevs)) →
  let t := session_run before (connected ag) in
  refuse_start sid (exec_start sb params) t = None →
  taken_by sid evs (session_step t (EvFrame f)) = f :: fs →
  let input := if forward then read_in kevs else [] in
  let signals := if pipe then [] else interrupts kevs in
  let '(rest, x) := input_run sid ts (fs, drive_exec sid (Ok (exec_id, pid)) sb cid listening reg) in
  drive_io_session sid cid (Ok <$> f :: fs) sess0 =
    AgentIo.ExecSession {| ex_command := xp_command params; ex_cwd := default "" (xp_cwd params);
                           ex_env := xp_env params |} sess0 ∧
  x_stdin x `prefix_of` input ∧
  (∃ g k, x_signals x = g ++ k ∧ g `prefix_of` signals ∧ by_hook (x_control x) k) ∧
  (x_demux x ≠ TEnded → x_stdin_open x = false → x_stdin x = input) ∧
  (exit = None → client_frame sid <$> st_sent s `prefix_of` fs →
   x_control x = Looping → x_stdin_read x = true → (length rest + SIGNAL_QUEUE ≤ n)%nat →
   let x' := (input_run sid (rounds n) (rest, x)).2 in
   x_stdin x' = input ∧ x_signals x' = signals).
Proof.
  intros sid Hbase Hkey Hst Hcon Hloop Hall Hsend Hconn Hheard Hpool Hopen Hsaw Hid Hdel t Hrefuse Htaken input signals.
  destruct (loop_sends _ _ _ _ _ Hloop Hall) as (k & Hsent & Hexit). cbn [st_sent st_stdin_done streaming_start app] in Hsent.
  pose proof (typed_from_user pipe (negb forward) (take k kevs)) as Hu. rewrite <- Hsent in Hu.
  unfold gateway_server, the_gateway in Hcon. rewrite (exec_connects _ _ _ _ _ _ _ _ _ _ _ _ _ server) in Hcon by done.
  rewrite decide_True in Hcon by done.
  assert ((xs_ws sess : nat) = length conns) as Hws by (by injection Hcon as <- _). injection Hcon as _ <-.
  pose proof (eq_trans (eq_sym (sends_recorded api_key admin_token expected_token rpc internal_token metadata_value b64url
    b64decode header_value_ok cors fresh refused_text sess _ c conns (GatewayRouter.ExecSession sb)
    [start_message (hyphenated sb) params] Hws Hu)) Hsend) as [= <- <-].
  rewrite Hws, lookup_app_r, Nat.sub_diag in Hconn by done. injection Hconn as <- <-.
  destruct (relayed_typed px tx pu tn backlog sb params (st_sent s) now gevs) as [Hf|(ps & close & Hf & Hps & Hclose)]; try done.
  { rewrite Hf in Hdel. cbn in Hdel. rewrite decide_True in Hdel by done. by apply prefix_nil_inv in Hdel. }
  rewrite Hf in Hdel. destruct (agent_takes sid ag before f evs fs (exec_start sb params) ps (st_sent s) close) as [-> Hin]; try done.
  destruct (arrived_part sid fs ps (st_sent s) close) as (q & Hq & Hqs & Hqg & Hqall & Hqeof); [done..|].
  pose proof (input_contract sid sb cid exec_id pid listening reg fs ts) as Hc.
  pose proof (input_delivered sid sb cid exec_id pid listening reg fs ts n) as Hd. cbv zeta in Hc, Hd.
  destruct (input_run sid ts _) as [rest x]. destruct Hc as (Hstdin & (g & k' & Hg & Hgp & Hk) & _ & Heof).
  assert (stdin_of (client_frame sid <$> st_sent s) = if forward then read_in (take k kevs) else []) as Hall_in.
  { rewrite Hsent, typed_stdin. by destruct forward. }
  assert (signals_of (client_frame sid <$> st_sent s) = if pipe then [] else interrupts (take k kevs)) as Hall_sig.
  { by rewrite Hsent, typed_signals. }
  assert (client_frame sid <$> q `prefix_of` client_frame sid <$> st_sent s) as Hqp
    by (destruct Hq as [l ->]; rewrite fmap_app; by apply prefix_app_r).
  split; [done|]. split; [|split; [|split]].
  - etrans; [exact Hstdin|]. rewrite Hqs. etrans; [by apply stdin_of_prefix|]. rewrite Hall_in. unfold input.
    destruct forward; [apply read_in_take|done].
  - exists g, k'. split; [done|]. split; [|done]. etrans; [exact Hgp|]. rewrite Hqg.
    etrans; [by apply signals_of_prefix|]. rewrite Hall_sig. unfold signals. destruct pipe; [done|apply interrupts_take].
  - intros Hdem Hcl. destruct (Heof Hdem Hcl) as (-> & f & Hf' & Hp). specialize (Hqeof f Hf' Hp).
    rewrite Hqs, (stdin_ended sid q (st_sent s)), Hall_in by done. unfold input. destruct forward; [|done].
    apply (read_in_ended pipe). cbn [negb] in Hsent. rewrite <- Hsent. destruct Hq as [l ->]. set_solver.
  - intros Hx Hpre Hl Hr Hn. destruct (Hd Hl Hr Hn) as (_ & Hs & Hsg). cbv zeta. rewrite Hs, Hsg, Hqs, Hqg, (Hqall Hpre), Hall_in, Hall_sig.
    unfold input, signals. by rewrite take_ge by (by apply Hexit).
Qed.
End path.

Module InputPathExamples.
Import ProxyExamples IoStreamExamples GatewayExamples AgentTunnelExamples WsClientExamples.
#[local] Existing Instance ApiExamples.bits_prost.
#[local] Existing Instance ApiExamples.bits_laws.
#[local] Existing Instance AgentIoExamples.SmallFiles.
#[local] Existing Instance AgentExamples.SmallRuntime.

(** A shell: a line is typed, Ctrl-C is pressed, the input ends. *)
Definition keys : list ClientEvent :=
  [KInput (Ok (Some "ls")) true; KSigint true; KFrame (Ok (Some (Stdout "x"))) true; KInput (Ok None) true].
Definition sent_keys : list IoClientPayload := [CStdin "ls"; CSignal 2; CClose true].
Definition shell : WsClient.ExecParams := ExecParams_cwd "/work" (ExecParams_new ["sh"]).
Definition said : list Message := start_message (hyphenated AgentExamples.box) shell :: (payload_message <$> sent_keys).
Definition socket : list WsEvent := (λ m, EvSocket true 0 (Some (Ok m))) <$> said.
Definition opening : IoClientFrame := client_frame "io-1" (CStart (exec_start AgentExamples.box shell)).
(** Between its frames come those of another session. *)
Definition traffic : list SessionEvent :=
  [EvTake "io-1"; EvFrame (client_frame "io-9" (CStdin "other")); EvFrame (client_frame "io-1" (CStdin "ls"));
   EvTake "io-1"; EvFrame (client_frame "io-1" (CSignal 2)); EvFrame (client_frame "io-1" (CClose true));
   EvTake "io-1"; EvTake "io-1"].
Definition turns : list Turn := [Take; Other (EvProduce KStdout "x"); Other (EvPump KStdout)].

#[local] Abbreviation net := (gateway_net (W := @MemStore RefUuid) "key" (Some "t") "t" (λ _ _, Ok []) None Ok (λ s, s) Err
  (λ _, true) None (uid 99) (λ _, "HTTP error: 401 Unauthorized")).

(** What is left and the session, after those turns. *)
Definition midway : list IoClientFrame * Exec :=
  Eval vm_compute in input_run "io-1" turns (client_frame "io-1" <$> sent_keys,
    drive_exec "io-1" (Ok ("e1", 42%Z)) AgentExamples.box "c1" true ∅).

Lemma exec_input_end_to_end_witness :
  let x := (input_run "io-1" (rounds 8) midway).2 in x_stdin x = ["ls"] ∧ x_signals x = [2%Z].
Proof.
  pose proof (exec_input_end_to_end (P := ApiExamples.bits_prost) (L := demo_ws) (W := @MemStore RefUuid)
    (A := gmap string ContainerState) (F := gmap string bytes) (λ _, True)
    "key" (Some "t") "t" (λ _ _, Ok []) None Ok (λ s, s) Err (λ _, true) None (uid 99)
    (λ _, "HTTP error: 401 Unauthorized") "ws://api:8081" "api:8081" AgentExamples.box shell fleet_ctl []
    (@Build_ExecSession _ net 0%nat None) (fleet_ctl, [(GatewayRouter.ExecSession AgentExamples.box, [start_message (hyphenated AgentExamples.box) shell])])
    false true keys {| st_stdin_done := true; st_sent := sent_keys; st_out := ["x"]; st_err := [] |} None
    fleet_ctl [(GatewayRouter.ExecSession AgentExamples.box, said)] (GatewayRouter.ExecSession AgentExamples.box) said
    reconnected 8 pump1 {| TunnelPool.request_tx := 2; TunnelPool.generation := 2 |} [] 0 socket
    busy [] opening traffic (client_frame "io-1" <$> sent_keys) "c1"
    {| ss_runtime := ∅; ss_sent := []; ss_room := None; ss_draining := false |} "e1" 42 true ∅ turns 8) as Hx.
  change (pu_stream_id pump1) with "io-1" in Hx. cbv zeta in Hx.
  assert (input_run "io-1" turns (client_frame "io-1" <$> sent_keys,
    drive_exec "io-1" (Ok ("e1", 42%Z)) AgentExamples.box "c1" true ∅) = midway) as E by evaluate.
  rewrite E in Hx. clear E. unfold midway in Hx at 1.
  destruct Hx as (_ & _ & _ & _ & Hx);
    [evaluate|evaluate|by repeat constructor| |evaluate|evaluate|evaluate|done|exists []; evaluate|evaluate..| |evaluate|evaluate|].
  - refine (eq_trans (exec_connects _ _ _ _ _ _ _ _ _ _ _ _ _ "api:8081" _ _ _ _ _ _ _) _); [evaluate|evaluate|].
    by rewrite decide_True.
  - exists [client_frame "io-1" (CClose false)]. evaluate.
  - apply Hx; try evaluate; [exists []; evaluate|]. unfold SIGNAL_QUEUE. cbn. lia.
Defined.
End InputPathExamples.
